(* ===== verification/_CoqProject ===== *)
-Q . S2P
Prelude.v
Std.v
Net.v
Text.v
Consts.v
Protocol.v
Crypto.v
Config.v
Link.v
Inflight.v
UdpPool.v
Demux.v
TcpRelay.v
Dns.v
Underlay.v
Conn.v
UdpRelay.v
Certs.v
Server.v
Reconnect.v
Client.v
Socks.v
Http.v
Sessions.v
Forward.v
Export.v
Profile.v
ShareLink.v
Traffic.v
Pac.v
Storage.v
Persist.v
Nodes.v
Core.v
Logs.v
SystemProxy.v
Qr.v
Tray.v
Desktop.v
Controller.v
Editor.v
Save.v
Settings.v
App.v
AppInv.v
Commit.v
Saving.v
Keeps.v
Runs.v
Native.v
I18n.v
Store.v
Window.v
WindowInv.v
WindowRuns.v
Fmt.v
Menus.v
Main.v
Instance.v
