(* ===== verification/Prelude.v ===== *)
(** * Juicity-RS: a verification library

    Juicity is a proxy over QUIC.  A client authenticates on a unidirectional
    stream of its connection, opens one bidirectional stream per relayed TCP
    connection or UDP association, and may send UDP datagrams outside QUIC, on
    the same server port, under keys announced on the authenticated stream (the
    "underlay").  This library models the crates [juicity-common],
    [juicity-server] and [juicity-client], and all of [juicity-gui] that does not
    draw: profiles, share links, settings files, logs, the traffic monitor, proxy
    auto-configuration, the core manager, the desktop's files and proxy, the
    controller, and the window with what it shows, its callbacks and its timers.  Every definition follows the function of the
    source that it is named after, and the theorems are about those definitions.

    ** Files

    - [Prelude]: byte strings, errors and results, incremental readers, the effect
      monad of code that calls the operating system, counting and invariant lemmas,
      the shared tactics.
    - [Std], [Net]: what the crates use of the Rust standard library: integers,
      text, UTF-8, IP and socket addresses with their parsers and printers, and
      the proofs that parsing inverts printing.  [Text]: trimming, words and
      suffixes of text, for the client and the interface.
    - [Consts]: common/src/consts.rs.
    - [Protocol]: common/src/protocol.rs.  Headers, authentication and underlay
      authentication messages as writers to bytes and readers from bytes.
    - [Crypto]: common/src/crypto.rs.  SHA-256, HKDF, AES-GCM and ChaCha20 are
      type classes; the laws the code relies on are the classes [HkdfSha1Laws]
      and [ChaChaLaws], and [Crypto.Toy] is an instance of both.
    - [Config]: common/src/config.rs and cert.rs.  The JSON text, the UUID parser
      and the iteration order of hash maps are classes.
    - [Link]: common/src/link.rs.
    - [Inflight]: server/src/inflight.rs.  The table that pairs announced keys
      with packets; [evict] is a state machine and every interleaving of stores,
      cleanups, clock ticks and tasks is a list of labels.
    - [UdpPool]: server/src/udp.rs.  Endpoints, the pool with all interleavings
      and cancellations of [get_or_create], and response framing.
    - [Demux]: server/src/underlay_socket.rs.  The split of a port's datagrams
      into QUIC and underlay.
    - [TcpRelay]: server/src/tcp.rs and dialer.rs.  Two copying directions with a
      shared idle watchdog, driven by I/O events and time.
    - [Dns], [Underlay], [Conn], [UdpRelay], [Certs], [Server]:
      server/src/server.rs.  [Dns] is [resolve_udp_target]; [Underlay] the packet
      loop, the handler of first packets, its session cache and relay task;
      [Conn] the connection with [handle_auth], [handle_connection],
      [handle_stream] and [handle_tcp_relay]; [UdpRelay] is [handle_udp_relay];
      [Certs] the reloading certificate resolver and the private key; [Server] is
      [JuicityServer::new], the listening sockets and the accept workers with
      their shutdown.
    - [Reconnect], [Client]: client/src/client.rs.  [Reconnect] is the shared
      connection with its callers, the attempt one of them leads, backoff and
      cancellation; [Client] is the server address, the certificate pin,
      [JuicityClient::new], dialling, and the streams and messages of a client.
    - [Socks], [Http]: client/src/local.rs, the SOCKS5 and HTTP front ends with
      their requests, answers and the targets they open.
    - [Sessions]: the UDP sessions of local.rs and forwarder.rs as one machine:
      the map, the channels, the supervised relay tasks and their ends.
    - [Forward]: client/src/forwarder.rs and the accept loops and relays of both
      files.
    - [Export]: the export command of server/src/main.rs.  [Main]: client/src/main.rs,
      the other commands of server/src/main.rs with the signals that end a server,
      and the version that both print.
    - [Profile], [ShareLink]: gui/src/link.rs, util.rs, validate.rs, the profiles
      of config.rs and [build_juicity_config] of core.rs.
    - [Traffic]: gui/src/traffic.rs, with [f64] as [spec_float].
    - [Pac]: gui/src/pac.rs.  The rule lists, the generated file, what a browser reads in
      it ([Pac.read_pac], [Pac.FindProxyForURL]), and the server.
    - [Storage], [Persist]: the files of gui/src/config.rs, gui/src/state.rs and
      gui/src/ui/controller/persist.rs, on a disk that is a map and with calls that
      may fail.
    - [Nodes]: gui/src/ui/controller/nodes.rs, the drafts of the editor and the
      commands on the node list.
    - [Core]: gui/src/core.rs.  The manager with the tasks, the counters and the
      reader threads it starts; a run is a list of labels for its calls and for
      what tasks and threads do.
    - [Logs]: gui/src/logging.rs and gui/src/ui/controller/logs.rs.
    - [SystemProxy]: gui/src/system_proxy.rs, over the commands and the registry.
      [Qr]: gui/src/qr.rs.  [Tray]: gui/src/desktop/tray/mod.rs, and [Menus]: the two
      menu builders linux.rs and native.rs beside it.  [Desktop]:
      autostart.rs, integration.rs, session_bus.rs and single_instance.rs of
      gui/src/desktop, over a file system whose calls may fail.  [Instance]: the mutex
      and the pipe of single_instance.rs on Windows, with the time its calls take.
    - [Controller], [Editor], [Save], [Settings], [App]: gui/src/ui/controller.
      [Controller] has the state, the class [Effects] of what is outside, with
      its laws, and the connection (mod.rs, overview.rs, tray.rs); [Editor] is
      the node editor (nodes.rs), [Save] the explicit Save and reloads (save.rs),
      [Settings] the settings page (settings.rs); [App] puts every call into one
      machine, [App.perform].
    - [AppInv], [Commit], [Saving], [Runs]: proofs about that machine: the relation
      [AppInv.steady] of calls that leave the list alone, the settings sheets,
      saving and reloading, and whole runs with other programs in between.
    - [Native]: [NativeEffects] of mod.rs, the instance of [Effects] over [Core],
      [SystemProxy] and [Desktop], with the proofs of its laws.
    - [I18n]: gui/src/i18n.rs, and [Fmt]: gui/src/ui/fmt.rs and version.rs.
    - [Store]: the globals of gui/ui/state.slint and the functions of
      gui/src/ui/bind that push a snapshot into them.  The class [Store.Texts] is the
      catalog of translations.
    - [Window]: gui/src/ui/bind/mod.rs, desktop.rs, logs.rs and the callbacks of the
      pages, and [run] of gui/src/ui/mod.rs.  [Window.Ui] is the controller with the
      globals, the timers, the tray and the refreshed page; [Window.on_event] is one
      callback, tray click, timer or posted call; [Window.end_loop] is the end of the event
      loop, also the one of macOS that asks nobody; what the toolkit answers is the class
      [Window.Toolkit].
    - [Keeps], [WindowInv], [WindowRuns]: proofs about the window: what calls keep
      between them, what a push does, and whole runs ([WindowRuns.running]).

    ** How the parts meet

    A stream's bytes are read by the readers of [Protocol] inside [Conn] and
    [UdpRelay].  The reader task of [Conn] stores what it reads in the table of
    [Inflight]; a packet that [Demux] takes out of the port goes through
    [Underlay.packet_loop_step] and, for a new session, claims its entry there,
    checks it with [Crypto] and gets an endpoint from [UdpPool].  [Underlay] runs
    the machines of [Inflight] and [UdpPool] without interference and
    [Underlay.evict_now_steps] and [Underlay.get_or_create_now_steps] relate the
    two views.  [Server] starts the workers that run [Conn].  The step of
    [Reconnect] in which a leader dials has the outcome of [Client.dial]; what
    [Client] writes is read by [Conn] and [UdpRelay], and the theorems of [Client]
    join the two ends.  [Socks], [Http] and [Forward] open the streams of [Client]
    for the targets they read; [Sessions] sends its datagrams on such a stream, and
    [Sessions.association_delivered] and [Forward.forwarded_datagrams_delivered]
    follow them through the server's [UdpRelay].  The pins that [Export] writes are
    checked by [Client]; the configuration that [Profile] builds is read by
    [Client.parse_server], and [ShareLink] turns profiles into links and back.
    [Persist] writes what [Storage] loads, and [Storage.restart_pac_server] starts
    the server of [Pac].  A [World] of [Controller] is the controller, the disk and
    what is outside; the theorems of [App] and [Runs] hold for every instance of
    [Effects] with the class [EffectsLaws], and [Native.client_and_core_agree]
    instantiates them with the manager of [Core].  [Window.update_with] calls the
    controller and [Window.apply] pushes what the call reports as changed;
    [App.perform_covered], that the reports are complete, is what the proofs of
    [WindowInv] rest on.

    ** Conventions

    Strings and buffers are lists of bytes.  An integer is a [Z] with its width
    written where it wraps or saturates.  Fallible code returns [result]; a
    reader is a function from the unread bytes.  Concurrent code is a total step
    function on a state, folded over a list of labels, so a statement for all
    label lists is one for all interleavings, and a schedule can be evaluated.
    What the operating system or a library decides (a send, a receive, a name
    resolution, the handshake) is an argument or part of a label.  Durations are
    milliseconds, in [TcpRelay] microseconds.

    ** What the theorems show

    - Wire format: writers and readers invert each other on all inputs the
      writer accepts, the cached writer implements the three-way address
      encoding, the underlay stream is self-delimiting ([Protocol]); an encrypted
      packet is decrypted by both decryptions ([Crypto]).
    - Safety under concurrency: no waiting packet is left behind, no
      authentication is used twice, and a packet gets what was stored ([Inflight]); one creation per address and one
      lookup per name at a time ([UdpPool], [Dns]); one dialling client
      ([Reconnect]); a broken underlay message never desynchronises its stream
      ([Client]); copied bytes are never lost
      or invented ([TcpRelay]); nothing is served before authentication and,
      however the bytes arrive, exactly what was sent is stored ([Conn]).
    - Function: the first packet of a session opens it and later ones take the
      fast path, responses are readable by the peer ([Underlay]); datagrams of a
      stream are forwarded in order ([UdpRelay]); the demultiplexer partitions a
      batch ([Demux]); a server is built from exactly the usable configurations
      ([Config], [Server]); links and endpoints are parsed back ([Link]); a
      client verifies its pin, authenticates, and has its streams served
      ([Client]); a SOCKS5 or HTTP request is answered by opening the target it
      names ([Socks], [Http]); the export prints links a client can use, with pins
      that accept the server ([Export]); a profile gives a configuration that
      reaches its server ([Profile]) and a link that is imported as that profile
      unless its server is an IPv6 address ([ShareLink]); the proxy file, read as a browser does,
      decides by listed domains ([Pac]); traffic is
      counted as the counters grow ([Traffic]).
    - Datagram sessions: datagrams keep their order and are neither lost nor
      invented inside a session, sessions and map agree, a stopped session is
      removed, and what is sent reaches its target ([Sessions], [Forward]).
    - Settings: a file is always the old or the new one, unwritten changes have a
      write scheduled, a flush writes what is in memory, own writes are not
      reloaded and edits by other programs never replace unwritten changes
      ([Storage], [Persist]); text that is not valid never damages a profile, and
      the indices of the node list follow their nodes ([Nodes]).
    - The interface: from any files, whatever is called and whatever other programs do, the
      controller shows a connection exactly when a core runs, the editor's and the saved index stay
      in range, and only Save writes the node list; a Save that succeeds has written the list
      and the index wherever they changed, and a reload takes over what it can read
      ([Runs]); every call reports all pages it changed ([App]).  The start does not bring an index
      of runtime.json that is past the list into range; [Runs.stale_start] and
      [WindowRuns.stale_window] show what follows.  From files with the index in range
      ([WindowRuns.first_start], [AppInv.active_in_range]) the window and the tray always show the
      controller, in the chosen language, no timer is forgotten, one download runs at
      a time, and the window quits only without unsaved edits ([WindowRuns]).  The window is left only
      with the list and the text saved ([Runs.leaving_is_safe]); sheets accept exactly good values
      ([Settings], [Commit]); at most one core runs and each start is accounted for ([Core]);
      the log page shows the ring buffer ([Logs]); the proxy of the desktop is the
      one of the mode ([SystemProxy]); entries and menu ids are read back, and an
      installation is repeatable ([Desktop], [Tray]); the menus of all desktops show
      and send the same ([Menus]).
    - Instances: on Windows a second instance is heard when the pipe of the first is
      there within 1.9 seconds, and always ends ([Instance]).
    - Programs: a client starts what its configuration asks for and waits only with
      something to forward, and signals end a server with or without its drain,
      whatever is interleaved ([Main]).
    - Progress: stored keys reach their packet ([Inflight]), an idle relay ends
      ([TcpRelay]), a pending authentication is answered or timed out ([Conn]), a
      settled certificate is served ([Certs]), a shutdown completes whatever its handlers do, and
      leaves only handlers that were told to stop ([Server]).
    - Deviations, each with the schedule or input that shows it: a lost wakeup in
      the endpoint pool, a pending poll without a waker, the UDP/443 check of the
      first datagram only, outbound binding that rejects names, a drain period
      that never elapses, re-keys that are dropped while a session lives, an
      endpoint without a relay task, an eviction that is not of the oldest, a
      cancelled leader that blocks every later connection, a hexadecimal pin that
      never matches, a replaced session that is removed, IPv6 targets and links that
      cannot be used, spaces that links change, a link whose import panics, a rule
      that escapes the table of the proxy file, an index on disk past the saved
      list and a start that keeps it, a reader thread that outlives its core, a proxy server that stays,
      a window that could not be hidden and is not refreshed.

    ** Fuel and bounds

    [Std.digits] has fuel 64, enough for every number below [radix ^ 64];
    [Demux.cut_packets] the length of the datagram, [Conn.drain] the length of
    the buffer and [UdpRelay.quic_to_remote] any number of rounds, of which the
    length of the input is enough, as each round consumes a byte; the theorems
    about them say so.  [Text] strips and splits with the length of the text,
    of which each round removes a character.  All other recursion is structural.

    ** Not modelled

    Logging, the bodies of the third-party libraries (QUIC, TLS, X.509, JSON, QR
    codes, the moka cache beyond being a map whose entries may disappear and
    whose listener runs on removal), the memory allocator and buffer reuse that
    is invisible in the bytes.  Aborting a task of [Sessions] takes effect at once; in [Server] an aborted
    worker and its handlers go on until the runtime drops them, and the tasks that a handler spawned on
    its own, which are nobody's to stop, are not followed.  A crash in [Storage] is one of the process: the file
    system keeps what was written, and the loss of power, against which [sync_all] is called, is not modelled.
    The parsers of the command lines are a library's.  Of the
    window, drawing, the widgets' own text, focus and the colour of the native title
    bar are the toolkit's; one event happens at one time, and timers that repeat may
    fire at any time.  The fonts and the texts of the translations
    are tables of libraries.  On Windows the shortcut is made by calls of the
    system's interface. *)
From stdpp Require Export base list option relations gmap strings.
From Stdlib Require Export Strings.Byte ZArith Lia.

(** ** Rust byte strings

    [String], [&str], [Vec<u8>] and [&[u8]] are all lists of bytes: a Rust
    string is its UTF-8 encoding. *)

Abbreviation str := (list byte).

(** A string literal of the source. *)
Definition B (s : string) : str := String.list_byte_of_string s.

(** The value of a byte, and the wrapping conversion [z as u8]. *)
Definition u8 (c : byte) : Z := Z.of_N (Byte.to_N c).
Definition byte_of (z : Z) : byte :=
  default x00 (Byte.of_N (Z.to_N (z mod 256))).

#[export] Instance byte_eq_dec : EqDecision byte := Byte.byte_eq_dec.
#[global] Arguments byte_eq_dec : simpl never.
#[global] Arguments u8 : simpl never.
#[global] Arguments byte_of : simpl never.
#[export] Program Instance byte_countable : Countable byte :=
  inj_countable Byte.to_N Byte.of_N _.
Next Obligation. intros c. apply Byte.of_to_N. Qed.

Lemma u8_range c : (0 <= u8 c < 256)%Z.
Proof. unfold u8. pose proof (Byte.to_N_bounded c). lia. Qed.

Lemma u8_inj c d : u8 c = u8 d → c = d.
Proof.
  unfold u8. intros H%N2Z.inj.
  pose proof (Byte.of_to_N c) as Hc. rewrite H, Byte.of_to_N in Hc. congruence.
Qed.

Lemma u8_byte_of z : u8 (byte_of z) = (z mod 256)%Z.
Proof.
  unfold byte_of, u8. pose proof (Z.mod_pos_bound z 256 ltac:(lia)).
  destruct (Byte.of_N (Z.to_N (z mod 256))) as [c|] eqn:E; simpl.
  - apply Byte.to_of_N in E. lia.
  - apply Byte.of_N_None_iff in E. lia.
Qed.

Lemma byte_of_u8 c : byte_of (u8 c) = c.
Proof.
  apply u8_inj. rewrite u8_byte_of. apply Z.mod_small, u8_range.
Qed.

Lemma byte_of_small z : (0 <= z < 256)%Z → u8 (byte_of z) = z.
Proof. intros. rewrite u8_byte_of. by apply Z.mod_small. Qed.

Create Rewrite HintDb words.
#[export] Hint Rewrite u8_byte_of byte_of_u8 : words.

(** A property of every byte, by computation over the 256 values. *)
Definition all_bytes : list byte := (byte_of ∘ Z.of_nat) <$> seq 0 256.

Lemma elem_of_all_bytes c : c ∈ all_bytes.
Proof.
  unfold all_bytes. apply list_elem_of_fmap. exists (Z.to_nat (u8 c)).
  pose proof (u8_range c). split.
  - simpl. rewrite Z2Nat.id by lia. by rewrite byte_of_u8.
  - apply elem_of_seq. lia.
Qed.

Lemma byte_forall (P : byte → bool) :
  forallb P all_bytes = true → ∀ c, P c = true.
Proof.
  intros H c. rewrite List.forallb_forall in H.
  apply H, list_elem_of_In, elem_of_all_bytes.
Qed.

(** ** Results

    [anyhow::Result]: an error is the failure of a standard-library call or a
    message built by [bail!], [ensure!], [anyhow!]. *)
Inductive error :=
  | EUnexpectedEof
  | EUtf8
  | EAddrParse
  | EIntParse
  | EUuidParse
  | EIo (code : Z)
  | EMsg (msg : str).

#[export] Instance error_eq_dec : EqDecision error.
Proof. solve_decision. Defined.

Inductive result (A : Type) :=
  | Ok (a : A)
  | Err (e : error).
Arguments Ok {A} a.
Arguments Err {A} e.

#[export] Instance result_ret : MRet result := λ A a, Ok a.
#[export] Instance result_bind : MBind result := λ A C f m,
  match m with Ok a => f a | Err e => Err e end.
#[export] Instance result_fmap : FMap result := λ A C f m,
  match m with Ok a => Ok (f a) | Err e => Err e end.

Definition is_ok {A} (r : result A) : bool :=
  match r with Ok _ => true | Err _ => false end.
Definition is_err {A} (r : result A) : bool := negb (is_ok r).

Lemma Ok_inj {A} (a b : A) : Ok a = Ok b → a = b.
Proof. congruence. Qed.

(** [Option::ok_or_else] and [Result::ok]. *)
Definition ok_or {A} (o : option A) (e : error) : result A :=
  match o with Some a => Ok a | None => Err e end.
Definition ok {A} (r : result A) : option A :=
  match r with Ok a => Some a | Err _ => None end.

(** [anyhow::ensure!(cond, e)]. *)
Definition ensure (cond : bool) (e : error) : result unit :=
  if cond then Ok tt else Err e.

(** ** Readers

    A byte stream is the list of bytes not yet read; [read_exact] of [n] bytes
    fails with [UnexpectedEof] when fewer are left.  The blocking and the
    asynchronous readers of the source perform the same reads. *)
Definition reader (A : Type) : Type := str → result (A * str).

#[export] Instance reader_ret : MRet reader := λ A a s, Ok (a, s).
#[export] Instance reader_bind : MBind reader := λ A C f m s,
  match m s with Ok (a, s') => f a s' | Err e => Err e end.

Definition fail {A} (e : error) : reader A := λ _, Err e.
Definition lift {A} (r : result A) : reader A := λ s,
  match r with Ok a => Ok (a, s) | Err e => Err e end.

Definition read_exact (n : nat) : reader str := λ s,
  if decide (n ≤ length s) then Ok (take n s, drop n s) else Err EUnexpectedEof.

(** A one-byte [read_exact]. *)
Definition read_byte : reader byte := λ s,
  match s with c :: s' => Ok (c, s') | [] => Err EUnexpectedEof end.

Lemma bind_ok {A C} (f : A → reader C) (m : reader A) s a s' :
  m s = Ok (a, s') → (m ≫= f) s = f a s'.
Proof. intros H. unfold mbind, reader_bind. by rewrite H. Qed.

Lemma bind_err {A C} (f : A → reader C) (m : reader A) s e :
  m s = Err e → (m ≫= f) s = Err e.
Proof. intros H. unfold mbind, reader_bind. by rewrite H. Qed.

Lemma read_exact_app n a s : length a = n → read_exact n (a ++ s) = Ok (a, s).
Proof.
  intros <-. unfold read_exact. rewrite decide_True by (rewrite length_app; lia).
  by rewrite take_app_length, drop_app_length.
Qed.

Lemma read_exact_ok n s a s' :
  read_exact n s = Ok (a, s') → s = a ++ s' ∧ length a = n.
Proof.
  unfold read_exact. case_decide; [|done]. intros [= <- <-].
  rewrite take_drop. split; [done|]. rewrite length_take. lia.
Qed.

Lemma read_byte_cons c s : read_byte (c :: s) = Ok (c, s).
Proof. done. Qed.

(** *** Incremental readers

    A reader that runs on the bytes received so far: what it leaves unread is
    their end, and more bytes do not change what it returned, nor an error other
    than the end of the input. *)
Definition incremental {A} (m : reader A) : Prop := ∀ s t,
  match m s with
  | Ok (a, r) => r `suffix_of` s ∧ m (s ++ t) = Ok (a, r ++ t)
  | Err e => e = EUnexpectedEof ∨ m (s ++ t) = Err e
  end.

Lemma incremental_ret {A} (a : A) : incremental (mret a).
Proof. by split. Qed.
Lemma incremental_fail {A} e : incremental (@fail A e).
Proof. intros s t. by right. Qed.
Lemma incremental_lift {A} (r : result A) : incremental (lift r).
Proof. intros s t. unfold lift. destruct r; [by split|by right]. Qed.
Lemma incremental_read_byte : incremental read_byte.
Proof. intros [|c s] t; [by left|]. split; [by apply suffix_cons_r|done]. Qed.
Lemma incremental_read_exact n : incremental (read_exact n).
Proof.
  intros s t. unfold read_exact. destruct (decide (n ≤ length s)); [|by left].
  rewrite decide_True by (rewrite length_app; lia). rewrite take_app_le, drop_app_le by lia.
  split; [apply suffix_drop|done].
Qed.
Lemma incremental_bind {A C} (f : A → reader C) (m : reader A) :
  incremental m → (∀ a, incremental (f a)) → incremental (m ≫= f).
Proof.
  intros Hm Hf s t. unfold mbind, reader_bind. specialize (Hm s t).
  destruct (m s) as [[a r]|e].
  - destruct Hm as [Hs ->]. specialize (Hf a r t). destruct (f a r) as [[c r']|e]; [|done].
    destruct Hf as [Hr ?]. split; [by etrans|done].
  - destruct Hm as [->|Hm]; [by left|]. right. by rewrite Hm.
Qed.

Create HintDb incremental.
#[export] Hint Resolve incremental_ret incremental_fail incremental_lift incremental_read_byte
  incremental_read_exact : incremental.
Ltac solve_incremental :=
  repeat first [ apply incremental_bind; [|intros] | case_decide | case_match | solve [eauto with incremental] ].

(** A strict prefix of a complete message is an unexpected end. *)
Lemma incremental_prefix {A} (m : reader A) p q a :
  incremental m → m (p ++ q) = Ok (a, []) → q ≠ [] → m p = Err EUnexpectedEof.
Proof.
  intros Hm E Hq. specialize (Hm p q). destruct (m p) as [[a' r]|e].
  - destruct Hm as [_ Hm]. rewrite Hm in E. injection E as _ E. by apply app_nil in E as [_ ->].
  - destruct Hm as [->|Hm]; [done|congruence].
Qed.

Create Rewrite HintDb readers.
#[export] Hint Rewrite @read_byte_cons : readers.

(** Step through a reader whose next bytes are known. *)
Ltac read_step :=
  first
    [ erewrite bind_ok by (first [ apply read_byte_cons
                                 | apply read_exact_app; simpl; reflexivity
                                 | apply read_exact_app; eassumption
                                 | reflexivity ])
    | progress simpl ].
Ltac read_steps := repeat read_step.

(** ** Effects

    A computation is what it does in order, and its result; [try_op] tells how
    each operation ends. *)
Definition effect (Op A : Type) : Type := (Op → result unit) → list Op * result A.
#[export] Instance effect_ret {Op} : MRet (effect Op) := λ A a _, ([], Ok a).
#[export] Instance effect_bind {Op} : MBind (effect Op) := λ A C f m try_op,
  let '(ops, r) := m try_op in
  match r with
  | Ok a => let '(ops', r') := f a try_op in (ops ++ ops', r')
  | Err e => (ops, Err e)
  end.

Definition pure {Op A} (r : result A) : effect Op A := λ _, ([], r).
Definition attempt {Op A} (m : effect Op A) : effect Op (result A) := λ try_op, let '(l, r) := m try_op in (l, Ok r).
Definition op {Op} (o : Op) : effect Op unit := λ try_op, ([o], try_op o).
Fixpoint ops {Op} (l : list Op) : effect Op unit :=
  match l with
  | [] => mret tt
  | o :: l => _ ← op o; ops l
  end.

Lemma effect_bind_ok {Op A C} (f : A → effect Op C) (m : effect Op A) try_op l a l' r :
  m try_op = (l, Ok a) → f a try_op = (l', r) → (m ≫= f) try_op = (l ++ l', r).
Proof. intros E1 E2. unfold mbind, effect_bind. by rewrite E1, E2. Qed.

Lemma pure_bind {Op A C} (f : A → effect Op C) (r : result A) try_op :
  (pure r ≫= f) try_op = match r with Ok a => f a try_op | Err e => ([], Err e) end.
Proof. unfold mbind, effect_bind, pure. destruct r; [by destruct (f a try_op)|done]. Qed.

Lemma op_bind {Op C} (f : unit → effect Op C) (o : Op) try_op :
  (op o ≫= f) try_op =
  match try_op o with Ok u => (o :: (f u try_op).1, (f u try_op).2) | Err e => ([o], Err e) end.
Proof. unfold mbind, effect_bind, op. destruct (try_op o) as [u|]; [by destruct (f u try_op)|done]. Qed.

Lemma attempt_bind {Op C} (f : result unit → effect Op C) (o : Op) try_op :
  (attempt (op o) ≫= f) try_op = (o :: (f (try_op o) try_op).1, (f (try_op o) try_op).2).
Proof. unfold mbind, effect_bind, attempt, op. by destruct (f (try_op o) try_op). Qed.

Lemma effect_bind_snd {Op A C} (f : A → effect Op C) (m : effect Op A) try_op c :
  ((m ≫= f) try_op).2 = Ok c → ∃ a, (m try_op).2 = Ok a ∧ (f a try_op).2 = Ok c.
Proof.
  unfold mbind, effect_bind. destruct (m try_op) as [l [a|e]]; [|done].
  destruct (f a try_op) as [l' r'] eqn:E. cbn. intros ->. exists a. by rewrite E.
Qed.

(** ** Step relations *)

(** Rule induction for reachability: an invariant of the steps holds in every
    reachable state. *)
Lemma rtc_invariant {S} (R : relation S) (I : S → Prop) :
  (∀ s s', I s → R s s' → I s') → ∀ s s', rtc R s s' → I s → I s'.
Proof. intros HI s s' H. induction H; eauto. Qed.

(** The same for a list of inputs handled by a total step function. *)
Lemma foldl_invariant {S L} (f : S → L → S) (I : S → Prop) :
  (∀ s l, I s → I (f s l)) → ∀ ls s, I s → I (foldl f s ls).
Proof. intros HI ls. induction ls as [|l ls IH]; simpl; eauto. Qed.

(** ** Counting *)
Definition count {A} (f : A → bool) (l : list A) : nat := length (filter (λ a, f a = true) l).

Lemma count_app {A} (f : A → bool) l1 l2 : count f (l1 ++ l2) = count f l1 + count f l2.
Proof. unfold count. by rewrite filter_app, length_app. Qed.

Lemma count_cons {A} (f : A → bool) a l : count f (a :: l) = (if f a then 1 else 0) + count f l.
Proof. unfold count. rewrite filter_cons. by destruct (f a). Qed.

Lemma count_insert {A} (f : A → bool) i a b l :
  l !! i = Some a →
  count f (<[i:=b]> l) + (if f a then 1 else 0) = count f l + (if f b then 1 else 0).
Proof.
  intros Hi. rewrite <-(take_drop_middle l i a Hi) at 2.
  rewrite insert_take_drop by by eapply lookup_lt_Some.
  rewrite !count_app, !count_cons. lia.
Qed.

(** ** Tactics *)

(** Case analysis on every [match] and [if] of the goal. *)
Ltac case_match_all := repeat (case_match || case_decide); simplify_eq/=.

(** Unfold the result monad. *)
Ltac unfold_result :=
  unfold mret, result_ret, mbind, result_bind, fmap, result_fmap,
    ensure, ok_or in *; simpl in *.

(** Compute with results, leaving everything else as it is. *)
Ltac result_cbn :=
  cbn [mret result_ret mbind result_bind fmap result_fmap ensure ok_or].

(** Linear arithmetic with the lengths of lists and the ranges of bytes. *)
Ltac list_lia :=
  repeat rewrite ?length_app, ?length_take, ?length_drop, ?length_fmap,
    ?length_replicate, ?length_insert in *; simpl in *; lia.

Create HintDb juicity.
#[export] Hint Resolve u8_range u8_inj : juicity.
