(* ===== verification/Std.v ===== *)
(** * The Rust standard library, as far as the crates use it

    Integers at their width, decimal and hexadecimal text, the [str] methods
    and UTF-8 decoding.  Nothing here is code of the repository. *)
From S2P Require Import Prelude.
#[local] Open Scope Z_scope.

(** ** Machine integers *)
Definition u16_max : Z := 65535.
Definition u32_max : Z := 4294967295.
Definition u64_max : Z := 18446744073709551615.

(** [u16::to_be_bytes] and [u16::from_be_bytes]. *)
Definition to_be16 (p : Z) : str := [byte_of (p / 256); byte_of p].
Definition from_be16 (hi lo : byte) : Z := u8 hi * 256 + u8 lo.

Lemma from_be16_range hi lo : 0 <= from_be16 hi lo <= u16_max.
Proof. unfold from_be16, u16_max. pose proof (u8_range hi). pose proof (u8_range lo). lia. Qed.

Lemma from_to_be16 p :
  0 <= p <= u16_max → from_be16 (byte_of (p / 256)) (byte_of p) = p.
Proof.
  unfold from_be16, u16_max. intros Hp. rewrite !u8_byte_of.
  rewrite (Z.mod_small (p / 256)) by (split; [apply Z.div_pos|apply Z.div_lt_upper_bound]; lia).
  pose proof (Z.div_mod p 256). lia.
Qed.

Lemma to_from_be16 hi lo : to_be16 (from_be16 hi lo) = [hi; lo].
Proof.
  unfold to_be16, from_be16. pose proof (u8_range hi). pose proof (u8_range lo).
  rewrite Z.div_add_l by lia. rewrite (Z.div_small (u8 lo)) by lia. rewrite Z.add_0_r.
  f_equal; [by rewrite byte_of_u8|]. f_equal. apply u8_inj.
  rewrite u8_byte_of, Z.add_comm, Z.mod_add, Z.mod_small; lia.
Qed.

Lemma length_to_be16 p : length (to_be16 p) = 2%nat.
Proof. done. Qed.

(** Saturating and wrapping arithmetic on [u64] and [u32]. *)
Definition saturating_sub (a b : Z) : Z := Z.max 0 (a - b).
Definition u64_saturating_add (a b : Z) : Z := Z.min u64_max (a + b).
Definition u32_saturating_add (a b : Z) : Z := Z.min u32_max (a + b).

(** ** Digits *)

(** [char::to_digit]; a byte of a multi-byte character is no digit. *)
Definition to_digit (radix : Z) (c : byte) : option Z :=
  let v := u8 c in
  let d := if (48 <=? v) && (v <=? 57) then v - 48
           else if (97 <=? v) && (v <=? 122) then v - 87
           else if (65 <=? v) && (v <=? 90) then v - 55
           else radix in
  if d <? radix then Some d else None.

Definition digit_char (d : Z) : byte :=
  if d <? 10 then byte_of (48 + d) else byte_of (87 + d).

(** Digits of [z], most significant first, in front of [acc]. *)
Fixpoint digits (fuel : nat) (radix z : Z) (acc : list Z) : list Z :=
  match fuel with
  | O => acc
  | S f => if z <? radix then z :: acc
           else digits f radix (z / radix) (z mod radix :: acc)
  end.

(** [format!("{}")] and [format!("{:x}")] of an unsigned integer. *)
Definition show_radix (radix z : Z) : str := digit_char <$> digits 64 radix z [].
Definition show_dec (z : Z) : str := show_radix 10 z.
Definition show_hex (z : Z) : str := show_radix 16 z.

Definition digits_value (radix : Z) (ds : list Z) : Z :=
  foldl (λ v d, v * radix + d) 0 ds.

(** The longest prefix of digits, and the rest. *)
Fixpoint span_digits (radix : Z) (s : str) : list Z * str :=
  match s with
  | [] => ([], [])
  | c :: s' =>
      match to_digit radix c with
      | Some d => let '(ds, r) := span_digits radix s' in (d :: ds, r)
      | None => ([], s)
      end
  end.

(** [<unsigned>::from_str]: an optional [+], then digits only; a value above
    the maximum of the type is an overflow error. *)
Definition parse_uint (max : Z) (s : str) : option Z :=
  let s := match s with c :: (_ :: _) as s' => if decide (c = x2b) then s' else s | _ => s end in
  match span_digits 10 s with
  | ([], _) => None
  | (ds, []) => let v := digits_value 10 ds in if v <=? max then Some v else None
  | (_, _ :: _) => None
  end.
Definition parse_u16 : str → option Z := parse_uint u16_max.

Lemma to_digit_char radix d :
  0 <= d < radix → radix <= 16 → to_digit radix (digit_char d) = Some d.
Proof.
  intros Hd Hr. unfold to_digit, digit_char.
  destruct (Z.ltb_spec d 10); rewrite byte_of_small by lia.
  - replace ((48 <=? 48 + d) && (48 + d <=? 57)) with true by lia.
    replace (48 + d - 48) with d by lia. destruct (Z.ltb_spec d radix); [done|lia].
  - replace ((48 <=? 87 + d) && (87 + d <=? 57)) with false by lia.
    replace ((97 <=? 87 + d) && (87 + d <=? 122)) with true by lia.
    replace (87 + d - 87) with d by lia. destruct (Z.ltb_spec d radix); [done|lia].
Qed.

Lemma digits_value_snoc radix ds d :
  digits_value radix (ds ++ [d]) = digits_value radix ds * radix + d.
Proof. unfold digits_value. by rewrite foldl_app. Qed.

Lemma digits_value_app radix ds ds' v :
  digits_value radix ds = v →
  digits_value radix (ds ++ ds') = foldl (λ v d, v * radix + d) v ds'.
Proof. intros <-. unfold digits_value. by rewrite foldl_app. Qed.

(** The digits of a number below [radix ^ fuel] have its value, are digits, and
    begin with a zero only for zero itself. *)
Lemma digits_spec fuel radix z acc :
  2 <= radix → 0 <= z < radix ^ Z.of_nat fuel →
  Forall (λ d, 0 <= d < radix) acc →
  let ds := digits fuel radix z acc in
  Forall (λ d, 0 <= d < radix) ds ∧
  digits_value radix ds = foldl (λ v d, v * radix + d) z acc.
Proof.
  intros Hr. revert z acc. induction fuel as [|fuel IH]; intros z acc Hz Hacc.
  - change (Z.of_nat 0) with 0 in Hz. rewrite Z.pow_0_r in Hz. simpl.
    assert (z = 0) as -> by lia. done.
  - simpl. destruct (Z.ltb_spec z radix).
    + split; [constructor; [lia|done]|]. unfold digits_value. simpl. done.
    + rewrite Nat2Z.inj_succ, Z.pow_succ_r in Hz by lia.
      pose proof (Z.mod_pos_bound z radix ltac:(lia)).
      destruct (IH (z / radix) (z mod radix :: acc)) as [HF HV].
      * split; [apply Z.div_pos; lia|apply Z.div_lt_upper_bound; lia].
      * constructor; [lia|done].
      * split; [done|]. rewrite HV. simpl. f_equal.
        rewrite (Z.div_mod z radix) at 3 by lia. lia.
Qed.

(** The first digit is a zero only if the number is zero, which has one digit. *)
Lemma digits_lead fuel radix z acc :
  2 <= radix → 0 <= z → fuel ≠ O → z < radix ^ Z.of_nat fuel →
  match digits fuel radix z acc with
  | d :: ds => d = 0 → z = 0 ∧ ds = acc
  | [] => False
  end.
Proof.
  intros Hr. revert z acc. induction fuel as [|fuel IH]; intros z acc H0 Hf Hz; [done|].
  simpl. destruct (Z.ltb_spec z radix); [done|].
  rewrite Nat2Z.inj_succ, Z.pow_succ_r in Hz by lia.
  assert (z / radix < radix ^ Z.of_nat fuel) by (apply Z.div_lt_upper_bound; lia).
  assert (1 <= z / radix) by (apply Z.div_le_lower_bound; lia).
  destruct fuel as [|fuel].
  - change (Z.of_nat 0) with 0 in *. rewrite Z.pow_0_r in *. lia.
  - specialize (IH (z / radix) (z mod radix :: acc) ltac:(lia) ltac:(lia) ltac:(lia)).
    destruct (digits (S fuel) radix (z / radix) _); [done|]. intros Hd. apply IH in Hd. lia.
Qed.

Lemma digits_length fuel radix z acc k :
  2 <= radix → 0 <= z < radix ^ Z.of_nat k → (k ≤ fuel)%nat → k ≠ O →
  (1 + length acc ≤ length (digits fuel radix z acc) ≤ k + length acc)%nat.
Proof.
  intros Hr. revert z acc fuel. induction k as [|k IH]; intros z acc fuel Hz Hk Hk0; [done|].
  destruct fuel as [|fuel]; [lia|]. simpl. destruct (Z.ltb_spec z radix); simpl; [lia|].
  rewrite Nat2Z.inj_succ, Z.pow_succ_r in Hz by lia.
  destruct k as [|k].
  - change (Z.of_nat 0) with 0 in *. rewrite Z.pow_0_r in *. lia.
  - specialize (IH (z / radix) (z mod radix :: acc) fuel). simpl in IH.
    assert (0 <= z / radix < radix ^ Z.of_nat (S k)).
    { split; [apply Z.div_pos; lia|apply Z.div_lt_upper_bound; lia]. }
    specialize (IH H0 ltac:(lia) ltac:(lia)). simpl in *. lia.
Qed.

(** [span_digits] inverts printing when no digit follows. *)
Lemma span_digits_show radix ds r :
  radix <= 16 → Forall (λ d, 0 <= d < radix) ds →
  match r with c :: _ => to_digit radix c = None | [] => True end →
  span_digits radix ((digit_char <$> ds) ++ r) = (ds, r).
Proof.
  intros Hr HF Hc. induction HF as [|d ds Hd HF IH].
  - destruct r as [|c r]; simpl; [done|]. by rewrite Hc.
  - rewrite fmap_cons, <-app_comm_cons. cbn [span_digits].
    rewrite to_digit_char by lia. by rewrite IH.
Qed.

(** Reading digits back gives the number. *)
Lemma digits_value_digits radix z :
  2 <= radix → 0 <= z < radix ^ 64 → digits_value radix (digits 64 radix z []) = z.
Proof. intros Hr Hz. by apply (digits_spec 64 radix z []). Qed.

Lemma digits_Forall radix z :
  2 <= radix → 0 <= z < radix ^ 64 → Forall (λ d, 0 <= d < radix) (digits 64 radix z []).
Proof. intros Hr Hz. by apply (digits_spec 64 radix z []). Qed.

Lemma digits_not_nil radix z :
  2 <= radix → 0 <= z < radix ^ 64 → digits 64 radix z [] ≠ [].
Proof.
  intros Hr Hz E. pose proof (digits_lead 64 radix z [] Hr ltac:(lia) ltac:(done) ltac:(lia)) as H.
  by rewrite E in H.
Qed.

Lemma digit_char_not_plus d : 0 <= d < 16 → digit_char d ≠ x2b.
Proof.
  intros Hd E. apply (f_equal u8) in E. unfold digit_char in E.
  destruct (Z.ltb_spec d 10); rewrite byte_of_small in E by lia; unfold u8 in E; simpl in E; lia.
Qed.

Lemma parse_uint_show_dec max z :
  0 <= z <= max → max < 10 ^ 64 → parse_uint max (show_dec z) = Some z.
Proof.
  intros Hz Hm. unfold parse_uint, show_dec, show_radix.
  pose proof (digits_not_nil 10 z ltac:(lia) ltac:(lia)) as Hn.
  pose proof (digits_Forall 10 z ltac:(lia) ltac:(lia)) as HF.
  pose proof (digits_value_digits 10 z ltac:(lia) ltac:(lia)) as HV.
  pose proof (span_digits_show 10 (digits 64 10 z []) [] ltac:(lia) HF I) as HS.
  rewrite app_nil_r in HS. destruct (digits 64 10 z []) as [|d ds] eqn:E; [done|].
  assert (digit_char d ≠ x2b) by (apply Forall_inv in HF; apply digit_char_not_plus; lia).
  replace (match digit_char <$> d :: ds with
           | c :: (_ :: _) as s' => if decide (c = x2b) then s' else digit_char <$> d :: ds
           | _ => digit_char <$> d :: ds end) with (digit_char <$> d :: ds).
  2: { destruct ds; [done|]. rewrite !fmap_cons. by rewrite decide_False. }
  rewrite HS, HV. destruct (Z.leb_spec z max); [done|lia].
Qed.

(** ** UTF-8 *)
Definition between (lo hi : Z) (c : byte) : bool := (lo <=? u8 c) && (u8 c <=? hi).
Definition is_ascii (c : byte) : bool := u8 c <? 128.
Definition is_cont : byte → bool := between 128 191.

(** The second byte of a three-byte and of a four-byte sequence. *)
Definition second3_ok (c d : byte) : bool :=
  if u8 c =? 224 then between 160 191 d
  else if u8 c =? 237 then between 128 159 d else is_cont d.
Definition second4_ok (c d : byte) : bool :=
  if u8 c =? 240 then between 144 191 d
  else if u8 c =? 244 then between 128 143 d else is_cont d.

Definition utf8_width (c : byte) : nat :=
  if is_ascii c then 1 else if between 194 223 c then 2
  else if between 224 239 c then 3 else if between 240 244 c then 4 else 0.

(** U+FFFD *)
Definition replacement : str := [xef; xbf; xbd].

(** [String::from_utf8_lossy]: every maximal ill-formed part becomes one
    replacement character. *)
Fixpoint from_utf8_lossy (s : str) : str :=
  match s with
  | [] => []
  | c :: s1 =>
      match utf8_width c, s1 with
      | 1%nat, _ => c :: from_utf8_lossy s1
      | 2%nat, d :: s2 =>
          if is_cont d then c :: d :: from_utf8_lossy s2
          else replacement ++ from_utf8_lossy s1
      | 3%nat, d :: s2 =>
          if second3_ok c d then
            match s2 with
            | e :: s3 => if is_cont e then c :: d :: e :: from_utf8_lossy s3
                         else replacement ++ from_utf8_lossy s2
            | [] => replacement
            end
          else replacement ++ from_utf8_lossy s1
      | 4%nat, d :: s2 =>
          if second4_ok c d then
            match s2 with
            | e :: s3 =>
                if is_cont e then
                  match s3 with
                  | f :: s4 => if is_cont f then c :: d :: e :: f :: from_utf8_lossy s4
                               else replacement ++ from_utf8_lossy s3
                  | [] => replacement
                  end
                else replacement ++ from_utf8_lossy s2
            | [] => replacement
            end
          else replacement ++ from_utf8_lossy s1
      | _, _ => replacement ++ from_utf8_lossy s1
      end
  end.

(** Well-formed UTF-8, the invariant of [str]. *)
Fixpoint utf8_valid (s : str) : bool :=
  match s with
  | [] => true
  | c :: s1 =>
      match utf8_width c, s1 with
      | 1%nat, _ => utf8_valid s1
      | 2%nat, d :: s2 => is_cont d && utf8_valid s2
      | 3%nat, d :: e :: s3 => second3_ok c d && is_cont e && utf8_valid s3
      | 4%nat, d :: e :: f :: s4 =>
          second4_ok c d && is_cont e && is_cont f && utf8_valid s4
      | _, _ => false
      end
  end.

(** [String::from_utf8]. *)
Definition from_utf8 (s : str) : result str :=
  if utf8_valid s then Ok s else Err EUtf8.

Lemma str_strong_ind (P : str → Prop) :
  (∀ s, (∀ t, (length t < length s)%nat → P t) → P s) → ∀ s, P s.
Proof.
  intros H s. remember (length s) as n eqn:E. revert s E.
  induction n as [n IH] using lt_wf_ind. intros s ->. apply H.
  intros t Ht. by apply (IH (length t)).
Qed.

Lemma from_utf8_lossy_valid s : utf8_valid s = true → from_utf8_lossy s = s.
Proof.
  induction s as [s IH] using str_strong_ind. destruct s as [|c s1]; [done|].
  cbn [utf8_valid from_utf8_lossy]. intros H. repeat case_match; try done;
    repeat match goal with H : _ && _ = true |- _ => apply andb_prop in H as [? ?] end;
    try congruence; repeat f_equal; apply IH; simpl; lia || done.
Qed.

Lemma utf8_valid_replacement s : utf8_valid (replacement ++ s) = utf8_valid s.
Proof. done. Qed.

Lemma utf8_valid_from_utf8_lossy s : utf8_valid (from_utf8_lossy s) = true.
Proof.
  induction s as [s IH] using str_strong_ind. destruct s as [|c s1]; [done|].
  cbn [from_utf8_lossy].
  repeat case_match; rewrite ?utf8_valid_replacement; try done;
    try (apply IH; simpl; lia); cbn [utf8_valid];
    repeat match goal with H : _ = _ |- _ => rewrite H end; simpl;
    apply IH; simpl; lia.
Qed.

(** Replacing can triple the length. *)
Lemma from_utf8_lossy_length s : (length (from_utf8_lossy s) ≤ 3 * length s)%nat.
Proof.
  induction s as [s IH] using str_strong_ind. destruct s as [|c s1]; [done|].
  cbn [from_utf8_lossy].
  repeat case_match; subst; try (simpl; lia);
    match goal with |- context [from_utf8_lossy ?t] =>
      pose proof (IH t ltac:(simpl; lia)); generalize dependent (from_utf8_lossy t) end;
    simpl; lia.
Qed.

Lemma utf8_valid_ascii s : forallb is_ascii s = true → utf8_valid s = true.
Proof.
  induction s as [|c s IH]; [done|]. simpl. intros [Hc Hs]%andb_prop.
  unfold utf8_width. rewrite Hc. auto.
Qed.

Lemma utf8_valid_ascii_app s t :
  forallb is_ascii s = true → utf8_valid (s ++ t) = utf8_valid t.
Proof.
  induction s as [|c s IH]; [done|]. simpl. intros [Hc Hs]%andb_prop.
  unfold utf8_width. rewrite Hc. auto.
Qed.

(** ** [str] methods

    Every character the source searches for is ASCII, so a character index is a
    byte index and slicing at it is at a character boundary. *)

(** [str::find(char)] and [str::rfind(char)]. *)
Fixpoint find (c : byte) (s : str) : option nat :=
  match s with
  | [] => None
  | d :: s' => if decide (d = c) then Some O else S <$> find c s'
  end.
Fixpoint rfind (c : byte) (s : str) : option nat :=
  match s with
  | [] => None
  | d :: s' =>
      match rfind c s' with
      | Some i => Some (S i)
      | None => if decide (d = c) then Some O else None
      end
  end.
Definition contains (c : byte) (s : str) : bool := bool_decide (c ∈ s).

(** [str::strip_prefix] and [str::starts_with]. *)
Fixpoint strip_prefix (p s : str) : option str :=
  match p, s with
  | [], _ => Some s
  | c :: p', d :: s' => if decide (c = d) then strip_prefix p' s' else None
  | _ :: _, [] => None
  end.
Definition starts_with (p s : str) : bool := bool_decide (is_Some (strip_prefix p s)).

(** [str::split_once(char)]. *)
Definition split_once (c : byte) (s : str) : option (str * str) :=
  i ← find c s; Some (take i s, drop (S i) s).

Definition to_ascii_lowercase (c : byte) : byte :=
  if between 65 90 c then byte_of (u8 c + 32) else c.
Definition ascii_lowercase (s : str) : str := to_ascii_lowercase <$> s.
Definition eq_ignore_ascii_case (s t : str) : bool :=
  bool_decide (ascii_lowercase s = ascii_lowercase t).
Definition is_ascii_digit (c : byte) : bool := between 48 57 c.

Definition is_empty (s : str) : bool := match s with [] => true | _ => false end.

Lemma find_None c s : find c s = None ↔ c ∉ s.
Proof.
  induction s as [|d s IH]; simpl; [split; [intros _; apply not_elem_of_nil|done]|].
  rewrite not_elem_of_cons. case_decide as E.
  - split; [done|]. intros [? _]. congruence.
  - rewrite fmap_None, IH. split; [intros; split; [congruence|done]|by intros []].
Qed.

Lemma rfind_None c s : rfind c s = None ↔ c ∉ s.
Proof.
  induction s as [|d s IH]; simpl; [split; [intros _; apply not_elem_of_nil|done]|].
  rewrite not_elem_of_cons. destruct (rfind c s) as [i|].
  - split; [done|]. intros [_ Hs]. by apply IH in Hs.
  - case_decide as E; split; try done; [intros []; congruence|].
    intros _. split; [congruence|by apply IH].
Qed.

Lemma find_app c a s : c ∉ a → find c (a ++ c :: s) = Some (length a).
Proof.
  induction a as [|d a IH]; simpl; intros Ha.
  - by rewrite decide_True.
  - apply not_elem_of_cons in Ha as [? ?]. by rewrite decide_False, IH.
Qed.

Lemma rfind_app c a s : c ∉ s → rfind c (a ++ c :: s) = Some (length a).
Proof.
  intros Hs. induction a as [|d a IH]; simpl.
  - apply rfind_None in Hs. by rewrite Hs, decide_True.
  - by rewrite IH.
Qed.

Lemma find_Some c s i :
  find c s = Some i → s = take i s ++ c :: drop (S i) s ∧ (c ∉ take i s) ∧ (i < length s)%nat.
Proof.
  revert i. induction s as [|d s IH]; simpl; intros i H; [done|].
  case_decide; simplify_eq/=; [split; [done|split; [apply not_elem_of_nil|lia]]|].
  apply fmap_Some in H as (j & (H1 & H2 & H3)%IH & ->). simpl.
  split; [congruence|]. rewrite not_elem_of_cons. split; [split; [congruence|done]|lia].
Qed.

Lemma rfind_Some c s i :
  rfind c s = Some i → s = take i s ++ c :: drop (S i) s ∧ (c ∉ drop (S i) s) ∧ (i < length s)%nat.
Proof.
  revert i. induction s as [|d s IH]; simpl; intros i H; [done|].
  destruct (rfind c s) as [j|] eqn:E; simplify_eq/=.
  - destruct (IH j eq_refl) as (H1 & H2 & H3). split; [congruence|]. split; [done|lia].
  - case_decide; simplify_eq/=. apply rfind_None in E. split; [done|split; [done|lia]].
Qed.

Lemma contains_true c s : contains c s = true ↔ c ∈ s.
Proof. apply bool_decide_eq_true. Qed.
Lemma contains_false c s : contains c s = false ↔ c ∉ s.
Proof. apply bool_decide_eq_false. Qed.

Lemma strip_prefix_app p s : strip_prefix p (p ++ s) = Some s.
Proof. induction p as [|c p IH]; simpl; [done|]. by rewrite decide_True. Qed.

Lemma strip_prefix_Some p s r : strip_prefix p s = Some r → s = p ++ r.
Proof.
  revert s. induction p as [|c p IH]; simpl; intros s H; [congruence|].
  destruct s as [|d s]; [done|]. case_decide; [|done]. subst. f_equal. auto.
Qed.

Lemma split_once_app c a s : c ∉ a → split_once c (a ++ c :: s) = Some (a, s).
Proof.
  intros Ha. unfold split_once. rewrite find_app by done. simpl.
  rewrite take_app_length. f_equal. f_equal.
  replace (S (length a)) with (length (a ++ [c])) by (rewrite length_app; simpl; lia).
  change (c :: s) with ([c] ++ s). rewrite app_assoc. apply drop_app_length.
Qed.

Lemma split_once_None c s : c ∉ s → split_once c s = None.
Proof. intros Hs%find_None. unfold split_once. by rewrite Hs. Qed.

Lemma starts_with_app p s : starts_with p (p ++ s) = true.
Proof. unfold starts_with. rewrite strip_prefix_app. by apply bool_decide_eq_true. Qed.

Lemma is_empty_true s : is_empty s = true ↔ s = [].
Proof. destruct s; naive_solver. Qed.

(** Digits contain no separator. *)
Lemma to_digit_ascii radix c d : radix <= 36 → to_digit radix c = Some d → is_ascii c = true.
Proof.
  unfold to_digit, is_ascii. intros Hr H. destruct (Z.ltb_spec (u8 c) 128); [done|].
  replace ((48 <=? u8 c) && (u8 c <=? 57)) with false in H by lia.
  replace ((97 <=? u8 c) && (u8 c <=? 122)) with false in H by lia.
  replace ((65 <=? u8 c) && (u8 c <=? 90)) with false in H by lia.
  by rewrite Z.ltb_irrefl in H.
Qed.

Lemma show_radix_Forall (P : byte → Prop) radix z :
  2 <= radix <= 16 → 0 <= z < radix ^ 64 →
  (∀ d, 0 <= d < radix → P (digit_char d)) → Forall P (show_radix radix z).
Proof.
  intros Hr Hz HP. unfold show_radix. apply Forall_fmap.
  eapply Forall_impl; [apply digits_Forall; lia|]. intros d Hd. by apply HP.
Qed.

Lemma show_radix_not_nil radix z :
  2 <= radix → 0 <= z < radix ^ 64 → show_radix radix z ≠ [].
Proof.
  intros Hr Hz E. apply fmap_nil_inv in E. by apply (digits_not_nil radix z) in E.
Qed.

Lemma digit_char_value d : 0 <= d < 16 → u8 (digit_char d) = (if d <? 10 then 48 + d else 87 + d).
Proof. intros Hd. unfold digit_char. case_match; rewrite byte_of_small; lia. Qed.

(** A byte that is no lower-case hexadecimal digit does not occur in printed numbers. *)
Lemma show_radix_not_elem radix z c :
  2 <= radix <= 16 → 0 <= z < radix ^ 64 → to_digit 16 c = None →
  c ∉ show_radix radix z.
Proof.
  intros Hr Hz Hc Hin.
  assert (Forall (λ c', to_digit 16 c' ≠ None) (show_radix radix z)) as HF.
  { apply show_radix_Forall; [done|done|]. intros d Hd. rewrite to_digit_char by lia. done. }
  rewrite Forall_forall in HF. by apply (HF c).
Qed.

Lemma show_radix_ascii radix z :
  2 <= radix <= 16 → 0 <= z < radix ^ 64 → forallb is_ascii (show_radix radix z) = true.
Proof.
  intros Hr Hz. apply List.forallb_forall. intros c Hc%list_elem_of_In.
  assert (Forall (λ c', is_ascii c' = true) (show_radix radix z)) as HF.
  { apply show_radix_Forall; [done|done|]. intros d Hd.
    eapply to_digit_ascii, to_digit_char; [|exact Hd|]; lia. }
  rewrite Forall_forall in HF. by apply HF.
Qed.

Lemma show_dec_digits z :
  0 <= z < 10 ^ 64 → Forall (λ c, is_ascii_digit c = true) (show_dec z).
Proof.
  intros Hz. apply show_radix_Forall; [lia|done|]. intros d Hd.
  unfold is_ascii_digit, between. rewrite digit_char_value by lia.
  destruct (Z.ltb_spec d 10); lia.
Qed.
