(* ===== verification/Net.v ===== *)
(** * [std::net]: IP and socket addresses, their text and their parsers *)
From S2P Require Import Prelude Std.
#[local] Open Scope Z_scope.

(** An IPv4 address is its 4 octets, an IPv6 address its 16. *)
Inductive IpAddr := V4 (octets : str) | V6 (octets : str).

Record SocketAddr := mkSocketAddr { ip : IpAddr; port : Z; scope_id : Z }.

#[export] Instance IpAddr_eq_dec : EqDecision IpAddr.
Proof. solve_decision. Defined.
#[export] Instance SocketAddr_eq_dec : EqDecision SocketAddr.
Proof. solve_decision. Defined.
#[export] Program Instance IpAddr_countable : Countable IpAddr :=
  inj_countable' (λ a, match a with V4 o => inl o | V6 o => inr o end)
    (λ s, match s with inl o => V4 o | inr o => V6 o end) _.
Next Obligation. by intros []. Qed.
#[export] Program Instance SocketAddr_countable : Countable SocketAddr :=
  inj_countable' (λ a, (ip a, port a, scope_id a))
    (λ '(i, p, s), mkSocketAddr i p s) _.
Next Obligation. by intros []. Qed.

Definition is_ipv6 (a : SocketAddr) : bool := match ip a with V6 _ => true | V4 _ => false end.
Definition socket_addr (i : IpAddr) (p : Z) : SocketAddr := mkSocketAddr i p 0.

Definition ip_wf (a : IpAddr) : Prop :=
  match a with V4 o => length o = 4%nat | V6 o => length o = 16%nat end.
Definition addr_wf (a : SocketAddr) : Prop :=
  ip_wf (ip a) ∧ 0 <= port a <= u16_max ∧ 0 <= scope_id a <= u32_max.

(** [Ipv4Addr::to_ipv6_mapped], [Ipv6Addr::to_ipv4_mapped], [IpAddr::to_canonical]. *)
Definition mapped_prefix : str := replicate 10 x00 ++ [xff; xff].
Definition to_ipv6_mapped (o : str) : str := mapped_prefix ++ o.
Definition to_ipv4_mapped (o : str) : option str := strip_prefix mapped_prefix o.
Definition to_canonical (a : IpAddr) : IpAddr :=
  match a with
  | V4 o => V4 o
  | V6 o => match to_ipv4_mapped o with Some o4 => V4 o4 | None => V6 o end
  end.

(** 16-bit groups of an IPv6 address. *)
Fixpoint segments (o : str) : list Z :=
  match o with
  | hi :: lo :: o' => from_be16 hi lo :: segments o'
  | _ => []
  end.
Definition octets (segs : list Z) : str := concat (to_be16 <$> segs).

(** ** Text *)
Definition show_ipv4 (o : str) : str :=
  match o with
  | [a; b; c; d] =>
      show_dec (u8 a) ++ B "." ++ show_dec (u8 b) ++ B "." ++
      show_dec (u8 c) ++ B "." ++ show_dec (u8 d)
  | _ => []
  end.

(** The longest run of zero groups, the first of equal ones: start and length. *)
Fixpoint zero_run (i : nat) (cur longest : nat * nat) (segs : list Z) : nat * nat :=
  match segs with
  | [] => longest
  | g :: gs =>
      if g =? 0 then
        let cur := (if decide (cur.2 = 0%nat) then i else cur.1, S cur.2) in
        zero_run (S i) cur (if decide (longest.2 < cur.2)%nat then cur else longest) gs
      else zero_run (S i) (O, O) longest gs
  end.

(** [fmt_subslice], with the position of the first group. *)
Fixpoint fmt_groups (i : nat) (gs : list Z) : str :=
  match gs with
  | [] => []
  | g :: gs' => (if decide (i = O) then [] else B ":") ++ show_hex g ++ fmt_groups (S i) gs'
  end.

Definition show_ipv6 (o : str) : str :=
  match to_ipv4_mapped o with
  | Some o4 => B "::ffff:" ++ show_ipv4 o4
  | None =>
      let segs := segments o in
      let '(start, len) := zero_run 0 (O, O) (O, O) segs in
      if decide (1 < len)%nat then
        fmt_groups 0 (take start segs) ++ B "::" ++ fmt_groups 0 (drop (start + len) segs)
      else fmt_groups 0 segs
  end.

Definition show_ip (a : IpAddr) : str :=
  match a with V4 o => show_ipv4 o | V6 o => show_ipv6 o end.

Definition show_socket_addr (a : SocketAddr) : str :=
  match ip a with
  | V4 o => show_ipv4 o ++ B ":" ++ show_dec (port a)
  | V6 o =>
      if scope_id a =? 0 then B "[" ++ show_ipv6 o ++ B "]:" ++ show_dec (port a)
      else B "[" ++ show_ipv6 o ++ B "%" ++ show_dec (scope_id a) ++ B "]:" ++ show_dec (port a)
  end.

(** ** Parsers *)
Definition read_char (c : byte) (s : str) : option str :=
  match s with d :: s' => if decide (d = c) then Some s' else None | [] => None end.

Lemma read_char_cons c s : read_char c (c :: s) = Some s.
Proof. simpl. by rewrite decide_True. Qed.
Lemma read_char_nil c : read_char c [] = None.
Proof. done. Qed.
#[global] Arguments read_char : simpl never.

(** [Parser::read_number]. *)
Definition read_number (radix : Z) (max_digits : option nat) (allow_zero_prefix : bool)
    (max : Z) (s : str) : option (Z * str) :=
  let '(ds, r) := span_digits radix s in
  match ds with
  | [] => None
  | d0 :: ds' =>
      if match max_digits with Some m => bool_decide (m < length ds)%nat | None => false end
      then None
      else if negb allow_zero_prefix && (d0 =? 0) && bool_decide (ds' ≠ []) then None
      else let v := digits_value radix ds in if v <=? max then Some (v, r) else None
  end.

Definition read_octet : str → option (Z * str) := read_number 10 (Some 3%nat) false 255.

Definition read_ipv4 (s : str) : option (str * str) :=
  '(a, s) ← read_octet s; s ← read_char x2e s;
  '(b, s) ← read_octet s; s ← read_char x2e s;
  '(c, s) ← read_octet s; s ← read_char x2e s;
  '(d, s) ← read_octet s;
  Some ([byte_of a; byte_of b; byte_of c; byte_of d], s).

(** [Parser::read_separator]. *)
Definition read_separator {A} (i : nat) (inner : str → option (A * str)) (s : str)
    : option (A * str) :=
  if decide (i = O) then inner s else s ← read_char x3a s; inner s.

(** [read_groups] with [n] slots left, at group [i]: the groups, whether the
    last two are an embedded IPv4 address, and the rest. *)
Fixpoint read_groups (n i : nat) (s : str) : list Z * bool * str :=
  match n with
  | O => ([], false, s)
  | S n' =>
      match (if decide (n' = O) then None else read_separator i read_ipv4 s) with
      | Some (o4, s') => (segments o4, true, s')
      | None =>
          match read_separator i (read_number 16 (Some 4%nat) true u16_max) s with
          | Some (g, s') =>
              let '(gs, v4, r) := read_groups n' (S i) s' in (g :: gs, v4, r)
          | None => ([], false, s)
          end
      end
  end.

Definition read_ipv6 (s : str) : option (str * str) :=
  let '(head, head_v4, s) := read_groups 8 0 s in
  if decide (length head = 8%nat) then Some (octets head, s)
  else if head_v4 then None
  else
    s ← read_char x3a s; s ← read_char x3a s;
    let '(tail, _, s) := read_groups (7 - length head) 0 s in
    Some (octets (head ++ replicate (8 - length head - length tail) 0 ++ tail), s).

(** The whole input must be consumed. *)
Definition parse_with {A} (p : str → option (A * str)) (s : str) : option A :=
  match p s with Some (a, []) => Some a | _ => None end.

Definition parse_ipv4 (s : str) : option str :=
  if decide (15 < length s)%nat then None else parse_with read_ipv4 s.
Definition parse_ipv6 (s : str) : option str := parse_with read_ipv6 s.

Definition read_ip_addr (s : str) : option (IpAddr * str) :=
  match read_ipv4 s with
  | Some (o, r) => Some (V4 o, r)
  | None => '(o, r) ← read_ipv6 s; Some (V6 o, r)
  end.
Definition parse_ip (s : str) : option IpAddr := parse_with read_ip_addr s.

Definition read_port (s : str) : option (Z * str) :=
  s ← read_char x3a s; read_number 10 None true u16_max s.

Definition read_scope_id (s : str) : option (Z * str) :=
  s ← read_char x25 s; read_number 10 None true u32_max s.

Definition read_socket_addr_v4 (s : str) : option (SocketAddr * str) :=
  '(o, s) ← read_ipv4 s; '(p, s) ← read_port s; Some (mkSocketAddr (V4 o) p 0, s).
Definition read_socket_addr_v6 (s : str) : option (SocketAddr * str) :=
  s ← read_char x5b s; '(o, s) ← read_ipv6 s;
  let '(sc, s) := default (0, s) (read_scope_id s) in
  s ← read_char x5d s; '(p, s) ← read_port s; Some (mkSocketAddr (V6 o) p sc, s).

(** [str::parse::<SocketAddr>]. *)
Definition parse_socket_addr (s : str) : option SocketAddr :=
  parse_with (λ s, match read_socket_addr_v4 s with
                   | Some r => Some r
                   | None => read_socket_addr_v6 s
                   end) s.

Example parse_v6_ex : parse_ipv6 (B "2001:db8::1") =
  Some [x20; x01; x0d; xb8; x00; x00; x00; x00; x00; x00; x00; x00; x00; x00; x00; x01].
Proof. vm_compute. reflexivity. Qed.
Example show_v6_ex : (show_ipv6 <$> parse_ipv6 (B "2001:DB8:0:0:1:0:0:1")) = Some (B "2001:db8::1:0:0:1").
Proof. vm_compute. reflexivity. Qed.
Example parse_sock_ex : parse_socket_addr (B "[::ffff:1.2.3.4]:443") =
  Some (mkSocketAddr (V6 (mapped_prefix ++ [x01; x02; x03; x04])) 443 0).
Proof. vm_compute. reflexivity. Qed.

(** ** Printed numbers are read back *)

(** [s] does not continue a number. *)
Definition no_digit (radix : Z) (s : str) : Prop :=
  match s with c :: _ => to_digit radix c = None | [] => True end.

Lemma read_number_show radix maxd azp max k z r :
  2 <= radix <= 16 → (1 <= k <= 64)%nat → 0 <= z < radix ^ Z.of_nat k →
  match maxd with Some m => (k ≤ m)%nat | None => True end →
  z <= max → no_digit radix r →
  read_number radix maxd azp max (show_radix radix z ++ r) = Some (z, r).
Proof.
  intros Hr Hk Hz Hm Hmax Hnd. unfold read_number, show_radix.
  assert (0 <= z < radix ^ 64) as Hz64.
  { split; [lia|]. apply Z.lt_le_trans with (radix ^ Z.of_nat k); [lia|].
    apply Z.pow_le_mono_r; lia. }
  rewrite span_digits_show; [|lia|apply digits_Forall; lia|done].
  pose proof (digits_length 64 radix z [] k ltac:(lia) Hz ltac:(lia) ltac:(lia)) as HL.
  pose proof (digits_lead 64 radix z [] ltac:(lia) ltac:(lia) ltac:(lia) ltac:(lia)) as HD.
  pose proof (digits_value_digits radix z ltac:(lia) Hz64) as HV.
  destruct (digits 64 radix z []) as [|d ds] eqn:E; [done|]. simpl in HL.
  replace (match maxd with Some m => _ | None => false end) with false.
  2: { destruct maxd; [|done]. symmetry. apply bool_decide_eq_false. simpl. lia. }
  replace (negb azp && (d =? 0) && bool_decide (ds ≠ [])) with false.
  2: { destruct (Z.eqb_spec d 0); [|by rewrite andb_false_r].
       destruct HD as [_ ->]; [done|]. by rewrite bool_decide_eq_false_2, andb_false_r by auto. }
  rewrite HV. destruct (Z.leb_spec z max); [done|lia].
Qed.

Lemma read_octet_show c r :
  no_digit 10 r → read_octet (show_dec (u8 c) ++ r) = Some (u8 c, r).
Proof.
  intros. pose proof (u8_range c). apply (read_number_show 10 _ _ _ 3); try lia; done.
Qed.

Lemma read_ipv4_show o r :
  length o = 4%nat → no_digit 10 r → read_ipv4 (show_ipv4 o ++ r) = Some (o, r).
Proof.
  intros Ho Hr. destruct o as [|a [|b' [|c [|d [|]]]]]; try done.
  unfold read_ipv4, show_ipv4, B. rewrite <-!app_assoc.
  do 3 (rewrite read_octet_show by done; simpl; rewrite ?read_char_cons; simpl).
  rewrite read_octet_show by done. simpl. by rewrite !byte_of_u8.
Qed.

Lemma show_dec_length z k :
  0 <= z < 10 ^ Z.of_nat k → (1 <= k <= 64)%nat → (length (show_dec z) ≤ k)%nat.
Proof.
  intros Hz Hk. unfold show_dec, show_radix. rewrite length_fmap.
  pose proof (digits_length 64 10 z [] k ltac:(lia) Hz ltac:(lia) ltac:(lia)) as HL.
  change (length (@nil Z)) with O in HL. lia.
Qed.

Lemma show_ipv4_length o : (length (show_ipv4 o) ≤ 15)%nat.
Proof.
  destruct o as [|a [|b' [|c [|d [|]]]]]; simpl; try lia.
  pose proof (u8_range a). pose proof (u8_range b').
  pose proof (u8_range c). pose proof (u8_range d).
  pose proof (show_dec_length (u8 a) 3 ltac:(lia) ltac:(lia)).
  pose proof (show_dec_length (u8 b') 3 ltac:(lia) ltac:(lia)).
  pose proof (show_dec_length (u8 c) 3 ltac:(lia) ltac:(lia)).
  pose proof (show_dec_length (u8 d) 3 ltac:(lia) ltac:(lia)).
  rewrite !length_app. simpl. rewrite !length_app. simpl. rewrite !length_app. simpl. lia.
Qed.

Lemma parse_show_ipv4 o : length o = 4%nat → parse_ipv4 (show_ipv4 o) = Some o.
Proof.
  intros Ho. unfold parse_ipv4, parse_with.
  rewrite decide_False by (pose proof (show_ipv4_length o); lia).
  pose proof (read_ipv4_show o [] Ho I) as H. rewrite app_nil_r in H. by rewrite H.
Qed.

Lemma read_ipv4_length s o r : read_ipv4 s = Some (o, r) → length o = 4%nat.
Proof.
  unfold read_ipv4. intros H.
  do 3 (apply bind_Some in H as ([? ?] & _ & H); apply bind_Some in H as (? & _ & H)).
  apply bind_Some in H as ([? ?] & _ & H). by simplify_eq.
Qed.

Lemma parse_ipv4_length s o : parse_ipv4 s = Some o → length o = 4%nat.
Proof.
  unfold parse_ipv4, parse_with. intros H. case_decide; [done|].
  destruct (read_ipv4 s) as [[o' [|]]|] eqn:E; simplify_eq. by apply read_ipv4_length in E.
Qed.

(** The digits read are a prefix of the input. *)
Lemma span_digits_split radix s ds r :
  span_digits radix s = (ds, r) → ∃ p, s = p ++ r ∧ length p = length ds.
Proof.
  revert ds r. induction s as [|c s IH]; simpl; intros ds r H; [simplify_eq; by exists []|].
  destruct (to_digit radix c); [|simplify_eq; by exists []].
  destruct (span_digits radix s) as [ds' r'] eqn:E. simplify_eq.
  destruct (IH _ _ eq_refl) as (p & -> & Hp). exists (c :: p). simpl. auto.
Qed.

Lemma read_number_split radix m azp max s v r :
  read_number radix m azp max s = Some (v, r) → ∃ p, s = p ++ r.
Proof.
  unfold read_number. intros H. destruct (span_digits radix s) as [ds r'] eqn:E.
  apply span_digits_split in E as (p & -> & _). exists p.
  repeat case_match; simplify_eq; done.
Qed.

(** Without a dot there is no IPv4 address. *)
Lemma read_ipv4_no_dot s : x2e ∉ s → read_ipv4 s = None.
Proof.
  intros Hs. unfold read_ipv4. destruct (read_octet s) as [[a r]|] eqn:E; [|done].
  apply read_number_split in E as [p ->]. simpl. apply not_elem_of_app in Hs as [_ Hs].
  destruct r as [|c r]; [done|]. unfold read_char. simpl. case_decide; [|done]. subst.
  exfalso. apply Hs. apply elem_of_cons. auto.
Qed.

(** ** An IPv4 address has exactly one accepted text *)
Lemma to_digit_10 c d : to_digit 10 c = Some d → c = digit_char d ∧ 0 <= d < 10.
Proof.
  unfold to_digit. intros H.
  destruct ((48 <=? u8 c) && (u8 c <=? 57)) eqn:E1.
  - destruct (Z.ltb_spec (u8 c - 48) 10); [|done]. simplify_eq.
    apply andb_prop in E1 as [? ?]. split; [|lia].
    unfold digit_char. destruct (Z.ltb_spec (u8 c - 48) 10); [|lia].
    replace (48 + (u8 c - 48)) with (u8 c) by lia. by rewrite byte_of_u8.
  - repeat case_match; simplify_eq;
      repeat match goal with H : _ && _ = true |- _ => apply andb_prop in H as [? ?] end; lia.
Qed.

Lemma span_digits_10 s ds r :
  span_digits 10 s = (ds, r) → s = (digit_char <$> ds) ++ r ∧ Forall (λ d, 0 <= d < 10) ds.
Proof.
  revert ds r. induction s as [|c s IH]; cbn [span_digits]; intros ds r H; [by simplify_eq|].
  destruct (to_digit 10 c) as [d|] eqn:Ed; [|by simplify_eq].
  destruct (span_digits 10 s) as [ds' r'] eqn:E. simplify_eq.
  apply to_digit_10 in Ed as [-> ?]. destruct (IH _ _ eq_refl) as [-> ?].
  split; [done|]. by constructor.
Qed.

Lemma digits_value_nonneg ds : Forall (λ d, 0 <= d < 10) ds → 0 <= digits_value 10 ds.
Proof.
  induction ds as [|d ds IH] using rev_ind; [done|].
  rewrite Forall_app, digits_value_snoc. intros [H1 H2%Forall_inv]. specialize (IH H1). lia.
Qed.

Lemma digits_value_pos ds :
  Forall (λ d, 0 <= d < 10) ds → ds ≠ [] → head ds ≠ Some 0 → 1 <= digits_value 10 ds.
Proof.
  induction ds as [|d ds IH] using rev_ind; [done|].
  rewrite Forall_app, digits_value_snoc. intros [H1 H2%Forall_inv] _ Hh.
  destruct ds as [|d0 ds]; simpl in *.
  - unfold digits_value. simpl. assert (d ≠ 0) by congruence. lia.
  - specialize (IH H1 ltac:(done) Hh). lia.
Qed.

Lemma digits_unique fuel ds acc :
  (length ds ≤ fuel)%nat → Forall (λ d, 0 <= d < 10) ds → ds ≠ [] →
  (head ds = Some 0 → length ds = 1%nat) →
  digits fuel 10 (digits_value 10 ds) acc = ds ++ acc.
Proof.
  revert fuel acc. induction ds as [|d ds IH] using rev_ind; intros fuel acc Hf HF Hn Hh; [done|].
  rewrite length_app in Hf. simpl in Hf. destruct fuel as [|fuel]; [lia|].
  rewrite Forall_app in HF. destruct HF as [HF Hd%Forall_inv].
  rewrite digits_value_snoc. cbn [digits].
  destruct ds as [|d0 ds0].
  { change (digits_value 10 []) with 0. replace (0 * 10 + d) with d by lia.
    destruct (Z.ltb_spec d 10); [done|lia]. }
  set (ds := d0 :: ds0) in *.
  assert (head ds ≠ Some 0) as Hne.
  { intros E. assert (head (ds ++ [d]) = Some 0) as E' by done.
    apply Hh in E'. rewrite length_app in E'. simpl in E'. lia. }
  pose proof (digits_value_pos ds HF ltac:(done) Hne).
  destruct (Z.ltb_spec (digits_value 10 ds * 10 + d) 10); [lia|].
  rewrite Z.div_add_l, Z.div_small, Z.add_0_r by lia.
  rewrite Z.add_comm, Z.mod_add, Z.mod_small by lia.
  rewrite IH; [by rewrite <-app_assoc|lia|done|done|done].
Qed.

Lemma read_octet_canonical s v r :
  read_octet s = Some (v, r) → s = show_dec v ++ r ∧ 0 <= v <= 255.
Proof.
  unfold read_octet, read_number. destruct (span_digits 10 s) as [ds r'] eqn:E.
  apply span_digits_10 in E as [-> HF]. destruct ds as [|d ds]; [done|].
  case_bool_decide as Hl; [done|]. cbn [negb andb].
  destruct ((d =? 0) && bool_decide (ds ≠ [])) eqn:E0; [done|].
  pose proof (digits_value_nonneg _ HF).
  destruct (Z.leb_spec (digits_value 10 (d :: ds)) 255); [|done]. intros [= <- <-].
  split; [|lia]. f_equal. unfold show_dec, show_radix.
  rewrite digits_unique; [by rewrite app_nil_r|cbn [length] in *; lia|done|done|].
  intros [= ->]. destruct ds; [done|]. by rewrite bool_decide_eq_true_2 in E0.
Qed.

Lemma read_char_Some c s s' : read_char c s = Some s' → s = c :: s'.
Proof. unfold read_char. destruct s as [|d s]; [done|]. case_decide; naive_solver. Qed.

Lemma read_ipv4_canonical s o r : read_ipv4 s = Some (o, r) → s = show_ipv4 o ++ r.
Proof.
  unfold read_ipv4. intros H.
  apply bind_Some in H as ([a s1] & [-> Ha]%read_octet_canonical & H).
  apply bind_Some in H as (s2 & ->%read_char_Some & H).
  apply bind_Some in H as ([b' s3] & [-> Hb]%read_octet_canonical & H).
  apply bind_Some in H as (s4 & ->%read_char_Some & H).
  apply bind_Some in H as ([c s5] & [-> Hc]%read_octet_canonical & H).
  apply bind_Some in H as (s6 & ->%read_char_Some & H).
  apply bind_Some in H as ([d s7] & [-> Hd]%read_octet_canonical & H).
  simplify_eq. unfold show_ipv4. rewrite !byte_of_small by lia.
  by rewrite <-!app_assoc.
Qed.

Lemma parse_ipv4_canonical s o : parse_ipv4 s = Some o → show_ipv4 o = s.
Proof.
  unfold parse_ipv4, parse_with. intros H. case_decide; [done|].
  destruct (read_ipv4 s) as [[o' [|]]|] eqn:E; simplify_eq.
  apply read_ipv4_canonical in E. by rewrite app_nil_r in E.
Qed.

(** ** IPv6 text is read back *)
Lemma segments_octets_ind (P : str → Prop) :
  P [] → (∀ hi lo o, P o → P (hi :: lo :: o)) → ∀ o, Nat.Even (length o) → P o.
Proof.
  intros H0 HS o. induction o as [o IH] using str_strong_ind. intros HE.
  destruct o as [|hi [|lo o]]; [done| |].
  - destruct HE as [k Hk]. simpl in Hk. lia.
  - apply HS, IH; [simpl; lia|]. destruct HE as [k Hk]. exists (k - 1)%nat. simpl in Hk. lia.
Qed.

Lemma octets_segments o : Nat.Even (length o) → octets (segments o) = o.
Proof.
  revert o. apply segments_octets_ind; [done|]. intros hi lo o IH.
  cbn [segments]. unfold octets in *. rewrite fmap_cons. cbn [concat].
  by rewrite to_from_be16, IH.
Qed.

Lemma segments_length o k : length o = (2 * k)%nat → length (segments o) = k.
Proof.
  intros H. assert (Nat.Even (length o)) as HE by (exists k; lia). revert k H.
  revert o HE. apply (segments_octets_ind (λ o, ∀ k, length o = (2 * k)%nat → length (segments o) = k)).
  - simpl. lia.
  - intros hi lo o IH k Hk. simpl in *. destruct k as [|k]; [lia|]. f_equal. apply IH. lia.
Qed.

Definition u16_ok (g : Z) : Prop := 0 <= g <= u16_max.

Lemma segments_ok o : Nat.Even (length o) → Forall u16_ok (segments o).
Proof.
  revert o. apply segments_octets_ind; [constructor|]. intros hi lo o IH.
  cbn [segments]. constructor; [apply from_be16_range|done].
Qed.

Lemma u16_ok_bound g : u16_ok g → 0 <= g < 16 ^ 4 ∧ 0 <= g < 16 ^ 64.
Proof. unfold u16_ok, u16_max. lia. Qed.

Lemma show_hex_not_elem g c : u16_ok g → to_digit 16 c = None → c ∉ show_hex g.
Proof. intros [_ H]%u16_ok_bound Hc. by apply show_radix_not_elem. Qed.

Lemma fmt_groups_no_dot gs i : Forall u16_ok gs → x2e ∉ fmt_groups i gs.
Proof.
  intros HF. revert i. induction HF as [|g gs Hg HF IH]; intros i; simpl; [apply not_elem_of_nil|].
  rewrite !not_elem_of_app. split; [|split; [by apply show_hex_not_elem|apply IH]].
  case_decide; [apply not_elem_of_nil|]. by apply not_elem_of_cons; split; [|apply not_elem_of_nil].
Qed.

Abbreviation read_group := (read_number 16 (Some 4%nat) true u16_max).

Lemma read_group_show g r : u16_ok g → no_digit 16 r → read_group (show_hex g ++ r) = Some (g, r).
Proof.
  intros Hg Hr. pose proof (u16_ok_bound g Hg). apply (read_number_show 16 _ _ _ 4); try done; try lia.
  by apply Hg.
Qed.

Lemma read_separator_no_dot i s : x2e ∉ s → read_separator i read_ipv4 s = None.
Proof.
  intros Hs. unfold read_separator. case_decide; [by apply read_ipv4_no_dot|].
  destruct s as [|c s]; [done|]. unfold read_char. case_decide; [|done]. simpl.
  apply read_ipv4_no_dot. apply not_elem_of_cons in Hs. by destruct Hs.
Qed.

Lemma read_groups_fmt gs n i r :
  Forall u16_ok gs → (length gs ≤ n)%nat → x2e ∉ r → no_digit 16 r →
  ((length gs < n)%nat → read_separator (i + length gs) read_group r = None) →
  read_groups n i (fmt_groups i gs ++ r) = (gs, false, r).
Proof.
  intros HF. revert n i. induction HF as [|g gs Hg HF IH]; intros n i Hn Hdot Hnd Hstop.
  - destruct n as [|n]; [done|]. cbn [fmt_groups app read_groups].
    rewrite read_separator_no_dot by done.
    specialize (Hstop ltac:(simpl; lia)). rewrite Nat.add_0_r in Hstop.
    rewrite Hstop. by case_decide.
  - destruct n as [|n]; [simpl in Hn; lia|]. simpl in Hn.
    assert (no_digit 16 (fmt_groups (S i) gs ++ r)) as Hnd'.
    { destruct gs as [|g' gs]; [done|]. by vm_compute. }
    cbn [read_groups]. rewrite read_separator_no_dot.
    2: { apply not_elem_of_app. split; [|done]. by apply fmt_groups_no_dot, Forall_cons. }
    replace (read_separator i read_group (fmt_groups i (g :: gs) ++ r))
      with (Some (g, fmt_groups (S i) gs ++ r)).
    + rewrite IH; [by destruct (decide (n = O))|lia|done|done|].
      intros Hl. replace (S i + length gs)%nat with (i + length (g :: gs))%nat by (simpl; lia).
      apply Hstop. simpl. lia.
    + cbn [fmt_groups]. unfold read_separator. rewrite <-!app_assoc.
      case_decide; simpl; [|rewrite ?read_char_cons; simpl]; by rewrite read_group_show.
Qed.

Definition zeros_at (all : list Z) (sp : nat * nat) : Prop :=
  (sp.1 + sp.2 ≤ length all)%nat ∧
  ∀ k, (sp.1 ≤ k < sp.1 + sp.2)%nat → all !! k = Some 0.

Lemma zero_run_spec all segs i cur longest :
  drop i all = segs → zeros_at all cur → (cur.2 ≠ O → cur.1 + cur.2 = i)%nat →
  zeros_at all longest → zeros_at all (zero_run i cur longest segs).
Proof.
  revert i cur longest. induction segs as [|g gs IH]; intros i cur longest Hd Hc Hi Hl; [done|].
  assert (all !! i = Some g) as Hg by (rewrite <-(Nat.add_0_r i), <-lookup_drop, Hd; done).
  assert (drop (S i) all = gs) as Hd' by (rewrite <-Nat.add_1_r, <-drop_drop, Hd; done).
  pose proof (lookup_lt_Some _ _ _ Hg) as Hlt.
  cbn [zero_run]. destruct (Z.eqb_spec g 0) as [->|].
  - assert (zeros_at all (if decide (cur.2 = 0%nat) then i else cur.1, S cur.2)) as Hc'.
    { destruct Hc as [Hc1 Hc2]. split; simpl.
      - case_decide as E; [lia|]. specialize (Hi E). lia.
      - intros k Hk. case_decide as E; [by replace k with i by lia|].
        specialize (Hi E). destruct (decide (k = i)) as [->|]; [done|]. apply Hc2. lia. }
    apply IH; [done|done| |].
    { intros _. simpl. case_decide as E; [lia|]. specialize (Hi E). lia. }
    revert Hc'. generalize (if decide (cur.2 = 0%nat) then i else cur.1, S cur.2).
    intros cur' Hc'. by case_decide.
  - apply IH; [done| |done|done]. split; simpl; lia.
Qed.

Lemma zeros_at_split all start len :
  zeros_at all (start, len) →
  all = take start all ++ replicate len 0 ++ drop (start + len) all.
Proof.
  intros [H1 H2]. simpl in *. rewrite <-(take_drop start all) at 1. f_equal.
  rewrite <-(take_drop len (drop start all)) at 1. rewrite drop_drop. f_equal.
  apply list_eq. intros k. destruct (decide (k < len)%nat).
  - rewrite lookup_take_lt, lookup_drop, lookup_replicate_2 by lia. apply H2. lia.
  - rewrite lookup_take_ge by lia. symmetry. apply lookup_replicate_None. lia.
Qed.

(** Parsing the text of an IPv6 address gives the address. *)
Lemma fmt_groups_no_digit gs : no_digit 16 (B "::" ++ gs).
Proof. by vm_compute. Qed.

(** What may follow an address: no hexadecimal digit, colon or dot. *)
Definition addr_end (r : str) : Prop :=
  no_digit 16 r ∧ no_digit 10 r ∧ (x2e ∉ r) ∧ read_char x3a r = None.

Lemma addr_end_nil : addr_end [].
Proof. repeat split. apply not_elem_of_nil. Qed.

Lemma read_ipv6_mapped a b' c d r :
  addr_end r →
  read_ipv6 (B "::ffff:" ++ show_ipv4 [a; b'; c; d] ++ r)
  = Some (to_ipv6_mapped [a; b'; c; d], r).
Proof.
  intros (_ & Hr & _). set (t := show_ipv4 [a; b'; c; d] ++ r).
  assert (read_groups 8 0 (B "::ffff:" ++ t) =
          ([], false, B "::ffff:" ++ t)) as E1 by done.
  assert (read_groups 7 0 (B "ffff:" ++ t) =
          ([65535; from_be16 a b'; from_be16 c d], true, r)) as E2.
  { change 7%nat with (S (S 5)). remember (S 5) as n eqn:En. cbn [read_groups].
    rewrite decide_False by lia.
    change (B "ffff:" ++ t) with
      (show_hex 65535 ++ x3a :: t).
    replace (read_separator 0 read_ipv4 _) with (@None (str * str)) by done.
    unfold read_separator at 1. rewrite decide_True by done.
    rewrite read_group_show by done. subst n. cbn [read_groups].
    rewrite decide_False by lia. unfold read_separator at 1. rewrite decide_False by lia.
    rewrite read_char_cons. cbn [mbind option_bind].
    unfold t. by rewrite read_ipv4_show. }
  unfold read_ipv6. rewrite E1. rewrite decide_False by done.
  change (B "::ffff:" ++ t)
    with (x3a :: x3a :: B "ffff:" ++ t).
  rewrite read_char_cons. cbn [mbind option_bind]. rewrite read_char_cons.
  cbn [mbind option_bind length Nat.sub]. rewrite E2.
  unfold octets, to_ipv6_mapped. rewrite !app_nil_l, fmap_app, concat_app.
  f_equal. f_equal. rewrite !fmap_cons. cbn [concat fmap list_fmap]. rewrite !to_from_be16.
  by vm_compute.
Qed.

Lemma no_digit_16_10 r : no_digit 16 r → no_digit 10 r.
Proof.
  destruct r as [|c r]; [done|]. unfold no_digit. destruct (to_digit 10 c) as [d|] eqn:E; [|done].
  apply to_digit_10 in E as [-> ?]. by rewrite to_digit_char by lia.
Qed.

Lemma read_separator_end i r :
  no_digit 16 r → read_char x3a r = None → read_separator i read_group r = None.
Proof.
  intros Hr Hc. unfold read_separator. case_decide; [|by rewrite Hc].
  destruct r as [|c r]; [done|]. unfold read_number. cbn [span_digits].
  unfold no_digit in Hr. by rewrite Hr.
Qed.

Lemma read_ipv6_compressed head tail len r :
  addr_end r →
  Forall u16_ok head → Forall u16_ok tail → (length head + len + length tail = 8)%nat →
  (1 < len)%nat →
  read_ipv6 (fmt_groups 0 head ++ B "::" ++ fmt_groups 0 tail ++ r) =
    Some (octets (head ++ replicate len 0 ++ tail), r).
Proof.
  intros (Hr1 & _ & Hr2 & Hr3) Hh Ht Hl Hlen. unfold read_ipv6.
  rewrite read_groups_fmt; [|done|lia| | |].
  2: { apply not_elem_of_app. split; [by apply contains_false|].
       apply not_elem_of_app. split; [by apply fmt_groups_no_dot|done]. }
  2: apply fmt_groups_no_digit.
  2: { intros _. unfold read_separator. case_decide; done. }
  rewrite decide_False by lia.
  change (B "::" ++ fmt_groups 0 tail ++ r) with (x3a :: x3a :: fmt_groups 0 tail ++ r).
  rewrite read_char_cons. cbn [mbind option_bind]. rewrite read_char_cons.
  cbn [mbind option_bind].
  rewrite read_groups_fmt; [|done|lia|done|done|].
  2: { intros _. by apply read_separator_end. }
  by replace (8 - length head - length tail)%nat with len by lia.
Qed.

Lemma read_ipv6_show o r :
  length o = 16%nat → addr_end r → read_ipv6 (show_ipv6 o ++ r) = Some (o, r).
Proof.
  intros Ho Hr. unfold show_ipv6. destruct (to_ipv4_mapped o) as [o4|] eqn:Em.
  - apply strip_prefix_Some in Em. subst o. rewrite length_app in Ho. simpl in Ho.
    destruct o4 as [|a [|b' [|c [|d [|]]]]]; try (simpl in Ho; lia).
    rewrite <-app_assoc. by apply read_ipv6_mapped.
  - assert (Nat.Even (length o)) as HE by (exists 8%nat; lia).
    pose proof (segments_ok o HE) as HF.
    pose proof (segments_length o 8 ltac:(lia)) as HL.
    pose proof (zero_run_spec (segments o) (segments o) 0 (O, O) (O, O)) as HZ.
    destruct (zero_run 0 (O, O) (O, O) (segments o)) as [start len] eqn:E.
    case_decide as Hlen.
    + assert (zeros_at (segments o) (start, len)) as HZA.
      { apply HZ; [done| |done|]; split; simpl; lia. }
      clear HZ. pose proof (zeros_at_split _ _ _ HZA) as Hsplit. destruct HZA as [Hb _]. simpl in Hb.
      rewrite <-(octets_segments o HE), Hsplit at 3. rewrite <-!app_assoc.
      apply read_ipv6_compressed; [done| | | |].
      * by apply Forall_take.
      * by apply Forall_drop.
      * rewrite length_take, length_drop. lia.
      * done.
    + destruct Hr as (Hr1 & _ & Hr2 & _). unfold read_ipv6.
      rewrite read_groups_fmt; [|done|lia|done|done|intros; lia].
      rewrite decide_True by done. by rewrite octets_segments.
Qed.

Lemma parse_show_ipv6 o : length o = 16%nat → parse_ipv6 (show_ipv6 o) = Some o.
Proof.
  intros Ho. unfold parse_ipv6, parse_with.
  rewrite <-(app_nil_r (show_ipv6 o)). rewrite read_ipv6_show by (done || apply addr_end_nil). done.
Qed.

Lemma octets_length segs : length (octets segs) = (2 * length segs)%nat.
Proof.
  induction segs as [|g segs IH]; [done|]. unfold octets in *. rewrite fmap_cons.
  cbn [concat]. rewrite length_app, IH. simpl. lia.
Qed.

Lemma read_groups_length n i s gs v4 r :
  read_groups n i s = (gs, v4, r) → (length gs ≤ n)%nat.
Proof.
  revert i s gs v4 r. induction n as [|n IH]; cbn [read_groups]; intros i s gs v4 r H; [by simplify_eq|].
  destruct (if decide (n = 0%nat) then None else read_separator i read_ipv4 s) as [[o4 s']|] eqn:E.
  - case_decide; [done|]. simplify_eq. unfold read_separator in E.
    assert (length o4 = 4%nat) as Ho.
    { case_decide; [by apply read_ipv4_length in E|].
      apply bind_Some in E as (? & _ & E). by apply read_ipv4_length in E. }
    rewrite (segments_length o4 2 ltac:(lia)). lia.
  - destruct (read_separator i read_group s) as [[g s']|]; [|simplify_eq; simpl; lia].
    destruct (read_groups n (S i) s') as [[gs' v4'] r'] eqn:E'. simplify_eq.
    apply IH in E'. simpl. lia.
Qed.

Lemma read_ipv6_length s o r : read_ipv6 s = Some (o, r) → length o = 16%nat.
Proof.
  unfold read_ipv6. destruct (read_groups 8 0 s) as [[head v4] s1] eqn:E1.
  apply read_groups_length in E1. case_decide as Hh.
  - intros [= <- _]. rewrite octets_length, Hh. done.
  - destruct v4; [done|]. intros H.
    apply bind_Some in H as (s2 & _ & H). apply bind_Some in H as (s3 & _ & H).
    destruct (read_groups (7 - length head) 0 s3) as [[tail v4] s4] eqn:E2.
    apply read_groups_length in E2. simplify_eq.
    rewrite octets_length, !length_app, length_replicate. lia.
Qed.

Lemma parse_ipv6_length s o : parse_ipv6 s = Some o → length o = 16%nat.
Proof.
  unfold parse_ipv6, parse_with. intros H.
  destruct (read_ipv6 s) as [[o' [|]]|] eqn:E; simplify_eq. by apply read_ipv6_length in E.
Qed.

(** ** Characters of the printed addresses *)
Lemma show_dec_u8_not_elem c x : to_digit 16 x = None → x ∉ show_dec (u8 c).
Proof.
  intros Hx. pose proof (u8_range c). apply show_radix_not_elem; [lia|lia|done].
Qed.

Lemma show_ipv4_no_colon o : x3a ∉ show_ipv4 o.
Proof.
  destruct o as [|a [|b' [|c [|d [|]]]]]; try apply not_elem_of_nil.
  unfold show_ipv4. rewrite !not_elem_of_app.
  repeat split; try (by apply show_dec_u8_not_elem); by apply contains_false.
Qed.

Lemma show_ipv4_not_nil o : length o = 4%nat → show_ipv4 o ≠ [].
Proof.
  destruct o as [|a [|b' [|c [|d [|]]]]]; try done. intros _ E. apply (f_equal length) in E.
  unfold show_ipv4 in E. rewrite !length_app in E. simpl in E. lia.
Qed.

Lemma fmt_groups_colon gs i : (2 ≤ length gs)%nat → x3a ∈ fmt_groups i gs.
Proof.
  destruct gs as [|g [|g' gs]]; simpl; [lia|lia|]. intros _.
  apply elem_of_app. right. apply elem_of_app. right. apply elem_of_cons. by left.
Qed.

Lemma show_ipv6_colon o : length o = 16%nat → x3a ∈ show_ipv6 o.
Proof.
  intros Ho. unfold show_ipv6. destruct (to_ipv4_mapped o).
  - apply elem_of_app. left. by apply contains_true.
  - destruct (zero_run _ _ _ _) as [start len]. case_decide.
    + apply elem_of_app. right. apply elem_of_app. left. by apply contains_true.
    + apply fmt_groups_colon. rewrite (segments_length o 8); lia.
Qed.

(** What is no hexadecimal digit, dot or colon is not in an address's text. *)
Lemma fmt_groups_not_elem c gs i :
  to_digit 16 c = None → c ≠ x3a → Forall u16_ok gs → c ∉ fmt_groups i gs.
Proof.
  intros Hc H1 HF. revert i. induction HF as [|g gs Hg HF IH]; intros i; simpl; [apply not_elem_of_nil|].
  rewrite !not_elem_of_app. split_and!; [|by apply show_hex_not_elem|apply IH].
  case_decide; [apply not_elem_of_nil|by apply not_elem_of_cons; split; [|apply not_elem_of_nil]].
Qed.

Lemma show_ip_not_elem c i : to_digit 16 c = None → c ≠ x3a → c ≠ x2e → ip_wf i → c ∉ show_ip i.
Proof.
  intros Hc H1 H2 Hi.
  assert (∀ o, c ∉ show_ipv4 o) as H4.
  { intros o. destruct o as [|a [|b' [|d [|e [|]]]]]; try apply not_elem_of_nil.
    unfold show_ipv4. rewrite !not_elem_of_app.
    repeat split; try (by apply show_dec_u8_not_elem); by apply not_elem_of_cons; split; [|apply not_elem_of_nil]. }
  assert (c ≠ x66) as H3 by (by intros ->). destruct i as [o|o]; [apply H4|]. simpl in *. unfold show_ipv6. destruct (to_ipv4_mapped o).
  - rewrite not_elem_of_app. split; [|apply H4]. cbn. rewrite !not_elem_of_cons. split_and!; try done. apply not_elem_of_nil.
  - pose proof (segments_ok o ltac:(exists 8%nat; lia)) as HF.
    destruct (zero_run _ _ _ _) as [start len]. case_decide; [|by apply fmt_groups_not_elem].
    rewrite !not_elem_of_app. split_and!; [by apply fmt_groups_not_elem, Forall_take|
      |by apply fmt_groups_not_elem, Forall_drop].
    cbn. rewrite !not_elem_of_cons. split_and!; try done. apply not_elem_of_nil.
Qed.

Lemma show_ip_inj i j : ip_wf i → ip_wf j → show_ip i = show_ip j → i = j.
Proof.
  intros Hi Hj E. destruct i as [o|o], j as [o'|o']; simpl in *.
  - apply (f_equal parse_ipv4) in E. rewrite !parse_show_ipv4 in E by done. congruence.
  - exfalso. pose proof (show_ipv4_no_colon o) as Hc. rewrite E in Hc. by apply Hc, show_ipv6_colon.
  - exfalso. pose proof (show_ipv4_no_colon o') as Hc. rewrite <-E in Hc. by apply Hc, show_ipv6_colon.
  - apply (f_equal parse_ipv6) in E. rewrite !parse_show_ipv6 in E by done. congruence.
Qed.

Lemma parse_ipv4_no_colon s o : parse_ipv4 s = Some o → x3a ∉ s.
Proof. intros <-%parse_ipv4_canonical. apply show_ipv4_no_colon. Qed.

Lemma parse_ipv4_colon s : x3a ∈ s → parse_ipv4 s = None.
Proof.
  intros Hs. destruct (parse_ipv4 s) as [o|] eqn:E; [|done]. by apply parse_ipv4_no_colon in E.
Qed.

Lemma forallb_app_true {A} (P : A → bool) l k :
  forallb P l = true → forallb P k = true → forallb P (l ++ k) = true.
Proof. intros Hl Hk. by rewrite List.forallb_app, Hl, Hk. Qed.

Lemma show_ipv4_ascii o : forallb is_ascii (show_ipv4 o) = true.
Proof.
  destruct o as [|a [|b' [|c [|d [|]]]]]; try done. unfold show_ipv4.
  pose proof (u8_range a). pose proof (u8_range b').
  pose proof (u8_range c). pose proof (u8_range d).
  repeat apply forallb_app_true; try done; apply show_radix_ascii; lia.
Qed.

Lemma fmt_groups_ascii gs i : Forall u16_ok gs → forallb is_ascii (fmt_groups i gs) = true.
Proof.
  intros HF. revert i. induction HF as [|g gs Hg HF IH]; intros i; [done|]. cbn [fmt_groups].
  pose proof (u16_ok_bound g Hg).
  repeat apply forallb_app_true; [by case_decide|apply show_radix_ascii; lia|done].
Qed.

Lemma show_ipv6_ascii o : length o = 16%nat → forallb is_ascii (show_ipv6 o) = true.
Proof.
  intros Ho. unfold show_ipv6. destruct (to_ipv4_mapped o).
  - apply forallb_app_true; [done|]. apply show_ipv4_ascii.
  - assert (Nat.Even (length o)) as HE by (exists 8%nat; lia).
    pose proof (segments_ok o HE) as HF.
    destruct (zero_run _ _ _ _) as [start len]. case_decide.
    + repeat apply forallb_app_true; [|done|]; apply fmt_groups_ascii;
        [by apply Forall_take|by apply Forall_drop].
    + by apply fmt_groups_ascii.
Qed.

(** ** Socket addresses *)
Lemma read_port_show p :
  0 <= p <= u16_max → read_port (B ":" ++ show_dec p) = Some (p, []).
Proof.
  intros Hp. unfold read_port. change (B ":" ++ show_dec p) with (x3a :: show_dec p).
  rewrite read_char_cons. cbn [mbind option_bind]. rewrite <-(app_nil_r (show_dec p)).
  apply (read_number_show 10 _ _ _ 5); unfold u16_max in *; try lia; done.
Qed.

Lemma read_ipv4_bracket s : read_ipv4 (B "[" ++ s) = None.
Proof. done. Qed.

(** An address without a scope id is read back from its text. *)
Lemma parse_show_socket_addr i p :
  ip_wf i → 0 <= p <= u16_max →
  parse_socket_addr (show_socket_addr (socket_addr i p)) = Some (socket_addr i p).
Proof.
  intros Hi Hp. unfold parse_socket_addr, parse_with, show_socket_addr, socket_addr.
  destruct i as [o|o]; cbn [ip port scope_id ip_wf] in *.
  - unfold read_socket_addr_v4. rewrite read_ipv4_show by done.
    cbn [mbind option_bind]. by rewrite read_port_show.
  - unfold read_socket_addr_v4. rewrite Z.eqb_refl, read_ipv4_bracket.
    cbn [mbind option_bind]. unfold read_socket_addr_v6. change (B "[" ++ ?t) with (x5b :: t).
    rewrite read_char_cons. cbn [mbind option_bind].
    rewrite read_ipv6_show; [|done|].
    2: { repeat split. apply not_elem_of_app. split; [by apply contains_false|].
         apply show_radix_not_elem; unfold u16_max in *; try lia. done. }
    cbn [mbind option_bind].
    change (read_scope_id (B "]:" ++ show_dec p)) with (@None (Z * str)).
    cbn [default]. change (B "]:" ++ show_dec p) with (x5d :: (B ":" ++ show_dec p)).
    rewrite read_char_cons. cbn [mbind option_bind].
    by rewrite read_port_show.
Qed.

(** An IPv6 address contains a colon. *)
Lemma read_char_not_elem c s : c ∉ s → read_char c s = None.
Proof.
  intros H. destruct s as [|d s]; [done|]. unfold read_char. case_decide; [|done].
  subst. by apply not_elem_of_cons in H as [? _].
Qed.

Lemma read_groups_no_colon n i s :
  x3a ∉ s → read_groups n (S i) s = ([], false, s).
Proof.
  intros H. destruct n as [|n]; [done|]. cbn [read_groups]. unfold read_separator.
  rewrite (decide_False (P := S i = O)) by done. rewrite read_char_not_elem by done.
  by case_decide.
Qed.

Lemma read_groups_no_colon_0 n s gs v4 r :
  x3a ∉ s → read_groups (S n) 0 s = (gs, v4, r) → (length gs ≤ 2)%nat ∧ x3a ∉ r ∨ v4 = true ∧ (length gs ≤ 2)%nat.
Proof.
  intros Hs. cbn [read_groups]. unfold read_separator at 1 2.
  rewrite !(decide_True (P := O = O)) by done.
  destruct (if decide (n = 0%nat) then None else read_ipv4 s) as [[o4 s']|] eqn:E4.
  { case_decide; [done|]. apply read_ipv4_length in E4. intros [= <- <- _]. right.
    by rewrite (segments_length o4 2 ltac:(lia)). }
  destruct (read_group s) as [[g s']|] eqn:Eg; [|intros [= <- <- <-]; left; simpl; auto].
  apply read_number_split in Eg as [ds ->]. apply not_elem_of_app in Hs as [_ Hs].
  rewrite read_groups_no_colon by done. intros [= <- <- <-]. left. simpl. auto.
Qed.

Lemma parse_ipv6_colon s o : parse_ipv6 s = Some o → x3a ∈ s.
Proof.
  intros H. destruct (decide (x3a ∈ s)) as [|Hs]; [done|exfalso].
  unfold parse_ipv6, parse_with, read_ipv6 in H.
  destruct (read_groups 8 0 s) as [[head v4] r] eqn:E.
  apply read_groups_no_colon_0 in E as [[Hl Hr]|[-> Hl]]; [| |done].
  - rewrite decide_False in H by lia. destruct v4; [done|].
    by rewrite read_char_not_elem in H.
  - rewrite decide_False in H by lia. done.
Qed.

Lemma fmt_groups_length gs i : Forall u16_ok gs → (length (fmt_groups i gs) ≤ 5 * length gs)%nat.
Proof.
  intros HF. revert i. induction HF as [|g gs Hg HF IH]; intros i; [done|].
  cbn [fmt_groups length]. rewrite !length_app. specialize (IH (S i)).
  assert (length (show_hex g) ≤ 4)%nat.
  { unfold show_hex, show_radix. rewrite length_fmap. pose proof (u16_ok_bound g Hg).
    pose proof (digits_length 64 16 g [] 4 ltac:(lia) (proj1 H) ltac:(lia) ltac:(lia)) as HL.
    change (length (@nil Z)) with O in HL. lia. }
  destruct (decide (i = 0%nat)); [|change (length (B ":")) with 1%nat]; cbn [length]; lia.
Qed.

Lemma show_ipv6_length o : length o = 16%nat → (length (show_ipv6 o) ≤ 42)%nat.
Proof.
  intros Ho. unfold show_ipv6. destruct (to_ipv4_mapped o) as [v4|].
  { rewrite length_app. pose proof (show_ipv4_length v4).
    change (length (B "::ffff:")) with 7%nat. lia. }
  assert (Nat.Even (length o)) as HE by (exists 8%nat; lia).
  pose proof (segments_ok o HE) as HF. pose proof (segments_length o 8 ltac:(lia)) as Hs.
  destruct (zero_run _ _ _ _) as [start len]. case_decide.
  - rewrite !length_app. change (length (B "::")) with 2%nat.
    pose proof (fmt_groups_length (take start (segments o)) 0 (Forall_take _ _ _ HF)).
    pose proof (fmt_groups_length (drop (start + len) (segments o)) 0 (Forall_drop _ _ _ HF)).
    rewrite length_take, length_drop in *. lia.
  - pose proof (fmt_groups_length (segments o) 0 HF). lia.
Qed.

(** A host that is neither an IPv4 address nor in brackets makes no socket
    address, whatever the port. *)
Lemma span_digits_all radix s ds : span_digits radix s = (ds, []) → Forall (λ c, to_digit radix c ≠ None) s.
Proof.
  revert ds. induction s as [|c s IH]; simpl; intros ds H; [constructor|].
  destruct (to_digit radix c) eqn:E; [|done]. destruct (span_digits radix s) as [ds' r']. simplify_eq.
  constructor; [congruence|by eapply IH].
Qed.

Lemma read_port_colon r p : read_port r = Some (p, []) → ∃ r', r = x3a :: r' ∧ x3a ∉ r'.
Proof.
  unfold read_port. intros (r' & ->%read_char_Some & H)%bind_Some. exists r'. split; [done|].
  unfold read_number in H. destruct (span_digits 10 r') as [ds r1] eqn:E.
  assert (r1 = []) as -> by (repeat case_match; simplify_eq; done).
  apply span_digits_all in E. intros Hin. rewrite Forall_forall in E. by apply (E _ Hin).
Qed.

Lemma parse_socket_addr_host_port host p :
  parse_ipv4 host = None → head host ≠ Some x5b → 0 <= p <= u16_max →
  parse_socket_addr (host ++ B ":" ++ show_dec p) = None.
Proof.
  intros H4 Hb Hp. unfold parse_socket_addr, parse_with.
  destruct (read_socket_addr_v4 (host ++ B ":" ++ show_dec p)) as [[a [|]]|] eqn:E; [|done|].
  - exfalso. unfold read_socket_addr_v4 in E. apply bind_Some in E as ([o r] & Ho & E).
    apply bind_Some in E as ([p' r'] & Hr & [= _ ->]). apply read_port_colon in Hr as (r' & -> & Hr').
    pose proof (read_ipv4_length _ _ _ Ho) as Hl. apply read_ipv4_canonical in Ho.
    change (B ":" ++ show_dec p) with (x3a :: show_dec p) in Ho.
    assert (x3a ∉ show_dec p) by (apply show_radix_not_elem; unfold u16_max in *; lia || done).
    pose proof (rfind_app x3a host (show_dec p) ltac:(done)) as R1.
    rewrite Ho, rfind_app in R1 by done. injection R1 as R1.
    apply app_inj_1 in Ho as [-> _]; [|done]. by rewrite parse_show_ipv4 in H4.
  - unfold read_socket_addr_v6. destruct host as [|c host]; [done|]. cbn [app read_char].
    unfold read_char. rewrite decide_False; [done|]. intros ->. by apply Hb.
Qed.
