(* ===== verification/Text.v ===== *)
(** * Text: what the crates use of [str] besides [Std]

    White space and trimming by the Unicode property [White_Space], words,
    lines and fields.  Strings are valid UTF-8, where the bytes of a white-space
    character occur only as that character. *)
From S2P Require Import Prelude Std.
#[local] Open Scope Z_scope.

(** The width of the white-space character at the front, zero if there is
    none. *)
Definition ws_width (s : str) : nat :=
  match s with
  | c :: s =>
      if between 9 13 c || bool_decide (c = x20) then 1
      else
        match s with
        | d :: s =>
            if bool_decide (c = xc2) && (bool_decide (d = x85) || bool_decide (d = xa0)) then 2
            else
              match s with
              | e :: _ =>
                  if bool_decide (c = xe1) && bool_decide (d = x9a) && bool_decide (e = x80)
                     || bool_decide (c = xe2) && bool_decide (d = x80)
                        && (between 0x80 0x8a e || bool_decide (e = xa8) || bool_decide (e = xa9) || bool_decide (e = xaf))
                     || bool_decide (c = xe2) && bool_decide (d = x81) && bool_decide (e = x9f)
                     || bool_decide (c = xe3) && bool_decide (d = x80) && bool_decide (e = x80)
                  then 3 else 0
              | [] => 0
              end
        | [] => 0
        end
  | [] => 0
  end%nat.

(** The same of a reversed string, for its last character. *)
Definition ws_width_end (r : str) : nat :=
  if decide (ws_width (rev (take 1 r)) = 1)%nat then 1
  else if decide (ws_width (rev (take 2 r)) = 2)%nat then 2
  else if decide (ws_width (rev (take 3 r)) = 3)%nat then 3
  else 0.

(** Each round removes a character, so the length is enough fuel. *)
Fixpoint strip_width (width : str → nat) (fuel : nat) (s : str) : str :=
  match fuel, width s with
  | S fuel, S w => strip_width width fuel (drop (S w) s)
  | _, _ => s
  end.

Definition trim_start (s : str) : str := strip_width ws_width (length s) s.
Definition trim_end (s : str) : str := rev (strip_width ws_width_end (length s) (rev s)).
Definition trim (s : str) : str := trim_end (trim_start s).

(** [trim_end_matches] of a set of ASCII characters. *)
Definition trim_end_matches (cs : list byte) (s : str) : str :=
  rev (strip_width (λ r, match r with c :: _ => if bool_decide (c ∈ cs) then 1 else 0 | [] => 0 end)%nat (length s) (rev s)).

(** [cur] is the word that is being read, reversed. *)
Definition flush (cur : str) : list str := if is_empty cur then [] else [rev cur].
Fixpoint words (fuel : nat) (cur s : str) : list str :=
  match fuel, s with
  | S fuel, c :: s' =>
      match ws_width s with
      | O => words fuel (c :: cur) s'
      | w => flush cur ++ words fuel [] (drop w s)
      end
  | _, _ => flush cur
  end.
Definition split_whitespace (s : str) : list str := words (length s) [] s.

(** The first field of [split(c)] and of [rsplit(c)]. *)
Definition before (c : byte) (s : str) : str := match find c s with Some i => take i s | None => s end.
Definition after_last (c : byte) (s : str) : str := match rfind c s with Some i => drop (i + 1) s | None => s end.

(** ** Facts *)

(** No character that is printed is white space. *)
Definition visible (c : byte) : bool := between 33 126 c.

Lemma visible_width c s : visible c = true → ws_width (c :: s) = O.
Proof.
  intros Hc.
  pose proof (byte_forall (λ d, negb (visible d) || (negb (between 9 13 d || bool_decide (d = x20))
    && bool_decide (d ≠ xc2 ∧ d ≠ xe1 ∧ d ≠ xe2 ∧ d ≠ xe3))) ltac:(by vm_compute) c) as H.
  cbn beta in H. rewrite Hc in H. apply andb_prop in H as [H0%negb_true_iff (H1 & H2 & H3 & H4)%bool_decide_eq_true].
  unfold ws_width. rewrite H0.
  destruct s as [|d s]; [done|]. rewrite (bool_decide_false (c = xc2)) by done. cbn [andb].
  destruct s as [|e s]; [done|]. by rewrite (bool_decide_false (c = xe1)), (bool_decide_false (c = xe2)), (bool_decide_false (c = xe3)) by done.
Qed.

Lemma words_visible cur w s fuel :
  forallb visible w = true → (length w ≤ fuel)%nat → words fuel cur (w ++ s) = words (fuel - length w) (rev w ++ cur) s.
Proof.
  revert cur fuel. induction w as [|c w IH]; intros cur fuel Hw Hf; [by rewrite Nat.sub_0_r|].
  cbn [forallb] in Hw. apply andb_prop in Hw as [Hc Hw]. destruct fuel as [|fuel]; [simpl in Hf; lia|].
  cbn [words app]. rewrite visible_width by done. simpl in Hf. rewrite IH by (done || lia).
  cbn [length rev Nat.sub]. by rewrite <-app_assoc.
Qed.

Lemma find_after_last c a s : c ∉ s → after_last c (a ++ c :: s) = s.
Proof.
  intros Hs. unfold after_last. rewrite rfind_app by done. by rewrite <-drop_drop, drop_app_length.
Qed.

Lemma after_last_none c s : c ∉ s → after_last c s = s.
Proof. intros Hs. unfold after_last. apply rfind_None in Hs. by rewrite Hs. Qed.

Lemma before_app c a s : c ∉ a → before c (a ++ c :: s) = a.
Proof. intros Ha. unfold before. rewrite find_app by done. by rewrite take_app_length. Qed.

Lemma strip_width_stop width fuel s : width s = O → strip_width width fuel s = s.
Proof. intros H. destruct fuel; [done|]. cbn [strip_width]. by rewrite H. Qed.

(** Trimming removes an end of the string. *)
Lemma strip_width_suffix width fuel s : ∃ a, s = a ++ strip_width width fuel s.
Proof.
  revert s. induction fuel as [|fuel IH]; intros s; cbn [strip_width]; [by exists []|].
  destruct (width s) as [|w]; [by exists []|]. destruct (IH (drop (S w) s)) as [a Ha].
  exists (take (S w) s ++ a). rewrite <-app_assoc, <-Ha. by rewrite take_drop.
Qed.

Lemma trim_end_matches_prefix cs s : ∃ a, s = trim_end_matches cs s ++ a.
Proof.
  unfold trim_end_matches. edestruct strip_width_suffix as [a Ha]. exists (rev a).
  rewrite <-rev_app_distr, <-Ha. by rewrite rev_involutive.
Qed.

(** *** UTF-8 of parts *)
Lemma ascii_not_second c d :
  is_ascii d = true → is_cont d = false ∧ second3_ok c d = false ∧ second4_ok c d = false.
Proof.
  unfold is_ascii, second3_ok, second4_ok, is_cont, between. intros Hd%Z.ltb_lt.
  assert (∀ lo hi, 128 <= lo → (lo <=? u8 d) && (u8 d <=? hi) = false) as H.
  { intros lo hi Hlo. apply andb_false_iff. left. lia. }
  split_and!; repeat case_match; apply H; lia.
Qed.

Lemma utf8_valid_unfold c s1 :
  utf8_valid (c :: s1) =
  match utf8_width c, s1 with
  | 1%nat, _ => utf8_valid s1
  | 2%nat, d :: s2 => is_cont d && utf8_valid s2
  | 3%nat, d :: e :: s3 => second3_ok c d && is_cont e && utf8_valid s3
  | 4%nat, d :: e :: f :: s4 => second4_ok c d && is_cont e && is_cont f && utf8_valid s4
  | _, _ => false
  end.
Proof. done. Qed.

Lemma utf8_valid_app_ascii s t : forallb is_ascii t = true → utf8_valid (s ++ t) = utf8_valid s.
Proof.
  intros Ht. assert (∀ d t', t = d :: t' → is_ascii d = true) as Hd by (intros d t' ->; by apply andb_prop in Ht as [? _]).
  induction s as [s IH] using str_strong_ind.
  destruct s as [|c [|d [|e [|f s]]]]; cbn [app].
  - by apply utf8_valid_ascii.
  - pose proof (utf8_valid_ascii t Ht) as Hv. rewrite !(utf8_valid_unfold c).
    destruct (utf8_width c) as [|[|[|[|[|]]]]], t as [|x [|y [|z t]]]; try done;
      destruct (ascii_not_second c x) as (H1 & H2 & H3); try (by eapply Hd); by rewrite ?H1, ?H2, ?H3.
  - rewrite !(utf8_valid_unfold c). pose proof (IH [d] ltac:(simpl; lia)) as Hs. cbn [app] in Hs.
    destruct (utf8_width c) as [|[|[|[|[|]]]]] eqn:E; try done.
    + destruct (is_cont d); [|done]. by apply utf8_valid_ascii.
    + destruct t as [|x t]; [done|]. destruct (ascii_not_second c x) as (H1 & _); [by eapply Hd|].
      by rewrite H1, andb_false_r.
    + destruct t as [|x [|y t]]; [done..|]. destruct (ascii_not_second c x) as (H1 & _); [by eapply Hd|].
      by rewrite H1, andb_false_r.
  - rewrite !(utf8_valid_unfold c). pose proof (IH [d; e] ltac:(simpl; lia)) as Hs. pose proof (IH [e] ltac:(simpl; lia)) as Hs1. cbn [app] in Hs, Hs1.
    destruct (utf8_width c) as [|[|[|[|[|]]]]] eqn:E; try done.
    + by rewrite Hs1.
    + by rewrite (utf8_valid_ascii t Ht).
    + destruct t as [|x t]; [done|]. destruct (ascii_not_second c x) as (H1 & _); [by eapply Hd|].
      by rewrite H1, andb_false_r.
  - rewrite !(utf8_valid_unfold c). pose proof (IH (d :: e :: f :: s) ltac:(simpl; lia)) as H1. pose proof (IH (e :: f :: s) ltac:(simpl; lia)) as H2.
    pose proof (IH (f :: s) ltac:(simpl; lia)) as H3. pose proof (IH s ltac:(simpl; lia)) as H4. cbn [app] in H1, H2, H3.
    destruct (utf8_width c) as [|[|[|[|[|]]]]]; try done; by rewrite ?H1, ?H2, ?H3, ?H4.
Qed.

Lemma utf8_valid_app s t : utf8_valid s = true → utf8_valid t = true → utf8_valid (s ++ t) = true.
Proof.
  intros Hs Ht. induction s as [s IH] using str_strong_ind. destruct s as [|c s]; [done|].
  change ((c :: s) ++ t) with (c :: (s ++ t)). rewrite utf8_valid_unfold in *. destruct (utf8_width c) as [|[|[|[|[|]]]]]; try done.
  - apply IH; [simpl; lia|done].
  - destruct s as [|d s]; [done|]. cbn [app]. apply andb_true_iff in Hs as [-> Hs]. apply IH; [simpl; lia|done].
  - destruct s as [|d [|e s]]; [done..|]. cbn [app]. apply andb_true_iff in Hs as [-> Hs]. apply IH; [simpl; lia|done].
  - destruct s as [|d [|e [|f s]]]; [done..|]. cbn [app]. apply andb_true_iff in Hs as [-> Hs]. apply IH; [simpl; lia|done].
Qed.

(** Replacing ASCII characters by ASCII characters. *)
Lemma utf8_valid_fmap (f : byte → byte) s :
  (∀ c, is_ascii c = true → is_ascii (f c) = true) → (∀ c, is_ascii c = false → f c = c) →
  utf8_valid (f <$> s) = utf8_valid s.
Proof.
  intros Ha Hn.
  assert (∀ c d, is_cont (f d) = is_cont d ∧ second3_ok c (f d) = second3_ok c d ∧ second4_ok c (f d) = second4_ok c d) as Hs.
  { intros c d. destruct (is_ascii d) eqn:E; [|by rewrite Hn].
    destruct (ascii_not_second c d E) as (-> & -> & ->). by destruct (ascii_not_second c (f d) (Ha d E)) as (-> & -> & ->). }
  induction s as [s IH] using str_strong_ind. destruct s as [|c s]; [done|]. rewrite fmap_cons, !utf8_valid_unfold.
  assert (utf8_width (f c) = utf8_width c ∧ ∀ d, second3_ok (f c) d = second3_ok c d ∧ second4_ok (f c) d = second4_ok c d ∨ utf8_width c = 1%nat)
    as [Hw Hc].
  { destruct (is_ascii c) eqn:E; [|rewrite Hn by done; auto].
    assert (∀ c, is_ascii c = true → utf8_width c = 1%nat) as H1 by (intros c' H'; unfold utf8_width; by rewrite H').
    rewrite !H1 by auto. auto. }
  rewrite Hw. destruct (utf8_width c) as [|[|[|[|[|]]]]] eqn:E; try done.
  - apply IH. simpl; lia.
  - destruct s as [|d s]; [done|]. rewrite fmap_cons. destruct (Hs c d) as (-> & _). by rewrite IH by (simpl; lia).
  - destruct s as [|d [|e s]]; [done..|]. rewrite !fmap_cons. destruct (Hs c d) as (_ & H3 & _), (Hs c e) as (-> & _).
    destruct (Hc (f d)) as [[-> _]|]; [|done]. rewrite H3. by rewrite IH by (simpl; lia).
  - destruct s as [|d [|e [|g s]]]; [done..|]. rewrite !fmap_cons.
    destruct (Hs c d) as (_ & _ & H4), (Hs c e) as (-> & _), (Hs c g) as (-> & _).
    destruct (Hc (f d)) as [[_ ->]|]; [|done]. rewrite H4. by rewrite IH by (simpl; lia).
Qed.

(** *** Trimming *)

(** A visible first character is not trimmed away. *)
Lemma strip_end_keeps_first c fuel r :
  visible c = true → ∃ r', strip_width ws_width_end fuel (r ++ [c]) = r' ++ [c].
Proof.
  intros Hc. revert r. induction fuel as [|fuel IH]; intros r; cbn [strip_width]; [by exists r|].
  destruct (ws_width_end (r ++ [c])) as [|w] eqn:E; [by exists r|].
  assert (∀ n, (length r < n)%nat → ws_width (rev (take n (r ++ [c]))) = O) as Hall.
  { intros n Hn. rewrite take_ge by (rewrite length_app; simpl; lia). rewrite rev_app_distr. by apply visible_width. }
  assert (S w ≤ length r)%nat as Hw.
  { destruct (decide (S w ≤ length r)%nat) as [|Hlt]; [done|]. exfalso. unfold ws_width_end in E.
    destruct (decide (ws_width (rev (take 1 (r ++ [c]))) = 1)%nat) as [H1|_].
    { injection E as <-. rewrite Hall in H1 by lia. done. }
    destruct (decide (ws_width (rev (take 2 (r ++ [c]))) = 2)%nat) as [H2|_].
    { injection E as <-. rewrite Hall in H2 by lia. done. }
    destruct (decide (ws_width (rev (take 3 (r ++ [c]))) = 3)%nat) as [H3|_]; [|done].
    injection E as <-. rewrite Hall in H3 by lia. done. }
  rewrite drop_app_le by done. apply IH.
Qed.

Lemma trim_visible c s : visible c = true → ∃ s', trim (c :: s) = c :: s'.
Proof.
  intros Hc. unfold trim, trim_start. rewrite strip_width_stop by by apply visible_width.
  unfold trim_end. cbn [rev]. destruct (strip_end_keeps_first c (length (c :: s)) (rev s) Hc) as [r' ->].
  rewrite rev_app_distr. by exists (rev r').
Qed.

Lemma trim_all_visible s : forallb visible s = true → trim s = s.
Proof.
  intros Hs. assert (∀ t, forallb visible t = true → ws_width t = O) as Hw.
  { intros [|c t]; [done|]. cbn [forallb]. intros [Hc _]%andb_prop. by apply visible_width. }
  unfold trim, trim_start. rewrite (strip_width_stop ws_width) by by apply Hw.
  unfold trim_end. rewrite strip_width_stop; [by rewrite rev_involutive|].
  assert (∀ n, ws_width (rev (take n (rev s))) = O) as Hn.
  { intros n. apply Hw, List.forallb_forall. intros c Hc. apply List.in_rev in Hc. rewrite List.forallb_forall in Hs. apply Hs.
    apply List.in_rev. rewrite <-(take_drop n (rev s)). apply List.in_or_app. by left. }
  unfold ws_width_end. by rewrite !Hn.
Qed.

(** *** Trimming twice *)
Lemma strip_width_done width fuel s : width [] = O → (length s ≤ fuel)%nat → width (strip_width width fuel s) = O.
Proof.
  intros Hn. revert s. induction fuel as [|fuel IH]; intros s Hl; cbn [strip_width].
  - by destruct s; [|simpl in Hl; lia].
  - destruct (width s) as [|w] eqn:E; [done|]. apply IH. destruct s as [|c s]; [congruence|]. rewrite length_drop. simpl in *. lia.
Qed.

Lemma ws_width_prefix a b : ws_width (a ++ b) = O → ws_width a = O.
Proof.
  destruct a as [|c [|d [|e a]]]; cbn [app]; [done| | |done].
  - unfold ws_width. by destruct (between 9 13 c || _).
  - unfold ws_width. destruct (between 9 13 c || _); [done|]. by destruct (bool_decide (c = xc2) && _).
Qed.

Lemma trim_end_prefix s : ∃ a, s = trim_end s ++ a.
Proof.
  unfold trim_end. edestruct (strip_width_suffix ws_width_end (length s) (rev s)) as [a Ha]. exists (rev a).
  rewrite <-rev_app_distr, <-Ha. by rewrite rev_involutive.
Qed.

Lemma trim_idem s : trim (trim s) = trim s.
Proof.
  unfold trim. set (r := trim_start s). assert (ws_width r = O) as Hr by by apply strip_width_done.
  destruct (trim_end_prefix r) as [a Ha]. assert (ws_width (trim_end r) = O) as Hw.
  { apply (ws_width_prefix _ a). by rewrite <-Ha. }
  unfold trim_start at 1. rewrite strip_width_stop by done. unfold trim_end at 1.
  rewrite strip_width_stop; [by rewrite rev_involutive|]. unfold trim_end. rewrite rev_involutive. apply strip_width_done; [done|].
  by rewrite length_rev.
Qed.

(** A line end is trimmed off a text that does not end in one of its
    characters. *)
Lemma trim_end_matches_app cs text eol :
  forallb (λ c, bool_decide (c ∈ cs)) eol = true → (∀ c, last text = Some c → c ∉ cs) →
  trim_end_matches cs (text ++ eol) = text.
Proof.
  intros He Hl. unfold trim_end_matches. rewrite rev_app_distr.
  assert (∀ fuel r, forallb (λ c, bool_decide (c ∈ cs)) r = true → (length r ≤ fuel)%nat →
    strip_width (λ r, match r with c :: _ => if bool_decide (c ∈ cs) then 1 else 0 | [] => 0 end)%nat fuel (r ++ rev text) = rev text) as H.
  { intros fuel r. revert fuel. induction r as [|c r IH]; intros fuel Hr Hf.
    - apply strip_width_stop. cbn [app]. destruct (rev text) as [|c r] eqn:E; [done|].
      rewrite bool_decide_false; [done|]. apply Hl. rewrite <-(rev_involutive text), E. cbn [rev]. by rewrite last_snoc.
    - cbn [forallb] in Hr. apply andb_prop in Hr as [Hc Hr]. destruct fuel as [|fuel]; [simpl in Hf; lia|].
      cbn [strip_width app]. rewrite Hc. cbn [drop]. apply IH; [done|]. simpl in Hf. lia. }
  rewrite H; [by rewrite rev_involutive| |].
  - apply List.forallb_forall. intros c Hc. rewrite List.forallb_forall in He. by apply He, List.in_rev.
  - rewrite length_rev, length_app. lia.
Qed.

(** *** Words *)
Lemma split_words_space a s fuel :
  forallb visible a = true → a ≠ [] → (length a < fuel)%nat →
  words fuel [] (a ++ B " " ++ s) = a :: words (fuel - length a - 1) [] s.
Proof.
  intros Ha Hn Hf. rewrite words_visible by (done || lia). rewrite app_nil_r.
  destruct (fuel - length a)%nat as [|k] eqn:E; [lia|]. change (B " " ++ s) with (x20 :: s). cbn [words].
  change (ws_width (x20 :: s)) with 1%nat. cbn [drop]. unfold flush. rewrite rev_involutive.
  destruct (rev a) eqn:Er; [apply (f_equal (@length _)) in Er; rewrite length_rev in Er; by destruct a|].
  cbn [is_empty app]. by replace (S k - 1)%nat with k by lia.
Qed.

Lemma split_three_words a b c :
  forallb visible a = true → forallb visible b = true → forallb visible c = true → a ≠ [] → b ≠ [] → c ≠ [] →
  split_whitespace (a ++ B " " ++ b ++ B " " ++ c ++ [x0d; x0a]) = [a; b; c].
Proof.
  intros Ha Hb Hc Hna Hnb Hnc. unfold split_whitespace. rewrite !length_app.
  rewrite split_words_space by (done || (simpl; lia)). f_equal.
  rewrite split_words_space by (done || (simpl; lia)). f_equal.
  rewrite words_visible by (done || (simpl; lia)). rewrite app_nil_r.
  set (k := (_ - length c)%nat). assert (k = 2)%nat as -> by (unfold k; simpl; lia). cbn.
  unfold flush. destruct (rev c) eqn:Er; [apply (f_equal (@length _)) in Er; rewrite length_rev in Er; by destruct c|].
  cbn [is_empty app]. by rewrite <-Er, rev_involutive.
Qed.

Example trim_ex : trim (B "  a b" ++ [x09; xe2; x80; x83; x0d; x0a]) = B "a b".
Proof. reflexivity. Qed.
Example words_ex : split_whitespace (B " GET  /x HTTP/1.1" ++ [x0d; x0a]) = [B "GET"; B "/x"; B "HTTP/1.1"].
Proof. reflexivity. Qed.

Lemma show_dec_visible p : 0 <= p <= u16_max → forallb visible (show_dec p) = true.
Proof.
  intros Hp. pose proof (show_dec_digits p ltac:(unfold u16_max in *; lia)) as Hd.
  apply List.forallb_forall. rewrite List.Forall_forall in Hd. intros c Hc%Hd.
  pose proof (byte_forall (λ d, negb (is_ascii_digit d) || visible d) ltac:(by vm_compute) c) as H. cbn beta in H. by rewrite Hc in H.
Qed.

Lemma show_dec_trim z : 0 <= z < 10 ^ 64 → trim (show_dec z) = show_dec z.
Proof.
  intros Hz. apply trim_all_visible, List.forallb_forall. pose proof (show_dec_digits z Hz) as Hd. rewrite List.Forall_forall in Hd. intros c Hc%Hd.
  pose proof (byte_forall (λ d, negb (is_ascii_digit d) || visible d) ltac:(by vm_compute) c) as H. cbn beta in H. by rewrite Hc in H.
Qed.
