(* ===== verification/Consts.v ===== *)
(** * [common/src/consts.rs]

    Durations are in milliseconds, sizes in bytes. *)
From S2P Require Import Prelude.
#[local] Open Scope Z_scope.

Definition secs (n : Z) : Z := n * 1000.

Definition DEFAULT_DIAL_TIMEOUT : Z := secs 10.
Definition DEFAULT_NAT_TIMEOUT : Z := secs 180.
Definition DNS_QUERY_TIMEOUT : Z := secs 17.
Definition ETHERNET_MTU : Z := 1500.
Definition MAX_UDP_PAYLOAD : Z := 65535.
Definition AUTHENTICATE_TIMEOUT : Z := secs 10.
Definition IN_FLIGHT_UNDERLAY_TTL : Z := secs 10.
Definition IN_FLIGHT_UNDERLAY_EVICT_TIMEOUT : Z := 100.
Definition DEFAULT_CWND : Z := 10.
Definition MAX_OPEN_INCOMING_STREAMS : Z := 512.
Definition KEEP_ALIVE_PERIOD : Z := secs 10.
Definition QUIC_STREAM_RECEIVE_WINDOW : Z := 1024 * 1024.
Definition QUIC_CONNECTION_RECEIVE_WINDOW : Z := 16 * 1024 * 1024.
Definition QUIC_SEND_WINDOW : Z := 16 * 1024 * 1024.
Definition JUICIY_VERSION_0 : Z := 0.
Definition UNDERLAY_SALT_LEN : nat := 32.
Definition MAX_UDP_DNS_CACHE : nat := 256.
Definition UDP_DNS_CACHE_TTL : Z := secs 300.
Definition MAX_CONCURRENT_TCP_CONNECTIONS : nat := 256.
Definition MAX_IN_FLIGHT_UNDERLAY_ENTRIES : nat := 10 * 1000.
Definition MAX_UDP_ENDPOINTS : nat := 5 * 1000.
Definition MAX_UNDERLAY_SESSIONS : nat := 5 * 1000.
Definition MAX_UNDERLAY_HANDLER_CONCURRENCY : nat := 1024.
Definition MAX_QUIC_IDLE_TIMEOUT : Z := secs 600.
Definition TCP_RELAY_IDLE_TIMEOUT : Z := secs 600.
Definition UNDERLAY_SESSION_CLEANUP_INTERVAL : Z := secs 3.
Definition CLIENT_UDP_SESSION_CLEANUP_INTERVAL : Z := secs 5.
Definition CLIENT_UDP_SESSION_IDLE_TIMEOUT : Z := secs 180.

(** Capacities are never unfolded by simplification. *)
#[global] Opaque MAX_IN_FLIGHT_UNDERLAY_ENTRIES MAX_UDP_ENDPOINTS MAX_UNDERLAY_SESSIONS.
