(* ===== verification/Protocol.v ===== *)
(** * [common/src/protocol.rs]: the wire format

    Command heads and authentication, proxy headers, per-datagram [trojanc]
    address headers and the underlay authentication message.  A writer is a
    function to the bytes it writes, a reader a [reader]; the blocking and the
    [async] variants of a reader in the source are the same function here. *)
From S2P Require Import Prelude Std Net Consts.
#[local] Open Scope Z_scope.

Inductive ProtocolError :=
  | AuthenticationFailed
  | UnexpectedVersion (v : byte)
  | UnexpectedCmdType (c : byte)
  | UnexpectedNetwork (n : byte)
  | UnsupportedAddressType (t : byte).

Inductive Network := Tcp | Udp.

(** A 128-bit UUID is its 16 bytes. *)
Abbreviation Uuid := str.
Definition Uuid_nil : Uuid := replicate 16 x00.

Record ProxyMetadata := mkProxyMetadata {
  network : Network;
  hostname : str;
  metadata_port : Z;
  metadata_uuid : Uuid;
}.

Definition target_addr (m : ProxyMetadata) : str :=
  hostname m ++ B ":" ++ show_dec (metadata_port m).

Record UnderlayAuth := mkUnderlayAuth {
  iv : str;
  psk : str;
  metadata : ProxyMetadata;
  auth_uuid : Uuid;
}.

Abbreviation Token := str.

(** ** Type codes *)
Definition AUTHENTICATE_TYPE : byte := x00.
Definition CONNECT_TYPE : byte := x01.
Definition PACKET_TYPE : byte := x02.
Definition DISSOCIATE_TYPE : byte := x03.
Definition HEARTBEAT_TYPE : byte := x04.

Definition NETWORK_TCP : byte := x01.
Definition NETWORK_UDP : byte := x03.

Definition ADDR_TYPE_IPV4 : byte := x01.
Definition ADDR_TYPE_IPV6 : byte := x04.
Definition ADDR_TYPE_DOMAIN : byte := x03.
Definition ADDR_TYPE_NONE : byte := xff.

Definition TROJAN_METADATA_TYPE_IPV4 : byte := ADDR_TYPE_IPV4.
Definition TROJAN_METADATA_TYPE_MSG : byte := x02.
Definition TROJAN_METADATA_TYPE_DOMAIN : byte := ADDR_TYPE_DOMAIN.
Definition TROJAN_METADATA_TYPE_IPV6 : byte := ADDR_TYPE_IPV6.
Definition UNDERLAY_PSK_LEN : nat := 32.

Definition PROTOCOL_VERSION : byte := x00.

Definition network_to_wire_byte (n : Network) : byte :=
  match n with Tcp => NETWORK_TCP | Udp => NETWORK_UDP end.

Definition network_from_wire_byte (c : byte) : option Network :=
  if decide (c = NETWORK_TCP) then Some Tcp
  else if decide (c = NETWORK_UDP) then Some Udp else None.

Inductive AddrType := AT_V4 | AT_V6 | AT_Domain.

Definition addr_type_from_host (host : str) : AddrType :=
  if contains x3a host then AT_V6
  else match parse_ipv4 host with Some _ => AT_V4 | None => AT_Domain end.

Definition addr_type_to_wire_byte (t : AddrType) : byte :=
  match t with AT_V4 => ADDR_TYPE_IPV4 | AT_V6 => ADDR_TYPE_IPV6 | AT_Domain => ADDR_TYPE_DOMAIN end.

(** ** Cached addresses

    [host_bytes] is the 255-byte buffer, [host_len] its used prefix; zero marks
    an invalid host. *)
Record CachedAddr := mkCachedAddr {
  addr_type : AddrType;
  host_bytes : str;
  host_len : Z;
  cached_port : Z;
}.

(** [buf[..bs.len()].copy_from_slice(bs)]. *)
Definition copy_to_front (bs buf : str) : str := bs ++ drop (length bs) buf.

Definition from_host_port (host : str) (port : Z) : CachedAddr :=
  let ty := addr_type_from_host host in
  let zeros := replicate 255 x00 in
  let '(hb, len) :=
    match ty with
    | AT_V4 => match parse_ipv4 host with
               | Some o => (copy_to_front o zeros, 4)
               | None => (zeros, 0)
               end
    | AT_V6 => match parse_ipv6 host with
               | Some o => (copy_to_front o zeros, 16)
               | None => (zeros, 0)
               end
    | AT_Domain =>
        let len := Z.of_nat (length host) in
        if (len <=? 255) && (0 <? len) then (copy_to_front host zeros, len) else (zeros, 0)
    end in
  mkCachedAddr ty hb len port.

Definition from_socket_addr (a : SocketAddr) : CachedAddr :=
  let zeros := replicate 255 x00 in
  match ip a with
  | V4 o => mkCachedAddr AT_V4 (copy_to_front o zeros) 4 (port a)
  | V6 o => mkCachedAddr AT_V6 (copy_to_front o zeros) 16 (port a)
  end.

(** [build_trojanc_addr_cached] appends to [buf]; an error leaves it unchanged,
    so it is returned without a buffer. *)
Definition build_trojanc_addr_cached (buf : str) (cached : CachedAddr) : result str :=
  _ ← ensure (match addr_type cached with
              | AT_V4 => host_len cached =? 4
              | AT_V6 => host_len cached =? 16
              | AT_Domain => 0 <? host_len cached
              end) (EMsg (B "invalid cached host"));
  let buf := buf ++ [addr_type_to_wire_byte (addr_type cached)] in
  let buf :=
    match addr_type cached with
    | AT_V4 => buf ++ take 4 (host_bytes cached)
    | AT_V6 => buf ++ take 16 (host_bytes cached)
    | AT_Domain =>
        buf ++ [byte_of (host_len cached)] ++ take (Z.to_nat (host_len cached)) (host_bytes cached)
    end in
  Ok (buf ++ to_be16 (cached_port cached)).

Definition build_trojanc_addr (addr : str) (port : Z) : result str :=
  build_trojanc_addr_cached [] (from_host_port addr port).

(** ** Readers

    The [_async] readers of the source perform the reads of the blocking ones. *)
Definition read_u16 : reader Z :=
  hi ← read_byte; lo ← read_byte; mret (from_be16 hi lo).

Definition read_command_head : reader (byte * byte) :=
  v ← read_byte; c ← read_byte; mret (v, c).
Definition read_command_head_async : reader (byte * byte) := read_command_head.

Definition read_authenticate : reader (Uuid * Token) :=
  uuid ← read_exact 16; token ← read_exact 32; mret (uuid, token).
Definition read_authenticate_async : reader (Uuid * Token) := read_authenticate.

(** The address arms shared by the two [trojanc] readers. *)
Definition read_trojanc_host (t : byte) : reader str :=
  if decide (t = ADDR_TYPE_IPV4) then o ← read_exact 4; mret (show_ipv4 o)
  else if decide (t = ADDR_TYPE_IPV6) then o ← read_exact 16; mret (show_ipv6 o)
  else if decide (t = ADDR_TYPE_DOMAIN) then
    l ← read_byte;
    let len := Z.to_nat (u8 l) in
    _ ← lift (ensure (0 <? u8 l) (EMsg (B "trojanc domain length is zero")));
    domain ← read_exact len;
    mret (from_utf8_lossy domain)
  else fail (EMsg (B "unknown trojanc address type: " ++ show_dec (u8 t))).

Definition read_trojanc_addr_async : reader (str * Z) :=
  t ← read_byte;
  addr ← read_trojanc_host t;
  port ← read_u16;
  mret (addr, port).

(** The [String] buffer [host] is written once the address bytes are read, so
    it is part of the result on the error paths too. *)
Definition read_trojanc_addr_into_async (host s : str) : str * result (Z * str) :=
  match read_byte s with
  | Err e => (host, Err e)
  | Ok (t, s) =>
      match read_trojanc_host t s with
      | Err e => (host, Err e)
      | Ok (host, s) => (host, read_u16 s)
      end
  end.

(** ** Proxy headers *)
Definition read_proxy_host (t : byte) : reader str :=
  if decide (t = ADDR_TYPE_IPV4) then o ← read_exact 4; mret (show_ipv4 o)
  else if decide (t = ADDR_TYPE_IPV6) then o ← read_exact 16; mret (show_ipv6 o)
  else if decide (t = ADDR_TYPE_DOMAIN) then
    l ← read_byte;
    domain ← read_exact (Z.to_nat (u8 l));
    mret (from_utf8_lossy domain)
  else if decide (t = ADDR_TYPE_NONE) then mret []
  else fail (EMsg (B "unknown address type: " ++ show_dec (u8 t))).

Definition read_proxy_header : reader (byte * str * Z) :=
  network ← read_byte;
  t ← read_byte;
  addr ← read_proxy_host t;
  port ← (if decide (t = ADDR_TYPE_NONE) then mret 0 else read_u16);
  mret (network, addr, port).
Definition read_proxy_header_async : reader (byte * str * Z) := read_proxy_header.

Definition build_proxy_header (network : byte) (addr : str) (port : Z) : result str :=
  let addr_type :=
    if is_empty addr then ADDR_TYPE_NONE
    else if contains x3a addr then ADDR_TYPE_IPV6
    else if bool_decide (is_Some (parse_ipv4 addr)) then ADDR_TYPE_IPV4
    else ADDR_TYPE_DOMAIN in
  let buf := [network; addr_type] in
  buf ←
    (if decide (addr_type = ADDR_TYPE_IPV4) then
       o ← ok_or (parse_ipv4 addr) EAddrParse; Ok (buf ++ o)
     else if decide (addr_type = ADDR_TYPE_IPV6) then
       o ← ok_or (parse_ipv6 addr) EAddrParse; Ok (buf ++ o)
     else if decide (addr_type = ADDR_TYPE_DOMAIN) then
       let len := Z.of_nat (length addr) in
       _ ← ensure (len <=? 255) (EMsg (B "proxy host too long: " ++ show_dec len));
       Ok (buf ++ [byte_of len] ++ addr)
     else Ok buf);
  Ok (if decide (addr_type = ADDR_TYPE_NONE) then buf else buf ++ to_be16 port).

(** ** Underlay authentication

    A writer is the bytes it wrote before it returned, and its result. *)
Definition write_underlay_metadata_async (m : ProxyMetadata) : str * result unit :=
  match parse_ipv4 (hostname m) with
  | Some o => ([TROJAN_METADATA_TYPE_IPV4] ++ o ++ to_be16 (metadata_port m), Ok tt)
  | None =>
      match parse_ipv6 (hostname m) with
      | Some o => ([TROJAN_METADATA_TYPE_IPV6] ++ o ++ to_be16 (metadata_port m), Ok tt)
      | None =>
          let len := Z.of_nat (length (hostname m)) in
          if 255 <? len then ([], Err (EMsg (B "underlay host too long: " ++ show_dec len)))
          else ([TROJAN_METADATA_TYPE_DOMAIN] ++ [byte_of len] ++ hostname m
                  ++ to_be16 (metadata_port m), Ok tt)
      end
  end.

Definition read_underlay_metadata_async : reader (str * Z) :=
  t ← read_byte;
  if decide (t = TROJAN_METADATA_TYPE_IPV4) then
    o ← read_exact 4; port ← read_u16; mret (show_ipv4 o, port)
  else if decide (t = TROJAN_METADATA_TYPE_IPV6) then
    o ← read_exact 16; port ← read_u16; mret (show_ipv6 o, port)
  else if decide (t = TROJAN_METADATA_TYPE_DOMAIN) then
    l ← read_byte;
    if u8 l =? 0 then fail (EMsg (B "underlay metadata domain length is zero"))
    else
      domain ← read_exact (Z.to_nat (u8 l)); port ← read_u16;
      mret (from_utf8_lossy domain, port)
  else if decide (t = TROJAN_METADATA_TYPE_MSG) then
    _ ← read_byte; fail (EMsg (B "underlay metadata message type is not supported"))
  else fail (EMsg (B "unknown underlay metadata type: " ++ show_dec (u8 t))).

Definition write_underlay_auth_async (auth : UnderlayAuth) : str * result unit :=
  if negb (Nat.eqb (length (psk auth)) UNDERLAY_PSK_LEN) then
    (iv auth, Err (EMsg (B "invalid underlay psk length: expected 32, got "
                           ++ show_dec (Z.of_nat (length (psk auth))))))
  else
    let '(bs, r) := write_underlay_metadata_async (metadata auth) in
    (iv auth ++ psk auth ++ bs, r).

Definition read_underlay_auth_async : reader UnderlayAuth :=
  iv ← read_exact 32;
  psk ← read_exact UNDERLAY_PSK_LEN;
  hp ← read_underlay_metadata_async;
  mret (mkUnderlayAuth iv psk (mkProxyMetadata Udp hp.1 hp.2 Uuid_nil) Uuid_nil).

(** ** Tokens

    [export_keying_material label context] is the TLS exporter (RFC 5705) of
    the connection, filling 32 bytes. *)
Definition gen_token_via_connection (export_keying_material : str → str → result str)
    (uuid : Uuid) (password : str) : result Token :=
  match export_keying_material uuid password with
  | Ok token => Ok token
  | Err _ => Err (EMsg (B "export_keying_material failed"))
  end.

(** ** The address codec

    What the three header formats encode: an address is four octets, sixteen
    octets or a domain of 1 to 255 bytes. *)
Inductive Address :=
  | ADIpv4 (o : str)
  | ADIpv6 (o : str)
  | ADDomain (d : str).

Definition address_wf (a : Address) : Prop :=
  match a with
  | ADIpv4 o => length o = 4%nat
  | ADIpv6 o => length o = 16%nat
  | ADDomain d => (0 < length d ≤ 255)%nat
  end.

Definition address_of (host : str) : option Address :=
  if contains x3a host then ADIpv6 <$> parse_ipv6 host
  else match parse_ipv4 host with
       | Some o => Some (ADIpv4 o)
       | None => if bool_decide (0 < length host ≤ 255)%nat then Some (ADDomain host) else None
       end.

Definition encode_address (a : Address) : str :=
  match a with
  | ADIpv4 o => ADDR_TYPE_IPV4 :: o
  | ADIpv6 o => ADDR_TYPE_IPV6 :: o
  | ADDomain d => ADDR_TYPE_DOMAIN :: byte_of (Z.of_nat (length d)) :: d
  end.

Definition address_host (a : Address) : str :=
  match a with
  | ADIpv4 o => show_ipv4 o
  | ADIpv6 o => show_ipv6 o
  | ADDomain d => from_utf8_lossy d
  end.

(** The text under which a host comes back. *)
Definition canonical_host (host : str) : str :=
  match parse_ipv6 host with Some o => show_ipv6 o | None => host end.

Lemma parse_ipv6_no_colon host : contains x3a host = false → parse_ipv6 host = None.
Proof.
  intros H%contains_false. destruct (parse_ipv6 host) eqn:E; [|done]. by apply parse_ipv6_colon in E.
Qed.

Lemma address_of_wf host a : address_of host = Some a → address_wf a.
Proof.
  unfold address_of. case_match.
  - intros (o & Ho%parse_ipv6_length & ->)%fmap_Some. done.
  - case_match eqn:E; [intros [= <-]; by eapply parse_ipv4_length|].
    case_bool_decide; [intros [= <-]; simpl; lia|done].
Qed.

Lemma address_of_host host a :
  utf8_valid host = true → address_of host = Some a → address_host a = canonical_host host.
Proof.
  unfold address_of, canonical_host. intros Hv. destruct (contains x3a host) eqn:E.
  - by intros (o & -> & ->)%fmap_Some.
  - rewrite parse_ipv6_no_colon by done. case_match eqn:E4.
    + intros [= <-]. by apply parse_ipv4_canonical.
    + case_bool_decide; [|done]. intros [= <-]. by apply from_utf8_lossy_valid.
Qed.

Lemma read_u16_be p r : 0 <= p <= u16_max → read_u16 (to_be16 p ++ r) = Ok (p, r).
Proof.
  intros Hp. unfold read_u16, to_be16. simpl. read_steps. unfold mret, reader_ret.
  by rewrite from_to_be16.
Qed.

Lemma read_exact_be n a s :
  length a = n → read_exact n (a ++ s) = Ok (a, s).
Proof. apply read_exact_app. Qed.

Lemma byte_of_length (d : str) :
  (length d ≤ 255)%nat → Z.to_nat (u8 (byte_of (Z.of_nat (length d)))) = length d.
Proof. intros H. rewrite byte_of_small by lia. lia. Qed.

(** Decide the comparisons of a known type byte. *)
Ltac type_code := repeat first [rewrite decide_True by done | rewrite decide_False by done].

(** Each reader's address arm decodes the bytes of [encode_address]. *)
Lemma read_trojanc_host_encode a t bs r :
  address_wf a → encode_address a = t :: bs → read_trojanc_host t (bs ++ r) = Ok (address_host a, r).
Proof.
  unfold read_trojanc_host. destruct a as [o|o|d]; simpl; intros Hwf [= <- <-]; type_code.
  - by rewrite (bind_ok _ _ _ _ _ (read_exact_app 4 o r Hwf)).
  - by rewrite (bind_ok _ _ _ _ _ (read_exact_app 16 o r Hwf)).
  - cbn [app]. rewrite bind_ok with (1 := read_byte_cons _ _). rewrite byte_of_length by lia.
    rewrite byte_of_small by lia. destruct (Z.ltb_spec 0 (Z.of_nat (length d))); [|lia].
    rewrite bind_ok with (a := tt) (s' := d ++ r) by done.
    by rewrite (bind_ok _ _ _ _ _ (read_exact_app _ d r eq_refl)).
Qed.

Lemma read_proxy_host_encode a t bs r :
  address_wf a → encode_address a = t :: bs → read_proxy_host t (bs ++ r) = Ok (address_host a, r).
Proof.
  unfold read_proxy_host. destruct a as [o|o|d]; simpl; intros Hwf [= <- <-]; type_code.
  - by rewrite (bind_ok _ _ _ _ _ (read_exact_app 4 o r Hwf)).
  - by rewrite (bind_ok _ _ _ _ _ (read_exact_app 16 o r Hwf)).
  - cbn [app]. rewrite bind_ok with (1 := read_byte_cons _ _). rewrite byte_of_length by lia.
    by rewrite (bind_ok _ _ _ _ _ (read_exact_app _ d r eq_refl)).
Qed.

Lemma encode_address_type a t bs :
  encode_address a = t :: bs → t = ADDR_TYPE_IPV4 ∨ t = ADDR_TYPE_IPV6 ∨ t = ADDR_TYPE_DOMAIN.
Proof. destruct a; simpl; intros [= <- _]; auto. Qed.

Lemma encode_address_cons a : ∃ t bs, encode_address a = t :: bs.
Proof. destruct a; simpl; eauto. Qed.

Lemma take_copy_to_front bs buf : take (length bs) (copy_to_front bs buf) = bs.
Proof. unfold copy_to_front. by rewrite take_app_length. Qed.

(** *** The cached writer *)
Lemma build_cached_address buf t hb len p :
  build_trojanc_addr_cached buf (mkCachedAddr t hb len p) =
  match t with
  | AT_V4 => if len =? 4 then Ok (buf ++ ADDR_TYPE_IPV4 :: take 4 hb ++ to_be16 p)
             else Err (EMsg (B "invalid cached host"))
  | AT_V6 => if len =? 16 then Ok (buf ++ ADDR_TYPE_IPV6 :: take 16 hb ++ to_be16 p)
             else Err (EMsg (B "invalid cached host"))
  | AT_Domain => if 0 <? len then Ok (buf ++ ADDR_TYPE_DOMAIN :: byte_of len :: take (Z.to_nat len) hb ++ to_be16 p)
             else Err (EMsg (B "invalid cached host"))
  end.
Proof.
  unfold build_trojanc_addr_cached. unfold_result.
  destruct t; [destruct (len =? 4)|destruct (len =? 16)|destruct (0 <? len)]; simpl; try done;
    by rewrite <-!app_assoc.
Qed.

Lemma build_cached_from_host_port buf host p :
  build_trojanc_addr_cached buf (from_host_port host p) =
  match address_of host with
  | Some a => Ok (buf ++ encode_address a ++ to_be16 p)
  | None => Err (EMsg (B "invalid cached host"))
  end.
Proof.
  unfold from_host_port, address_of, addr_type_from_host.
  destruct (contains x3a host) eqn:Ec.
  - destruct (parse_ipv6 host) as [o|] eqn:E; rewrite build_cached_address; [|done].
    apply parse_ipv6_length in E. simpl. by rewrite <-E, take_copy_to_front.
  - destruct (parse_ipv4 host) as [o|] eqn:E.
    + rewrite build_cached_address. apply parse_ipv4_length in E. simpl.
      by rewrite <-E, take_copy_to_front.
    + case_bool_decide as Hl.
      * destruct (Z.leb_spec (Z.of_nat (length host)) 255); [|lia].
        destruct (Z.ltb_spec 0 (Z.of_nat (length host))) as [Hp|]; [|lia]. simpl.
        rewrite build_cached_address. destruct (Z.ltb_spec 0 (Z.of_nat (length host))); [|lia].
        by rewrite Nat2Z.id, take_copy_to_front.
      * destruct (_ && _) eqn:Eb; [|by rewrite build_cached_address].
        apply andb_true_iff in Eb as [?%Z.leb_le ?%Z.ltb_lt]. lia.
Qed.

Lemma build_trojanc_addr_address host p :
  build_trojanc_addr host p =
  match address_of host with
  | Some a => Ok (encode_address a ++ to_be16 p)
  | None => Err (EMsg (B "invalid cached host"))
  end.
Proof. unfold build_trojanc_addr. rewrite build_cached_from_host_port. by case_match. Qed.

Lemma read_trojanc_addr_encode a p r :
  address_wf a → 0 <= p <= u16_max →
  read_trojanc_addr_async (encode_address a ++ to_be16 p ++ r) = Ok ((address_host a, p), r).
Proof.
  intros Ha Hp. destruct (encode_address_cons a) as (t & bs & E). rewrite E.
  unfold read_trojanc_addr_async. simpl.
  rewrite bind_ok with (1 := read_byte_cons _ _).
  rewrite (bind_ok _ _ _ _ _ (read_trojanc_host_encode a t bs _ Ha E)).
  by rewrite (bind_ok _ _ _ _ _ (read_u16_be p r Hp)).
Qed.

(** The buffered reader is the plain one. *)
Lemma read_trojanc_addr_into_plain host s :
  read_trojanc_addr_async s =
  match read_trojanc_addr_into_async host s with
  | (host', Ok (p, s')) => Ok ((host', p), s')
  | (_, Err e) => Err e
  end.
Proof.
  unfold read_trojanc_addr_async, read_trojanc_addr_into_async.
  unfold mbind, reader_bind, mret, reader_ret.
  destruct (read_byte s) as [[t s1]|]; [|done].
  destruct (read_trojanc_host t s1) as [[h s2]|]; [|done].
  by destruct (read_u16 s2) as [[p s3]|].
Qed.

(** C15: a [trojanc] header written for a host and port is read back as that
    port and the canonical text of the host (an IPv6 address in its RFC 5952
    form, anything else unchanged), and the bytes after it are left unread. *)
Theorem trojanc_roundtrip host p bs r :
  utf8_valid host = true → 0 <= p <= u16_max →
  build_trojanc_addr host p = Ok bs →
  read_trojanc_addr_async (bs ++ r) = Ok ((canonical_host host, p), r).
Proof.
  intros Hv Hp. rewrite build_trojanc_addr_address.
  destruct (address_of host) as [a|] eqn:Ha; [|done]. intros [= <-].
  rewrite <-app_assoc, read_trojanc_addr_encode by (done || by eapply address_of_wf).
  by rewrite (address_of_host host).
Qed.

Lemma trojanc_roundtrip_witness :
  read_trojanc_addr_async (([x04] ++ replicate 15 x00 ++ [x01; x01; xbb]) ++ B "payload")
  = Ok ((canonical_host (B "0:0::0:1"), 443), B "payload")
  ∧ canonical_host (B "0:0::0:1") = B "::1".
Proof.
  split; [|by vm_compute]. apply trojanc_roundtrip; [by vm_compute|unfold u16_max; lia|by vm_compute].
Defined.

(** C16: the header a host is given is decided by the address it denotes: four
    octets, sixteen octets, or a domain of 1 to 255 bytes.  Every other host
    (empty, longer than 255 bytes, or with a colon and not an IPv6 address) is
    rejected and nothing is appended to the buffer. *)
Theorem build_trojanc_addr_refines host p :
  build_trojanc_addr host p =
    (match address_of host with
     | Some a => Ok (encode_address a ++ to_be16 p)
     | None => Err (EMsg (B "invalid cached host"))
     end)
  ∧ (address_of host = None ↔
       if contains x3a host then parse_ipv6 host = None
       else host = [] ∨ (255 < length host)%nat).
Proof.
  split; [apply build_trojanc_addr_address|].
  unfold address_of. destruct (contains x3a host); [by rewrite fmap_None|].
  destruct (parse_ipv4 host) as [o|] eqn:E.
  - split; [done|]. pose proof (parse_ipv4_length _ _ E) as Ho.
    apply parse_ipv4_canonical in E as <-. pose proof (show_ipv4_length o).
    intros [Hn|]; [by apply show_ipv4_not_nil in Hn|lia].
  - case_bool_decide as Hl; split; try done.
    + intros [->|]; simpl in *; lia.
    + intros _. destruct host; [by left|]. simpl in *. lia.
Qed.

(** Caching a socket address directly writes the header that caching its
    printed address writes, so the shortcut skips only the formatting. *)
Theorem from_socket_addr_equiv a buf :
  ip_wf (ip a) →
  build_trojanc_addr_cached buf (from_socket_addr a) =
  build_trojanc_addr_cached buf (from_host_port (show_ip (ip a)) (port a)).
Proof.
  destruct a as [[o|o] p sc]; cbn [ip port ip_wf show_ip]; intros Ho;
    rewrite build_cached_from_host_port; unfold from_socket_addr, address_of; cbn [ip port];
    rewrite build_cached_address.
  - assert (contains x3a (show_ipv4 o) = false) as -> by apply contains_false, show_ipv4_no_colon.
    rewrite parse_show_ipv4 by done. simpl. by rewrite <-Ho, take_copy_to_front.
  - assert (contains x3a (show_ipv6 o) = true) as -> by by apply contains_true, show_ipv6_colon.
    rewrite parse_show_ipv6 by done. simpl. by rewrite <-Ho, take_copy_to_front.
Qed.

Lemma from_socket_addr_equiv_witness :
  build_trojanc_addr_cached [] (from_socket_addr (socket_addr (V4 (replicate 4 x09)) 53)) =
  build_trojanc_addr_cached [] (from_host_port (B "9.9.9.9") 53).
Proof. apply (from_socket_addr_equiv (socket_addr (V4 (replicate 4 x09)) 53)). reflexivity. Defined.

(** *** Proxy headers *)
Definition encode_proxy (host : str) (p : Z) : option str :=
  if is_empty host then Some [ADDR_TYPE_NONE]
  else (λ a, encode_address a ++ to_be16 p) <$> address_of host.

Lemma build_proxy_header_encode n host p bs :
  build_proxy_header n host p = Ok bs →
  ∃ body, encode_proxy host p = Some body ∧ bs = n :: body.
Proof.
  unfold build_proxy_header, encode_proxy, address_of. unfold_result.
  destruct (is_empty host) eqn:He.
  { simpl. intros [= <-]. eauto. }
  destruct (contains x3a host) eqn:Ec; simpl.
  - destruct (parse_ipv6 host) as [o|]; simpl; [|done]. intros [= <-]. eauto.
  - destruct (parse_ipv4 host) as [o|] eqn:E; simpl.
    + intros [= <-]. eauto.
    + destruct (Z.leb_spec (Z.of_nat (length host)) 255); [|done]. intros [= <-].
      rewrite bool_decide_true; [simpl; eauto|]. destruct host; [done|]. simpl in *. lia.
Qed.

Lemma read_build_proxy_header n host p bs r :
  utf8_valid host = true → 0 <= p <= u16_max →
  build_proxy_header n host p = Ok bs →
  read_proxy_header (bs ++ r) = Ok ((n, canonical_host host, if is_empty host then 0 else p), r).
Proof.
  intros Hv Hp (body & Hb & ->)%build_proxy_header_encode. unfold encode_proxy in Hb.
  destruct (is_empty host) eqn:He.
  { apply is_empty_true in He as ->. by simplify_eq. }
  apply fmap_Some in Hb as (a & Ha & ->). unfold read_proxy_header. cbn [app].
  rewrite bind_ok with (1 := read_byte_cons _ _).
  destruct (encode_address_cons a) as (t & bs & E). rewrite E. cbn [app].
  rewrite bind_ok with (1 := read_byte_cons _ _). rewrite <-!app_assoc.
  rewrite (bind_ok _ _ _ _ _ (read_proxy_host_encode a t bs _ (address_of_wf _ _ Ha) E)).
  rewrite decide_False by (by destruct (encode_address_type a t bs E) as [->|[->| ->]]).
  rewrite (bind_ok _ _ _ _ _ (read_u16_be p r Hp)).
  by rewrite (address_of_host host).
Qed.

(** A proxy header is read back as it was written: the network byte, the
    canonical host and the port, except that the header of an empty host has no
    address and no port and reads back with port zero. *)
Theorem proxy_header_roundtrip n host p bs r :
  utf8_valid host = true → 0 <= p <= u16_max →
  build_proxy_header n host p = Ok bs →
  read_proxy_header (bs ++ r) = Ok ((n, canonical_host host, if is_empty host then 0 else p), r).
Proof. apply read_build_proxy_header. Qed.

Lemma proxy_header_roundtrip_witness :
  read_proxy_header (([x01; x03; x03] ++ B "a.b" ++ [x00; x50]) ++ B "GET") =
  Ok ((x01, canonical_host (B "a.b"), if is_empty (B "a.b") then 0 else 80), B "GET").
Proof. apply proxy_header_roundtrip; [by vm_compute|unfold u16_max; lia|by vm_compute]. Defined.

(** *** Underlay authentication *)
Definition auth_ok (a : UnderlayAuth) : Prop :=
  length (iv a) = 32%nat ∧ length (psk a) = UNDERLAY_PSK_LEN ∧
  (0 < length (hostname (metadata a)) ≤ 255)%nat ∧
  utf8_valid (hostname (metadata a)) = true ∧ 0 <= metadata_port (metadata a) <= u16_max.

Lemma parse_ip_nil : parse_ipv4 [] = None ∧ parse_ipv6 [] = None.
Proof. done. Qed.

Lemma underlay_metadata_roundtrip m r :
  (0 < length (hostname m) ≤ 255)%nat → utf8_valid (hostname m) = true →
  0 <= metadata_port m <= u16_max →
  ∃ bs, write_underlay_metadata_async m = (bs, Ok tt) ∧
        read_underlay_metadata_async (bs ++ r) = Ok ((canonical_host (hostname m), metadata_port m), r).
Proof.
  intros Hl Hv Hp. unfold write_underlay_metadata_async, canonical_host.
  destruct (parse_ipv4 (hostname m)) as [o|] eqn:E4.
  - eexists; split; [done|]. rewrite parse_ipv6_no_colon
      by by apply contains_false; eapply parse_ipv4_no_colon.
    pose proof (parse_ipv4_length _ _ E4) as Ho. apply parse_ipv4_canonical in E4 as <-.
    unfold read_underlay_metadata_async. cbn [app]. rewrite bind_ok with (1 := read_byte_cons _ _).
    type_code. rewrite <-!app_assoc, (bind_ok _ _ _ _ _ (read_exact_app 4 o _ Ho)).
    by rewrite (bind_ok _ _ _ _ _ (read_u16_be _ r Hp)).
  - destruct (parse_ipv6 (hostname m)) as [o|] eqn:E6.
    + eexists; split; [done|]. pose proof (parse_ipv6_length _ _ E6) as Ho.
      unfold read_underlay_metadata_async. cbn [app]. rewrite bind_ok with (1 := read_byte_cons _ _).
      type_code. rewrite <-!app_assoc, (bind_ok _ _ _ _ _ (read_exact_app 16 o _ Ho)).
      by rewrite (bind_ok _ _ _ _ _ (read_u16_be _ r Hp)).
    + destruct (Z.ltb_spec 255 (Z.of_nat (length (hostname m)))); [lia|].
      eexists; split; [done|].
      unfold read_underlay_metadata_async. cbn [app]. rewrite bind_ok with (1 := read_byte_cons _ _).
      type_code. rewrite bind_ok with (1 := read_byte_cons _ _).
      rewrite byte_of_length by lia. rewrite byte_of_small by lia.
      destruct (Z.eqb_spec (Z.of_nat (length (hostname m))) 0); [lia|].
      rewrite <-!app_assoc, (bind_ok _ _ _ _ _ (read_exact_app _ (hostname m) _ eq_refl)).
      rewrite (bind_ok _ _ _ _ _ (read_u16_be _ r Hp)). unfold mret, reader_ret.
      by rewrite from_utf8_lossy_valid.
Qed.

(** What the receiver of an authentication learns: the key material, and the
    canonical target; the network is always UDP and the user is not sent. *)
Definition received_auth (a : UnderlayAuth) : UnderlayAuth :=
  mkUnderlayAuth (iv a) (psk a)
    (mkProxyMetadata Udp (canonical_host (hostname (metadata a))) (metadata_port (metadata a)) Uuid_nil)
    Uuid_nil.

(** Read [n] messages. *)
Fixpoint read_auths (n : nat) : reader (list UnderlayAuth) :=
  match n with
  | O => mret []
  | S n => a ← read_underlay_auth_async; l ← read_auths n; mret (a :: l)
  end.

Lemma underlay_auth_roundtrip_one a r :
  auth_ok a →
  ∃ bs, write_underlay_auth_async a = (bs, Ok tt) ∧
        read_underlay_auth_async (bs ++ r) = Ok (received_auth a, r).
Proof.
  intros (Hi & Hk & Hl & Hv & Hp). destruct (underlay_metadata_roundtrip (metadata a) r Hl Hv Hp) as (bs & Hw & Hr).
  exists (iv a ++ psk a ++ bs). unfold write_underlay_auth_async. rewrite Hk, Nat.eqb_refl, Hw.
  split; [done|]. unfold read_underlay_auth_async. rewrite <-!app_assoc.
  rewrite (bind_ok _ _ _ _ _ (read_exact_app _ _ _ Hi)).
  rewrite (bind_ok _ _ _ _ _ (read_exact_app _ _ _ Hk)).
  by rewrite (bind_ok _ _ _ _ _ Hr).
Qed.

Lemma read_concat_auths auths r :
  Forall auth_ok auths →
  Forall (λ a, is_ok (write_underlay_auth_async a).2) auths ∧
  read_auths (length auths) (concat ((λ a, (write_underlay_auth_async a).1) <$> auths) ++ r)
  = Ok (received_auth <$> auths, r).
Proof.
  induction 1 as [|a auths Ha _ [IHw IH]]; [done|].
  destruct (underlay_auth_roundtrip_one a
    (concat ((λ a, (write_underlay_auth_async a).1) <$> auths) ++ r) Ha) as (bs & Hw & Hr).
  split; [constructor; [by rewrite Hw|done]|].
  rewrite fmap_cons. cbn [concat length read_auths]. rewrite Hw. cbn [fst].
  rewrite <-app_assoc, (bind_ok _ _ _ _ _ Hr). by rewrite (bind_ok _ _ _ _ _ IH).
Qed.

(** A stream of underlay authentications, each with 32-byte keys and a
    nonempty target of at most 255 bytes, is read back message by message: the
    framing is self-delimiting and loses only the network and the user. *)
Theorem underlay_auth_stream_roundtrip auths r :
  Forall auth_ok auths →
  Forall (λ a, is_ok (write_underlay_auth_async a).2) auths ∧
  read_auths (length auths) (concat ((λ a, (write_underlay_auth_async a).1) <$> auths) ++ r)
  = Ok (received_auth <$> auths, r).
Proof. apply read_concat_auths. Qed.

Lemma underlay_auth_stream_roundtrip_witness :
  let auth h := mkUnderlayAuth (replicate 32 x01) (replicate 32 x02) (mkProxyMetadata Tcp h 53 Uuid_nil) Uuid_nil in
  let auths := [auth (B "1.1.1.1"); auth (B "a.b")] in
  Forall (λ a, is_ok (write_underlay_auth_async a).2) auths ∧
  read_auths (length auths) (concat ((λ a, (write_underlay_auth_async a).1) <$> auths) ++ [])
  = Ok (received_auth <$> auths, []).
Proof.
  intros auth auths. apply underlay_auth_stream_roundtrip.
  repeat constructor; vm_compute; try lia; congruence.
Defined.

(** An authentication for an empty target is written without an error and
    is refused by every reader: the writer's length check admits zero and the
    reader's does not. *)
Theorem underlay_empty_target_unreadable i k p u r :
  length i = 32%nat → length k = UNDERLAY_PSK_LEN →
  let auth := mkUnderlayAuth i k (mkProxyMetadata Udp [] p u) u in
  ∃ bs, write_underlay_auth_async auth = (bs, Ok tt) ∧
        read_underlay_auth_async (bs ++ r) = Err (EMsg (B "underlay metadata domain length is zero")).
Proof.
  intros Hi Hk auth. unfold auth, write_underlay_auth_async. cbn [iv psk metadata].
  rewrite Hk, Nat.eqb_refl. unfold write_underlay_metadata_async. cbn [hostname].
  rewrite (proj1 parse_ip_nil), (proj2 parse_ip_nil). eexists; split; [done|].
  unfold read_underlay_auth_async. rewrite <-!app_assoc.
  rewrite (bind_ok _ _ _ _ _ (read_exact_app _ _ _ Hi)).
  by rewrite (bind_ok _ _ _ _ _ (read_exact_app _ _ _ Hk)).
Qed.

Lemma underlay_empty_target_unreadable_witness :
  let auth := mkUnderlayAuth (replicate 32 x00) (replicate 32 x00) (mkProxyMetadata Udp [] 443 Uuid_nil) Uuid_nil in
  ∃ bs, write_underlay_auth_async auth = (bs, Ok tt) ∧
        read_underlay_auth_async (bs ++ []) = Err (EMsg (B "underlay metadata domain length is zero")).
Proof. by apply underlay_empty_target_unreadable. Defined.

(** Whatever bytes a peer sends, a decoded header has a valid UTF-8 host of at
    most 765 bytes and a 16-bit port. *)
Lemma read_u16_ok s p r : read_u16 s = Ok (p, r) → 0 <= p <= u16_max.
Proof.
  destruct s as [|c [|d s]]; try done. unfold read_u16, mbind, reader_bind. simpl.
  intros [= <- _]. apply from_be16_range.
Qed.

Lemma read_trojanc_addr_bounds s h p r :
  read_trojanc_addr_async s = Ok ((h, p), r) →
  utf8_valid h = true ∧ (length h ≤ 765)%nat ∧ 0 <= p <= u16_max.
Proof.
  unfold read_trojanc_addr_async. unfold mbind, reader_bind, mret, reader_ret.
  destruct (read_byte s) as [[t s1]|]; [|done].
  destruct (read_trojanc_host t s1) as [[h' s2]|] eqn:Eh; [|done].
  destruct (read_u16 s2) as [[p' s3]|] eqn:Ep; [|done].
  intros [= <- <- <-]. apply read_u16_ok in Ep. revert Eh. unfold read_trojanc_host.
  assert (∀ n s o s', read_exact n s = Ok (o, s') → length o = n) as Hlen.
  { intros n ? o ? Ho. by apply read_exact_ok in Ho as [_ ?]. }
  repeat case_decide; unfold mbind, reader_bind, mret, reader_ret, fail; [..|done].
  - destruct (read_exact 4 s1) as [[o s']|] eqn:E; [|done]. intros [= <- _]. apply Hlen in E.
    pose proof (show_ipv4_length o). split_and!; [apply utf8_valid_ascii, show_ipv4_ascii|lia|lia|lia].
  - destruct (read_exact 16 s1) as [[o s']|] eqn:E; [|done]. intros [= <- _]. apply Hlen in E.
    pose proof (show_ipv6_length o E).
    split_and!; [by apply utf8_valid_ascii, show_ipv6_ascii|lia|lia|lia].
  - destruct (read_byte s1) as [[l s']|]; [|done]. unfold lift, ensure.
    destruct (0 <? u8 l); [|done].
    destruct (read_exact _ s') as [[d s'']|] eqn:E; [|done]. intros [= <- _]. apply Hlen in E.
    pose proof (from_utf8_lossy_length d). pose proof (u8_range l).
    split_and!; [apply utf8_valid_from_utf8_lossy|lia|lia|lia].
Qed.

(** *** Reading as the bytes arrive *)
Lemma incremental_read_u16 : incremental read_u16.
Proof. unfold read_u16. solve_incremental. Qed.
#[export] Hint Resolve incremental_read_u16 : incremental.

Lemma incremental_read_underlay_auth : incremental read_underlay_auth_async.
Proof. unfold read_underlay_auth_async, read_underlay_metadata_async. solve_incremental. Qed.

Lemma incremental_read_command_head : incremental read_command_head_async.
Proof. unfold read_command_head_async, read_command_head. solve_incremental. Qed.

Lemma incremental_read_authenticate : incremental read_authenticate_async.
Proof. unfold read_authenticate_async, read_authenticate. solve_incremental. Qed.
#[export] Hint Resolve incremental_read_underlay_auth incremental_read_command_head
  incremental_read_authenticate : incremental.
