(* ===== verification/Crypto.v ===== *)
(** * [common/src/crypto.rs]

    Certificate chain hashes, the AES-GCM wrappers, and the underlay packet
    encryption.  The primitives come from other crates: each is a class of
    operations, with the laws the code relies on in a second class. *)
From S2P Require Import Prelude Std Consts.
#[local] Open Scope nat_scope.

(** ** Primitives *)
Class Sha256 := sha256_digest : str → str.

(** [AeadInPlace] over a buffer that grows by the tag. *)
Class Aes128Gcm := {
  aes_encrypt_in_place : str → str → str → option str;
  aes_decrypt_in_place : str → str → str → option str;
}.

Class Aes128GcmLaws `{Aes128Gcm} : Prop := {
  aes_decrypt_encrypt key nonce pt ct :
    aes_encrypt_in_place key nonce pt = Some ct → aes_decrypt_in_place key nonce ct = Some pt;
}.

(** HKDF: salt, input key, info, output length. *)
Class HkdfSha256 := hkdf_sha256 : str → str → str → nat → option str.
Class HkdfSha1 := hkdf_sha1 : str → str → str → nat → option str.

Class HkdfSha1Laws `{HkdfSha1} : Prop := {
  hkdf_sha1_32 salt ikm info : ∃ k, hkdf_sha1 salt ikm info 32 = Some k ∧ length k = 32;
}.

(** ChaCha20-Poly1305 with the all-zero nonce and no associated data.  The
    detached operations work in place: they return the buffer, which after a
    failed decryption has no known content. *)
Class ChaCha := {
  chacha_encrypt_detached : str → str → option (str * str);
  chacha_decrypt_detached : str → str → str → str * bool;
  chacha_encrypt : str → str → option str;
  chacha_decrypt : str → str → option str;
}.

(** The attached forms put the 16-byte tag after the ciphertext. *)
Class ChaChaLaws `{ChaCha} : Prop := {
  chacha_encrypt_lengths k pt ct tag :
    chacha_encrypt_detached k pt = Some (ct, tag) → length ct = length pt ∧ length tag = 16;
  chacha_decrypt_encrypt k pt ct tag :
    chacha_encrypt_detached k pt = Some (ct, tag) → chacha_decrypt_detached k ct tag = (pt, true);
  chacha_encrypt_attached k pt :
    chacha_encrypt k pt = '(ct, tag) ← chacha_encrypt_detached k pt; Some (ct ++ tag);
  chacha_decrypt_attached k ct tag :
    length tag = 16 →
    chacha_decrypt k (ct ++ tag) =
      (let '(pt, ok) := chacha_decrypt_detached k ct tag in if ok then Some pt else None);
}.

(** ** Certificate chains *)
Definition generate_cert_chain_hash `{Sha256} (raw_certs : list str) : str :=
  default [] (foldl (λ chain cert,
    let cert_hash := sha256_digest cert in
    Some (match chain with
          | None => cert_hash
          | Some prev => sha256_digest (prev ++ cert_hash)
          end)) None raw_certs).

(** ** [mod aead] *)
Definition derive_key `{HkdfSha256} (password salt info : str) : option str :=
  hkdf_sha256 salt password info 16.

Definition aead_encrypt_in_place `{Aes128Gcm} (key buffer nonce : str) : option (str * nat) :=
  buffer ← aes_encrypt_in_place key nonce buffer; Some (buffer, length buffer).

Definition aead_decrypt_in_place `{Aes128Gcm} (key buffer nonce : str) : option (str * nat) :=
  buffer ← aes_decrypt_in_place key nonce buffer; Some (buffer, length buffer).

Definition aead_encrypt `{Aes128Gcm} (key plaintext nonce : str) : option str :=
  '(buffer, _) ← aead_encrypt_in_place key plaintext nonce; Some buffer.

Definition aead_decrypt `{Aes128Gcm} (key ciphertext nonce : str) : option str :=
  '(buffer, _) ← aead_decrypt_in_place key ciphertext nonce; Some buffer.

(** ** [mod juicity_underlay] *)
Definition SALT_LEN : nat := 32.
Definition KEY_LEN : nat := 32.
Definition TAG_LEN : nat := 16.
Definition REUSED_INFO : str := B "juicity-reused-info".

Definition derive_subkey `{HkdfSha1} (psk salt : str) : result str :=
  _ ← ensure (Nat.eqb (length psk) KEY_LEN)
        (EMsg (B "invalid underlay psk length: expected 32, got " ++ show_dec (Z.of_nat (length psk))));
  ok_or (hkdf_sha1 salt psk REUSED_INFO KEY_LEN) (EMsg (B "hkdf expand failed for underlay subkey")).

(** [rand] is what the random generator fills [salt[2..]] with. *)
Definition generate_underlay_salt (rand : str) : str := [x00; x00] ++ rand.

Definition decrypt_udp `{HkdfSha1, ChaCha} (psk packet : str) : result str :=
  _ ← ensure (Nat.leb (SALT_LEN + TAG_LEN) (length packet))
        (EMsg (B "underlay packet too short: " ++ show_dec (Z.of_nat (length packet))));
  let salt := take SALT_LEN packet in
  let ciphertext := drop SALT_LEN packet in
  subkey ← derive_subkey psk salt;
  ok_or (chacha_decrypt subkey ciphertext) (EMsg (B "underlay decrypt failed")).

Definition encrypt_udp `{HkdfSha1, ChaCha} (psk plaintext salt : str) : result str :=
  subkey ← derive_subkey psk salt;
  ct ← ok_or (chacha_encrypt subkey plaintext) (EMsg (B "underlay encrypt failed"));
  Ok (salt ++ ct).

(** ** [UnderlayCipher]

    The packet buffer is returned with the result. *)
Record UnderlayCipher := mkUnderlayCipher { cipher_key : str }.

Definition from_subkey (subkey : str) : UnderlayCipher := mkUnderlayCipher subkey.

Definition decrypt_in_place `{ChaCha} (c : UnderlayCipher) (packet : str) : str * result unit :=
  if Nat.leb (length packet) (SALT_LEN + TAG_LEN) then
    (packet, Err (EMsg (B "underlay packet too short to contain salt and tag")))
  else
    let ct_end := length packet - TAG_LEN in
    let tag := drop ct_end packet in
    let '(buf, ok) :=
      chacha_decrypt_detached (cipher_key c) (drop SALT_LEN (take ct_end packet)) tag in
    let packet := take SALT_LEN packet ++ buf ++ tag in
    if ok then (take ct_end packet, Ok tt)
    else (packet, Err (EMsg (B "underlay decrypt failed"))).

(** The buffer must start with [SALT_LEN] reserved bytes: the slice
    [plaintext[SALT_LEN..]] of a shorter one panics, which is [None]. *)
Definition encrypt_in_place `{ChaCha} (c : UnderlayCipher) (plaintext salt : str)
    : option (str * result unit) :=
  if Nat.ltb (length plaintext) SALT_LEN then None
  else Some
    (match chacha_encrypt_detached (cipher_key c) (drop SALT_LEN plaintext) with
     | Some (ct, tag) => (salt ++ ct ++ tag, Ok tt)
     | None => (plaintext, Err (EMsg (B "underlay encrypt failed")))
     end).

(** ** Chain hashes *)
Lemma chain_hash_none `{Sha256} : generate_cert_chain_hash [] = [].
Proof. done. Qed.

Lemma chain_hash_one `{Sha256} c : generate_cert_chain_hash [c] = sha256_digest c.
Proof. done. Qed.

Lemma chain_hash_snoc `{Sha256} c cs d :
  generate_cert_chain_hash ((c :: cs) ++ [d]) =
  sha256_digest (generate_cert_chain_hash (c :: cs) ++ sha256_digest d).
Proof.
  unfold generate_cert_chain_hash. rewrite foldl_app. simpl.
  match goal with |- context [foldl ?f (Some ?x) cs] =>
    assert (∃ y, foldl f (Some x) cs = Some y) as [y ->] end; [|done].
  generalize (sha256_digest c). induction cs as [|c' cs IH]; intros x; simpl; eauto.
Qed.

(** ** Underlay packets *)
Section underlay.
Context `{HkdfSha1Laws, ChaChaLaws}.

Lemma derive_subkey_ok psk salt :
  length psk = KEY_LEN → ∃ k, derive_subkey psk salt = Ok k ∧ length k = 32.
Proof.
  intros Hk. unfold derive_subkey. rewrite Hk, Nat.eqb_refl.
  destruct (hkdf_sha1_32 salt psk REUSED_INFO) as (k & E & Hl).
  exists k. unfold KEY_LEN. result_cbn. by rewrite E.
Qed.

(** A buffer encrypted in place and decrypted in place holds the plaintext
    again, behind the salt. *)
Lemma encrypt_decrypt_in_place c reserved pt salt packet :
  length reserved = SALT_LEN → length salt = SALT_LEN → pt ≠ [] →
  encrypt_in_place c (reserved ++ pt) salt = Some (packet, Ok tt) →
  decrypt_in_place c packet = (salt ++ pt, Ok tt).
Proof.
  intros Hr Hs Hpt. unfold encrypt_in_place.
  destruct (Nat.ltb_spec (length (reserved ++ pt)) SALT_LEN) as [?|_]; [done|].
  rewrite <-Hr, drop_app_length.
  destruct (chacha_encrypt_detached _ pt) as [[ct tag]|] eqn:E; [|done]. intros [= <-].
  destruct (chacha_encrypt_lengths _ _ _ _ E) as [Hct Htag].
  unfold decrypt_in_place. assert (0 < length pt) by (destruct pt; simpl; [done|lia]).
  destruct (Nat.leb_spec (length (salt ++ ct ++ tag)) (SALT_LEN + TAG_LEN)) as [Hle|_].
  { rewrite !length_app, Hs, Htag in Hle. unfold TAG_LEN in Hle. lia. }
  replace (length (salt ++ ct ++ tag) - TAG_LEN) with (length (salt ++ ct))
    by (rewrite !length_app, Htag; unfold TAG_LEN; lia).
  rewrite app_assoc, take_app_length, drop_app_length, <-Hs, drop_app_length.
  rewrite (chacha_decrypt_encrypt _ _ _ _ E). rewrite <-app_assoc, take_app_length.
  rewrite app_assoc. rewrite take_app_le by (rewrite !length_app; lia).
  by rewrite take_ge by (rewrite !length_app; lia).
Qed.

Lemma encrypt_in_place_empty_rejected c reserved salt packet :
  length reserved = SALT_LEN → length salt = SALT_LEN →
  encrypt_in_place c reserved salt = Some (packet, Ok tt) →
  (decrypt_in_place c packet).2 = Err (EMsg (B "underlay packet too short to contain salt and tag")).
Proof.
  intros Hr Hs. unfold encrypt_in_place. rewrite Hr.
  destruct (Nat.ltb_spec SALT_LEN SALT_LEN) as [?|_]; [lia|].
  destruct (chacha_encrypt_detached _ _) as [[ct tag]|] eqn:E; [|done]. intros [= <-].
  apply chacha_encrypt_lengths in E as [Hct Htag].
  unfold decrypt_in_place.
  destruct (Nat.leb_spec (length (salt ++ ct ++ tag)) (SALT_LEN + TAG_LEN)) as [_|Hle]; [done|].
  rewrite !length_app, Hct, Htag, length_drop, Hr, Hs in Hle. unfold TAG_LEN in Hle. lia.
Qed.

(** The one-shot functions are the in-place ones with a freshly derived key. *)
Lemma encrypt_udp_in_place psk pt salt reserved :
  length psk = KEY_LEN → length reserved = SALT_LEN →
  ∃ k, derive_subkey psk salt = Ok k ∧
    encrypt_in_place (from_subkey k) (reserved ++ pt) salt =
    Some (match encrypt_udp psk pt salt with
          | Ok packet => (packet, Ok tt)
          | Err e => (reserved ++ pt, Err e)
          end).
Proof.
  intros Hk Hr. destruct (derive_subkey_ok psk salt Hk) as (k & E & _). exists k. split; [done|].
  unfold encrypt_in_place, encrypt_udp. rewrite E.
  destruct (Nat.ltb_spec (length (reserved ++ pt)) SALT_LEN) as [Hlt|_].
  { rewrite length_app in Hlt. lia. }
  rewrite <-Hr, drop_app_length. result_cbn. rewrite chacha_encrypt_attached.
  cbn [from_subkey cipher_key]. result_cbn.
  by destruct (chacha_encrypt_detached k pt) as [[ct tag]|].
Qed.

Lemma decrypt_udp_in_place psk packet k :
  derive_subkey psk (take SALT_LEN packet) = Ok k → SALT_LEN + TAG_LEN < length packet →
  match decrypt_udp psk packet with
  | Ok pt =>
      decrypt_in_place (from_subkey k) packet =
        (take (length packet - TAG_LEN) (take SALT_LEN packet ++ pt ++ drop (length packet - TAG_LEN) packet), Ok tt)
  | Err e => (decrypt_in_place (from_subkey k) packet).2 = Err e
  end.
Proof.
  intros E Hl. unfold decrypt_udp, decrypt_in_place.
  destruct (Nat.leb_spec (SALT_LEN + TAG_LEN) (length packet)); [|lia].
  destruct (Nat.leb_spec (length packet) (SALT_LEN + TAG_LEN)); [lia|].
  result_cbn. rewrite E. result_cbn. cbn [from_subkey cipher_key].
  set (ct_end := length packet - TAG_LEN).
  assert (drop SALT_LEN packet = drop SALT_LEN (take ct_end packet) ++ drop ct_end packet) as ->.
  { rewrite <-(take_drop ct_end packet) at 1. rewrite drop_app_le; [done|].
    rewrite length_take. unfold ct_end, TAG_LEN in *. lia. }
  rewrite chacha_decrypt_attached
    by (rewrite length_drop; unfold ct_end, TAG_LEN in *; lia).
  by destruct (chacha_decrypt_detached _ _ _) as [pt [|]].
Qed.
(** What [encrypt_udp] returns: the salt and a nonempty sealed payload. *)
Lemma encrypt_udp_shape psk pt salt packet :
  length psk = KEY_LEN → length salt = SALT_LEN → encrypt_udp psk pt salt = Ok packet →
  ∃ k, derive_subkey psk salt = Ok k ∧ take SALT_LEN packet = salt ∧ SALT_LEN + TAG_LEN ≤ length packet ∧
       (pt ≠ [] → decrypt_in_place (from_subkey k) packet = (salt ++ pt, Ok tt)).
Proof.
  intros Hk Hs He. destruct (encrypt_udp_in_place psk pt salt salt Hk Hs) as (k & Ek & Ei).
  rewrite He in Ei. exists k. split; [done|]. unfold encrypt_udp in He. rewrite Ek in He.
  revert He. result_cbn. rewrite chacha_encrypt_attached.
  destruct (chacha_encrypt_detached k pt) as [[ct tag]|] eqn:E; [|done].
  intros Hp. assert (packet = salt ++ ct ++ tag) as -> by (by injection Hp).
  destruct (chacha_encrypt_lengths _ _ _ _ E) as [_ Htag]. split_and!.
  - by rewrite <-Hs, take_app_length.
  - rewrite !length_app, Hs, Htag. unfold TAG_LEN. lia.
  - intros Hpt. by eapply encrypt_decrypt_in_place.
Qed.
End underlay.

(** A toy cipher that satisfies the laws: each byte is added to the first byte
    of the key, and the tag is the first byte of the key sixteen times. *)
Module Toy.
Definition shift (z : Z) (s : str) : str := (λ c, byte_of (u8 c + z)) <$> s.
Definition key0 (k : str) : byte := default x00 (head k).
Definition tag (k : str) : str := replicate 16 (key0 k).

Definition decrypt (k ct t : str) : str * bool := (shift (- u8 (key0 k)) ct, bool_decide (t = tag k)).

#[export] Instance hkdf : HkdfSha1 := λ salt ikm info n, Some (take n (ikm ++ replicate n x00)).
#[export] Instance chacha : ChaCha := {
  chacha_encrypt_detached k pt := Some (shift (u8 (key0 k)) pt, tag k);
  chacha_decrypt_detached := decrypt;
  chacha_encrypt k pt := Some (shift (u8 (key0 k)) pt ++ tag k);
  chacha_decrypt k c :=
    let n := (length c - 16)%nat in
    let '(pt, ok) := decrypt k (take n c) (drop n c) in if ok then Some pt else None;
}.

Lemma shift_shift z s : shift (- z) (shift z s) = s.
Proof.
  unfold shift. induction s as [|c s IH]; [done|]. rewrite !fmap_cons, IH. f_equal.
  apply u8_inj. rewrite !u8_byte_of, Zplus_mod_idemp_l.
  replace (u8 c + z + - z)%Z with (u8 c) by lia. apply Z.mod_small, u8_range.
Qed.

#[export] Instance hkdf_laws : HkdfSha1Laws.
Proof.
  constructor. intros salt ikm info. eexists; split; [done|].
  rewrite length_take, length_app, length_replicate. lia.
Qed.

#[export] Instance chacha_laws : ChaChaLaws.
Proof.
  constructor.
  - intros k pt ct t [= <- <-]. unfold shift. by rewrite length_fmap.
  - intros k pt ct t [= <- <-]. simpl. unfold decrypt. by rewrite shift_shift, bool_decide_true.
  - done.
  - intros k ct t Ht. simpl. rewrite length_app, Ht.
    replace (length ct + 16 - 16)%nat with (length ct) by lia.
    by rewrite take_app_length, drop_app_length.
Qed.
End Toy.
#[local] Existing Instances Toy.hkdf Toy.chacha Toy.hkdf_laws Toy.chacha_laws.

(** An underlay packet encrypted for a key and a salt is decrypted to its
    payload both by the one-shot function and, when the payload is not empty,
    by the cached cipher of the receiver, which leaves the salt in front. *)
Theorem underlay_packet_roundtrip `{HkdfSha1Laws, ChaChaLaws} psk salt pt packet :
  length psk = KEY_LEN → length salt = SALT_LEN →
  encrypt_udp psk pt salt = Ok packet →
  take SALT_LEN packet = salt ∧
  decrypt_udp psk packet = Ok pt ∧
  (pt ≠ [] → ∃ k, derive_subkey psk salt = Ok k ∧
     decrypt_in_place (from_subkey k) packet = (salt ++ pt, Ok tt)).
Proof.
  intros Hk Hs He. destruct (encrypt_udp_shape psk pt salt packet Hk Hs He) as (k & Ek & Ht & Hl & Hdec).
  split_and!; [done| |eauto].
  unfold decrypt_udp. destruct (Nat.leb_spec (SALT_LEN + TAG_LEN) (length packet)) as [_|]; [|lia].
  result_cbn. rewrite Ht, Ek. result_cbn. unfold encrypt_udp in He. rewrite Ek in He. revert He. result_cbn.
  rewrite chacha_encrypt_attached. destruct (chacha_encrypt_detached k pt) as [[ct tag]|] eqn:E; [|done].
  intros Hp. assert (packet = salt ++ ct ++ tag) as -> by (by injection Hp).
  destruct (chacha_encrypt_lengths _ _ _ _ E) as [_ Htag].
  rewrite <-Hs, drop_app_length, chacha_decrypt_attached by done.
  by rewrite (chacha_decrypt_encrypt _ _ _ _ E).
Qed.

Lemma underlay_packet_roundtrip_witness :
  let psk := replicate 32 x01 in let salt := replicate 32 x02 in
  let packet := salt ++ B "ij" ++ replicate 16 x01 in
  take SALT_LEN packet = salt ∧
  decrypt_udp psk packet = Ok (B "hi") ∧
  (B "hi" ≠ [] → ∃ k, derive_subkey psk salt = Ok k ∧
     decrypt_in_place (from_subkey k) packet = (salt ++ B "hi", Ok tt)).
Proof. intros psk salt packet. apply underlay_packet_roundtrip; by vm_compute. Defined.

(** An encrypted empty payload is accepted by the one-shot decryption and
    rejected by the cached cipher, whose length check demands at least one
    byte of ciphertext. *)
Theorem empty_payload_needs_oneshot `{HkdfSha1Laws, ChaChaLaws} psk salt packet :
  length psk = KEY_LEN → length salt = SALT_LEN →
  encrypt_udp psk [] salt = Ok packet →
  decrypt_udp psk packet = Ok [] ∧
  ∀ c, (decrypt_in_place c packet).2 = Err (EMsg (B "underlay packet too short to contain salt and tag")).
Proof.
  intros Hk Hs He. split.
  - revert He. unfold encrypt_udp, decrypt_udp.
    destruct (derive_subkey_ok psk salt Hk) as (k & Ek & _). rewrite Ek. result_cbn.
    rewrite chacha_encrypt_attached. destruct (chacha_encrypt_detached k []) as [[ct tag]|] eqn:E; [|done].
    intros Hp. assert (packet = salt ++ ct ++ tag) as -> by (by injection Hp).
    destruct (chacha_encrypt_lengths _ _ _ _ E) as [Hct Htag].
    destruct (Nat.leb_spec (SALT_LEN + TAG_LEN) (length (salt ++ ct ++ tag))) as [_|Hle].
    + rewrite <-Hs, take_app_length, drop_app_length, Ek. result_cbn.
      rewrite chacha_decrypt_attached by done. by rewrite (chacha_decrypt_encrypt _ _ _ _ E).
    + rewrite !length_app, Hs, Htag in Hle. unfold TAG_LEN in Hle. lia.
  - intros c. destruct (encrypt_udp_in_place psk [] salt salt Hk Hs) as (k & _ & Ei).
    rewrite He, app_nil_r in Ei.
    pose proof (encrypt_in_place_empty_rejected _ _ _ _ Hs Hs Ei) as Hr.
    revert Hr. unfold decrypt_in_place. destruct (Nat.leb _ _); [done|].
    by destruct (chacha_decrypt_detached (cipher_key (from_subkey k)) _ _) as [? [|]].
Qed.

Lemma empty_payload_needs_oneshot_witness :
  let psk := replicate 32 x01 in let salt := replicate 32 x02 in
  let packet := salt ++ replicate 16 x01 in
  decrypt_udp psk packet = Ok [] ∧
  ∀ c, (decrypt_in_place c packet).2 = Err (EMsg (B "underlay packet too short to contain salt and tag")).
Proof. intros psk salt packet. apply (empty_payload_needs_oneshot psk salt); by vm_compute. Defined.
