(* ===== verification/Config.v ===== *)
(** * [common/src/config.rs] and [common/src/cert.rs]

    The configuration record, its validation for both roles, its JSON exports
    and the way an exported file is read again; the choice of a domain from a
    certificate. *)
From S2P Require Import Prelude Std.
#[local] Open Scope Z_scope.

Record Config := mkConfig {
  server : str;
  uuid : str;
  password : str;
  sni : str;
  allow_insecure : bool;
  pinned_certchain_sha256 : str;
  protect_path : str;
  forward : gmap str str;
  fwmark : option Z;
  users : gmap str str;
  certificate : str;
  private_key : str;
  send_through : str;
  dialer_link : str;
  disable_outbound_udp443 : bool;
  listen : str;
  congestion_control : str;
  log_level : str;
  initial_rtt : option Z;
  keep_alive_interval : option Z;
  underlay_evict_timeout : option Z;
  enable_0rtt : option bool;
}.

Definition Config_default : Config :=
  mkConfig [] [] [] [] false [] [] ∅ None ∅ [] [] [] [] false []
    (B "bbr") (B "info") None None None None.

(** The order in which a [HashMap] is iterated is not specified; the UUID
    parser is that of the [uuid] crate. *)
Class HashOrder := {
  hm_iter : gmap str str → list (str * str);
  hm_iter_perm m : hm_iter m ≡ₚ map_to_list m;
}.
Class UuidParse := parse_uuid : str → option str.

(** [serde_json::Value]. *)
#[local] Set Warnings "-register-all".
Inductive Json :=
  | JNull
  | JBool (b : bool)
  | JNumber (z : Z)
  | JFloat (text : str)
  | JString (s : str)
  | JArray (l : list Json)
  | JObject (m : gmap str Json).

(** The JSON text: the printer and the parser of [serde_json]. *)
Class JsonText := {
  to_string_pretty : Json → result str;
  from_str : str → result Json;
}.
Class JsonTextLaws `{JsonText} : Prop := {
  from_to_string v s : to_string_pretty v = Ok s → from_str s = Ok v;
}.

(** ** Validation

    The text of an error is cut to its fixed part where it quotes the input. *)
Section validate.
Context `{HashOrder, UuidParse}.

Definition bail {A} (msg : string) : result A := Err (EMsg (B msg)).
Definition check (bad : bool) (msg : string) : result unit :=
  if bad then bail msg else Ok tt.
Definition valid_uuid (s : str) : bool := bool_decide (is_Some (parse_uuid s)).

Definition validate_for_client (c : Config) : result unit :=
  _ ← check (is_empty (server c)) "'server' is required";
  _ ← check (negb (contains x3a (server c))) "'server' must be in host:port format";
  _ ← check (is_empty (uuid c)) "'uuid' is required";
  _ ← check (negb (valid_uuid (uuid c))) "invalid uuid";
  _ ← check (is_empty (password c)) "'password' is required";
  _ ← check (is_empty (listen c) && bool_decide (forward c = ∅)) "'listen' or 'forward' is required";
  check (negb (is_empty (listen c)) && negb (contains x3a (listen c)))
    "'listen' must be in host:port format".

Fixpoint validate_users (l : list (str * str)) : result unit :=
  match l with
  | [] => Ok tt
  | (id, pw) :: l =>
      _ ← check (negb (valid_uuid id)) "invalid user uuid";
      _ ← check (is_empty pw) "password for user is required";
      validate_users l
  end.

(** [exists_] is [Path::exists]. *)
Definition validate_for_server (exists_ : str → bool) (c : Config) : result unit :=
  _ ← check (is_empty (listen c)) "'listen' is required";
  _ ← check (negb (contains x3a (listen c))) "'listen' must be in host:port format";
  _ ← check (bool_decide (users c = ∅)) "'users' is required";
  _ ← validate_users (hm_iter (users c));
  _ ← check (is_empty (certificate c)) "'certificate' is required";
  _ ← check (negb (exists_ (certificate c))) "certificate file not found";
  _ ← check (is_empty (private_key c)) "'private_key' is required";
  check (negb (exists_ (private_key c))) "private key file not found".
End validate.

(** ** JSON exports

    Each export inserts keys one by one into a [serde_json::Map]. *)
Definition opt_insert (cond : bool) (k : string) (v : Json) (m : gmap str Json) : gmap str Json :=
  if cond then <[B k := v]> m else m.
Definition strings (m : gmap str str) : Json := JObject (JString <$> m).
Definition fwmark_insert (c : Config) (m : gmap str Json) : gmap str Json :=
  match fwmark c with Some n => <[B "fwmark" := JNumber n]> m | None => m end.

Definition server_map (c : Config) : gmap str Json :=
  let map := <[B "listen" := JString (listen c)]> ∅ in
  let map := <[B "users" := strings (users c)]> map in
  let map := <[B "certificate" := JString (certificate c)]> map in
  let map := <[B "private_key" := JString (private_key c)]> map in
  let map := <[B "congestion_control" := JString (congestion_control c)]> map in
  let map := <[B "log_level" := JString (log_level c)]> map in
  let map := fwmark_insert c map in
  let map := opt_insert (negb (is_empty (send_through c))) "send_through" (JString (send_through c)) map in
  let map := opt_insert (negb (is_empty (dialer_link c))) "dialer_link" (JString (dialer_link c)) map in
  opt_insert (disable_outbound_udp443 c) "disable_outbound_udp443" (JBool true) map.

Definition client_map (c : Config) : gmap str Json :=
  let map := <[B "server" := JString (server c)]> ∅ in
  let map := <[B "uuid" := JString (uuid c)]> map in
  let map := <[B "password" := JString (password c)]> map in
  let map := opt_insert (negb (is_empty (sni c))) "sni" (JString (sni c)) map in
  let map := opt_insert (allow_insecure c) "allow_insecure" (JBool true) map in
  let map := opt_insert (negb (is_empty (pinned_certchain_sha256 c))) "pinned_certchain_sha256"
               (JString (pinned_certchain_sha256 c)) map in
  let map := <[B "congestion_control" := JString (congestion_control c)]> map in
  let map := opt_insert (negb (is_empty (listen c))) "listen" (JString (listen c)) map in
  let map := opt_insert (negb (bool_decide (forward c = ∅))) "forward" (strings (forward c)) map in
  let map := fwmark_insert c map in
  <[B "log_level" := JString (log_level c)]> map.

Definition client_map_from_server (c : Config) (uuid password : str) (socks_port : Z) : gmap str Json :=
  let map := <[B "server" := JString (listen c)]> ∅ in
  let map := <[B "uuid" := JString uuid]> map in
  let map := <[B "password" := JString password]> map in
  let map := opt_insert (negb (is_empty (sni c))) "sni" (JString (sni c)) map in
  let map := opt_insert (allow_insecure c) "allow_insecure" (JBool true) map in
  let map := opt_insert (negb (is_empty (pinned_certchain_sha256 c))) "pinned_certchain_sha256"
               (JString (pinned_certchain_sha256 c)) map in
  let map := <[B "congestion_control" := JString (congestion_control c)]> map in
  let map := <[B "listen" := JString (B "[::]:" ++ show_dec socks_port)]> map in
  let map := fwmark_insert c map in
  <[B "log_level" := JString (log_level c)]> map.

Definition to_server_json `{JsonText} (c : Config) : result str :=
  to_string_pretty (JObject (server_map c)).
Definition to_client_json `{JsonText} (c : Config) : result str :=
  to_string_pretty (JObject (client_map c)).
Definition to_client_json_from_server `{HashOrder, JsonText} (c : Config) (socks_port : Z) : result str :=
  match hm_iter (users c) with
  | [] => Err (EMsg (B "no users defined in server config"))
  | (uuid, password) :: _ =>
      to_string_pretty (JObject (client_map_from_server c uuid password socks_port))
  end.

(** ** Reading a configuration

    The derived [Deserialize] with [serde(default)]: a missing field is that
    of [Config::default], unknown fields are ignored. *)
Definition de_error {A} : result A := Err (EMsg (B "invalid type")).

Definition de_str (v : Json) : result str :=
  match v with JString s => Ok s | _ => de_error end.
Definition de_bool (v : Json) : result bool :=
  match v with JBool b => Ok b | _ => de_error end.
Definition de_uint (max : Z) (v : Json) : result Z :=
  match v with JNumber z => if (0 <=? z) && (z <=? max) then Ok z else de_error | _ => de_error end.
Definition de_option {A} (de : Json → result A) (v : Json) : result (option A) :=
  match v with JNull => Ok None | _ => Some <$> de v end.
Definition de_strings (v : Json) : result (gmap str str) :=
  match v with
  | JObject m =>
      ok_or (guard (map_Forall (λ _ v, is_ok (de_str v)) m);; Some (omap (λ v, ok (de_str v)) m))
        (EMsg (B "invalid type"))
  | _ => de_error
  end.

Definition field {A} (de : Json → result A) (dflt : A) (k : string) (m : gmap str Json) : result A :=
  match m !! B k with Some v => de v | None => Ok dflt end.

Definition config_of_json (v : Json) : result Config :=
  match v with
  | JObject m =>
      let d := Config_default in
      server ← field de_str (server d) "server" m;
      uuid ← field de_str (uuid d) "uuid" m;
      password ← field de_str (password d) "password" m;
      sni ← field de_str (sni d) "sni" m;
      allow_insecure ← field de_bool (allow_insecure d) "allow_insecure" m;
      pinned ← field de_str (pinned_certchain_sha256 d) "pinned_certchain_sha256" m;
      protect_path ← field de_str (protect_path d) "protect_path" m;
      forward ← field de_strings (forward d) "forward" m;
      fwmark ← field (de_option (de_uint u32_max)) (fwmark d) "fwmark" m;
      users ← field de_strings (users d) "users" m;
      certificate ← field de_str (certificate d) "certificate" m;
      private_key ← field de_str (private_key d) "private_key" m;
      send_through ← field de_str (send_through d) "send_through" m;
      dialer_link ← field de_str (dialer_link d) "dialer_link" m;
      udp443 ← field de_bool (disable_outbound_udp443 d) "disable_outbound_udp443" m;
      listen ← field de_str (listen d) "listen" m;
      cc ← field de_str (congestion_control d) "congestion_control" m;
      log_level ← field de_str (log_level d) "log_level" m;
      initial_rtt ← field (de_option (de_uint u64_max)) (initial_rtt d) "initial_rtt" m;
      keep_alive ← field (de_option (de_uint u64_max)) (keep_alive_interval d) "keep_alive_interval" m;
      evict ← field (de_option (de_uint u64_max)) (underlay_evict_timeout d) "underlay_evict_timeout" m;
      zero_rtt ← field (de_option de_bool) (enable_0rtt d) "enable_0rtt" m;
      Ok (mkConfig server uuid password sni allow_insecure pinned protect_path forward fwmark users
            certificate private_key send_through dialer_link udp443 listen cc log_level
            initial_rtt keep_alive evict zero_rtt)
  | _ => de_error
  end.

(** [read_to_string] is [std::fs::read_to_string]. *)
Definition from_file `{JsonText} (read_to_string : str → result str) (path : str) : result Config :=
  content ← read_to_string path;
  v ← from_str content;
  config_of_json v.

(** ** Certificates *)
Record CertDomains := mkCertDomains { cn : option str; sans : list str; is_wildcard : bool }.

Definition OID_CN : str := [x55; x04; x03].

Definition is_wildcard_name (name : str) : bool := starts_with (B "*.") name.

Definition pick_preferred_domain (d : CertDomains) (user_domain : option str) : option str :=
  match user_domain with
  | Some u => Some u
  | None =>
      let fallback := snd <$> list_find (λ s, is_wildcard_name s = false) (sans d) in
      match cn d with
      | Some c => if negb (is_wildcard_name c) then Some c else fallback
      | None => fallback
      end
  end.

(** The parts of a parsed certificate that are read: per attribute of the
    subject its type and the two conversions of its value to text; per
    extension, whether it is a subject alternative name, and its names. *)
Record Attribute := mkAttribute { attr_type : str; as_str : result str; try_str : result str }.
Inductive GeneralName := DNSName (s : str) | OtherName.
Inductive ParsedExtension := SubjectAlternativeName (names : list GeneralName) | OtherExtension.
Record X509 := mkX509 { subject : list (list Attribute); extensions : list ParsedExtension }.

Definition attr_cn (a : Attribute) : option str :=
  if decide (attr_type a = OID_CN) then
    match as_str a with
    | Ok s => Some s
    | Err _ => ok (try_str a)
    end
  else None.

Definition extract_cn (cert : X509) : option str := head (omap attr_cn (concat (subject cert))).

Definition extract_sans (cert : X509) : list str :=
  foldl (λ sans e, match e with
                   | SubjectAlternativeName names =>
                       foldl (λ sans n, match n with DNSName s => sans ++ [s] | OtherName => sans end) sans names
                   | OtherExtension => sans
                   end) [] (extensions cert).

(** [read], [certs] and [from_der] are the file system, the PEM reader and the
    X.509 parser. *)
Definition parse_cert_domains (read : str → result str) (certs : str → result (list str))
    (from_der : str → result X509) (cert_path : str) : result CertDomains :=
  data ← read cert_path;
  ders ← certs data;
  der ← ok_or (head ders) (EMsg (B "No certificate found in PEM file: " ++ cert_path));
  cert ← (match from_der der with
          | Ok cert => Ok cert
          | Err _ => Err (EMsg (B "Failed to parse X.509 certificate"))
          end);
  let cn := extract_cn cert in
  let sans := extract_sans cert in
  Ok (mkCertDomains cn sans
        (match cn with Some n => is_wildcard_name n | None => false end
         || existsb is_wildcard_name sans)).

(** ** Reading an export back *)
Lemma B_inj k k' : B k = B k' → k = k'.
Proof.
  intros H. rewrite <-(String.string_of_list_byte_of_string k), <-(String.string_of_list_byte_of_string k').
  unfold B in H. by rewrite H.
Qed.

Section fields.
Context {A} (de : Json → result A) (d : A).

Lemma field_insert k k' v m :
  field de d k (<[B k' := v]> m) = if String.eqb k k' then de v else field de d k m.
Proof.
  unfold field. destruct (String.eqb_spec k k') as [->|Hk].
  - by rewrite lookup_insert_eq.
  - rewrite lookup_insert_ne; [done|]. intros E. by apply Hk, symmetry, B_inj.
Qed.

Lemma field_opt_insert b k k' v m :
  field de d k (opt_insert b k' v m) = if String.eqb k k' && b then de v else field de d k m.
Proof.
  unfold opt_insert. destruct b; [rewrite field_insert; by destruct (String.eqb _ _)|].
  by rewrite andb_false_r.
Qed.

Lemma field_empty k : field de d k ∅ = Ok d.
Proof. unfold field. by rewrite lookup_empty. Qed.
End fields.

Lemma field_fwmark {A} (de : Json → result A) d k c m :
  field de d k (fwmark_insert c m) =
  match fwmark c with
  | Some n => if String.eqb k "fwmark" then de (JNumber n) else field de d k m
  | None => field de d k m
  end.
Proof. unfold fwmark_insert. case_match; [|done]. apply field_insert. Qed.

Lemma de_strings_strings m : de_strings (strings m) = Ok m.
Proof.
  unfold de_strings, strings. rewrite option_guard_True.
  - simpl. f_equal. apply map_eq. intros i. rewrite lookup_omap, lookup_fmap.
    by destruct (m !! i).
  - intros i v Hv. apply lookup_fmap_Some in Hv as (s & <- & _). done.
Qed.

Lemma str_or_default (s : str) : (if negb (is_empty s) then Ok s else Ok []) = Ok s.
Proof. by destruct s. Qed.
Lemma bool_or_default (b : bool) : (if b then Ok true else Ok false) = Ok b.
Proof. by destruct b. Qed.
Lemma strings_or_default (m : gmap str str) :
  (if negb (bool_decide (m = ∅)) then Ok m else Ok ∅) = Ok m.
Proof. case_bool_decide; simpl; by subst. Qed.

Definition fwmark_ok (c : Config) : Prop := ∀ n, fwmark c = Some n → 0 <= n <= u32_max.

Lemma field_fwmark_value c m :
  fwmark_ok c → field (de_option (de_uint u32_max)) None "fwmark" m = Ok None →
  field (de_option (de_uint u32_max)) None "fwmark" (fwmark_insert c m) = Ok (fwmark c).
Proof.
  intros Hc Hm. rewrite field_fwmark. destruct (fwmark c) as [n|] eqn:E; [|done].
  specialize (Hc n E). simpl. destruct (Z.leb_spec 0 n); [|lia].
  by destruct (Z.leb_spec n u32_max); [|lia].
Qed.

(** What a reader of the client export learns. *)
Definition client_view (c : Config) : Config :=
  let d := Config_default in
  mkConfig (server c) (uuid c) (password c) (sni c) (allow_insecure c) (pinned_certchain_sha256 c)
    (protect_path d) (forward c) (fwmark c) (users d) (certificate d) (private_key d)
    (send_through d) (dialer_link d) (disable_outbound_udp443 d)
    (listen c) (congestion_control c) (log_level c)
    (initial_rtt d) (keep_alive_interval d) (underlay_evict_timeout d) (enable_0rtt d).

Definition server_view (c : Config) : Config :=
  let d := Config_default in
  mkConfig (server d) (uuid d) (password d) (sni d) (allow_insecure d) (pinned_certchain_sha256 d)
    (protect_path d) (forward d) (fwmark c) (users c) (certificate c) (private_key c)
    (send_through c) (dialer_link c) (disable_outbound_udp443 c)
    (listen c) (congestion_control c) (log_level c)
    (initial_rtt d) (keep_alive_interval d) (underlay_evict_timeout d) (enable_0rtt d).

(** A key that [fwmark_insert] does not touch. *)
Lemma field_fwmark_other {A} (de : Json → result A) d k c m :
  String.eqb k "fwmark" = false → field de d k (fwmark_insert c m) = field de d k m.
Proof. intros Hk. rewrite field_fwmark, Hk. by case_match. Qed.

(** A configuration is read field by field. *)
Lemma config_of_json_fields m c :
  field de_str [] "server" m = Ok (server c) →
  field de_str [] "uuid" m = Ok (uuid c) →
  field de_str [] "password" m = Ok (password c) →
  field de_str [] "sni" m = Ok (sni c) →
  field de_bool false "allow_insecure" m = Ok (allow_insecure c) →
  field de_str [] "pinned_certchain_sha256" m = Ok (pinned_certchain_sha256 c) →
  field de_str [] "protect_path" m = Ok (protect_path c) →
  field de_strings ∅ "forward" m = Ok (forward c) →
  field (de_option (de_uint u32_max)) None "fwmark" m = Ok (fwmark c) →
  field de_strings ∅ "users" m = Ok (users c) →
  field de_str [] "certificate" m = Ok (certificate c) →
  field de_str [] "private_key" m = Ok (private_key c) →
  field de_str [] "send_through" m = Ok (send_through c) →
  field de_str [] "dialer_link" m = Ok (dialer_link c) →
  field de_bool false "disable_outbound_udp443" m = Ok (disable_outbound_udp443 c) →
  field de_str [] "listen" m = Ok (listen c) →
  field de_str (B "bbr") "congestion_control" m = Ok (congestion_control c) →
  field de_str (B "info") "log_level" m = Ok (log_level c) →
  field (de_option (de_uint u64_max)) None "initial_rtt" m = Ok (initial_rtt c) →
  field (de_option (de_uint u64_max)) None "keep_alive_interval" m = Ok (keep_alive_interval c) →
  field (de_option (de_uint u64_max)) None "underlay_evict_timeout" m = Ok (underlay_evict_timeout c) →
  field (de_option de_bool) None "enable_0rtt" m = Ok (enable_0rtt c) →
  config_of_json (JObject m) = Ok c.
Proof.
  intros. unfold config_of_json, Config_default. cbn -[B].
  repeat (match goal with H : field _ _ _ m = _ |- _ => rewrite H; clear H; cbn -[B] end).
  by destruct c.
Qed.

(** Evaluate one field of a map built by insertions. *)
Ltac eval_field :=
  repeat first
    [ progress rewrite ?field_insert, ?field_opt_insert, ?field_empty,
        ?de_strings_strings, ?str_or_default, ?bool_or_default, ?strings_or_default
    | rewrite field_fwmark_other by done
    | progress cbn [String.eqb Ascii.eqb Bool.eqb andb de_str de_bool] ].

Definition client_of_server (c : Config) (user pw : str) (socks_port : Z) : Config :=
  let d := Config_default in
  mkConfig (listen c) user pw (sni c) (allow_insecure c) (pinned_certchain_sha256 c)
    (protect_path d) (forward d) (fwmark c) (users d) (certificate d) (private_key d)
    (send_through d) (dialer_link d) (disable_outbound_udp443 d)
    (B "[::]:" ++ show_dec socks_port) (congestion_control c) (log_level c)
    (initial_rtt d) (keep_alive_interval d) (underlay_evict_timeout d) (enable_0rtt d).

(** Every field of an export but the firewall mark, which needs its bound. *)
Ltac eval_export Hfw :=
  apply config_of_json_fields; cbn [client_view server_view client_of_server
    server uuid password sni allow_insecure pinned_certchain_sha256 protect_path forward fwmark
    users certificate private_key send_through dialer_link disable_outbound_udp443 listen
    congestion_control log_level initial_rtt keep_alive_interval underlay_evict_timeout enable_0rtt];
  try (by eval_field);
  rewrite ?field_opt_insert, ?field_insert; cbn [String.eqb Ascii.eqb Bool.eqb andb];
  apply field_fwmark_value; [exact Hfw|by eval_field].

Lemma client_map_read c : fwmark_ok c → config_of_json (JObject (client_map c)) = Ok (client_view c).
Proof. intros Hfw. unfold client_map. eval_export Hfw. Qed.

Lemma server_map_read c : fwmark_ok c → config_of_json (JObject (server_map c)) = Ok (server_view c).
Proof. intros Hfw. unfold server_map. eval_export Hfw. Qed.

Lemma client_map_from_server_read c user pw p :
  fwmark_ok c →
  config_of_json (JObject (client_map_from_server c user pw p)) = Ok (client_of_server c user pw p).
Proof. intros Hfw. unfold client_map_from_server. eval_export Hfw. Qed.

(** ** Validation, as predicates *)
Section validation.
Context `{HashOrder, UuidParse}.

Definition valid_client (c : Config) : Prop :=
  x3a ∈ server c ∧ is_Some (parse_uuid (uuid c)) ∧ uuid c ≠ [] ∧ password c ≠ [] ∧
  (listen c ≠ [] ∨ forward c ≠ ∅) ∧ (listen c ≠ [] → x3a ∈ listen c).

Definition valid_server (exists_ : str → bool) (c : Config) : Prop :=
  x3a ∈ listen c ∧ users c ≠ ∅ ∧
  map_Forall (λ id pw, is_Some (parse_uuid id) ∧ pw ≠ []) (users c) ∧
  certificate c ≠ [] ∧ exists_ (certificate c) = true ∧
  private_key c ≠ [] ∧ exists_ (private_key c) = true.

Lemma check_ok bad msg : check bad msg = Ok tt ↔ bad = false.
Proof. by destruct bad. Qed.

Lemma check_bind {A} bad msg (m : result A) a :
  (_ ← check bad msg; m) = Ok a ↔ bad = false ∧ m = Ok a.
Proof. destruct bad; simpl; result_cbn; intuition done. Qed.

Lemma is_empty_false s : is_empty s = false ↔ s ≠ [].
Proof. destruct s; simpl; intuition done. Qed.

Lemma validate_for_client_iff c : validate_for_client c = Ok tt ↔ valid_client c.
Proof.
  unfold validate_for_client, valid_client, valid_uuid.
  rewrite !check_bind, check_ok, andb_false_iff, andb_false_iff, !negb_false_iff, !contains_true.
  rewrite !is_empty_false, !bool_decide_eq_true, bool_decide_eq_false, is_empty_true.
  split.
  - intros (? & ? & ? & ? & ? & ? & [?|?]); split_and!; done.
  - intros (Hs & ? & ? & ? & ? & Hl). split_and!; try done.
    + intros Hn. rewrite Hn in Hs. by apply not_elem_of_nil in Hs.
    + destruct (decide (listen c = [])); auto.
Qed.

Lemma validate_users_iff l :
  validate_users l = Ok tt ↔ Forall (λ '(id, pw), is_Some (parse_uuid id) ∧ pw ≠ []) l.
Proof.
  induction l as [|[id pw] l IH]; [done|]. cbn [validate_users].
  rewrite !check_bind, IH, Forall_cons, is_empty_false. unfold valid_uuid.
  rewrite negb_false_iff, bool_decide_eq_true. tauto.
Qed.

Lemma validate_for_server_iff exists_ c : validate_for_server exists_ c = Ok tt ↔ valid_server exists_ c.
Proof.
  unfold validate_for_server, valid_server. rewrite !check_bind.
  destruct (validate_users (hm_iter (users c))) as [[]|e] eqn:E.
  - result_cbn. apply validate_users_iff in E. rewrite hm_iter_perm in E.
    apply map_Forall_to_list in E.
    rewrite !check_bind, check_ok, !negb_false_iff, contains_true, !is_empty_false, bool_decide_eq_false.
    split; [tauto|]. intros (Hl & ?). split; [|tauto].
    intros Hn. rewrite Hn in Hl. by apply not_elem_of_nil in Hl.
  - split; [by intros (_ & _ & _ & ?)|]. intros (_ & _ & Hu & _).
    apply map_Forall_to_list in Hu. rewrite <-hm_iter_perm in Hu.
    apply validate_users_iff in Hu. congruence.
Qed.
End validation.

(** A JSON text for objects of strings, to instantiate the laws: the bits of
    the object's number in the countable set of maps. *)
Module FlatJson.
Fixpoint bits (p : positive) : str :=
  match p with xH => [] | xO p => x00 :: bits p | xI p => x01 :: bits p end.
Fixpoint unbits (s : str) : positive :=
  match s with [] => xH | c :: s => if decide (c = x00) then xO (unbits s) else xI (unbits s) end.

Lemma unbits_bits p : unbits (bits p) = p.
Proof. induction p; simpl; by f_equal. Qed.

Definition print (v : Json) : result str :=
  match v with
  | JObject m =>
      match de_strings v with
      | Ok strs => Ok (bits (encode strs))
      | Err e => Err e
      end
  | _ => de_error
  end.

#[export] Instance text : JsonText := {
  to_string_pretty := print;
  from_str s := ok_or (strings <$> decode (A := gmap str str) (unbits s)) (EMsg []);
}.

Lemma de_strings_inv m strs : de_strings (JObject m) = Ok strs → JObject m = strings strs.
Proof.
  unfold de_strings, strings. destruct (decide (map_Forall (λ _ v, is_ok (de_str v)) m)) as [Hm|Hm].
  - rewrite option_guard_True by done. simpl. intros [= <-]. f_equal. apply map_eq. intros i.
    rewrite lookup_fmap, lookup_omap. specialize (Hm i). destruct (m !! i) as [v|]; [|done].
    specialize (Hm v eq_refl). by destruct v.
  - by rewrite option_guard_False.
Qed.

#[export] Instance laws : JsonTextLaws.
Proof.
  constructor. intros v s. simpl. destruct v as [| | | | | |m]; try done. unfold print.
  destruct (de_strings (JObject m)) as [strs|] eqn:E; [|done]. intros [= <-].
  apply de_strings_inv in E. by rewrite unbits_bits, decode_encode, E.
Qed.
End FlatJson.
#[local] Existing Instances FlatJson.text FlatJson.laws.

(** A client configuration exported to JSON and read from that file again
    is the same configuration in every field the export writes (with the
    optional ones restored to their defaults when they were left out) and is
    valid for a client exactly when the exported one was; the socket protection
    path and the four QUIC tuning fields are not exported and come back as the
    defaults. *)
Theorem client_export_roundtrip `{JsonTextLaws, UuidParse} c s path :
  fwmark_ok c → to_client_json c = Ok s →
  from_file (λ _, Ok s) path = Ok (client_view c) ∧
  (validate_for_client (client_view c) = Ok tt ↔ validate_for_client c = Ok tt).
Proof.
  intros Hfw Hs. split; [|done]. unfold from_file. result_cbn.
  rewrite (from_to_string _ _ Hs). result_cbn. by apply client_map_read.
Qed.

Definition sample_client : Config :=
  mkConfig (B "h:1") (B "u") (B "p") [] false [] (B "/run/protect") ∅ None ∅ [] [] [] [] false
    (B "127.0.0.1:1080") (B "bbr") (B "info") (Some 50) None None None.

Lemma client_export_roundtrip_witness :
  let s := match to_client_json sample_client with Ok s => s | Err _ => [] end in
  let _ : UuidParse := Some in
  from_file (λ _, Ok s) (B "c.json") = Ok (client_view sample_client) ∧
  (validate_for_client (client_view sample_client) = Ok tt ↔ validate_for_client sample_client = Ok tt).
Proof.
  intros s U. apply client_export_roundtrip; [by intros n|]. unfold s.
  assert (is_ok (to_client_json sample_client) = true) as Ho by by vm_compute.
  by destruct (to_client_json sample_client).
Defined.

(** Validation accepts exactly the usable configurations: a client needs a
    server with a port, a parseable user id, a password, and a listener with a
    port or a forward; a server needs a listener with a port, at least one
    user, parseable ids and nonempty passwords for all of them, and existing
    certificate and key files.  The result does not depend on the order in
    which the users are visited. *)
Theorem validation_complete `{HashOrder, UuidParse} c :
  (validate_for_client c = Ok tt ↔ valid_client c) ∧
  (∀ exists_, validate_for_server exists_ c = Ok tt ↔ valid_server exists_ c).
Proof. split; [apply validate_for_client_iff|intros; apply validate_for_server_iff]. Qed.

(** ** Certificates *)
(** Without a user's choice, the domain picked from a certificate is never
    a wildcard, is one of the certificate's names, and there is none only when
    every name is a wildcard. *)
Theorem pick_preferred_domain_spec d :
  match pick_preferred_domain d None with
  | Some s => is_wildcard_name s = false ∧ (cn d = Some s ∨ s ∈ sans d)
  | None => (∀ c, cn d = Some c → is_wildcard_name c = true) ∧
            Forall (λ s, is_wildcard_name s = true) (sans d)
  end.
Proof.
  assert (∀ s, snd <$> list_find (λ s, is_wildcard_name s = false) (sans d) = Some s →
    is_wildcard_name s = false ∧ s ∈ sans d) as Hfind.
  { intros s ([i x] & (Hx & HP & _)%list_find_Some & ->)%fmap_Some. simpl.
    split; [done|by eapply list_elem_of_lookup_2]. }
  assert (snd <$> list_find (λ s, is_wildcard_name s = false) (sans d) = None →
    Forall (λ s, is_wildcard_name s = true) (sans d)) as Hnone.
  { intros Hn%fmap_None%list_find_None. eapply Forall_impl; [exact Hn|].
    intros s Hs. simpl in Hs. by destruct (is_wildcard_name s). }
  unfold pick_preferred_domain. destruct (cn d) as [c|].
  - destruct (is_wildcard_name c) eqn:E; simpl; [|auto].
    destruct (snd <$> _) as [s|] eqn:Es.
    + destruct (Hfind s eq_refl). auto.
    + split; [by intros ? [= <-]|auto].
  - destruct (snd <$> _) as [s|] eqn:Es; [|split; [done|auto]].
    destruct (Hfind s eq_refl). auto.
Qed.
