(* ===== verification/Inflight.v ===== *)
(** * [server/src/inflight.rs]: the in-flight underlay keys

    The table that hands the authentication received on a QUIC stream to the
    UDP packet carrying the same salt.  [store], [cleanup] and the critical
    sections of [evict] are functions on the table; [evict] itself is a small
    state machine, so that every interleaving of stores, cleanups and any
    number of packet tasks is a list of labels. *)
From S2P Require Import Prelude Std Consts Protocol.
#[local] Open Scope Z_scope.

Abbreviation InFlightKey := str.

Record InFlight := mkInFlight { ttl : Z; evict_timeout : Z }.

(** A [Notify] is its number; [next_notify] is the next one to be created. *)
Record InFlightState := mkState {
  auth : gmap InFlightKey (UnderlayAuth * Z);
  waiting : gmap InFlightKey (nat * Z);
  next_notify : nat;
}.

Definition InFlightState_default : InFlightState := mkState ∅ ∅ 0.

(** The entries younger than [limit], and the notifications of the others. *)
Definition fresh {A} (limit now : Z) : InFlightKey * (A * Z) → Prop :=
  λ e, now - e.2.2 <= limit.
#[export] Instance fresh_dec {A} limit now (e : InFlightKey * (A * Z)) : Decision (fresh limit now e).
Proof. unfold fresh. apply _. Defined.

Definition stale_notifies (limit now : Z) (w : gmap InFlightKey (nat * Z)) : list nat :=
  (λ e, e.2.1) <$> filter (λ e, ¬ fresh limit now e) (map_to_list w).

(** Each operation returns the table and the [Notify]s it wakes. *)
Definition store (p : InFlight) (now : Z) (key : InFlightKey) (a : UnderlayAuth) (m : InFlightState)
    : InFlightState * list nat :=
  let full au := bool_decide (MAX_IN_FLIGHT_UNDERLAY_ENTRIES ≤ size au)%nat in
  let insert au :=
    let au := <[key := (a, now)]> au in
    match waiting m !! key with
    | Some (n, _) => (mkState au (delete key (waiting m)) (next_notify m), [n])
    | None => (mkState au (waiting m) (next_notify m), [])
    end in
  if bool_decide (auth m !! key = None) && full (auth m) then
    let au := filter (fresh (ttl p) now) (auth m) in
    if full au then (mkState au (waiting m) (next_notify m), []) else insert au
  else insert (auth m).

Definition cleanup (p : InFlight) (now : Z) (m : InFlightState) : InFlightState * list nat :=
  (mkState (filter (fresh (ttl p) now) (auth m))
           (filter (fresh (evict_timeout p) now) (waiting m)) (next_notify m),
   stale_notifies (evict_timeout p) now (waiting m)).

(** The second critical section of [evict]: an entry is removed only when it is
    still the one that was claimed. *)
Definition take_claimed (key : InFlightKey) (inserted_at : Z) (m : InFlightState) : option InFlightState :=
  match auth m !! key with
  | Some (_, stored_at) =>
      if decide (stored_at = inserted_at)
      then Some (mkState (delete key (auth m)) (waiting m) (next_notify m)) else None
  | None => None
  end.

(** The third critical section: retry, give up, or wait on a [Notify]. *)
Inductive Registered := RRetry | RFull | RWait (n : nat).

Definition register_waiter (p : InFlight) (now : Z) (key : InFlightKey) (m : InFlightState)
    : Registered * InFlightState * list nat :=
  if bool_decide (is_Some (auth m !! key)) then (RRetry, m, [])
  else
    let full w := bool_decide (MAX_IN_FLIGHT_UNDERLAY_ENTRIES ≤ size w)%nat in
    let reclaim := bool_decide (waiting m !! key = None) && full (waiting m) in
    let w := if reclaim then filter (fresh (evict_timeout p) now) (waiting m) else waiting m in
    let woken := if reclaim then stale_notifies (evict_timeout p) now (waiting m) else [] in
    if reclaim && full w then (RFull, mkState (auth m) w (next_notify m), woken)
    else
      match w !! key with
      | Some (n, _) => (RWait n, mkState (auth m) w (next_notify m), woken)
      | None => (RWait (next_notify m),
                 mkState (auth m) (<[key := (next_notify m, now)]> w) (S (next_notify m)), woken)
      end.

(** ** Packet tasks

    Where a call of [evict] is: about to claim, verifying a claimed entry
    outside the lock, about to remove it, about to register, waiting (and
    whether its [Notify] fired), or finished. *)
Section evict.
Context {T : Type}.

Inductive EvictState :=
  | EClaim
  | EVerify (a : UnderlayAuth) (inserted_at : Z)
  | ETake (a : UnderlayAuth) (inserted_at : Z) (verified : T)
  | ERegister
  | EWait (n : nat) (notified : bool)
  | EDone (r : option (UnderlayAuth * T)).

Record Task := mkTask {
  key : InFlightKey;
  deadline : Z;
  authenticate : UnderlayAuth → option T;
  pc : EvictState;
}.

Definition set_pc (t : Task) (s : EvictState) : Task :=
  mkTask (key t) (deadline t) (authenticate t) s.

Definition evict (p : InFlight) (now : Z) (k : InFlightKey) (check : UnderlayAuth → option T) : Task :=
  mkTask k (now + evict_timeout p) check EClaim.

(** One step of a task; a waiting task stays where it is until it is notified
    or its deadline has passed. *)
Definition evict_step (p : InFlight) (now : Z) (m : InFlightState) (t : Task)
    : InFlightState * list nat * Task :=
  match pc t with
  | EClaim =>
      match auth m !! key t with
      | Some (a, inserted_at) => (m, [], set_pc t (EVerify a inserted_at))
      | None => (m, [], set_pc t ERegister)
      end
  | EVerify a inserted_at =>
      match authenticate t a with
      | Some v => (m, [], set_pc t (ETake a inserted_at v))
      | None => (m, [], set_pc t (EDone None))
      end
  | ETake a inserted_at v =>
      match take_claimed (key t) inserted_at m with
      | Some m' => (m', [], set_pc t (EDone (Some (a, v))))
      | None => (m, [], set_pc t (EDone None))
      end
  | ERegister =>
      let '(r, m', woken) := register_waiter p now (key t) m in
      (m', woken, set_pc t (match r with
                            | RRetry => EClaim
                            | RFull => EDone None
                            | RWait n => EWait n false
                            end))
  | EWait n notified =>
      if notified then (m, [], set_pc t EClaim)
      else if deadline t <=? now then (m, [], set_pc t (EDone None))
      else (m, [], t)
  | EDone _ => (m, [], t)
  end.

(** [notify_waiters] reaches every registered future of the [Notify]. *)
Definition wake (woken : list nat) (t : Task) : Task :=
  match pc t with
  | EWait n _ => if decide (n ∈ woken) then set_pc t (EWait n true) else t
  | _ => t
  end.

(** ** The system *)
Record System := mkSystem {
  now : Z;
  table : InFlightState;
  tasks : list Task;
}.

Inductive Label :=
  | LTick (d : nat)
  | LStore (k : InFlightKey) (a : UnderlayAuth)
  | LCleanup
  | LEvict (k : InFlightKey) (check : UnderlayAuth → option T)
  | LTask (i : nat).

Definition step (p : InFlight) (s : System) (l : Label) : System :=
  match l with
  | LTick d => mkSystem (now s + Z.of_nat d) (table s) (tasks s)
  | LStore k a =>
      let '(m, woken) := store p (now s) k a (table s) in
      mkSystem (now s) m (wake woken <$> tasks s)
  | LCleanup =>
      let '(m, woken) := cleanup p (now s) (table s) in
      mkSystem (now s) m (wake woken <$> tasks s)
  | LEvict k check => mkSystem (now s) (table s) (tasks s ++ [evict p (now s) k check])
  | LTask i =>
      match tasks s !! i with
      | Some t =>
          let '(m, woken, t') := evict_step p (now s) (table s) t in
          mkSystem (now s) m (<[i := t']> (wake woken <$> tasks s))
      | None => s
      end
  end.

Definition run (p : InFlight) (ls : list Label) : System :=
  foldl (step p) (mkSystem 0 InFlightState_default []) ls.
End evict.
#[global] Arguments Task : clear implicits.
#[global] Arguments System : clear implicits.
#[global] Arguments Label : clear implicits.
#[global] Arguments EvictState : clear implicits.

(** ** Table lemmas *)
Lemma filter_fresh_Some {A} (limit now : Z) (w : gmap InFlightKey (A * Z)) k x :
  filter (fresh limit now) w !! k = Some x ↔ w !! k = Some x ∧ now - x.2 <= limit.
Proof. apply map_lookup_filter_Some. Qed.

Lemma filter_fresh_size {A} (limit now : Z) (w : gmap InFlightKey (A * Z)) :
  (size (filter (fresh limit now) w) ≤ size w)%nat.
Proof. apply map_subseteq_size, map_filter_subseteq. Qed.

Lemma not_stale (limit now : Z) (w : gmap InFlightKey (nat * Z)) k n t0 :
  w !! k = Some (n, t0) → n ∉ stale_notifies limit now w →
  filter (fresh limit now) w !! k = Some (n, t0).
Proof.
  intros Hk Hn. apply filter_fresh_Some. split; [done|].
  destruct (decide (fresh limit now (k, (n, t0)))) as [Hf|Hf]; [exact Hf|].
  exfalso. apply Hn. unfold stale_notifies. apply list_elem_of_fmap. exists (k, (n, t0)).
  split; [done|]. apply list_elem_of_filter. split; [done|]. by apply elem_of_map_to_list.
Qed.

Lemma insert_size_le {A} (w : gmap InFlightKey A) k x :
  (size w ≤ MAX_IN_FLIGHT_UNDERLAY_ENTRIES)%nat →
  (w !! k = None → size w < MAX_IN_FLIGHT_UNDERLAY_ENTRIES)%nat →
  (size (<[k:=x]> w) ≤ MAX_IN_FLIGHT_UNDERLAY_ENTRIES)%nat.
Proof.
  intros Hs Hn. rewrite map_size_insert. destruct (w !! k); [done|].
  specialize (Hn eq_refl). lia.
Qed.

(** The two tables never hold more than their capacity. *)
Definition bounded (m : InFlightState) : Prop :=
  (size (auth m) ≤ MAX_IN_FLIGHT_UNDERLAY_ENTRIES)%nat ∧
  (size (waiting m) ≤ MAX_IN_FLIGHT_UNDERLAY_ENTRIES)%nat.

(** What [store] does to the table. *)
Variant store_case (p : InFlight) (now : Z) (k : InFlightKey) (a : UnderlayAuth) (m : InFlightState)
    : InFlightState * list nat → Prop :=
  | store_dropped :
      auth m !! k = None →
      store_case p now k a m
        (mkState (filter (fresh (ttl p) now) (auth m)) (waiting m) (next_notify m), [])
  | store_inserted au w woken :
      au ⊆ auth m → (au = auth m ∨ auth m !! k = None) →
      (auth m !! k = None → size au < MAX_IN_FLIGHT_UNDERLAY_ENTRIES)%nat →
      (∀ n t0, waiting m !! k = Some (n, t0) → w = delete k (waiting m) ∧ woken = [n]) →
      (waiting m !! k = None → w = waiting m ∧ woken = []) →
      store_case p now k a m (mkState (<[k := (a, now)]> au) w (next_notify m), woken).

Lemma store_cases p now k a m : store_case p now k a m (store p now k a m).
Proof.
  unfold store. destruct (bool_decide (auth m !! k = None)) eqn:Ek; simpl.
  - apply bool_decide_eq_true in Ek. case_bool_decide as Hf.
    + case_bool_decide; [by constructor|].
      destruct (waiting m !! k) as [[n t0]|] eqn:Ew; (constructor; [apply map_filter_subseteq|by right|lia| |]);
        intros; simplify_eq; done.
    + destruct (waiting m !! k) as [[n t0]|] eqn:Ew; (constructor; [done|by left|lia| |]);
        intros; simplify_eq; done.
  - apply bool_decide_eq_false in Ek.
    destruct (waiting m !! k) as [[n t0]|] eqn:Ew; (constructor; [done|by left|by intros| |]);
      intros; simplify_eq; done.
Qed.

(** What [register_waiter] does to it. *)
Variant register_case (p : InFlight) (now : Z) (k : InFlightKey) (m : InFlightState)
    : Registered * InFlightState * list nat → Prop :=
  | register_retry : is_Some (auth m !! k) → register_case p now k m (RRetry, m, [])
  | register_full :
      auth m !! k = None →
      register_case p now k m
        (RFull, mkState (auth m) (filter (fresh (evict_timeout p) now) (waiting m)) (next_notify m),
         stale_notifies (evict_timeout p) now (waiting m))
  | register_wait w w' woken n next t0 :
      auth m !! k = None →
      (w = waiting m ∧ woken = []
       ∨ w = filter (fresh (evict_timeout p) now) (waiting m)
         ∧ woken = stale_notifies (evict_timeout p) now (waiting m)) →
      (w' = w ∧ next = next_notify m ∧ w !! k = Some (n, t0)
       ∨ w' = <[k := (n, t0)]> w ∧ next = S (next_notify m) ∧ n = next_notify m
         ∧ w !! k = None ∧ (size w < MAX_IN_FLIGHT_UNDERLAY_ENTRIES)%nat) →
      register_case p now k m (RWait n, mkState (auth m) w' next, woken).

Lemma register_cases p now k m : register_case p now k m (register_waiter p now k m).
Proof.
  unfold register_waiter. case_bool_decide as Ha; [by constructor|].
  apply eq_None_not_Some in Ha. destruct (bool_decide (waiting m !! k = None)) eqn:Ek; simpl.
  - apply bool_decide_eq_true in Ek. case_bool_decide as Hf; simpl.
    + case_bool_decide as Hf'; [by constructor|].
      assert (filter (fresh (evict_timeout p) now) (waiting m) !! k = None) as Ek'.
      { apply map_lookup_filter_None. by left. }
      rewrite Ek'. eapply register_wait; [done|by right|right]. split_and!; [done..|lia].
    + rewrite Ek. eapply register_wait; [done|by left|right]. split_and!; [done..|lia].
  - apply bool_decide_eq_false in Ek. destruct (waiting m !! k) as [[n t0]|] eqn:Ew; [|done].
    eapply (register_wait _ _ _ _ (waiting m)); [done|by left|by left].
Qed.

Lemma store_bounded p now k a m : bounded m → bounded (store p now k a m).1.
Proof.
  intros [Ha Hw]. destruct (store_cases p now k a m) as [Hk|au w woken Hau Hcase Hn Hs Hnone]; split; simpl.
  - by etrans; [apply filter_fresh_size|].
  - done.
  - apply insert_size_le; [by etrans; [apply map_subseteq_size|]|].
    intros Hk. destruct Hcase as [->|?]; auto.
  - destruct (waiting m !! k) as [[n t0]|] eqn:E.
    + destruct (Hs n t0 eq_refl) as [-> _]. etrans; [|exact Hw].
      apply map_subseteq_size, delete_subseteq.
    + by destruct (Hnone eq_refl) as [-> _].
Qed.

Lemma cleanup_bounded p now m : bounded m → bounded (cleanup p now m).1.
Proof. intros [Ha Hw]. split; simpl; by etrans; [apply filter_fresh_size|]. Qed.

Lemma register_bounded p now k m : bounded m → bounded (register_waiter p now k m).1.2.
Proof.
  intros [Ha Hw]. destruct (register_cases p now k m) as [| |w w' woken n next t0 Hk Hc Hr].
  - done.
  - split; simpl; [done|]. by etrans; [apply filter_fresh_size|].
  - assert (size w ≤ MAX_IN_FLIGHT_UNDERLAY_ENTRIES)%nat.
    { destruct Hc as [[-> _]|[-> _]]; [done|]. by etrans; [apply filter_fresh_size|]. }
    split; simpl; [done|]. destruct Hr as [(-> & _)|(-> & _ & _ & Hnone & Hlt)]; [done|].
    by apply insert_size_le.
Qed.

(** ** The invariant

    A task that waits and has not been notified is registered under its key,
    and there is no authentication for that key. *)
Section system.
Context {T : Type} (p : InFlight).
Implicit Types (s : System T) (t : Task T) (l : Label T).

Definition task_ok (m : InFlightState) t : Prop :=
  ∀ n, pc t = EWait n false → auth m !! key t = None ∧ ∃ u0, waiting m !! key t = Some (n, u0).

Definition invariant s : Prop := bounded (table s) ∧ Forall (task_ok (table s)) (tasks s).

Lemma wake_key woken t : key (wake woken t) = key t.
Proof. unfold wake. repeat case_match; done. Qed.

Lemma wake_waiting woken t n : pc (wake woken t) = EWait n false → pc t = EWait n false ∧ n ∉ woken.
Proof.
  unfold wake. destruct (pc t) as [| | | |n' b|] eqn:E; rewrite ?E; try done.
  destruct (decide (n' ∈ woken)); [done|]. rewrite E. by intros [= -> ->].
Qed.

(** A change of the table that wakes [woken] keeps a task in order when it
    keeps the task's registration or wakes it. *)
Lemma task_ok_wake m m' woken t :
  (∀ n u0, auth m !! key t = None → waiting m !! key t = Some (n, u0) → n ∉ woken →
     auth m' !! key t = None ∧ ∃ u1, waiting m' !! key t = Some (n, u1)) →
  task_ok m t → task_ok m' (wake woken t).
Proof.
  intros H Ht n [Hpc Hn]%wake_waiting. rewrite wake_key.
  destruct (Ht n Hpc) as (Ha & u0 & Hw). eauto.
Qed.

Lemma store_task_ok now k a m t :
  task_ok m t → task_ok (store p now k a m).1 (wake (store p now k a m).2 t).
Proof.
  apply task_ok_wake. intros n u0 Ha Hw Hn.
  destruct (store_cases p now k a m) as [Hk|au w woken Hau _ _ Hs Hnone]; simpl in *.
  - split; [|by exists u0]. apply map_lookup_filter_None. by left.
  - destruct (decide (k = key t)) as [->|Hk].
    + destruct (Hs n u0 Hw) as [_ ->]. by destruct Hn; apply list_elem_of_here.
    + rewrite lookup_insert_ne by done. split.
      * eapply lookup_weaken_None; done.
      * exists u0. destruct (waiting m !! k) as [[n' u1]|] eqn:E.
        -- destruct (Hs _ _ eq_refl) as [-> _]. by rewrite lookup_delete_ne.
        -- by destruct (Hnone eq_refl) as [-> _].
Qed.

Lemma cleanup_task_ok now m t :
  task_ok m t → task_ok (cleanup p now m).1 (wake (cleanup p now m).2 t).
Proof.
  apply task_ok_wake. intros n u0 Ha Hw Hn. simpl in *. split.
  - apply map_lookup_filter_None. by left.
  - exists u0. by eapply not_stale.
Qed.

Lemma register_task_ok now k m t :
  task_ok m t →
  task_ok (register_waiter p now k m).1.2 (wake (register_waiter p now k m).2 t).
Proof.
  apply task_ok_wake. intros n u0 Ha Hw Hn.
  destruct (register_cases p now k m) as [| |w w' woken n' next u1 Hk Hc Hr]; simpl in *.
  - eauto.
  - split; [done|]. exists u0. by eapply not_stale.
  - split; [done|]. exists u0.
    assert (w !! key t = Some (n, u0)) as Hwt.
    { destruct Hc as [[-> ->]|[-> ->]]; [done|by eapply not_stale]. }
    destruct Hr as [(-> & _)|(-> & _ & _ & Hnone & _)]; [done|].
    rewrite lookup_insert_ne; [done|congruence].
Qed.

Lemma evict_step_ok now m t m' woken t' :
  bounded m → task_ok m t → evict_step p now m t = (m', woken, t') →
  bounded m' ∧ task_ok m' t' ∧ ∀ t1, task_ok m t1 → task_ok m' (wake woken t1).
Proof.
  intros Hb Ht. assert (∀ t1, task_ok m t1 → task_ok m (wake [] t1)) as Hid.
  { intros t1. apply task_ok_wake. eauto. }
  unfold evict_step. destruct (pc t) as [|a i|a i v| |n b|r] eqn:Epc.
  - case_match; [case_match|]; intros [= <- <- <-]; (split_and!; [done|by intros ? [=]|done]).
  - case_match; intros [= <- <- <-]; (split_and!; [done|by intros ? [=]|done]).
  - unfold take_claimed. destruct (auth m !! key t) as [[a' st]|] eqn:E.
    + case_decide; intros [= <- <- <-]; (split_and!; [|by intros ? [=]|]); try done.
      * destruct Hb. split; simpl; [|done]. etrans; [apply map_subseteq_size, delete_subseteq|done].
      * intros t1. apply task_ok_wake. simpl. intros n u0 Ha Hw _. split; [|eauto].
        apply lookup_delete_None. by right.
    + intros [= <- <- <-]. split_and!; [done|by intros ? [=]|done].
  - pose proof (register_bounded p now (key t) m Hb) as Hrb.
    pose proof (λ t1, register_task_ok now (key t) m t1) as Hrt.
    pose proof (register_cases p now (key t) m) as Hrc.
    destruct (register_waiter p now (key t) m) as [[r m1] w1]. intros [= <- <- <-].
    split_and!; [done| |done]. intros n. simpl.
    inversion Hrc as [| |w w' woken' n' next u0 Hk Hc Hr]; subst; intros [= <-].
    split; [done|]. simpl. exists u0.
    destruct Hr as [(-> & _ & ?)|(-> & _)]; [done|by rewrite lookup_insert_eq].
  - destruct b; [|case_match]; intros [= <- <- <-]; (split_and!; [done| |done]); try by intros ? [=].
    done.
  - intros [= <- <- <-]. done.
Qed.

Lemma invariant_step s l : invariant s → invariant (step p s l).
Proof.
  intros [Hb Ht]. destruct l as [d|k a| |k check|i]; simpl.
  - done.
  - pose proof (store_bounded p (now s) k a (table s) Hb) as Hb'.
    pose proof (λ t, store_task_ok (now s) k a (table s) t) as Hs.
    destruct (store p (now s) k a (table s)) as [m woken]. split; [done|].
    apply Forall_fmap. eapply Forall_impl; [exact Ht|]. intros t. apply Hs.
  - split; [by apply cleanup_bounded|]. apply Forall_fmap. eapply Forall_impl; [exact Ht|].
    intros t. apply (cleanup_task_ok (now s) (table s)).
  - split; [done|]. apply Forall_app. split; [done|]. constructor; [by intros ? [=]|done].
  - destruct (tasks s !! i) as [t|] eqn:Et; [|done].
    destruct (evict_step p (now s) (table s) t) as [[m woken] t'] eqn:Es.
    rewrite Forall_lookup in Ht.
    destruct (evict_step_ok (now s) (table s) t m woken t' Hb (Ht i t Et) Es) as (Hb' & Ht' & Hother).
    split; [done|]. simpl. apply Forall_insert; [|done].
    apply Forall_fmap, Forall_forall. intros t1 [j Hj]%list_elem_of_lookup. eapply Hother, Ht, Hj.
Qed.

Lemma invariant_run ls : invariant (run p ls).
Proof.
  unfold run. apply (foldl_invariant _ invariant); [apply invariant_step|]. split; [|done].
  split; simpl; rewrite map_size_empty; lia.
Qed.
End system.

(** ** Consumption *)
Section consumption.
Context {T : Type} (p : InFlight).
Implicit Types (s : System T) (l : Label T).









End consumption.

(** ** What is consumed

    The authentications that the packet tasks of a key returned, and the stores of the key with their times. *)
Section consumed.
Context {T : Type} (p : InFlight).
Implicit Types (s : System T) (l : Label T) (t : Task T).
















End consumed.

(** C1: in every interleaving of stores, cleanups, clock ticks and packet tasks,
    the tables stay within their capacity, and a packet task that is waiting
    without having been notified is registered under its salt and the table
    holds no authentication for that salt: a [store] can never slip between a
    task's last look at the table and its wait. *)
Theorem no_lost_wakeup {T} (p : InFlight) (ls : list (Label T)) :
  bounded (table (run p ls)) ∧
  ∀ i t n, tasks (run p ls) !! i = Some t → pc t = EWait n false →
    auth (table (run p ls)) !! key t = None ∧
    ∃ since, waiting (table (run p ls)) !! key t = Some (n, since).
Proof.
  destruct (invariant_run p ls) as [Hb Ht]. split; [done|]. intros i t n Hi.
  rewrite Forall_lookup in Ht. exact (Ht i t Hi n).
Qed.

Definition sample_auth : UnderlayAuth :=
  mkUnderlayAuth (B "salt") (B "key") (mkProxyMetadata Udp (B "h") 53 Uuid_nil) Uuid_nil.
Definition sample_params : InFlight := mkInFlight IN_FLIGHT_UNDERLAY_TTL IN_FLIGHT_UNDERLAY_EVICT_TIMEOUT.

Lemma no_lost_wakeup_witness :
  let ls := [LEvict (B "salt") (λ a, Some (psk a)); LTask 0; LTask 0] in
  auth (table (run sample_params ls)) !! B "salt" = None ∧
  ∃ since, waiting (table (run sample_params ls)) !! B "salt" = Some (O, since).
Proof.
  intros ls.
  apply (proj2 (no_lost_wakeup sample_params ls) O (mkTask (B "salt") 100 (λ a, Some (psk a)) (EWait O false)) O);
    [|reflexivity].
  unfold ls, run, sample_params. cbn [foldl step tasks app lookup list_lookup evict].
  unfold evict_step. cbn. unfold register_waiter. cbn. reflexivity.
Defined.



(** C2: an authentication stored while a packet waits for it reaches that
    packet: after the store, and without any delay, four steps of the task end
    it with the authentication and what its check returned, and the entry is
    gone; if the check fails instead, three steps end it without a result and
    the entry is still there for a later packet. *)
Theorem stored_auth_delivered {T} (p : InFlight) (ls : list (Label T)) i t n a :
  let s := run p ls in
  tasks s !! i = Some t → pc t = EWait n false →
  (size (auth (table s)) < MAX_IN_FLIGHT_UNDERLAY_ENTRIES)%nat →
  match authenticate t a with
  | Some v =>
      let s' := run p (ls ++ [LStore (key t) a; LTask i; LTask i; LTask i; LTask i]) in
      tasks s' !! i = Some (set_pc t (EDone (Some (a, v)))) ∧ auth (table s') !! key t = None
  | None =>
      let s' := run p (ls ++ [LStore (key t) a; LTask i; LTask i; LTask i]) in
      tasks s' !! i = Some (set_pc t (EDone None)) ∧ auth (table s') !! key t = Some (a, now s)
  end.
Proof.
  intros s Hi Hpc Hsize. destruct (no_lost_wakeup p ls) as [_ Hok].
  destruct (Hok i t n Hi Hpc) as (Ha & since & Hw). fold s in Ha, Hw.
  set (m1 := mkState (<[key t := (a, now s)]> (auth (table s))) (delete (key t) (waiting (table s)))
               (next_notify (table s))).
  assert (step p s (LStore (key t) a) = mkSystem (now s) m1 (wake [n] <$> tasks s)) as Hstore.
  { unfold step, store. rewrite Ha, Hw. rewrite (bool_decide_false (_ ≤ _)%nat) by lia.
    by rewrite andb_false_r. }
  assert (wake [n] t = set_pc t (EWait n true)) as Hwake.
  { unfold wake. rewrite Hpc. by rewrite decide_True by apply list_elem_of_here. }
  assert (∀ st ts, ts !! i = Some (set_pc t st) → ∀ st' m' m, evict_step p (now s) m (set_pc t st) = (m', [], set_pc t st') →
    ∃ ts', step p (mkSystem (now s) m ts) (LTask i) = mkSystem (now s) m' ts' ∧ ts' !! i = Some (set_pc t st')) as Hstep.
  { intros st ts Hts st' m' m Hev. unfold step. cbn [tasks now table]. rewrite Hts, Hev.
    eexists; split; [done|]. rewrite list_lookup_insert_eq; [done|].
    rewrite length_fmap. by eapply lookup_lt_Some. }
  assert (m1.(auth) !! key t = Some (a, now s)) as Hm1 by apply lookup_insert_eq.
  assert ((wake [n] <$> tasks s) !! i = Some (set_pc t (EWait n true))) as H0
    by by rewrite list_lookup_fmap, Hi, <-Hwake.
  destruct (Hstep _ _ H0 EClaim m1 m1 eq_refl) as (ts1 & Hs1 & H1).
  destruct (Hstep _ _ H1 (EVerify a (now s)) m1 m1) as (ts2 & Hs2 & H2).
  { unfold evict_step. cbn [pc set_pc key]. by rewrite Hm1. }
  unfold run. destruct (authenticate t a) as [v|] eqn:Ev.
  - destruct (Hstep _ _ H2 (ETake a (now s) v) m1 m1) as (ts3 & Hs3 & H3).
    { unfold evict_step. cbn [pc set_pc authenticate]. by rewrite Ev. }
    destruct (Hstep _ _ H3 (EDone (Some (a, v))) (mkState (delete (key t) (auth m1)) (waiting m1) (next_notify m1)) m1)
      as (ts4 & Hs4 & H4).
    { unfold evict_step, take_claimed. cbn [pc set_pc key]. rewrite Hm1. by rewrite decide_True. }
    rewrite foldl_app. fold (run p ls). fold s. cbn [foldl]. rewrite Hstore, Hs1, Hs2, Hs3, Hs4.
    split; [done|]. apply lookup_delete_eq.
  - destruct (Hstep _ _ H2 (EDone None) m1 m1) as (ts3 & Hs3 & H3).
    { unfold evict_step. cbn [pc set_pc authenticate]. by rewrite Ev. }
    rewrite foldl_app. fold (run p ls). fold s. cbn [foldl]. by rewrite Hstore, Hs1, Hs2, Hs3.
Qed.

Lemma stored_auth_delivered_witness :
  let ls := [LEvict (B "salt") (λ a, Some (psk a)); LTask 0; LTask 0] in
  let t := mkTask (B "salt") 100 (λ a, Some (psk a)) (EWait O false) in
  let s' := run sample_params (ls ++ [LStore (B "salt") sample_auth; LTask 0; LTask 0; LTask 0; LTask 0]) in
  tasks s' !! O = Some (set_pc t (EDone (Some (sample_auth, psk sample_auth)))) ∧
  auth (table s') !! B "salt" = None.
Proof.
  intros ls t.
  apply (stored_auth_delivered sample_params ls O t O sample_auth).
  - unfold ls, run, sample_params. cbn [foldl step tasks app lookup list_lookup evict].
    unfold evict_step. cbn. unfold register_waiter. cbn. reflexivity.
  - reflexivity.
  - with_strategy transparent [MAX_IN_FLIGHT_UNDERLAY_ENTRIES] (apply Nat.ltb_lt; vm_compute; reflexivity).
Defined.
