(* ===== verification/UdpPool.v ===== *)
(** * [server/src/udp.rs]: UDP endpoints, their pool, and response framing *)
From S2P Require Import Prelude Std Consts Net Protocol.
#[local] Open Scope Z_scope.

(** A socket is a number; binding one and resolving a name are the operating
    system's, so they come in as results. *)
Abbreviation Socket := nat.

(** [send_to_addr]: the address the datagram is sent to. *)
Definition send_to_addr (target : SocketAddr) (socket_is_ipv6 : bool) : SocketAddr :=
  match ip target with
  | V4 o => if socket_is_ipv6 then socket_addr (V6 (to_ipv6_mapped o)) (port target) else target
  | V6 _ => target
  end.

Definition socket_is_ipv6 (local_addr : result SocketAddr) : bool :=
  match local_addr with Ok a => is_ipv6 a | Err _ => false end.

Record UdpEndpointOptions := mkOptions { nat_timeout : Z; dial_target : str }.

Record UdpEndpoint := mkEndpoint {
  ep_socket : Socket;
  ep_target : SocketAddr;
  ep_is_ipv6 : bool;
  ep_dial_target : str;
}.

Record PooledUdpEndpoint := mkPooled {
  pooled_socket : Socket;
  pooled_target : SocketAddr;
  pooled_is_ipv6 : bool;
}.

Definition from_endpoint (e : UdpEndpoint) : PooledUdpEndpoint :=
  mkPooled (ep_socket e) (ep_target e) (ep_is_ipv6 e).

Definition UdpEndpoint_new (bind_dual_stack : result Socket) (local_addr : Socket → result SocketAddr)
    (lookup_host : str → result (list SocketAddr)) (o : UdpEndpointOptions) : result UdpEndpoint :=
  socket ← bind_dual_stack;
  let is6 := socket_is_ipv6 (local_addr socket) in
  addrs ← lookup_host (dial_target o);
  target ← ok_or (head addrs) (EMsg (B "no address found for " ++ dial_target o));
  Ok (mkEndpoint socket target is6 (dial_target o)).

(** ** Responses

    What [recv_from] returns and when; the idle timer is reset by every
    datagram.  At the deadline itself either branch of the [select!] may run:
    the datagram is taken here. *)
Definition response_frame (addr : SocketAddr) (payload : str) : result str :=
  let response_addr := from_socket_addr (socket_addr (to_canonical (ip addr)) (port addr)) in
  frame ← build_trojanc_addr_cached [] response_addr;
  Ok (frame ++ to_be16 (Z.of_nat (length payload)) ++ payload).

(** [broken] is the number of bytes that the stream still takes and the error of the write that it does not take
    in full; [None] for a stream that takes everything. *)
Fixpoint relay_responses (broken : option (nat * error)) (deadline : Z) (events : list (Z * result (str * SocketAddr)))
    : str * result unit :=
  match events with
  | [] => ([], Ok tt)
  | (t, r) :: events =>
      if deadline <? t then ([], Ok tt)
      else
        match r with
        | Err e => ([], Err e)
        | Ok (payload, addr) =>
            match response_frame addr payload with
            | Err e => ([], Err e)
            | Ok frame =>
                let rest broken :=
                  let '(out, r) := relay_responses broken (t + DEFAULT_NAT_TIMEOUT) events in (frame ++ out, r) in
                match broken with
                | Some (k, e) => if decide (k < length frame)%nat then (take k frame, Err e) else rest (Some (k - length frame, e)%nat)
                | None => rest None
                end
            end
        end
  end.

(** ** The pool

    [inner] is the cache (entries may disappear when they are idle or the cache
    is full), [creating] the addresses being created, [notify_map] their
    [Notify]s; [next] numbers the [Notify]s. *)
Record UdpEndpointPool := mkPool {
  inner : gmap SocketAddr UdpEndpoint;
  creating : gset SocketAddr;
  notify_map : gmap SocketAddr nat;
  next : nat;
}.

Definition UdpEndpointPool_new : UdpEndpointPool := mkPool ∅ ∅ ∅ 0.

Definition get_socket (p : UdpEndpointPool) (addr : SocketAddr) : option PooledUdpEndpoint :=
  from_endpoint <$> inner p !! addr.

Definition remove (p : UdpEndpointPool) (addr : SocketAddr) : UdpEndpointPool :=
  mkPool (delete addr (inner p)) (creating p) (notify_map p) (next p).

(** Where a call of [get_or_create] is.  [n] is the [Notify] it holds; a creator
    leaves through the three statements of [CreationGuard::drop]. *)
Inductive GetState :=
  | GFast
  | GInsert
  | GMap (n : nat)
  | GDouble (n : nat)
  | GCreate (n : nat)
  | GDrop1 (n : nat) (r : option (result (PooledUdpEndpoint * bool)))
  | GDrop2 (n : nat) (r : option (result (PooledUdpEndpoint * bool)))
  | GDrop3 (n : nat) (r : option (result (PooledUdpEndpoint * bool)))
  | GReg
  | GCheck (n : nat)
  | GAwait (n : nat)
  | GWaiting (n : nat) (notified : bool)
  | GDone (r : option (result (PooledUdpEndpoint * bool))).

Record Getter := mkGetter { addr : SocketAddr; pc : GetState }.
Definition set_pc (g : Getter) (s : GetState) : Getter := mkGetter (addr g) s.

(** One step of a call; [created] is what [UdpEndpoint::new] returns when the
    call is at it.  The [Notify]s to signal are returned. *)
Definition get_or_create_step (p : UdpEndpointPool) (g : Getter) (created : result UdpEndpoint)
    : UdpEndpointPool * list nat * Getter :=
  let a := addr g in
  match pc g with
  | GFast =>
      match inner p !! a with
      | Some e => (p, [], set_pc g (GDone (Some (Ok (from_endpoint e, false)))))
      | None => (p, [], set_pc g GInsert)
      end
  | GInsert =>
      (* [notify] is allocated here, whether or not it is used. *)
      if decide (a ∈ creating p)
      then (mkPool (inner p) (creating p) (notify_map p) (S (next p)), [], set_pc g GReg)
      else (mkPool (inner p) ({[a]} ∪ creating p) (notify_map p) (S (next p)), [], set_pc g (GMap (next p)))
  | GMap n => (mkPool (inner p) (creating p) (<[a := n]> (notify_map p)) (next p), [], set_pc g (GDouble n))
  | GDouble n =>
      match inner p !! a with
      | Some e => (p, [], set_pc g (GDrop1 n (Some (Ok (from_endpoint e, false)))))
      | None => (p, [], set_pc g (GCreate n))
      end
  | GCreate n =>
      match created with
      | Ok e => (mkPool (<[a := e]> (inner p)) (creating p) (notify_map p) (next p), [],
                 set_pc g (GDrop1 n (Some (Ok (from_endpoint e, true)))))
      | Err e => (p, [], set_pc g (GDrop1 n (Some (Err e))))
      end
  | GDrop1 n r => (mkPool (inner p) (creating p ∖ {[a]}) (notify_map p) (next p), [], set_pc g (GDrop2 n r))
  | GDrop2 n r => (mkPool (inner p) (creating p) (delete a (notify_map p)) (next p), [], set_pc g (GDrop3 n r))
  | GDrop3 n r => (p, [n], set_pc g (GDone r))
  | GReg =>
      match notify_map p !! a with
      | Some n => (p, [], set_pc g (GCheck n))
      | None => (mkPool (inner p) (creating p) (<[a := next p]> (notify_map p)) (S (next p)), [],
                 set_pc g (GCheck (next p)))
      end
  | GCheck n =>
      if decide (a ∈ creating p) then (p, [], set_pc g (GAwait n)) else (p, [], set_pc g GFast)
  | GAwait n => (p, [], set_pc g (GWaiting n false))
  | GWaiting n notified => if notified then (p, [], set_pc g GFast) else (p, [], g)
  | GDone _ => (p, [], g)
  end.

(** Dropping the future: a creator at its only await leaves through the guard,
    a waiter just stops. *)
Definition cancel (g : Getter) : Getter :=
  match pc g with
  | GCreate n => set_pc g (GDrop1 n None)
  | GWaiting _ _ => set_pc g (GDone None)
  | _ => g
  end.

Definition wake (woken : list nat) (g : Getter) : Getter :=
  match pc g with
  | GWaiting n _ => if decide (n ∈ woken) then set_pc g (GWaiting n true) else g
  | _ => g
  end.

Record System := mkSystem { pool : UdpEndpointPool; getters : list Getter }.

Inductive Label :=
  | LGet (a : SocketAddr)
  | LStep (i : nat) (created : result UdpEndpoint)
  | LCancel (i : nat)
  | LExpire (a : SocketAddr)
  | LRemove (a : SocketAddr).

Definition step (s : System) (l : Label) : System :=
  match l with
  | LGet a => mkSystem (pool s) (getters s ++ [mkGetter a GFast])
  | LStep i created =>
      match getters s !! i with
      | Some g =>
          let '(p, woken, g') := get_or_create_step (pool s) g created in
          mkSystem p (<[i := g']> (wake woken <$> getters s))
      | None => s
      end
  | LCancel i =>
      match getters s !! i with
      | Some g => mkSystem (pool s) (<[i := cancel g]> (getters s))
      | None => s
      end
  | LExpire a | LRemove a => mkSystem (remove (pool s) a) (getters s)
  end.

Definition run (ls : list Label) : System := foldl step (mkSystem UdpEndpointPool_new []) ls.

(** ** Responses are read back with their sources *)
Definition read_frame : reader (str * Z * str) :=
  hp ← read_trojanc_addr_async;
  len ← read_u16;
  payload ← read_exact (Z.to_nat len);
  mret (hp.1, hp.2, payload).

Fixpoint read_frames (n : nat) : reader (list (str * Z * str)) :=
  match n with
  | O => mret []
  | S n => f ← read_frame; l ← read_frames n; mret (f :: l)
  end.

(** The datagrams received before the first error or idle timeout. *)
Fixpoint delivered (deadline : Z) (events : list (Z * result (str * SocketAddr))) : list (str * SocketAddr) :=
  match events with
  | (t, Ok d) :: events => if deadline <? t then [] else d :: delivered (t + DEFAULT_NAT_TIMEOUT) events
  | _ => []
  end.

Definition datagram_ok (d : str * SocketAddr) : Prop :=
  Z.of_nat (length d.1) <= u16_max ∧ addr_wf d.2.
Definition event_ok (e : Z * result (str * SocketAddr)) : Prop :=
  match e.2 with Ok d => datagram_ok d | Err _ => True end.

Definition frame_view (d : str * SocketAddr) : str * Z * str :=
  (show_ip (to_canonical (ip d.2)), port d.2, d.1).

Lemma to_canonical_wf i : ip_wf i → ip_wf (to_canonical i).
Proof.
  destruct i as [o|o]; simpl; [done|]. intros Ho. destruct (to_ipv4_mapped o) as [o4|] eqn:E; [|done].
  apply strip_prefix_Some in E. subst o. rewrite length_app in Ho. simpl in *. lia.
Qed.

(** A response header is the encoding of the canonical source address. *)
Definition ip_address (i : IpAddr) : Address := match i with V4 o => ADIpv4 o | V6 o => ADIpv6 o end.

Lemma response_frame_ok addr payload :
  ip_wf (ip addr) →
  response_frame addr payload =
  Ok (encode_address (ip_address (to_canonical (ip addr))) ++ to_be16 (port addr)
      ++ to_be16 (Z.of_nat (length payload)) ++ payload).
Proof.
  intros Hwf. pose proof (to_canonical_wf _ Hwf) as Hc. unfold response_frame, from_socket_addr.
  cbn [ip port socket_addr]. destruct (to_canonical (ip addr)) as [o|o]; cbn [ip_wf] in Hc;
    rewrite build_cached_address; result_cbn; cbn [Z.eqb Pos.eqb ip_address encode_address];
    rewrite <-Hc, take_copy_to_front; cbn [app]; result_cbn; cbn [app]; by rewrite <-app_assoc.
Qed.

Lemma ip_address_host i : address_host (ip_address i) = show_ip i.
Proof. by destruct i. Qed.

Lemma read_response_frame d frame r :
  datagram_ok d → response_frame d.2 d.1 = Ok frame → read_frame (frame ++ r) = Ok (frame_view d, r).
Proof.
  destruct d as [payload a]. intros [Hl (Hi & Hp & Hs)]. cbn [fst snd] in *.
  rewrite response_frame_ok by done. intros <-%Ok_inj. unfold read_frame.
  assert (address_wf (ip_address (to_canonical (ip a)))) as Hwf.
  { pose proof (to_canonical_wf _ Hi). by destruct (to_canonical (ip a)). }
  rewrite <-!app_assoc, (bind_ok _ _ _ _ _ (read_trojanc_addr_encode _ (port a) _ Hwf Hp)).
  rewrite (bind_ok _ _ _ _ _ (read_u16_be (Z.of_nat (length payload)) _ ltac:(unfold u16_max in *; lia))).
  rewrite Nat2Z.id, (bind_ok _ _ _ _ _ (read_exact_app _ payload r eq_refl)).
  unfold frame_view. by rewrite ip_address_host.
Qed.

Lemma relay_responses_broken k e deadline events :
  let full := relay_responses None deadline events in
  relay_responses (Some (k, e)) deadline events =
    if decide (k < length full.1)%nat then (take k full.1, Err e) else full.
Proof.
  revert k deadline. induction events as [|[t ev] events IH]; intros k deadline; cbn [relay_responses]; [done|].
  destruct (deadline <? t); [done|]. destruct ev as [[payload a]|]; [|done]. destruct (response_frame a payload) as [frame|]; [|done].
  cbv zeta. specialize (IH (k - length frame)%nat (t + DEFAULT_NAT_TIMEOUT)). cbv zeta in IH.
  destruct (relay_responses None (t + DEFAULT_NAT_TIMEOUT) events) as [out r]. cbn [fst] in *. rewrite length_app, take_app.
  destruct (decide (k < length frame)%nat) as [Hk|Hk].
  - rewrite decide_True by lia. replace (k - length frame)%nat with 0%nat by lia. by rewrite take_0, app_nil_r.
  - rewrite IH. destruct (decide (k - length frame < length out)%nat).
    + rewrite decide_True by lia. by rewrite (take_ge frame) by lia.
    + by rewrite decide_False by lia.
Qed.

(** The response stream of a UDP relay can be cut into frames again, and
    each frame carries the source address of its own datagram (an IPv4-mapped
    source as the IPv4 address it stands for), its port and its payload, in the
    order in which the datagrams arrived and up to the first error or idle
    timeout; a stream that breaks has the first bytes of it, and the relay ends with the error of the write. *)
Theorem relay_responses_readable deadline events r :
  Forall event_ok events →
  let full := relay_responses None deadline events in
  read_frames (length (delivered deadline events)) (full.1 ++ r) = Ok (frame_view <$> delivered deadline events, r) ∧
  ∀ k e, (k < length full.1)%nat → relay_responses (Some (k, e)) deadline events = (take k full.1, Err e).
Proof.
  intros Hok full. split; [|intros k e Hk; by rewrite relay_responses_broken, decide_True]. subst full.
  revert deadline. induction Hok as [|[t ev] events He Hok IH]; intros deadline; [done|].
  cbn [relay_responses delivered]. destruct ev as [d|e].
  - destruct (deadline <? t); [done|]. destruct d as [payload a]. cbn [event_ok snd] in He.
    pose proof He as [_ (Hi & _)]. cbn [snd] in Hi.
    destruct (response_frame a payload) as [frame|] eqn:Ef; [|by rewrite response_frame_ok in Ef].
    specialize (IH (t + DEFAULT_NAT_TIMEOUT)). cbv zeta.
    destruct (relay_responses None (t + DEFAULT_NAT_TIMEOUT) events) as [out res]. cbn [fst] in *.
    cbn [length read_frames]. rewrite <-app_assoc.
    rewrite (bind_ok _ _ _ _ _ (read_response_frame (payload, a) frame _ He Ef)).
    by rewrite (bind_ok _ _ _ _ _ IH).
  - by destruct (deadline <? t).
Qed.

Lemma relay_responses_readable_witness :
  let a := socket_addr (V6 (to_ipv6_mapped (replicate 4 x01))) 53 in
  let events := [(1, Ok (B "one", a)); (2, Ok (B "two", socket_addr (V4 (replicate 4 x02)) 99)); (3, Err EUtf8)] in
  read_frames (length (delivered 10 events)) ((relay_responses None 10 events).1 ++ []) =
    Ok (frame_view <$> delivered 10 events, []) ∧
  relay_responses (Some (15, EIo 32)%nat) 10 events = (take 15 (relay_responses None 10 events).1, Err (EIo 32)).
Proof.
  intros a events. destruct (relay_responses_readable 10 events []) as [H1 H2].
  - repeat constructor; unfold a; cbn; unfold u16_max, u32_max; lia.
  - split; [exact H1|]. apply H2. vm_compute. lia.
Defined.

(** A reply to a datagram is labelled with the address it was sent to, whatever
    the family of the socket. *)
Lemma send_to_addr_canonical target b :
  to_canonical (ip (send_to_addr target b)) = to_canonical (ip target) ∧
  port (send_to_addr target b) = port target.
Proof.
  unfold send_to_addr. destruct (ip target) as [o|o] eqn:E; [|by rewrite E].
  destruct b; [|by rewrite E]. cbn [ip port socket_addr to_canonical].
  unfold to_ipv4_mapped, to_ipv6_mapped. by rewrite strip_prefix_app.
Qed.

(** ** One creation per address *)
Definition creating_at (a : SocketAddr) (g : Getter) : bool :=
  bool_decide (addr g = a) &&
  match pc g with GMap _ | GDouble _ | GCreate _ | GDrop1 _ _ => true | _ => false end.

Definition creators_ok (s : System) : Prop :=
  ∀ a, count (creating_at a) (getters s) = if decide (a ∈ creating (pool s)) then 1%nat else 0%nat.

Lemma creating_at_wake a woken g : creating_at a (wake woken g) = creating_at a g.
Proof.
  unfold wake, creating_at. destruct (pc g) eqn:E; rewrite ?E; try done.
  case_decide; simpl; [done|by rewrite E].
Qed.

Lemma pool_count_wake a woken gs : count (creating_at a) (wake woken <$> gs) = count (creating_at a) gs.
Proof.
  induction gs as [|g gs IH]; [done|]. by rewrite fmap_cons, !count_cons, creating_at_wake, IH.
Qed.

(** A step moves the caller in or out of its critical section exactly when it
    adds its address to, or removes it from, the set. *)
Lemma get_step_creating p g created p' woken g' a :
  get_or_create_step p g created = (p', woken, g') →
  (creating_at a g = true → a ∈ creating p) →
  ((if creating_at a g' then 1 else 0) + (if decide (a ∈ creating p) then 1 else 0) =
   (if creating_at a g then 1 else 0) + (if decide (a ∈ creating p') then 1 else 0))%nat.
Proof.
  unfold get_or_create_step, creating_at.
  destruct (pc g) as [| |n|n|n|n r|n r|n r| |n|n|n b|r] eqn:E.
  all: intros Hs.
  all: try (repeat match type of Hs with match ?x with _ => _ end = _ => destruct x end;
    injection Hs as <- <- <-; intros _; simpl; rewrite ?E, ?andb_false_r; lia).
  - destruct (decide (addr g ∈ creating p)) as [Ha|Ha]; injection Hs as <- <- <-; intros _; simpl; rewrite ?andb_false_r; [lia|].
    rewrite andb_true_r. case_bool_decide as Hg; [subst a|].
    + rewrite decide_False by done. rewrite decide_True by set_solver. lia.
    + destruct (decide (a ∈ creating p)); [rewrite decide_True by set_solver|rewrite decide_False by set_solver]; lia.
  - injection Hs as <- <- <-. simpl. rewrite andb_true_r, andb_false_r. case_bool_decide as Hg; [subst a|].
    + intros Ha. rewrite decide_True by auto. rewrite decide_False by set_solver. lia.
    + intros _. destruct (decide (a ∈ creating p)); [rewrite decide_True by set_solver|rewrite decide_False by set_solver]; lia.
Qed.

Lemma creating_at_cancel a g : creating_at a (cancel g) = creating_at a g.
Proof. unfold cancel, creating_at. by destruct (pc g) eqn:E; simpl; rewrite ?E. Qed.

Lemma count_pos {A} (f : A → bool) i x l : l !! i = Some x → f x = true → (0 < count f l)%nat.
Proof.
  intros Hi Hf. unfold count. assert (x ∈ filter (λ a, f a = true) l) as Hin.
  { apply list_elem_of_filter. split; [done|]. by eapply list_elem_of_lookup_2. }
  destruct (filter _ l); [by apply not_elem_of_nil in Hin|simpl; lia].
Qed.

Lemma creators_step s l : creators_ok s → creators_ok (step s l).
Proof.
  intros H a. specialize (H a). destruct l as [a'|i created|i|a'|a']; simpl.
  - rewrite count_app, count_cons, H. unfold creating_at at 1. cbn [addr pc].
    rewrite andb_false_r. unfold count. simpl. lia.
  - destruct (getters s !! i) as [g|] eqn:Eg; [|done].
    destruct (get_or_create_step (pool s) g created) as [[p woken] g'] eqn:Es. simpl.
    assert ((wake woken <$> getters s) !! i = Some (wake woken g)) as Hi
      by by rewrite list_lookup_fmap, Eg.
    pose proof (count_insert (creating_at a) i _ g' _ Hi) as Hc.
    rewrite pool_count_wake, creating_at_wake in Hc.
    assert (creating_at a g = true → a ∈ creating (pool s)) as Hin.
    { intros Hg. pose proof (count_pos _ _ _ _ Eg Hg). destruct (decide (a ∈ creating (pool s))); [done|lia]. }
    pose proof (get_step_creating _ _ _ _ _ _ a Es Hin). lia.
  - destruct (getters s !! i) as [g|] eqn:Eg; [|done]. simpl.
    pose proof (count_insert (creating_at a) i _ (cancel g) _ Eg) as Hc.
    rewrite creating_at_cancel in Hc. rewrite <-H. lia.
  - done.
  - done.
Qed.

(** At any time at most one call creates an endpoint for an address, and
    while one does the address is in the set that makes the others wait; no
    interleaving, failure or cancellation leaves the address behind. *)
Theorem creation_exclusive ls a :
  count (creating_at a) (getters (run ls)) = (if decide (a ∈ creating (pool (run ls))) then 1 else 0)%nat.
Proof.
  revert a. change (creators_ok (run ls)). unfold run.
  apply (foldl_invariant _ creators_ok); [apply creators_step|]. intros a. simpl.
  by rewrite decide_False by set_solver.
Qed.

(** ** A lost wakeup

    A [Notify] is only ever signalled by the creator that holds it. *)
Definition holds (n : nat) (g : Getter) : Prop :=
  match pc g with
  | GMap m | GDouble m | GCreate m | GDrop1 m _ | GDrop2 m _ | GDrop3 m _ => m = n
  | _ => False
  end.

Definition stuck (i n : nat) (s : System) : Prop :=
  (n < next (pool s))%nat ∧ (∃ g, getters s !! i = Some g ∧ pc g = GWaiting n false) ∧
  ∀ j g, getters s !! j = Some g → ¬ holds n g.

Lemma get_step_holds p g created p' woken g' n :
  get_or_create_step p g created = (p', woken, g') → (n < next p)%nat → ¬ holds n g →
  (n < next p')%nat ∧ ¬ holds n g' ∧ n ∉ woken ∧ (pc g = GWaiting n false → g' = g).
Proof.
  unfold get_or_create_step, holds. intros Hs Hn Hg.
  destruct (pc g) as [| |m|m|m|m r|m r|m r| |m|m|m b|r] eqn:E.
  all: repeat match type of Hs with match ?x with _ => _ end = _ => destruct x end;
    injection Hs as <- <- <-; cbn [pc set_pc next]; rewrite ?E.
  all: split_and!; try done; try lia; try (by apply not_elem_of_nil).
  intros H%list_elem_of_singleton. by apply Hg.
Qed.

Lemma holds_wake n woken g : holds n (wake woken g) ↔ holds n g.
Proof.
  unfold wake, holds. destruct (pc g) eqn:E; rewrite ?E; try done.
  case_decide; simpl; [done|by rewrite E].
Qed.

Lemma wake_stuck n woken g : n ∉ woken → pc g = GWaiting n false → wake woken g = g.
Proof. intros Hn E. unfold wake. rewrite E. by rewrite decide_False. Qed.

Lemma stuck_step i n s l : l ≠ LCancel i → stuck i n s → stuck i n (step s l).
Proof.
  intros Hl (Hn & (g & Hg & Hpc) & Hh). destruct l as [a|j created|j|a|a]; simpl.
  - split_and!; [done| |].
    + exists g. split; [|done]. by apply lookup_app_l_Some.
    + intros k g' [Hk|[_ Hk]]%lookup_app_Some; [by eapply Hh|].
      apply list_lookup_singleton_Some in Hk as [_ <-]. simpl. by intros [].
  - destruct (getters s !! j) as [gj|] eqn:Ej; [|by split_and!; eauto].
    destruct (get_or_create_step (pool s) gj created) as [[p woken] g'] eqn:Es.
    destruct (get_step_holds _ _ _ _ _ _ n Es Hn (Hh j gj Ej)) as (Hn' & Hh' & Hw & Hsame).
    split_and!; [done| |].
    + exists g. split; [|done]. cbn [getters]. destruct (decide (j = i)) as [->|Hji].
      * rewrite list_lookup_insert_eq by (rewrite length_fmap; by eapply lookup_lt_Some).
        simplify_eq. by rewrite Hsame.
      * rewrite list_lookup_insert_ne by done. rewrite list_lookup_fmap, Hg. simpl.
        by rewrite (wake_stuck n).
    + intros k gk. cbn [getters]. intros [(<- & <- & _)|(_ & Hk)]%list_lookup_insert_Some; [done|].
      rewrite list_lookup_fmap in Hk. apply fmap_Some in Hk as (g1 & Hg1 & ->).
      rewrite holds_wake. by eapply Hh.
  - destruct (getters s !! j) as [gj|] eqn:Ej; [|by split_and!; eauto].
    split_and!; [done| |].
    + exists g. split; [|done]. cbn [getters]. rewrite list_lookup_insert_ne; [done|congruence].
    + intros k gk. cbn [getters]. intros [(<- & <- & _)|(_ & Hk)]%list_lookup_insert_Some; [|by eapply Hh].
      pose proof (Hh j gj Ej) as Hj. revert Hj. unfold cancel, holds. by destruct (pc gj) eqn:E; simpl; rewrite ?E.
  - split_and!; eauto.
  - split_and!; eauto.
Qed.

Lemma stuck_foldl i n s ls : LCancel i ∉ ls → stuck i n s → stuck i n (foldl step s ls).
Proof.
  revert s. induction ls as [|l ls IH]; intros s Hls Hs; [done|].
  apply not_elem_of_cons in Hls as [Hl Hls]. simpl. apply IH; [done|]. apply stuck_step; [congruence|done].
Qed.

(** The second call of an address checks [creating] before the first one's
    guard is dropped, and creates its [Notified] future after. *)
Definition lost_wakeup_run (a : SocketAddr) (e : UdpEndpoint) : list Label :=
  [LGet a; LStep 0 (Err EUtf8); LStep 0 (Err EUtf8); LStep 0 (Err EUtf8); LStep 0 (Err EUtf8);
   LGet a; LStep 1 (Err EUtf8); LStep 1 (Err EUtf8); LStep 1 (Err EUtf8); LStep 1 (Err EUtf8);
   LStep 0 (Ok e); LStep 0 (Err EUtf8); LStep 0 (Err EUtf8); LStep 0 (Err EUtf8);
   LStep 1 (Err EUtf8)].

Lemma run_app ls ls' : run (ls ++ ls') = foldl step (run ls) ls'.
Proof. apply foldl_app. Qed.

Definition loopback : SocketAddr := socket_addr (V4 [x7f; x00; x00; x01]) 53.

(** A wakeup can be lost: there is an interleaving of two calls for one
    address after which the endpoint is in the cache and its creator has
    returned it, but the second call waits for a notification that no
    continuation whatever brings, short of dropping that call. *)
Theorem pool_lost_wakeup e :
  let s := run (lost_wakeup_run loopback e) in
  get_socket (pool s) loopback = Some (from_endpoint e) ∧
  (pc <$> getters s !! 0%nat) = Some (GDone (Some (Ok (from_endpoint e, true)))) ∧
  ∀ ls, LCancel 1 ∉ ls →
    (pc <$> getters (run (lost_wakeup_run loopback e ++ ls)) !! 1%nat) = Some (GWaiting 0 false).
Proof.
  intros s.
  assert (getters s = [mkGetter loopback (GDone (Some (Ok (from_endpoint e, true))));
                       mkGetter loopback (GWaiting 0 false)]) as Hg by by vm_compute.
  assert (next (pool s) = 2%nat) as Hn by by vm_compute.
  split_and!; [by vm_compute|by rewrite Hg|].
  intros ls Hls. rewrite run_app. fold s.
  assert (stuck 1 0 s) as Hstuck.
  { split_and!; [rewrite Hn; lia|rewrite Hg; simpl; eauto|]. rewrite Hg.
    intros [|[|j]] g; simpl; intros [= <-]; by intros []. }
  destruct (stuck_foldl 1 0 s ls Hls Hstuck) as (_ & (g & Hi & Hpc) & _). rewrite Hi. simpl. by rewrite Hpc.
Qed.

Lemma pool_lost_wakeup_witness :
  let e := mkEndpoint 7 loopback true (B "127.0.0.1:53") in
  (pc <$> getters (run (lost_wakeup_run loopback e ++ [LGet loopback; LStep 2 (Err EUtf8); LExpire loopback])) !! 1%nat)
  = Some (GWaiting 0 false).
Proof. intros e. apply pool_lost_wakeup. set_solver. Defined.
