(* ===== verification/Demux.v ===== *)
(** * [server/src/underlay_socket.rs]: one UDP port for QUIC and the underlay

    [poll_recv] takes batches from the inner socket, hands the QUIC datagrams
    to Quinn and queues the others. *)
From S2P Require Import Prelude Std Consts Net Crypto.
#[local] Open Scope nat_scope.

Record UnderlayPacket := mkPacket { peer : SocketAddr; payload : str }.

Definition UNDERLAY_CHANNEL_CAPACITY : nat := 16 * 256.
#[global] Opaque UNDERLAY_CHANNEL_CAPACITY.
Definition MAX_DEMUX_BATCHES_PER_POLL : nat := 2.
Definition MAX_IDLE_POLL_BEFORE_YIELD : nat := 1.

(** What is known of a received batch: [len] bytes from one peer, cut into
    datagrams of [stride] bytes (the last may be shorter). *)
Record RecvMeta := mkMeta { meta_addr : SocketAddr; meta_len : nat; stride : nat }.
Abbreviation Slot := (RecvMeta * str)%type.

(** The socket: its idle counter, the channel and the drop counter. *)
Record DemuxUdpSocket := mkDemux {
  idle_poll_count : nat;
  channel : list UnderlayPacket;
  receiver_alive : bool;
  dropped : Z;
}.

Definition DemuxUdpSocket_new : DemuxUdpSocket := mkDemux 0 [] true 0.

Definition is_probably_quic_packet (packet : str) : bool :=
  match packet with
  | [] => false
  | first :: _ => (Z.land (u8 first) 0x40 =? 0x40)%Z
  end.

(** [try_send] fails when the channel is full or its receiver is gone; the
    drop counter wraps at 64 bits. *)
Definition try_send (s : DemuxUdpSocket) (p : UnderlayPacket) : DemuxUdpSocket :=
  if receiver_alive s && (length (channel s) <? UNDERLAY_CHANNEL_CAPACITY)
  then mkDemux (idle_poll_count s) (channel s ++ [p]) (receiver_alive s) (dropped s)
  else mkDemux (idle_poll_count s) (channel s) (receiver_alive s) ((dropped s + 1) mod 2 ^ 64).

(** The [while offset < len] loop; [fuel] rounds are enough as every round
    advances by at least one byte. *)
Fixpoint cut_packets (fuel : nat) (m : RecvMeta) (buf : str) (offset : nat) : list UnderlayPacket :=
  match fuel with
  | O => []
  | S fuel =>
      if offset <? meta_len m then
        let last := (offset + stride m `max` 1) `min` meta_len m in
        mkPacket (meta_addr m) (take (last - offset) (drop offset buf)) :: cut_packets fuel m buf last
      else []
  end.

Definition packets_of (slot : Slot) : list UnderlayPacket :=
  cut_packets (meta_len slot.1) slot.1 slot.2 0.

Definition first_is_quic (slot : Slot) : bool :=
  is_probably_quic_packet (take (stride slot.1 `min` meta_len slot.1) slot.2).

(** [bufs.swap(keep, i); meta.swap(keep, i)]. *)
Definition swap {A} (i j : nat) (l : list A) : list A :=
  match l !! i, l !! j with
  | Some a, Some b => <[i := b]> (<[j := a]> l)
  | _, _ => l
  end.

(** The loop over the slots [i .. msgs - 1], with [n] of them left. *)
Fixpoint demux_loop (n i keep : nat) (slots : list Slot) (s : DemuxUdpSocket)
    : nat * list Slot * DemuxUdpSocket :=
  match n with
  | O => (keep, slots, s)
  | S n =>
      match slots !! i with
      | None => (keep, slots, s)
      | Some slot =>
          if first_is_quic slot then
            demux_loop n (S i) (S keep) (if decide (keep = i) then slots else swap keep i slots) s
          else demux_loop n (S i) keep slots (foldl try_send s (packets_of slot))
      end
  end.

Definition demux_batch (slots : list Slot) (s : DemuxUdpSocket) : nat * list Slot * DemuxUdpSocket :=
  demux_loop (length slots) 0 0 slots s.

(** One answer of the inner socket, which registers the waker only when it is
    pending. *)
Inductive InnerPoll := InnerPending | InnerErr (e : error) | InnerReady (slots : list Slot).

(** The answer of [poll_recv]; a pending one says whether the inner socket
    holds the waker and whether the task was woken already. *)
Inductive PollRecv :=
  | Pending (waker_registered woken : bool)
  | ReadyErr (e : error)
  | Ready (keep : nat) (slots : list Slot).

Definition set_idle (n : nat) (s : DemuxUdpSocket) : DemuxUdpSocket :=
  mkDemux n (channel s) (receiver_alive s) (dropped s).

(** [n] batches are left; [inner] is what the inner socket answers next. *)
Fixpoint poll_batches (n : nat) (inner : list InnerPoll) (s : DemuxUdpSocket) : PollRecv * DemuxUdpSocket :=
  match n with
  | O =>
      if MAX_IDLE_POLL_BEFORE_YIELD <=? idle_poll_count s
      then (Pending false false, set_idle 0 s)
      else (Pending false true, set_idle (S (idle_poll_count s)) s)
  | S n =>
      match inner with
      | [] | InnerPending :: _ => (Pending true false, set_idle 0 s)
      | InnerErr e :: _ => (ReadyErr e, s)
      | InnerReady slots :: inner =>
          let '(keep, slots, s) := demux_batch slots s in
          if 0 <? keep then (Ready keep slots, set_idle 0 s) else poll_batches n inner s
      end
  end.

Definition poll_recv (inner : list InnerPoll) (s : DemuxUdpSocket) : PollRecv * DemuxUdpSocket :=
  poll_batches MAX_DEMUX_BATCHES_PER_POLL inner s.

(** ** The loop is a partition *)
Lemma swap_spec {A} (k i : nat) (l : list A) a :
  k < i → l !! i = Some a →
  take (S k) (swap k i l) = take k l ++ [a] ∧ drop (S i) (swap k i l) = drop (S i) l ∧
  length (swap k i l) = length l.
Proof.
  intros Hk Hi. assert (i < length l) by by eapply lookup_lt_Some.
  destruct (lookup_lt_is_Some_2 l k) as [b Hb]; [lia|]. unfold swap. rewrite Hb, Hi.
  split_and!.
  - rewrite (take_S_r _ _ a) by (rewrite list_lookup_insert_eq; [done|rewrite length_insert; lia]).
    by rewrite take_insert_ge, take_insert_ge by lia.
  - by rewrite drop_insert_lt, drop_insert_lt by lia.
  - by rewrite !length_insert.
Qed.

Definition quic (slot : Slot) : Prop := first_is_quic slot = true.
Definition not_quic (slot : Slot) : Prop := first_is_quic slot = false.
#[export] Instance quic_dec slot : Decision (quic slot).
Proof. unfold quic. apply _. Defined.
#[export] Instance not_quic_dec slot : Decision (not_quic slot).
Proof. unfold not_quic. apply _. Defined.

Lemma demux_loop_spec orig n i keep slots s :
  i + n = length orig → length slots = length orig → keep ≤ i →
  take keep slots = filter quic (take i orig) → drop i slots = drop i orig →
  let '(keep', slots', s') := demux_loop n i keep slots s in
  take keep' slots' = filter quic orig ∧ keep' = length (filter quic orig) ∧
  s' = foldl try_send s (concat (packets_of <$> filter not_quic (drop i orig))).
Proof.
  revert i keep slots s. induction n as [|n IH]; intros i keep slots s Hn Hl Hk Ht Hd; simpl.
  - rewrite (take_ge orig i) in Ht by lia. rewrite drop_ge by lia. split_and!; [done| |done].
    rewrite <-Ht, length_take. lia.
  - destruct (lookup_lt_is_Some_2 orig i) as [slot Hs]; [lia|].
    assert (slots !! i = Some slot) as Hs'.
    { rewrite <-(Nat.add_0_r i), <-lookup_drop, Hd, lookup_drop, Nat.add_0_r. done. }
    rewrite Hs'. rewrite (drop_S orig slot i Hs).
    assert (drop (S i) slots = drop (S i) orig) as Hd'.
    { rewrite <-(Nat.add_1_r i), <-!drop_drop. by rewrite Hd. }
    rewrite filter_cons. destruct (first_is_quic slot) eqn:Eq.
    + rewrite (decide_False (P := not_quic slot)) by (unfold not_quic; congruence). destruct (decide (keep = i)) as [->|Hki].
      * apply IH; try done; try lia. rewrite (take_S_r slots _ _ Hs'), (take_S_r orig _ _ Hs).
        rewrite filter_app, Ht, filter_cons, decide_True by done. done.
      * destruct (swap_spec keep i slots slot ltac:(lia) Hs') as (Hst & Hsd & Hsl).
        apply IH; try done; try lia; [|congruence]. rewrite Hst, (take_S_r orig _ _ Hs), Ht.
        rewrite filter_app, filter_cons, decide_True by done. done.
    + rewrite (decide_True (P := not_quic slot)) by done. rewrite fmap_cons. cbn [concat]. rewrite foldl_app.
      apply IH; try done; try lia. rewrite (take_S_r orig _ _ Hs), filter_app, filter_cons.
      rewrite decide_False by (unfold quic; congruence). by rewrite app_nil_r.
Qed.

Lemma demux_batch_spec slots s :
  let '(keep, slots', s') := demux_batch slots s in
  take keep slots' = filter quic slots ∧ keep = length (filter quic slots) ∧
  s' = foldl try_send s (concat (packets_of <$> filter not_quic slots)).
Proof.
  pose proof (demux_loop_spec slots (length slots) 0 0 slots s) as H. unfold demux_batch.
  rewrite drop_0 in H. by apply H.
Qed.

Lemma foldl_try_send_idle s ps : idle_poll_count (foldl try_send s ps) = idle_poll_count s.
Proof.
  revert s. induction ps as [|p ps IH]; intros s; [done|]. simpl. rewrite IH.
  unfold try_send. by case_match.
Qed.

Lemma filter_not_quic_all slots : filter quic slots = [] → filter not_quic slots = slots.
Proof.
  induction slots as [|x slots IH]; [done|]. rewrite !filter_cons.
  destruct (decide (quic x)) as [|Hq]; [done|]. intros H. rewrite decide_True.
  - by rewrite IH.
  - unfold quic, not_quic in *. by destruct (first_is_quic x).
Qed.

Lemma filter_app_nil slots1 slots2 :
  filter quic (slots1 ++ slots2) = [] → filter quic slots1 = [] ∧ filter quic slots2 = [].
Proof. rewrite filter_app. apply app_eq_nil. Qed.

(** A batch is partitioned: the slots handed to Quinn are exactly the QUIC
    ones, in their order and at the front of the buffers, and every datagram of
    the other slots is offered to the underlay channel once and in order. *)
Theorem demux_batch_partition slots s :
  let '(keep, slots', s') := demux_batch slots s in
  take keep slots' = filter quic slots ∧ keep = length (filter quic slots) ∧
  s' = foldl try_send s (concat (packets_of <$> filter not_quic slots)).
Proof. apply demux_batch_spec. Qed.

(** The cut datagrams put together are the bytes of the batch. *)
Lemma cut_packets_concat fuel m buf offset :
  meta_len m - offset ≤ fuel → meta_len m ≤ length buf → offset ≤ meta_len m →
  concat (payload <$> cut_packets fuel m buf offset) = take (meta_len m - offset) (drop offset buf).
Proof.
  revert offset. induction fuel as [|fuel IH]; intros offset Hf Hb Ho; cbn [cut_packets].
  - by replace (meta_len m - offset) with 0 by lia.
  - destruct (Nat.ltb_spec offset (meta_len m)) as [Hlt|Hge].
    2: { by replace (meta_len m - offset) with 0 by lia. }
    set (last := (offset + stride m `max` 1) `min` meta_len m).
    assert (offset < last ≤ meta_len m) by (unfold last; lia).
    rewrite fmap_cons. cbn [concat payload]. rewrite IH by lia.
    replace (meta_len m - offset) with ((last - offset) + (meta_len m - last)) by lia.
    rewrite <-take_take_drop. f_equal. rewrite drop_drop. by replace (offset + (last - offset)) with last by lia.
Qed.

Lemma cut_packets_pieces fuel m buf offset :
  meta_len m ≤ length buf →
  Forall (λ p, peer p = meta_addr m ∧ 0 < length (payload p) ≤ stride m `max` 1) (cut_packets fuel m buf offset).
Proof.
  intros Hb. revert offset. induction fuel as [|fuel IH]; intros offset; cbn [cut_packets]; [constructor|].
  destruct (Nat.ltb_spec offset (meta_len m)); [|constructor]. constructor; [|apply IH].
  cbn [peer payload]. split; [done|]. rewrite length_take, length_drop. lia.
Qed.

(** The underlay loses nothing in the cutting: the datagrams of a batch are
    consecutive pieces of it and together are all its bytes. *)
Theorem packets_of_complete m buf :
  meta_len m ≤ length buf →
  concat (payload <$> packets_of (m, buf)) = take (meta_len m) buf ∧
  Forall (λ p, peer p = meta_addr m ∧ 0 < length (payload p) ≤ stride m `max` 1) (packets_of (m, buf)).
Proof.
  intros Hb. split.
  - unfold packets_of. cbn [fst snd]. rewrite cut_packets_concat by lia. by rewrite Nat.sub_0_r.
  - by apply cut_packets_pieces.
Qed.

Lemma packets_of_complete_witness :
  let a := socket_addr (V4 (replicate 4 x01)) 9 in
  let m := mkMeta a 5 2 in
  concat (payload <$> packets_of (m, B "abcdefg")) = take 5 (B "abcdefg") ∧
  Forall (λ p, peer p = a ∧ 0 < length (payload p) ≤ 2 `max` 1) (packets_of (m, B "abcdefg")).
Proof. intros a m. apply (packets_of_complete m (B "abcdefg")). cbn. lia. Defined.

(** A packet encrypted with a generated salt never looks like QUIC: the
    salt begins with a zero byte, so the receiving port always routes it to the
    underlay. *)
Theorem underlay_packet_not_quic `{HkdfSha1, ChaCha} psk pt rand packet :
  encrypt_udp psk pt (generate_underlay_salt rand) = Ok packet →
  is_probably_quic_packet packet = false.
Proof.
  unfold encrypt_udp, generate_underlay_salt. destruct (derive_subkey psk _); [|done]. result_cbn.
  destruct (chacha_encrypt _ pt); [|done]. result_cbn. by intros <-%Ok_inj.
Qed.

Lemma underlay_packet_not_quic_witness :
  let packet := match encrypt_udp (H := Crypto.Toy.hkdf) (H0 := Crypto.Toy.chacha) (replicate 32 x07) (B "x")
                        (generate_underlay_salt (replicate 30 xff)) with Ok p => p | Err _ => [] end in
  is_probably_quic_packet packet = false.
Proof.
  apply (underlay_packet_not_quic (H := Crypto.Toy.hkdf) (H0 := Crypto.Toy.chacha)
           (replicate 32 x07) (B "x") (replicate 30 xff)). by vm_compute.
Defined.

(** A pending answer leaves no way to be polled again exactly when the whole
    batch budget was spent on underlay packets for the second time in a row:
    the inner socket was ready, so it did not keep the waker, and the task is
    not woken either. *)
Theorem pending_without_waker inner s s' :
  poll_recv inner s = (Pending false false, s') ↔
  ∃ slots1 slots2 rest,
    inner = InnerReady slots1 :: InnerReady slots2 :: rest ∧
    filter quic (slots1 ++ slots2) = [] ∧ MAX_IDLE_POLL_BEFORE_YIELD ≤ idle_poll_count s ∧
    s' = set_idle 0 (foldl try_send (foldl try_send s (concat (packets_of <$> slots1)))
                       (concat (packets_of <$> slots2))).
Proof.
  assert (∀ slots s, demux_batch slots s =
    (length (filter quic slots), (demux_batch slots s).1.2,
     foldl try_send s (concat (packets_of <$> filter not_quic slots)))) as Hbatch.
  { intros slots s0. pose proof (demux_batch_spec slots s0) as Hp.
    destruct (demux_batch slots s0) as [[keep slots'] s1]. destruct Hp as (_ & -> & ->). done. }
  assert (∀ slots, length (filter quic slots) = 0 → filter not_quic slots = slots) as Hall.
  { intros slots Hl%length_zero_iff_nil. by apply filter_not_quic_all. }
  unfold poll_recv, MAX_DEMUX_BATCHES_PER_POLL. cbn [poll_batches]. split.
  - destruct inner as [|[|e|slots1] inner]; try done. rewrite Hbatch.
    destruct (Nat.ltb_spec 0 (length (filter quic slots1))) as [|H1]; [done|].
    destruct inner as [|[|e|slots2] rest]; try done. rewrite Hbatch.
    destruct (Nat.ltb_spec 0 (length (filter quic slots2))) as [|H2]; [done|].
    rewrite !foldl_try_send_idle. destruct (Nat.leb_spec MAX_IDLE_POLL_BEFORE_YIELD (idle_poll_count s)); [|done].
    intros [= <-]. exists slots1, slots2, rest. rewrite !Hall by lia. split_and!; try done.
    rewrite filter_app. by rewrite (proj1 (length_zero_iff_nil (filter quic slots1))), (proj1 (length_zero_iff_nil (filter quic slots2))) by lia.
  - intros (slots1 & slots2 & rest & -> & [H1 H2]%filter_app_nil & Hi & ->).
    rewrite (Hbatch slots1), H1. cbn [length Nat.ltb Nat.leb].
    rewrite (Hbatch slots2), H2. cbn [length Nat.ltb Nat.leb]. rewrite !foldl_try_send_idle.
    rewrite !Hall by (by rewrite ?H1, ?H2).
    by destruct (Nat.leb_spec MAX_IDLE_POLL_BEFORE_YIELD (idle_poll_count s)); [|lia].
Qed.

Lemma pending_without_waker_witness :
  let slot := (mkMeta (socket_addr (V4 (replicate 4 x01)) 9) 1 1, [x00]) in
  let s := mkDemux 1 [] true 0 in
  poll_recv [InnerReady [slot]; InnerReady [slot]; InnerPending] s =
    (Pending false false, set_idle 0 (foldl try_send (foldl try_send s (packets_of slot)) (packets_of slot))).
Proof.
  intros slot s. apply pending_without_waker. exists [slot], [slot], [InnerPending].
  cbn [fmap list_fmap concat]. rewrite !app_nil_r. repeat split; done.
Defined.
