(* ===== verification/TcpRelay.v ===== *)
(** * [server/src/tcp.rs] and [server/src/dialer.rs]

    The bidirectional copy with its idle watchdog, as a machine driven by the
    I/O events of both directions and by the clock; the preparation of
    outbound sockets. *)
From S2P Require Import Prelude Std Consts Net.
#[local] Open Scope Z_scope.

(** ** One direction *)
Definition EWriteZero : error := EMsg (B "write zero").
Definition ETimedOut : error := EMsg (B "TCP relay idle timeout").
Definition COPY_BUF : nat := 64 * 1024.
#[global] Opaque COPY_BUF.

Inductive DirState :=
  | DRead
  | DWrite (remaining : str)
  | DShutdown
  | DDone (r : result unit).

(** Ghost: all bytes read and all bytes written so far. *)
Record Dir := mkDir { dir_state : DirState; received : str; written : str }.
Definition Dir_new : Dir := mkDir DRead [] [].

(** What the awaited call of a direction returns. *)
Inductive IoEvent :=
  | EvRead (bs : str)
  | EvReadErr (e : error)
  | EvWrite (n : nat)
  | EvWriteErr (e : error)
  | EvShutdown (r : result unit).

(** One event, and whether it stored the time in [activity].  A read returns at
    most a buffer, a write at most what was offered; other events cannot
    happen in that state and change nothing. *)
Definition copy_step (d : Dir) (ev : IoEvent) : Dir * bool :=
  match dir_state d, ev with
  | DRead, EvRead [] => (mkDir DShutdown (received d) (written d), false)
  | DRead, EvRead bs =>
      if (length bs <=? COPY_BUF)%nat
      then (mkDir (DWrite bs) (received d ++ bs) (written d), true) else (d, false)
  | DRead, EvReadErr e => (mkDir (DDone (Err e)) (received d) (written d), false)
  | DWrite _, EvWrite O => (mkDir (DDone (Err EWriteZero)) (received d) (written d), false)
  | DWrite remaining, EvWrite n =>
      if (n <=? length remaining)%nat then
        let rest := drop n remaining in
        (mkDir (if is_empty rest then DRead else DWrite rest) (received d)
               (written d ++ take n remaining), true)
      else (d, false)
  | DWrite _, EvWriteErr e => (mkDir (DDone (Err e)) (received d) (written d), false)
  | DShutdown, EvShutdown r => (mkDir (DDone r) (received d) (written d), false)
  | _, _ => (d, false)
  end.

(** ** The relay

    Times are microseconds since [base]; [activity] holds milliseconds plus
    one, [last] is the watchdog's copy.  [progress] is ghost: the time of the
    last byte moved. *)
Record Relay := mkRelay {
  now : Z;
  up : Dir;
  down : Dir;
  activity : Z;
  last : Z;
  progress : Z;
  outcome : option (result unit);
}.

Definition Relay_new : Relay := mkRelay 0 Dir_new Dir_new 1 1 0 None.

(** [try_join!]: the first error, or both directions done. *)
Definition join (u d : Dir) : option (result unit) :=
  match dir_state u, dir_state d with
  | DDone (Err e), _ => Some (Err e)
  | _, DDone (Err e) => Some (Err e)
  | DDone (Ok _), DDone (Ok _) => Some (Ok tt)
  | _, _ => None
  end.

Inductive RelayLabel :=
  | RTick (d : N)
  | RUp (ev : IoEvent)
  | RDown (ev : IoEvent)
  | RWake.

(** The watchdog wakes at or after [last] milliseconds plus the timeout. *)
Definition deadline (idle_timeout : Z) (r : Relay) : Z := last r * 1000 + idle_timeout.

Definition relay_step (idle_timeout : Z) (r : Relay) (l : RelayLabel) : Relay :=
  match outcome r with
  | Some _ => r
  | None =>
      let moved (b : bool) := if b then (now r / 1000 + 1, now r) else (activity r, progress r) in
      match l with
      | RTick d => mkRelay (now r + Z.of_N d) (up r) (down r) (activity r) (last r) (progress r) None
      | RUp ev =>
          let '(u, b) := copy_step (up r) ev in
          mkRelay (now r) u (down r) (moved b).1 (last r) (moved b).2 (join u (down r))
      | RDown ev =>
          let '(d, b) := copy_step (down r) ev in
          mkRelay (now r) (up r) d (moved b).1 (last r) (moved b).2 (join (up r) d)
      | RWake =>
          if deadline idle_timeout r <=? now r then
            if activity r =? last r
            then mkRelay (now r) (up r) (down r) (activity r) (last r) (progress r) (Some (Err ETimedOut))
            else mkRelay (now r) (up r) (down r) (activity r) (activity r) (progress r) None
          else r
      end
  end.

Definition relay (idle_timeout : Z) (ls : list RelayLabel) : Relay :=
  foldl (relay_step idle_timeout) Relay_new ls.

(** ** Dialers

    A socket is the list of the options applied to it, in order; [connect] and
    [bind] are the operating system's. *)
Inductive SocketOp :=
  | OpV4 | OpV6
  | OpBind (a : SocketAddr)
  | OpConnect (timeout : Z) (target : str)
  | OpNodelay | OpKeepalive
  | OpTcpKeepalive (time interval : Z).

Definition keepalive_ops (linux : bool) : list SocketOp :=
  [OpNodelay; OpKeepalive] ++ (if linux then [OpTcpKeepalive (secs 60) (secs 10)] else []).

Inductive Dialer := DefaultDialer | BindDialer (bind_addr : IpAddr).

(** [try_op] tells whether an operation succeeds. *)
Fixpoint perform {Op} (try_op : Op → result unit) (ops : list Op) : result unit :=
  match ops with
  | [] => Ok tt
  | op :: ops => _ ← try_op op; perform try_op ops
  end.

(** A [BindDialer] opens and binds its socket before it parses the target. *)
Definition dial_tcp (linux : bool) (try_op : SocketOp → result unit) (d : Dialer) (addr : str) : result unit :=
  match d with
  | DefaultDialer => perform try_op (OpConnect DEFAULT_DIAL_TIMEOUT addr :: keepalive_ops linux)
  | BindDialer b =>
      _ ← perform try_op [match b with V4 _ => OpV4 | V6 _ => OpV6 end; OpBind (socket_addr b 0)];
      a ← ok_or (parse_socket_addr addr) EAddrParse;
      perform try_op (OpConnect DEFAULT_DIAL_TIMEOUT (show_socket_addr a) :: keepalive_ops linux)
  end.

(** ** Copying keeps every byte *)
(** What was read is what was written followed by what is still to be written,
    and a direction with nothing left to write is not in the write state. *)
Definition dir_ok (d : Dir) : Prop :=
  match dir_state d with
  | DWrite rest => received d = written d ++ rest ∧ rest ≠ []
  | DDone (Err _) => written d `prefix_of` received d
  | _ => received d = written d
  end.

Lemma copy_step_ok d ev : dir_ok d → dir_ok (copy_step d ev).1.
Proof.
  destruct d as [st rcv wr]. unfold dir_ok, copy_step. cbn [dir_state received written].
  destruct st as [|rest| |[]]; destruct ev as [[|c bs]|e1|[|n]|e2|[[]|e3]]; cbn [fst dir_state received written]; try done.
  - intros ->. destruct (_ <=? _)%nat; [|done]. done.
  - by intros ->.
  - intros [-> _]. by apply prefix_app_r.
  - intros [-> Hr]. destruct (Nat.leb_spec (S n) (length rest)); [|done].
    cbn [fst dir_state received written]. destruct (is_empty (drop (S n) rest)) eqn:E.
    + apply is_empty_true in E. rewrite <-(take_drop (S n) rest) at 1. by rewrite E, app_nil_r.
    + split; [by rewrite <-app_assoc, take_drop|]. intros Hn. by rewrite Hn in E.
  - intros [-> _]. by apply prefix_app_r.
  - by intros ->.
Qed.

Lemma dir_written_prefix d :
  dir_ok d → written d `prefix_of` received d ∧ (dir_state d = DDone (Ok tt) → written d = received d).
Proof.
  unfold dir_ok. destruct (dir_state d) as [|rest| |[[]|e]].
  - by intros ->.
  - intros [-> _]. split; [by apply prefix_app_r|done].
  - by intros ->.
  - by intros ->.
  - done.
Qed.

Lemma copy_step_done d ev r : dir_state d = DDone r → copy_step d ev = (d, false).
Proof. intros H. unfold copy_step. rewrite H. by destruct ev as [[]| |[]| |]. Qed.

(** The invariant of the relay. *)
Definition relay_ok (idle_timeout : Z) (r : Relay) : Prop :=
  dir_ok (up r) ∧ dir_ok (down r) ∧
  0 <= progress r <= now r ∧ progress r < activity r * 1000 ∧ last r <= activity r ∧
  activity r * 1000 <= progress r + 1000 ∧
  match outcome r with
  | None => join (up r) (down r) = None
  | Some o => o = Err ETimedOut ∧ progress r + idle_timeout < now r ∧ join (up r) (down r) = None
              ∨ join (up r) (down r) = Some o
  end.

Lemma relay_step_ok idle_timeout r l : relay_ok idle_timeout r → relay_ok idle_timeout (relay_step idle_timeout r l).
Proof.
  intros H. pose proof H as (Hu & Hd & Hp & Ha & Hl & Hb & Ho). unfold relay_step.
  destruct (outcome r) as [o|] eqn:Eo; [done|].
  pose proof (Z.mod_pos_bound (now r) 1000 ltac:(lia)). pose proof (Z.div_mod (now r) 1000 ltac:(lia)).
  assert (last r <= now r / 1000 + 1) by lia.
  destruct l as [t|ev|ev|].
  - unfold relay_ok; cbn [now up down activity last progress outcome]. split_and!; try done; lia.
  - pose proof (copy_step_ok _ ev Hu) as Hu'. destruct (copy_step (up r) ev) as [u b].
    unfold relay_ok; cbn [now up down activity last progress outcome fst snd].
    destruct b; cbn [fst snd]; split_and!; try done; try lia; destruct (join u (down r)); auto.
  - pose proof (copy_step_ok _ ev Hd) as Hd'. destruct (copy_step (down r) ev) as [d b].
    unfold relay_ok; cbn [now up down activity last progress outcome fst snd].
    destruct b; cbn [fst snd]; split_and!; try done; try lia; destruct (join (up r) d); auto.
  - destruct (Z.leb_spec (deadline idle_timeout r) (now r)) as [Hdl|]; [|done]. unfold deadline in Hdl.
    destruct (Z.eqb_spec (activity r) (last r)) as [He|He];
      unfold relay_ok; cbn [now up down activity last progress outcome]; split_and!; try done; try lia.
    left. split_and!; [done|lia|done].
Qed.

Lemma relay_run_ok idle_timeout ls : relay_ok idle_timeout (relay idle_timeout ls).
Proof.
  unfold relay. apply (foldl_invariant _ (relay_ok idle_timeout)); [intros; by apply relay_step_ok|].
  unfold relay_ok, dir_ok; cbn. split_and!; try done; lia.
Qed.

(** C17: under any schedule of reads, short writes, errors, clock ticks and
    watchdog wakeups: each direction has written a prefix of what it read; when
    the relay ends well both directions have written everything they read; and
    when the watchdog ends it, no byte moved in either direction for longer than
    the idle timeout. *)
Theorem relay_correct idle_timeout ls :
  let r := relay idle_timeout ls in
  written (up r) `prefix_of` received (up r) ∧ written (down r) `prefix_of` received (down r) ∧
  (outcome r = Some (Ok tt) → written (up r) = received (up r) ∧ written (down r) = received (down r)) ∧
  (outcome r = Some (Err ETimedOut) → join (up r) (down r) = None →
     progress r + idle_timeout < now r).
Proof.
  intros r. destruct (relay_run_ok idle_timeout ls) as (Hu & Hd & _ & _ & _ & _ & Ho). fold r in Hu, Hd, Ho.
  split_and!; [by apply dir_written_prefix|by apply dir_written_prefix| |].
  - intros E. rewrite E in Ho. destruct Ho as [[? _]|Hj]; [done|]. revert Hj. unfold join, dir_ok in *.
    destruct (dir_state (up r)) as [|?| |[]], (dir_state (down r)) as [|?| |[]]; done.
  - intros E Hj. rewrite E in Ho. destruct Ho as [(_ & ? & _)|?]; [done|congruence].
Qed.

(** The watchdog is not starved: once no byte moves any more, its next two
    wakeups at or after their deadlines end the relay, the second deadline
    being at most a millisecond later than the last progress plus the
    timeout. *)
Theorem idle_relay_ends idle_timeout ls d1 d2 :
  let r := relay idle_timeout ls in
  deadline idle_timeout r <= now r + Z.of_N d1 →
  activity r * 1000 + idle_timeout <= now r + Z.of_N d1 + Z.of_N d2 →
  is_Some (outcome (relay idle_timeout (ls ++ [RTick d1; RWake; RTick d2; RWake]))) ∧
  activity r * 1000 <= progress r + 1000.
Proof.
  intros r H1 H2. destruct (relay_run_ok idle_timeout ls) as (_ & _ & _ & _ & _ & Hb & _). fold r in Hb.
  split; [|lia]. unfold relay. rewrite foldl_app. fold (relay idle_timeout ls). fold r. cbn [foldl].
  destruct (outcome r) as [o|] eqn:Eo.
  { unfold relay_step. rewrite Eo, !Eo. by eexists. }
  unfold relay_step at 4. rewrite Eo. unfold relay_step at 3. cbn [outcome].
  unfold deadline in *. cbn [now up down activity last progress].
  destruct (Z.leb_spec (last r * 1000 + idle_timeout) (now r + Z.of_N d1)); [|lia].
  destruct (Z.eqb_spec (activity r) (last r)); unfold relay_step at 2; cbn [outcome].
  - unfold relay_step. cbn. by eexists.
  - unfold relay_step. unfold deadline. cbn [now up down activity last progress outcome].
    destruct (Z.leb_spec (activity r * 1000 + idle_timeout) (now r + Z.of_N d1 + Z.of_N d2)); [|lia].
    rewrite Z.eqb_refl. by eexists.
Qed.

Definition sample_relay : list RelayLabel :=
  [RUp (EvRead (B "abc")); RTick 1500%N; RUp (EvWrite 2); RUp (EvWrite 1); RDown (EvRead []); RDown (EvShutdown (Ok tt))].

Lemma relay_correct_witness :
  let r := relay 5000 (sample_relay ++ [RTick 8000%N; RWake; RTick 9000%N; RWake]) in
  outcome r = Some (Err ETimedOut) ∧ progress r + 5000 < now r.
Proof.
  intros r. split; [by vm_compute|].
  apply (relay_correct 5000 (sample_relay ++ [RTick 8000%N; RWake; RTick 9000%N; RWake])); by vm_compute.
Defined.

Lemma idle_relay_ends_witness :
  is_Some (outcome (relay 5000 (sample_relay ++ [RTick 4500%N; RWake; RTick 1000%N; RWake]))) ∧
  activity (relay 5000 sample_relay) * 1000 <= progress (relay 5000 sample_relay) + 1000.
Proof. apply (idle_relay_ends 5000 sample_relay 4500%N 1000%N); vm_compute; discriminate. Defined.
