(* ===== verification/Dns.v ===== *)
(** * [server/src/server.rs], [resolve_udp_target]

    The DNS cache shared by the UDP streams of a connection, with one
    resolution in flight per name, as a machine over any number of calls. *)
From S2P Require Import Prelude Std Consts Net.
#[local] Open Scope Z_scope.

Abbreviation Key := (str * Z)%type.

(** ** The cache: an [IndexMap] is the list of its entries in index order. *)
Abbreviation Cache := (list (Key * (SocketAddr * Z))).

Definition cache_index (k : Key) (c : Cache) : option nat := fst <$> list_find (λ e, e.1 = k) c.
Definition cache_get (k : Key) (c : Cache) : option (SocketAddr * Z) :=
  (λ e, e.2.2) <$> list_find (λ e, e.1 = k) c.

(** [swap_remove]: the last entry takes the place of the removed one. *)
Definition swap_remove_index (i : nat) (c : Cache) : Cache :=
  match last c with
  | Some e => let c' := take (length c - 1) c in if (i <? length c')%nat then <[i := e]> c' else c'
  | None => c
  end.
Definition swap_remove (k : Key) (c : Cache) : Cache :=
  match cache_index k c with Some i => swap_remove_index i c | None => c end.

(** [IndexMap::insert] replaces in place or appends. *)
Definition index_insert (k : Key) (v : SocketAddr * Z) (c : Cache) : Cache :=
  match cache_index k c with Some i => <[i := (k, v)]> c | None => c ++ [(k, v)] end.

(** The eviction and insertion of a resolved address. *)
Definition cache_resolved (k : Key) (a : SocketAddr) (now : Z) (c : Cache) : Cache :=
  let c :=
    if (MAX_UDP_DNS_CACHE <=? length c)%nat then
      match c with
      | (oldest_key, _) :: _ => swap_remove oldest_key c
      | [] => c
      end
    else c in
  index_insert k (a, now) c.

(** ** Calls *)
Record Dns := mkDns {
  dns_cache : Cache;
  dns_resolving : gmap Key nat;
  next : nat;
}.

Inductive ResolveState :=
  | DEnter
  | DWait (n : nat) (notified : bool)
  | DLookup (n : nat)
  | DInsert (n : nat) (a : SocketAddr)
  | DUnlock (n : nat) (r : option (result SocketAddr))
  | DNotify (n : nat) (r : option (result SocketAddr))
  | DDone (r : option (result SocketAddr)).

Record Call := mkCall { key : Key; deadline : Z; pc : ResolveState }.
Definition set_pc (c : Call) (s : ResolveState) : Call := mkCall (key c) (deadline c) s.

Definition dns_timeout (k : Key) : error :=
  EMsg (B "DNS query timeout for " ++ k.1 ++ B ":" ++ show_dec k.2).

(** An address literal never reaches the cache. *)
Definition resolve_udp_target (now : Z) (host : str) (port : Z) : Call :=
  mkCall (host, port) (now + DNS_QUERY_TIMEOUT)
    (match parse_ip host with
     | Some ip => DDone (Some (Ok (socket_addr ip port)))
     | None => DEnter
     end).

(** The section under both locks. *)
Definition enter (now : Z) (d : Dns) (c : Call) : Dns * Call :=
  let miss (cache : Cache) :=
    match dns_resolving d !! key c with
    | Some n => (mkDns cache (dns_resolving d) (next d), set_pc c (DWait n false))
    | None => (mkDns cache (<[key c := next d]> (dns_resolving d)) (S (next d)), set_pc c (DLookup (next d)))
    end in
  match cache_get (key c) (dns_cache d) with
  | Some (mapped, timestamp) =>
      if now - timestamp <? UDP_DNS_CACHE_TTL then (d, set_pc c (DDone (Some (Ok mapped))))
      else miss (swap_remove (key c) (dns_cache d))
  | None => miss (dns_cache d)
  end.

(** One step of a call.  [answer] is what [lookup_host] returns when the call is
    waiting for it, if it returned. *)
Definition call_step (now : Z) (d : Dns) (c : Call) (answer : option (result (list SocketAddr)))
    : Dns * list nat * Call :=
  match pc c with
  | DEnter => let '(d, c) := enter now d c in (d, [], c)
  | DWait n notified =>
      if notified then (d, [], set_pc c DEnter)
      else if deadline c <=? now then (d, [], set_pc c (DDone (Some (Err (dns_timeout (key c))))))
      else (d, [], c)
  | DLookup n =>
      match answer with
      | Some (Ok (a :: _)) => (d, [], set_pc c (DInsert n a))
      | Some (Ok []) =>
          (d, [], set_pc c (DUnlock n (Some (Err (EMsg (B "no DNS result for " ++ (key c).1 ++ B ":"
                                                          ++ show_dec (key c).2))))))
      | Some (Err e) => (d, [], set_pc c (DUnlock n (Some (Err e))))
      | None =>
          if deadline c <=? now then (d, [], set_pc c (DUnlock n (Some (Err (dns_timeout (key c))))))
          else (d, [], c)
      end
  | DInsert n a =>
      (mkDns (cache_resolved (key c) a now (dns_cache d)) (dns_resolving d) (next d), [],
       set_pc c (DUnlock n (Some (Ok a))))
  | DUnlock n r => (mkDns (dns_cache d) (delete (key c) (dns_resolving d)) (next d), [], set_pc c (DNotify n r))
  | DNotify n r => (d, [n], set_pc c (DDone r))
  | DDone _ => (d, [], c)
  end.

(** Dropping a call at an await: the guard, if it is held, still runs. *)
Definition cancel (c : Call) : Call :=
  match pc c with
  | DLookup n => set_pc c (DUnlock n None)
  | DWait _ _ => set_pc c (DDone None)
  | _ => c
  end.

Definition wake (woken : list nat) (c : Call) : Call :=
  match pc c with
  | DWait n _ => if decide (n ∈ woken) then set_pc c (DWait n true) else c
  | _ => c
  end.

Record System := mkSystem { now : Z; dns : Dns; calls : list Call }.

Inductive Label :=
  | LTick (d : N)
  | LResolve (host : str) (port : Z)
  | LStep (i : nat) (answer : option (result (list SocketAddr)))
  | LCancel (i : nat).

Definition step (s : System) (l : Label) : System :=
  match l with
  | LTick d => mkSystem (now s + Z.of_N d) (dns s) (calls s)
  | LResolve host port => mkSystem (now s) (dns s) (calls s ++ [resolve_udp_target (now s) host port])
  | LStep i answer =>
      match calls s !! i with
      | Some c =>
          let '(d, woken, c') := call_step (now s) (dns s) c answer in
          mkSystem (now s) d (<[i := c']> (wake woken <$> calls s))
      | None => s
      end
  | LCancel i =>
      match calls s !! i with
      | Some c => mkSystem (now s) (dns s) (<[i := cancel c]> (calls s))
      | None => s
      end
  end.

Definition run (ls : list Label) : System := foldl step (mkSystem 0 (mkDns [] ∅ 0) []) ls.

(** ** The cache stays small *)
Lemma swap_remove_index_length i c : c ≠ [] → length (swap_remove_index i c) = (length c - 1)%nat.
Proof.
  intros Hc. unfold swap_remove_index. destruct (last c) eqn:E.
  - case_match; rewrite ?length_insert, length_take; lia.
  - by apply last_None in E.
Qed.

Lemma swap_remove_length k c : (length (swap_remove k c) ≤ length c)%nat.
Proof.
  unfold swap_remove. destruct (cache_index k c); [|done].
  destruct c; [done|]. rewrite swap_remove_index_length by done. lia.
Qed.

Lemma cache_index_head k v c : cache_index k ((k, v) :: c) = Some O.
Proof. unfold cache_index. simpl. by rewrite decide_True. Qed.

Lemma index_insert_length k v c : (length (index_insert k v c) ≤ S (length c))%nat.
Proof.
  unfold index_insert. case_match; [rewrite length_insert|rewrite length_app; simpl]; lia.
Qed.

Lemma cache_resolved_length k a t c :
  (length c ≤ MAX_UDP_DNS_CACHE)%nat → (length (cache_resolved k a t c) ≤ MAX_UDP_DNS_CACHE)%nat.
Proof.
  intros Hc. unfold cache_resolved. etrans; [apply index_insert_length|].
  destruct (Nat.leb_spec MAX_UDP_DNS_CACHE (length c)); [|lia].
  destruct c as [|[k0 v0] c]; [simpl in *; unfold MAX_UDP_DNS_CACHE in *; lia|].
  unfold swap_remove. rewrite cache_index_head, swap_remove_index_length by done. simpl in *. lia.
Qed.

(** ** The invariant *)
Definition resolver_of (k : Key) (c : Call) : bool :=
  bool_decide (key c = k) && match pc c with DLookup _ | DInsert _ _ | DUnlock _ _ => true | _ => false end.

Definition held_notify (c : Call) : option nat :=
  match pc c with DLookup n | DInsert n _ | DUnlock n _ => Some n | _ => None end.

(** The call that will signal [n]. *)
Definition signals (n : nat) (c : Call) : Prop :=
  held_notify c = Some n ∨ ∃ r, pc c = DNotify n r.

Definition invariant (s : System) : Prop :=
  (length (dns_cache (dns s)) ≤ MAX_UDP_DNS_CACHE)%nat ∧
  (∀ k, count (resolver_of k) (calls s) = if dns_resolving (dns s) !! k is Some _ then 1%nat else 0%nat) ∧
  (∀ i c n, calls s !! i = Some c → held_notify c = Some n → dns_resolving (dns s) !! key c = Some n) ∧
  (∀ k n, dns_resolving (dns s) !! k = Some n → ∃ j c, calls s !! j = Some c ∧ key c = k ∧ held_notify c = Some n) ∧
  (∀ i c n, calls s !! i = Some c → pc c = DWait n false → ∃ j c', calls s !! j = Some c' ∧ signals n c').

Lemma wake_pc woken c : pc (wake woken c) = pc c ∨ ∃ n b, pc c = DWait n b ∧ n ∈ woken ∧ pc (wake woken c) = DWait n true.
Proof.
  unfold wake. destruct (pc c) eqn:E; rewrite ?E; try by left.
  case_decide; [right; eauto|left; by rewrite E].
Qed.

Lemma dns_wake_key woken c : key (wake woken c) = key c.
Proof. unfold wake. by repeat case_match. Qed.

Lemma held_wake woken c : held_notify (wake woken c) = held_notify c.
Proof.
  unfold held_notify. destruct (wake_pc woken c) as [->|(n & b & -> & _ & ->)]; done.
Qed.

Lemma signals_wake n woken c : signals n (wake woken c) ↔ signals n c.
Proof.
  unfold signals. rewrite held_wake. destruct (wake_pc woken c) as [->|(m & b & -> & _ & ->)]; [done|].
  split; (intros [?|[r ?]]; [by left|done]).
Qed.

Lemma resolver_wake k woken c : resolver_of k (wake woken c) = resolver_of k c.
Proof.
  unfold resolver_of. rewrite dns_wake_key. destruct (wake_pc woken c) as [->|(m & b & -> & _ & ->)]; done.
Qed.

Lemma dns_count_wake k woken cs : count (resolver_of k) (wake woken <$> cs) = count (resolver_of k) cs.
Proof.
  induction cs as [|c cs IH]; [done|]. by rewrite fmap_cons, !count_cons, resolver_wake, IH.
Qed.

(** What a step of a call does, as far as the invariant is concerned. *)
Variant step_case (d : Dns) (c : Call) : Dns * list nat * Call → Prop :=
  | case_local cache st :
      (length (dns_cache d) ≤ MAX_UDP_DNS_CACHE → length cache ≤ MAX_UDP_DNS_CACHE)%nat →
      held_notify (set_pc c st) = held_notify c → (∀ n, signals n c → signals n (set_pc c st)) →
      (∀ n, st = DWait n false → pc c = DWait n false) →
      step_case d c (mkDns cache (dns_resolving d) (next d), [], set_pc c st)
  | case_wait cache n :
      (length (dns_cache d) ≤ MAX_UDP_DNS_CACHE → length cache ≤ MAX_UDP_DNS_CACHE)%nat →
      pc c = DEnter → dns_resolving d !! key c = Some n →
      step_case d c (mkDns cache (dns_resolving d) (next d), [], set_pc c (DWait n false))
  | case_resolve cache :
      (length (dns_cache d) ≤ MAX_UDP_DNS_CACHE → length cache ≤ MAX_UDP_DNS_CACHE)%nat →
      pc c = DEnter → dns_resolving d !! key c = None →
      step_case d c (mkDns cache (<[key c := next d]> (dns_resolving d)) (S (next d)), [],
                     set_pc c (DLookup (next d)))
  | case_unlock n r :
      pc c = DUnlock n r →
      step_case d c (mkDns (dns_cache d) (delete (key c) (dns_resolving d)) (next d), [], set_pc c (DNotify n r))
  | case_notify n r :
      pc c = DNotify n r → step_case d c (d, [n], set_pc c (DDone r)).

Lemma set_pc_same c : set_pc c (pc c) = c.
Proof. by destruct c. Qed.
Lemma dns_eta d : d = mkDns (dns_cache d) (dns_resolving d) (next d).
Proof. by destruct d. Qed.

Lemma local_same d c st :
  held_notify (set_pc c st) = held_notify c → (∀ n, signals n c → signals n (set_pc c st)) →
  (∀ n, st = DWait n false → pc c = DWait n false) → step_case d c (d, [], set_pc c st).
Proof. intros ???. rewrite (dns_eta d) at 2. by constructor. Qed.

Lemma stutter_case d c : step_case d c (d, [], c).
Proof. rewrite <-(set_pc_same c) at 2. by apply local_same. Qed.

Lemma call_step_cases now d c answer : step_case d c (call_step now d c answer).
Proof.
  assert (∀ n st, pc c = DLookup n ∨ (∃ a, pc c = DInsert n a) → held_notify (set_pc c st) = Some n →
    held_notify (set_pc c st) = held_notify c ∧ (∀ m, signals m c → signals m (set_pc c st))) as Hheld.
  { intros n st Hpc Hst. assert (held_notify c = Some n) as Hc.
    { unfold held_notify. by destruct Hpc as [->|[a ->]]. }
    split; [congruence|]. intros m [Hm|[r Hr]]; [left; congruence|].
    destruct Hpc as [Hpc|[a Hpc]]; congruence. }
  unfold call_step. destruct (pc c) as [|n b|n|n a|n r|n r|r] eqn:E.
  - unfold enter.
    assert (∀ m, ¬ signals m c) as Hno.
    { intros m [Hm|[r Hr]]; [|congruence]. unfold held_notify in Hm. by rewrite E in Hm. }
    assert (∀ cache, (length (dns_cache d) ≤ MAX_UDP_DNS_CACHE → length cache ≤ MAX_UDP_DNS_CACHE)%nat →
      step_case d c (let '(d, c) := match dns_resolving d !! key c with
        | Some n => (mkDns cache (dns_resolving d) (next d), set_pc c (DWait n false))
        | None => (mkDns cache (<[key c := next d]> (dns_resolving d)) (S (next d)), set_pc c (DLookup (next d)))
        end in (d, [], c))) as Hmiss.
    { intros cache Hc. destruct (dns_resolving d !! key c) as [n|] eqn:Er; by constructor. }
    destruct (cache_get (key c) (dns_cache d)) as [[mapped ts]|]; [|by apply Hmiss].
    destruct (now - ts <? UDP_DNS_CACHE_TTL);
      [|apply Hmiss; pose proof (swap_remove_length (key c) (dns_cache d)); lia].
    apply local_same; [|intros m Hm; by destruct (Hno m)|done]. unfold held_notify. by rewrite E.
  - assert (∀ m, ¬ signals m c) as Hno.
    { intros m [Hm|[r Hr]]; [|congruence]. unfold held_notify in Hm. by rewrite E in Hm. }
    destruct b; [|case_match; [|apply stutter_case]];
      (apply local_same; [unfold held_notify; by rewrite E|intros m Hm; by destruct (Hno m)|done]).
  - repeat case_match; try apply stutter_case;
      (apply local_same; [|apply (Hheld n)|done]; try apply (Hheld n); try done; by left).
  - destruct (Hheld n (DUnlock n (Some (Ok a)))) as [H1 H2]; [by right; eexists|done|].
    constructor; try done. apply cache_resolved_length.
  - by constructor.
  - by constructor.
  - apply stutter_case.
Qed.

Lemma count_two {A} (f : A → bool) i j (l : list A) x y :
  i ≠ j → l !! i = Some x → l !! j = Some y → f x = true → f y = true → (2 ≤ count f l)%nat.
Proof.
  revert i j. induction l as [|z l IH]; intros i j Hij Hi Hj Hx Hy; [done|].
  assert (∀ k w, l !! k = Some w → f w = true → (1 ≤ count f l)%nat) as Hone.
  { clear. induction l as [|z l IH]; intros [|k] w; simpl; try done.
    - intros [= ->] Hw. rewrite count_cons, Hw. lia.
    - intros Hk Hw. rewrite count_cons. specialize (IH k w Hk Hw). lia. }
  rewrite count_cons. destruct i as [|i], j as [|j]; simpl in *; simplify_eq/=.
  - rewrite Hx. pose proof (Hone j y Hj Hy). lia.
  - rewrite Hy. pose proof (Hone i x Hi Hx). lia.
  - specialize (IH i j ltac:(lia) Hi Hj Hx Hy). destruct (f z); lia.
Qed.

Lemma held_resolver c n k : held_notify c = Some n → key c = k → resolver_of k c = true.
Proof.
  unfold held_notify, resolver_of. intros H ->. rewrite bool_decide_true by done.
  by destruct (pc c).
Qed.
Lemma held_none_resolver c k : held_notify c = None → resolver_of k c = false.
Proof. unfold held_notify, resolver_of. intros H. destruct (pc c); rewrite ?andb_false_r; done. Qed.
Lemma resolver_held k c : resolver_of k c = (bool_decide (key c = k) && bool_decide (is_Some (held_notify c))).
Proof. unfold resolver_of, held_notify. by destruct (pc c). Qed.

Lemma update_lookup i (c c' : Call) woken (cs : list Call) j x :
  cs !! i = Some c → <[i := c']> (wake woken <$> cs) !! j = Some x →
  j = i ∧ x = c' ∨ j ≠ i ∧ ∃ c0, cs !! j = Some c0 ∧ x = wake woken c0.
Proof.
  intros Hi [(-> & -> & _)|(Hj & Hx)]%list_lookup_insert_Some; [by left|]. right. split; [done|].
  rewrite list_lookup_fmap in Hx. by apply fmap_Some in Hx as (c0 & ? & ->); eauto.
Qed.

Lemma update_self i (c c' : Call) woken (cs : list Call) :
  cs !! i = Some c → <[i := c']> (wake woken <$> cs) !! i = Some c'.
Proof.
  intros Hi. rewrite list_lookup_insert_eq; [done|]. rewrite length_fmap. by eapply lookup_lt_Some.
Qed.

Lemma update_other i (c' : Call) woken (cs : list Call) j c0 :
  j ≠ i → cs !! j = Some c0 → <[i := c']> (wake woken <$> cs) !! j = Some (wake woken c0).
Proof. intros Hj Hc. rewrite list_lookup_insert_ne by done. by rewrite list_lookup_fmap, Hc. Qed.

Lemma dns_wake_waiting woken c n : pc (wake woken c) = DWait n false → pc c = DWait n false ∧ n ∉ woken.
Proof.
  unfold wake. destruct (pc c) as [|m b| | | | |] eqn:E; rewrite ?E; try done.
  destruct (decide (m ∈ woken)); [done|]. rewrite E. by intros [= -> ->].
Qed.

Lemma step_count k i c c' woken (cs : list Call) :
  cs !! i = Some c →
  (count (resolver_of k) (<[i := c']> (wake woken <$> cs)) + (if resolver_of k c then 1 else 0) =
   count (resolver_of k) cs + (if resolver_of k c' then 1 else 0))%nat.
Proof.
  intros Hi. assert ((wake woken <$> cs) !! i = Some (wake woken c)) as Hw by by rewrite list_lookup_fmap, Hi.
  pose proof (count_insert (resolver_of k) i _ c' _ Hw) as H. by rewrite dns_count_wake, resolver_wake in H.
Qed.

(** *** One step of call [i] *)
Section call_step.
Context (s : System) (i : nat) (c : Call) (Hinv : invariant s) (Hi : calls s !! i = Some c).

Definition stepped (woken : list nat) (c' : Call) : list Call := <[i := c']> (wake woken <$> calls s).

Lemma stepped_lookup woken c' j x :
  stepped woken c' !! j = Some x →
  j = i ∧ x = c' ∨ j ≠ i ∧ ∃ c0, calls s !! j = Some c0 ∧ x = wake woken c0.
Proof. by apply update_lookup with (c := c). Qed.

Lemma stepped_self woken c' : stepped woken c' !! i = Some c'.
Proof. by eapply update_self. Qed.

(** A waiter keeps its signaller unless the signaller is the call that steps. *)
Lemma keep_waiters woken c' :
  (∀ n, n ∉ woken → signals n c → signals n c') →
  ∀ j x n, j ≠ i → calls s !! j = Some x → pc (wake woken x) = DWait n false →
    ∃ j' c0, stepped woken c' !! j' = Some c0 ∧ signals n c0.
Proof.
  destruct Hinv as (_ & _ & _ & _ & Hwait).
  intros Hsig j x n Hj Hx [Hpc Hn]%dns_wake_waiting. destruct (Hwait j x n Hx Hpc) as (j' & c0 & Hj' & Hs).
  destruct (decide (j' = i)) as [->|Hne].
  - exists i, c'. split; [apply stepped_self|]. apply Hsig; [done|]. by simplify_eq.
  - exists j', (wake woken c0). split; [by apply update_other|by apply signals_wake].
Qed.

Definition after (d : Dns) (woken : list nat) (c' : Call) : System := mkSystem (now s) d (stepped woken c').

Lemma invariant_local cache st :
  (length (dns_cache (dns s)) ≤ MAX_UDP_DNS_CACHE → length cache ≤ MAX_UDP_DNS_CACHE)%nat →
  held_notify (set_pc c st) = held_notify c → (∀ n, signals n c → signals n (set_pc c st)) →
  (∀ n, st = DWait n false → pc c = DWait n false) →
  invariant (after (mkDns cache (dns_resolving (dns s)) (next (dns s))) [] (set_pc c st)).
Proof.
  intros Hc Hh Hsig Hnw. destruct Hinv as (Hlen & Hcnt & Hheld & Hsome & Hwait).
  pose proof (stepped_lookup [] (set_pc c st)) as Hlook. pose proof (stepped_self [] (set_pc c st)) as Hself.
  pose proof (keep_waiters [] (set_pc c st)) as Hkeep.
  pose proof (λ k, step_count k i c (set_pc c st) [] (calls s) Hi) as Hstep. fold (stepped [] (set_pc c st)) in Hstep.
  unfold invariant, after; cbn [dns calls dns_cache dns_resolving].
  split_and!; [by apply Hc| | | |].
  + intros k. specialize (Hstep k). rewrite !resolver_held, Hh in Hstep. cbn [key set_pc] in Hstep.
    rewrite <-Hcnt. lia.
  + intros j x n Hx Hn. destruct (Hlook j x Hx) as [[-> ->]|(Hj & c0 & Hc0 & ->)].
    * rewrite Hh in Hn. exact (Hheld i c n Hi Hn).
    * rewrite held_wake in Hn. rewrite dns_wake_key. by eapply Hheld.
  + intros k n Hk. destruct (Hsome k n Hk) as (j & x & Hj & Hkey & Hn).
    destruct (decide (j = i)) as [->|Hne].
    * simplify_eq. exists i, (set_pc c st). split_and!; [done|done|]. by rewrite Hh.
    * exists j, (wake [] x). rewrite dns_wake_key, held_wake. split_and!; [by apply update_other|done|done].
  + intros j x n Hx Hn. destruct (Hlook j x Hx) as [[-> ->]|(Hj & c0 & Hc0 & ->)].
    * destruct (Hwait i c n Hi (Hnw n Hn)) as (j' & c1 & Hj' & Hs).
      destruct (decide (j' = i)) as [->|Hne].
      -- simplify_eq. exists i, (set_pc c st). split; [done|by apply Hsig].
      -- exists j', (wake [] c1). split; [by apply update_other|by apply signals_wake].
    * eapply Hkeep; eauto.
Qed.

Lemma invariant_wait cache n :
  (length (dns_cache (dns s)) ≤ MAX_UDP_DNS_CACHE → length cache ≤ MAX_UDP_DNS_CACHE)%nat →
  pc c = DEnter → dns_resolving (dns s) !! key c = Some n →
  invariant (after (mkDns cache (dns_resolving (dns s)) (next (dns s))) [] (set_pc c (DWait n false))).
Proof.
  intros Hc Hpc Hr. destruct Hinv as (Hlen & Hcnt & Hheld & Hsome & Hwait).
  pose proof (stepped_lookup [] (set_pc c (DWait n false))) as Hlook. pose proof (stepped_self [] (set_pc c (DWait n false))) as Hself.
  pose proof (keep_waiters [] (set_pc c (DWait n false))) as Hkeep.
  pose proof (λ k, step_count k i c (set_pc c (DWait n false)) [] (calls s) Hi) as Hstep. fold (stepped [] (set_pc c (DWait n false))) in Hstep.
  unfold invariant, after; cbn [dns calls dns_cache dns_resolving].
  assert (held_notify c = None) as Hnone by (unfold held_notify; by rewrite Hpc).
  split_and!; [by apply Hc| | | |].
  + intros k. specialize (Hstep k). rewrite !resolver_held in Hstep. rewrite Hnone in Hstep.
    cbn [held_notify set_pc pc] in Hstep. rewrite !(bool_decide_false (is_Some None)), !andb_false_r in Hstep
      by by intros []. rewrite <-Hcnt. lia.
  + intros j x m Hx Hm. destruct (Hlook j x Hx) as [[-> ->]|(Hj & c0 & Hc0 & ->)]; [done|].
    rewrite held_wake in Hm. rewrite dns_wake_key. by eapply Hheld.
  + intros k m Hk. destruct (Hsome k m Hk) as (j & x & Hj & Hkey & Hm).
    destruct (decide (j = i)) as [->|Hne]; [simplify_eq; congruence|].
    exists j, (wake [] x). rewrite dns_wake_key, held_wake. split_and!; [by apply update_other|done|done].
  + intros j x m Hx Hm. destruct (Hlook j x Hx) as [[-> ->]|(Hj & c0 & Hc0 & ->)].
    * injection Hm as <-. destruct (Hsome (key c) n Hr) as (j' & y & Hj' & _ & Hy).
      destruct (decide (j' = i)) as [->|Hne]; [simplify_eq; congruence|].
      exists j', (wake [] y). split; [by apply update_other|]. apply signals_wake. by left.
    * eapply Hkeep; eauto. intros m' _ [Hs|[r Hs]]; congruence.
Qed.

Lemma invariant_resolve cache :
  (length (dns_cache (dns s)) ≤ MAX_UDP_DNS_CACHE → length cache ≤ MAX_UDP_DNS_CACHE)%nat →
  pc c = DEnter → dns_resolving (dns s) !! key c = None →
  invariant (after (mkDns cache (<[key c := next (dns s)]> (dns_resolving (dns s))) (S (next (dns s)))) []
               (set_pc c (DLookup (next (dns s))))).
Proof.
  intros Hc Hpc Hr. destruct Hinv as (Hlen & Hcnt & Hheld & Hsome & Hwait).
  pose proof (stepped_lookup [] (set_pc c (DLookup (next (dns s))))) as Hlook. pose proof (stepped_self [] (set_pc c (DLookup (next (dns s))))) as Hself.
  pose proof (keep_waiters [] (set_pc c (DLookup (next (dns s))))) as Hkeep.
  pose proof (λ k, step_count k i c (set_pc c (DLookup (next (dns s)))) [] (calls s) Hi) as Hstep. fold (stepped [] (set_pc c (DLookup (next (dns s))))) in Hstep.
  unfold invariant, after; cbn [dns calls dns_cache dns_resolving].
  assert (held_notify c = None) as Hnone by (unfold held_notify; by rewrite Hpc).
  split_and!; [by apply Hc| | | |].
  + intros k. specialize (Hstep k). specialize (Hcnt k). rewrite !resolver_held in Hstep. rewrite Hnone in Hstep.
    cbn [held_notify set_pc pc key] in Hstep.
    rewrite (bool_decide_false (is_Some None)), andb_false_r in Hstep by by intros [].
    rewrite (bool_decide_true (is_Some (Some _))), andb_true_r in Hstep by by eexists.
    case_bool_decide as Hk; [subst k; rewrite lookup_insert_eq; rewrite Hr in Hcnt|
      rewrite lookup_insert_ne by done]; lia.
  + intros j x m Hx Hm. destruct (Hlook j x Hx) as [[-> ->]|(Hj & c0 & Hc0 & ->)].
    * injection Hm as <-. cbn [key set_pc]. apply lookup_insert_eq.
    * rewrite held_wake in Hm. rewrite dns_wake_key. pose proof (Hheld j c0 m Hc0 Hm) as Hm'.
      rewrite lookup_insert_ne; [done|]. intros Heq. rewrite Heq in Hr. congruence.
  + intros k m Hk. destruct (decide (k = key c)) as [->|Hne].
    * rewrite lookup_insert_eq in Hk. injection Hk as <-. exists i, (set_pc c (DLookup (next (dns s)))). done.
    * rewrite lookup_insert_ne in Hk by done. destruct (Hsome k m Hk) as (j & x & Hj & Hkey & Hm).
      destruct (decide (j = i)) as [->|Hji]; [simplify_eq; congruence|].
      exists j, (wake [] x). rewrite dns_wake_key, held_wake. split_and!; [by apply update_other|done|done].
  + intros j x m Hx Hm. destruct (Hlook j x Hx) as [[-> ->]|(Hj & c0 & Hc0 & ->)]; [done|].
    eapply Hkeep; eauto. intros m' _ [Hs|[r Hs]]; congruence.
Qed.

Lemma invariant_unlock n r :
  pc c = DUnlock n r →
  invariant (after (mkDns (dns_cache (dns s)) (delete (key c) (dns_resolving (dns s))) (next (dns s))) []
               (set_pc c (DNotify n r))).
Proof.
  intros Hpc. destruct Hinv as (Hlen & Hcnt & Hheld & Hsome & Hwait).
  pose proof (stepped_lookup [] (set_pc c (DNotify n r))) as Hlook. pose proof (stepped_self [] (set_pc c (DNotify n r))) as Hself.
  pose proof (keep_waiters [] (set_pc c (DNotify n r))) as Hkeep.
  pose proof (λ k, step_count k i c (set_pc c (DNotify n r)) [] (calls s) Hi) as Hstep. fold (stepped [] (set_pc c (DNotify n r))) in Hstep.
  unfold invariant, after; cbn [dns calls dns_cache dns_resolving].
  assert (held_notify c = Some n) as Hn by (unfold held_notify; by rewrite Hpc).
  pose proof (Hheld i c n Hi Hn) as Hres.
  split_and!; [done| | | |].
  + intros k. specialize (Hstep k). specialize (Hcnt k). rewrite !resolver_held in Hstep. rewrite Hn in Hstep.
    cbn [held_notify set_pc pc key] in Hstep.
    rewrite (bool_decide_false (is_Some None)), andb_false_r in Hstep by by intros [].
    rewrite (bool_decide_true (is_Some (Some _))), andb_true_r in Hstep by by eexists.
    case_bool_decide as Hk; [subst k; rewrite lookup_delete_eq; rewrite Hres in Hcnt|
      rewrite lookup_delete_ne by done]; lia.
  + intros j x m Hx Hm. destruct (Hlook j x Hx) as [[-> ->]|(Hj & c0 & Hc0 & ->)]; [done|].
    rewrite held_wake in Hm. rewrite dns_wake_key. rewrite lookup_delete_ne; [by eapply Hheld|].
    intros Heq. pose proof (Hcnt (key c)) as Hone. rewrite Hres in Hone.
    pose proof (count_two (resolver_of (key c)) i j (calls s) c c0 ltac:(done) Hi Hc0
      (held_resolver _ _ _ Hn eq_refl) (held_resolver _ _ _ Hm ltac:(done))). lia.
  + intros k m Hk. apply lookup_delete_Some in Hk as [Hne Hk].
    destruct (Hsome k m Hk) as (j & x & Hj & Hkey & Hm).
    destruct (decide (j = i)) as [->|Hji]; [simplify_eq|].
    exists j, (wake [] x). rewrite dns_wake_key, held_wake. split_and!; [by apply update_other|done|done].
  + intros j x m Hx Hm. destruct (Hlook j x Hx) as [[-> ->]|(Hj & c0 & Hc0 & ->)]; [done|].
    eapply Hkeep; eauto. intros m' _ [Hs|[r' Hs]]; [|congruence]. right. exists r. cbn [pc set_pc]. congruence.
Qed.

Lemma invariant_notify n r :
  pc c = DNotify n r → invariant (after (dns s) [n] (set_pc c (DDone r))).
Proof.
  intros Hpc. destruct Hinv as (Hlen & Hcnt & Hheld & Hsome & Hwait).
  pose proof (stepped_lookup [n] (set_pc c (DDone r))) as Hlook. pose proof (stepped_self [n] (set_pc c (DDone r))) as Hself.
  pose proof (keep_waiters [n] (set_pc c (DDone r))) as Hkeep.
  pose proof (λ k, step_count k i c (set_pc c (DDone r)) [n] (calls s) Hi) as Hstep. fold (stepped [n] (set_pc c (DDone r))) in Hstep.
  unfold invariant, after; cbn [dns calls dns_cache dns_resolving].
  assert (held_notify c = None) as Hnone by (unfold held_notify; by rewrite Hpc).
  split_and!; [done| | | |].
  + intros k. specialize (Hstep k). rewrite !resolver_held in Hstep. rewrite Hnone in Hstep.
    cbn [held_notify set_pc pc] in Hstep. rewrite !(bool_decide_false (is_Some None)), !andb_false_r in Hstep
      by by intros []. rewrite <-Hcnt. lia.
  + intros j x m Hx Hm. destruct (Hlook j x Hx) as [[-> ->]|(Hj & c0 & Hc0 & ->)]; [done|].
    rewrite held_wake in Hm. rewrite dns_wake_key. by eapply Hheld.
  + intros k m Hk. destruct (Hsome k m Hk) as (j & x & Hj & Hkey & Hm).
    destruct (decide (j = i)) as [->|Hne]; [simplify_eq; congruence|].
    exists j, (wake [n] x). rewrite dns_wake_key, held_wake. split_and!; [by apply update_other|done|done].
  + intros j x m Hx Hm. destruct (Hlook j x Hx) as [[-> ->]|(Hj & c0 & Hc0 & ->)]; [done|].
    eapply Hkeep; eauto. intros m' Hm' [Hs|[r' Hs]]; [congruence|].
    destruct Hm'. assert (m' = n) as -> by congruence. apply list_elem_of_here.
Qed.

End call_step.

Lemma invariant_call_step s i c answer :
  invariant s → calls s !! i = Some c → invariant (step s (LStep i answer)).
Proof.
  intros Hinv Hi. cbn [step]. rewrite Hi.
  pose proof (call_step_cases (now s) (dns s) c answer) as Hcase.
  destruct (call_step (now s) (dns s) c answer) as [[d woken] c'].
  inversion Hcase; subst; clear Hcase.
  - by eapply invariant_local.
  - by eapply invariant_wait.
  - by eapply invariant_resolve.
  - by eapply invariant_unlock.
  - by eapply invariant_notify.
Qed.

Lemma wake_nil c : wake [] c = c.
Proof. unfold wake. by destruct (pc c). Qed.

Lemma invariant_cancel s i c :
  invariant s → calls s !! i = Some c → invariant (step s (LCancel i)).
Proof.
  intros Hinv Hi. cbn [step]. rewrite Hi.
  assert (∀ st, held_notify (set_pc c st) = held_notify c → (∀ n, signals n c → signals n (set_pc c st)) →
    (∀ n, st = DWait n false → pc c = DWait n false) →
    invariant (mkSystem (now s) (dns s) (<[i := set_pc c st]> (calls s)))) as Hlocal.
  { intros st H1 H2 H3. pose proof (invariant_local s i c Hinv Hi (dns_cache (dns s)) st ltac:(done) H1 H2 H3) as H.
    unfold after, stepped in H. rewrite <-dns_eta in H.
    assert (wake [] <$> calls s = calls s) as Heq.
    { rewrite <-(list_fmap_id (calls s)) at 2. apply list_fmap_ext. intros ? x _. apply wake_nil. }
    by rewrite Heq in H. }
  unfold cancel. destruct (pc c) eqn:E; try (rewrite list_insert_id by done; by destruct s).
  - apply Hlocal; [unfold held_notify; by rewrite E| |done].
    intros m [Hm|[r Hr]]; [|congruence]. unfold held_notify in Hm. by rewrite E in Hm.
  - apply Hlocal; [unfold held_notify; by rewrite E| |done].
    intros m [Hm|[r Hr]]; [|congruence]. left. unfold held_notify in *. by rewrite E in Hm.
Qed.

Lemma dns_invariant_step s l : invariant s → invariant (step s l).
Proof.
  intros Hinv. destruct l as [d|host port|i answer|i].
  - done.
  - destruct Hinv as (Hlen & Hcnt & Hheld & Hsome & Hwait). cbn [step].
    assert (held_notify (resolve_udp_target (now s) host port) = None) as Hnone
      by (unfold resolve_udp_target, held_notify; simpl; by destruct (parse_ip host)).
    unfold invariant; cbn [dns calls]. split_and!; [done| | | |].
    + intros k. rewrite count_app, count_cons, held_none_resolver by done. unfold count at 2. simpl. rewrite Hcnt. lia.
    + intros i c n [Hc|[_ Hc]]%lookup_app_Some Hn; [by eapply Hheld|].
      apply list_lookup_singleton_Some in Hc as [_ <-]. congruence.
    + intros k n Hk. destruct (Hsome k n Hk) as (j & c & Hj & ?). exists j, c. split; [by apply lookup_app_l_Some|done].
    + intros i c n [Hc|[_ Hc]]%lookup_app_Some Hn.
      * destruct (Hwait i c n Hc Hn) as (j & c' & Hj & ?). exists j, c'. split; [by apply lookup_app_l_Some|done].
      * apply list_lookup_singleton_Some in Hc as [_ <-]. revert Hn. simpl. by destruct (parse_ip host).
  - destruct (calls s !! i) as [c|] eqn:Hi; [by eapply invariant_call_step|]. cbn [step]. by rewrite Hi.
  - destruct (calls s !! i) as [c|] eqn:Hi; [by eapply invariant_cancel|]. cbn [step]. by rewrite Hi.
Qed.

Lemma dns_invariant_run ls : invariant (run ls).
Proof.
  unfold run. apply (foldl_invariant _ invariant); [apply dns_invariant_step|].
  unfold invariant; cbn [dns calls dns_cache dns_resolving length]. split_and!; try done. lia.
Qed.

(** C21: under every interleaving of lookups, answers, timeouts and cancelled
    calls: the cache never exceeds its capacity, at most one call resolves a
    name at a time (and exactly one while the name is marked), and every call
    that waits unnotified waits for a call that still holds the very [Notify]
    it waits on, so none is left behind. *)
Theorem dns_single_flight ls :
  let s := run ls in
  (length (dns_cache (dns s)) ≤ MAX_UDP_DNS_CACHE)%nat ∧
  (∀ k, count (resolver_of k) (calls s) = if dns_resolving (dns s) !! k is Some _ then 1%nat else 0%nat) ∧
  (∀ i c n, calls s !! i = Some c → pc c = DWait n false → ∃ j c', calls s !! j = Some c' ∧ signals n c').
Proof. intros s. destruct (dns_invariant_run ls) as (? & ? & _ & _ & ?). done. Qed.

Lemma dns_single_flight_witness :
  let s := run [LResolve (B "h") 53; LStep 0 None; LResolve (B "h") 53; LStep 1 None] in
  ∃ j c', calls s !! j = Some c' ∧ signals 0 c'.
Proof.
  intros s. apply (proj2 (proj2 (dns_single_flight [LResolve (B "h") 53; LStep 0 None; LResolve (B "h") 53; LStep 1 None]))
    1%nat (mkCall (B "h", 53) 17000 (DWait 0 false)) 0%nat); by vm_compute.
Defined.

(** ** Eviction *)
Lemma cache_index_app_fresh k c : k ∉ c.*1 → cache_index k c = None.
Proof.
  intros Hk. unfold cache_index. destruct (list_find _ c) as [[i e]|] eqn:E; [|done].
  apply list_find_Some in E as (Hi & He & _). destruct Hk. apply list_elem_of_fmap. exists e.
  split; [done|]. by eapply list_elem_of_lookup_2.
Qed.

(** A full cache with a first entry, others, and a last one. *)
Lemma cache_resolved_full k a t k0 v0 mid el :
  length (((k0, v0) :: mid) ++ [el]) = MAX_UDP_DNS_CACHE → k ∉ (mid ++ [el]).*1 →
  cache_resolved k a t (((k0, v0) :: mid) ++ [el]) = (el :: mid) ++ [(k, (a, t))].
Proof.
  intros Hl Hk. unfold cache_resolved. rewrite Hl, Nat.leb_refl. cbn [app].
  unfold swap_remove. rewrite cache_index_head. unfold swap_remove_index.
  rewrite app_comm_cons, last_snoc, length_app. cbn [length].
  replace (S (length mid) + 1 - 1)%nat with (length ((k0, v0) :: mid)) by (simpl; lia).
  rewrite take_app_length. cbn [length]. destruct (Nat.ltb_spec 0 (S (length mid))); [|lia].
  cbn [insert list_insert]. unfold index_insert. rewrite cache_index_app_fresh; [done|].
  rewrite fmap_app in Hk. rewrite fmap_cons. set_solver.
Qed.

(** The eviction is not of the oldest entry: when names are resolved one
    after the other in a full cache, each new entry but the first evicts the
    one before it, while the entries in the middle, which are older, all stay. *)
Theorem dns_eviction_keeps_older k0 v0 mid el (new : list (Key * (SocketAddr * Z))) e :
  length (((k0, v0) :: mid) ++ [el]) = MAX_UDP_DNS_CACHE →
  NoDup ((mid ++ [el]) ++ new ++ [e]).*1 →
  ∃ first, foldl (λ c x, cache_resolved x.1 x.2.1 x.2.2 c) (((k0, v0) :: mid) ++ [el]) (new ++ [e]) =
           (first :: mid) ++ [e] ∧ first = default el (last new).
Proof.
  revert k0 v0 el. induction new as [|[k [a t]] new IH]; intros k0 v0 el Hl Hnd.
  - destruct e as [k [a t]]. exists el. split; [|done]. cbn [app foldl fst snd].
    apply (cache_resolved_full k a t k0 v0 mid el Hl).
    rewrite fmap_app in Hnd. apply NoDup_app in Hnd as (_ & Hnd & _). intros Hk. by apply (Hnd k Hk), list_elem_of_here.
  - cbn [app foldl fst snd]. rewrite app_comm_cons, cache_resolved_full; [|done|].
    + destruct el as [kel vel]. destruct (IH kel vel (k, (a, t))) as (first & Hf & ->).
      * rewrite length_app in *. simpl in *. lia.
      * revert Hnd. rewrite !fmap_app. simpl. rewrite <-!app_assoc. simpl. rewrite !NoDup_app, !NoDup_cons.
        set_solver.
      * eexists. split; [exact Hf|]. rewrite last_cons. by destruct (last new).
    + rewrite fmap_app in Hnd. apply NoDup_app in Hnd as (_ & Hnd & _). intros Hk.
      by apply (Hnd k Hk), list_elem_of_here.
Qed.

Definition sample_addr : SocketAddr := socket_addr (V4 (replicate 4 x01)) 53.
Definition sample_entry (i : nat) : Key * (SocketAddr * Z) :=
  ((show_dec (Z.of_nat i), 53), (sample_addr, Z.of_nat i)).

Lemma dns_eviction_keeps_older_witness :
  let mid := sample_entry <$> seq 1 254 in
  let full := (sample_entry 0 :: mid) ++ [sample_entry 255] in
  let new := sample_entry <$> seq 256 3 in
  ∃ first, foldl (λ c x, cache_resolved x.1 x.2.1 x.2.2 c) full (new ++ [sample_entry 300]) =
           (first :: mid) ++ [sample_entry 300] ∧ first = default (sample_entry 255) (last new).
Proof.
  intros mid full new. apply (dns_eviction_keeps_older (show_dec 0, 53) (sample_addr, 0)).
  - by vm_compute.
  - apply (bool_decide_unpack _). by vm_compute.
Defined.
