(* ===== verification/Underlay.v ===== *)
(** * [server/src/server.rs]: underlay sessions

    The per-packet loop of the non-QUIC port, the handler of a first packet,
    and the task that relays responses back.  The handler's calls of [evict]
    and [get_or_create] are the machines of [Inflight] and [UdpPool] run without
    interference. *)
From S2P Require Import Prelude Std Consts Net Protocol Crypto Inflight UdpPool Demux.
#[local] Open Scope Z_scope.

(** A spawned relay task is a number. *)
Record UnderlaySession := mkSession {
  target : str;
  cipher : UnderlayCipher;
  relay_abort : option nat;
}.

(** The state the tasks of the server share; [relays] are the running relay
    tasks and the sessions they serve. *)
Record Shared := mkShared {
  sessions : gmap SocketAddr UnderlaySession;
  udp_pool : UdpEndpointPool;
  in_flight : InFlightState;
  relays : gmap nat SocketAddr;
  next_task : nat;
}.

Definition abort (t : option nat) (s : Shared) : Shared :=
  match t with
  | Some t => mkShared (sessions s) (udp_pool s) (in_flight s) (delete t (relays s)) (next_task s)
  | None => s
  end.

(** [sessions.invalidate]: the eviction listener of [create_underlay_sessions]
    aborts the relay task and removes the pooled endpoint. *)
Definition invalidate (source : SocketAddr) (s : Shared) : Shared :=
  match sessions s !! source with
  | None => s
  | Some session =>
      let s := abort (relay_abort session) s in
      mkShared (delete source (sessions s)) (remove (udp_pool s) source) (in_flight s) (relays s) (next_task s)
  end.

(** [sessions.insert]: replacing an entry runs the listener on the old one. *)
Definition insert_session (source : SocketAddr) (session : UnderlaySession) (s : Shared) : Shared :=
  let s := invalidate source s in
  mkShared (<[source := session]> (sessions s)) (udp_pool s) (in_flight s) (relays s) (next_task s).

Definition set_pool (p : UdpEndpointPool) (s : Shared) : Shared :=
  mkShared (sessions s) p (in_flight s) (relays s) (next_task s).

(** A datagram handed to the operating system. *)
Record Sent := mkSent { from_socket : Socket; bytes : str; destination : SocketAddr }.

Definition forward (e : PooledUdpEndpoint) (payload : str) : Sent :=
  mkSent (pooled_socket e) (drop SALT_LEN payload) (send_to_addr (pooled_target e) (pooled_is_ipv6 e)).

Section underlay.
Context `{HkdfSha1, ChaCha}.

(** [send] is the outcome of a [send_to]. *)
Context (send : Sent → result unit).

(** ** The packet loop *)
Inductive LoopAction :=
  | LShort
  | LForwarded (d : Sent)
  | LSendFailed (d : Sent)
  | LUndecryptable
  | LOverload
  | LSpawned (p : UnderlayPacket).

(** The body of the loop for one packet, with [permits] handler permits free. *)
Definition packet_loop_step (permits : nat) (s : Shared) (p : UnderlayPacket) : Shared * LoopAction :=
  if (length (payload p) <? UNDERLAY_SALT_LEN)%nat then (s, LShort)
  else
    let slow := (s, if decide (permits = O) then LOverload else LSpawned p) in
    match sessions s !! peer p with
    | None => slow
    | Some session =>
        match get_socket (udp_pool s) (peer p) with
        | None => slow
        | Some endpoint =>
            let '(plain, r) := decrypt_in_place (cipher session) (payload p) in
            match r with
            | Err _ => (s, LUndecryptable)
            | Ok _ =>
                let d := forward endpoint plain in
                match send d with
                | Ok _ => (s, LForwarded d)
                | Err _ => (invalidate (peer p) s, LSendFailed d)
                end
            end
        end
    end.

(** ** The first packet of a session *)

(** [InFlightUnderlayKey::evict] when the entry is there. *)
Definition evict_now {T} (k : InFlightKey) (check : UnderlayAuth → option T) (m : InFlightState)
    : InFlightState * option (UnderlayAuth * T) :=
  match auth m !! k with
  | Some (a, inserted_at) =>
      match check a with
      | Some v => (mkState (delete k (auth m)) (waiting m) (next_notify m), Some (a, v))
      | None => (m, None)
      end
  | None => (m, None)
  end.

(** [UdpEndpointPool::get_or_create] when no other call is at work. *)
Definition get_or_create_now (p : UdpEndpointPool) (source : SocketAddr) (created : result UdpEndpoint)
    : UdpEndpointPool * result (PooledUdpEndpoint * bool) :=
  match inner p !! source with
  | Some e => (p, Ok (from_endpoint e, false))
  | None =>
      let p := mkPool (inner p) (creating p) (notify_map p) (S (next p)) in
      match created with
      | Ok e => (mkPool (<[source := e]> (inner p)) (creating p) (notify_map p) (next p), Ok (from_endpoint e, true))
      | Err e => (p, Err e)
      end
  end.

(** The callback of [evict]: the packet proves that its sender knows the key.
    A key of the wrong length panics in [derive_subkey(..).expect(..)]; keys
    read from a stream have the right one. *)
Definition verify_packet (salt packet : str) (a : UnderlayAuth) : option (UnderlayCipher * str) :=
  match derive_subkey (psk a) salt with
  | Err _ => None
  | Ok subkey =>
      let c := from_subkey subkey in
      let '(plain, r) := decrypt_in_place c packet in
      match r with Ok _ => Some (c, plain) | Err _ => None end
  end.

(** The failure path of both sends. *)
Definition drop_session (source : SocketAddr) (s : Shared) : Shared :=
  let s := set_pool (remove (udp_pool s) source) s in
  let s := abort (sessions s !! source ≫= relay_abort) s in
  invalidate source s.

Definition send_failed (d : Sent) : error :=
  EMsg (B "underlay send_to " ++ show_socket_addr (destination d) ++ B " failed").

(** [create] is what [UdpEndpoint::new] returns for a target. *)
Definition handle_existing_session (create : str → result UdpEndpoint) (session : UnderlaySession)
    (s : Shared) (p : UnderlayPacket) : Shared * option Sent * result unit :=
  let '(plain, r) := decrypt_in_place (cipher session) (payload p) in
  match r with
  | Err _ => (s, None, Ok tt)
  | Ok _ =>
      let '(pool, r) :=
        match get_socket (udp_pool s) (peer p) with
        | Some e => (udp_pool s, Ok e)
        | None =>
            let '(pool, r) := get_or_create_now (udp_pool s) (peer p) (create (target session)) in
            (pool, fst <$> r)
        end in
      let s := set_pool pool s in
      match r with
      | Err e => (s, None, Err e)
      | Ok endpoint =>
          let d := forward endpoint plain in
          match send d with
          | Ok _ => (s, Some d, Ok tt)
          | Err _ => (drop_session (peer p) s, Some d, Err (send_failed d))
          end
      end
  end.

Definition handle_new_session (create : str → result UdpEndpoint) (disable_udp_443 : bool)
    (s : Shared) (p : UnderlayPacket) : Shared * option Sent * result unit :=
  let salt := take UNDERLAY_SALT_LEN (payload p) in
  let '(table, claimed) := evict_now salt (verify_packet salt (payload p)) (in_flight s) in
  let s := mkShared (sessions s) (udp_pool s) table (relays s) (next_task s) in
  match claimed with
  | None => (s, None, Ok tt)
  | Some (a, (cipher, plain)) =>
      if disable_udp_443 && (metadata_port (metadata a) =? 443) then (s, None, Ok tt)
      else
        let target := target_addr (metadata a) in
        let '(pool, r) := get_or_create_now (udp_pool s) (peer p) (create target) in
        let s := set_pool pool s in
        match r with
        | Err e => (s, None, Err e)
        | Ok (endpoint, is_new) =>
            let '(s, relay_abort) :=
              if (is_new : bool) then
                (mkShared (sessions s) (udp_pool s) (in_flight s) (<[next_task s := peer p]> (relays s))
                          (S (next_task s)), Some (next_task s))
              else (s, None) in
            let s := insert_session (peer p) (mkSession target cipher relay_abort) s in
            let d := forward endpoint plain in
            match send d with
            | Ok _ => (s, Some d, Ok tt)
            | Err _ => (drop_session (peer p) s, Some d, Err (send_failed d))
            end
        end
  end.

Definition handle_non_quic_underlay_packet (create : str → result UdpEndpoint) (disable_udp_443 : bool)
    (s : Shared) (p : UnderlayPacket) : Shared * option Sent * result unit :=
  if (length (payload p) <? UNDERLAY_SALT_LEN)%nat then (s, None, Ok tt)
  else
    match sessions s !! peer p with
    | Some session => handle_existing_session create session s p
    | None => handle_new_session create disable_udp_443 s p
    end.

(** ** Relaying back *)
Definition BATCH_SIZE : nat := 64.

Definition generate_salt_batch (random_bytes : str) : list str :=
  (λ i, [x00; x00] ++ take 30 (drop (i * 30) random_bytes)) <$> seq 0 BATCH_SIZE.

(** The task of a new endpoint: [events] are the receives of its socket and
    their times, [rngs] the random bytes of the batches; [salt_pool] is popped
    from its end.  The datagrams go to [source]; the task ends at the first
    failure, or when nothing arrives for the NAT timeout. *)
Fixpoint relay_back (c : UnderlayCipher) (deliver : str → result unit) (deadline : Z) (salt_pool : list str)
    (rngs : list str) (events : list (Z * result str)) : list str :=
  match events with
  | [] => []
  | (t, r) :: events =>
      if deadline <? t then []
      else
        match r with
        | Err _ => []
        | Ok data =>
            let '(salt_pool, rngs) :=
              match salt_pool, rngs with
              | [], rng :: rngs => (generate_salt_batch rng, rngs)
              | _, _ => (salt_pool, rngs)
              end in
            match last salt_pool with
            | None => []
            | Some salt =>
                match encrypt_in_place c (replicate SALT_LEN x00 ++ data) salt with
                | Some (packet, Ok _) =>
                    match deliver packet with
                    | Err _ => [packet]
                    | Ok _ =>
                        packet :: relay_back c deliver (t + DEFAULT_NAT_TIMEOUT)
                                    (take (length salt_pool - 1) salt_pool) rngs events
                    end
                | _ => []
                end
            end
        end
  end.

(** When the task ends, for whatever reason, its guard invalidates the session
    of its source, and the normal exit also removes the pooled endpoint. *)
Definition relay_ended (source : SocketAddr) (s : Shared) : Shared :=
  let s := invalidate source s in set_pool (remove (udp_pool s) source) s.

(** ** The handler's calls, as machines run alone *)
Lemma evict_now_steps {T} p now m (t : Inflight.Task T) :
  Inflight.pc t = EClaim → is_Some (auth m !! Inflight.key t) →
  ∃ t1 t2 t3 m',
    evict_step p now m t = (m, [], t1) ∧ evict_step p now m t1 = (m, [], t2) ∧
    evict_step p now m t2 = (m', [], t3) ∧
    Inflight.pc t3 = EDone (evict_now (Inflight.key t) (Inflight.authenticate t) m).2 ∧
    m' = (evict_now (Inflight.key t) (Inflight.authenticate t) m).1.
Proof.
  intros Hpc [[a ts] Ha]. unfold evict_now. rewrite Ha.
  exists (Inflight.set_pc t (EVerify a ts)).
  destruct (Inflight.authenticate t a) as [v|] eqn:Ev.
  - exists (Inflight.set_pc t (ETake a ts v)), (Inflight.set_pc t (EDone (Some (a, v)))). eexists.
    split_and!; [unfold evict_step; by rewrite Hpc, Ha|unfold evict_step; simpl; by rewrite Ev| |done|done].
    unfold evict_step, take_claimed. simpl. rewrite Ha. by rewrite decide_True.
  - exists (Inflight.set_pc t (EDone None)), (Inflight.set_pc t (EDone None)), m.
    split_and!; [unfold evict_step; by rewrite Hpc, Ha|unfold evict_step; simpl; by rewrite Ev|done|done|done].
Qed.

(** Seven steps of a call alone: look, claim, announce, look again, create, and
    leave through the guard. *)
Fixpoint get_alone (fuel : nat) (p : UdpEndpointPool) (g : Getter) (created : result UdpEndpoint)
    : UdpEndpointPool * Getter :=
  match fuel with
  | O => (p, g)
  | S fuel => let '(p, _, g) := get_or_create_step p g created in get_alone fuel p g created
  end.

Lemma get_or_create_now_steps p source created :
  source ∉ creating p → notify_map p !! source = None →
  let '(p', g) := get_alone 8 p (mkGetter source GFast) created in
  UdpPool.pc g = GDone (Some (get_or_create_now p source created).2) ∧
  inner p' = inner (get_or_create_now p source created).1 ∧
  creating p' = creating p ∧ notify_map p' = notify_map p.
Proof.
  intros Hc Hn. unfold get_or_create_now. destruct (inner p !! source) as [e|] eqn:Ei.
  - cbn [get_alone]. unfold get_or_create_step at 1. cbn. by rewrite Ei.
  - cbn [get_alone]. unfold get_or_create_step at 1. cbn. rewrite Ei. cbn.
    unfold get_or_create_step at 1. cbn. rewrite decide_False by done. cbn. rewrite Ei. cbn.
    destruct created as [e|e]; cbn; split_and!; try done; try set_solver; by rewrite delete_insert_id.
Qed.
End underlay.

(** ** Sessions *)
Section sessions.
Context `{HkdfSha1Laws, ChaChaLaws}.

Lemma verify_packet_encrypted a salt pt packet :
  length (psk a) = KEY_LEN → length salt = SALT_LEN → pt ≠ [] → encrypt_udp (psk a) pt salt = Ok packet →
  ∃ c, verify_packet salt packet a = Some (c, salt ++ pt) ∧
       take UNDERLAY_SALT_LEN packet = salt ∧ (UNDERLAY_SALT_LEN ≤ length packet)%nat ∧
       ∀ pt' packet', pt' ≠ [] → encrypt_udp (psk a) pt' salt = Ok packet' →
         decrypt_in_place c packet' = (salt ++ pt', Ok tt) ∧ (UNDERLAY_SALT_LEN ≤ length packet')%nat.
Proof.
  intros Hk Hs Hpt He.
  destruct (encrypt_udp_shape _ _ _ _ Hk Hs He) as (k & Ek & Ht & Hl & Hdec).
  exists (from_subkey k). unfold verify_packet. rewrite Ek, (Hdec Hpt). split_and!; [done|done| |].
  - unfold SALT_LEN, UNDERLAY_SALT_LEN in *. lia.
  - intros pt' packet' Hpt' He'.
    destruct (encrypt_udp_shape _ _ _ _ Hk Hs He') as (k' & Ek' & _ & Hl' & Hdec').
    rewrite Ek in Ek'. apply Ok_inj in Ek' as <-. split; [by apply Hdec'|].
    unfold SALT_LEN, UNDERLAY_SALT_LEN in *. lia.
Qed.

Lemma insert_session_fresh source session s :
  sessions s !! source = None →
  insert_session source session s =
  mkShared (<[source := session]> (sessions s)) (udp_pool s) (in_flight s) (relays s) (next_task s).
Proof. intros Hs. unfold insert_session, invalidate. by rewrite Hs. Qed.

Lemma forward_plain e salt pt :
  length salt = SALT_LEN →
  forward e (salt ++ pt) = mkSent (pooled_socket e) pt (send_to_addr (pooled_target e) (pooled_is_ipv6 e)).
Proof. intros Hs. unfold forward. by rewrite <-Hs, drop_app_length. Qed.

(** What the handler of a first packet does once the packet has claimed its
    authentication. *)
Lemma handle_new_claimed send create block s p a ts c plain :
  (UNDERLAY_SALT_LEN ≤ length (payload p))%nat → sessions s !! peer p = None →
  auth (in_flight s) !! take UNDERLAY_SALT_LEN (payload p) = Some (a, ts) →
  verify_packet (take UNDERLAY_SALT_LEN (payload p)) (payload p) a = Some (c, plain) →
  handle_non_quic_underlay_packet send create block s p =
  let table := mkState (delete (take UNDERLAY_SALT_LEN (payload p)) (auth (in_flight s)))
                 (waiting (in_flight s)) (next_notify (in_flight s)) in
  let s := mkShared (sessions s) (udp_pool s) table (relays s) (next_task s) in
  if block && (metadata_port (metadata a) =? 443) then (s, None, Ok tt)
  else
    let target := target_addr (metadata a) in
    let '(pool, r) := get_or_create_now (udp_pool s) (peer p) (create target) in
    match r with
    | Err e => (set_pool pool s, None, Err e)
    | Ok (endpoint, is_new) =>
        let s := mkShared (<[peer p := mkSession target c (if is_new then Some (next_task s) else None)]> (sessions s))
                   pool table (if is_new then <[next_task s := peer p]> (relays s) else relays s)
                   (if is_new then S (next_task s) else next_task s) in
        match send (forward endpoint plain) with
        | Ok _ => (s, Some (forward endpoint plain), Ok tt)
        | Err _ => (drop_session (peer p) s, Some (forward endpoint plain), Err (send_failed (forward endpoint plain)))
        end
    end.
Proof.
  intros Hl Hs Ha Hv. unfold handle_non_quic_underlay_packet, handle_new_session.
  destruct (Nat.ltb_spec (length (payload p)) UNDERLAY_SALT_LEN); [lia|].
  rewrite Hs. unfold evict_now. rewrite Ha, Hv. cbn [udp_pool]. case_match; [done|].
  destruct (get_or_create_now _ _ _) as [pool [[e [|]]|er]]; [| |done];
    by rewrite insert_session_fresh.
Qed.

(** C6: a first packet sealed under an authentication that was stored for its
    salt opens a session: its payload is sent to the new endpoint's target, the
    authentication is consumed, one relay task is started, and every later
    packet sealed under the same key and salt takes the packet loop's fast
    path to the same target. *)
Theorem first_packet_opens_session send create block n s src a ts salt pt packet e :
  length (psk a) = KEY_LEN → length salt = SALT_LEN → pt ≠ [] →
  encrypt_udp (psk a) pt salt = Ok packet →
  auth (in_flight s) !! salt = Some (a, ts) →
  sessions s !! src = None → inner (udp_pool s) !! src = None →
  create (target_addr (metadata a)) = Ok e →
  block && (metadata_port (metadata a) =? 443) = false →
  (∀ d, send d = Ok tt) →
  let to pt := mkSent (ep_socket e) pt (send_to_addr (ep_target e) (ep_is_ipv6 e)) in
  let '(s', sent, r) := handle_non_quic_underlay_packet send create block s (mkPacket src packet) in
  r = Ok tt ∧ sent = Some (to pt) ∧
  auth (in_flight s') !! salt = None ∧
  target <$> sessions s' !! src = Some (target_addr (metadata a)) ∧
  relays s' = <[next_task s := src]> (relays s) ∧
  ∀ pt' packet', pt' ≠ [] → encrypt_udp (psk a) pt' salt = Ok packet' →
    packet_loop_step send n s' (mkPacket src packet') = (s', LForwarded (to pt')).
Proof.
  intros Hk Hs Hpt He Ha Hsess Hpool Hc Hb Hsend to.
  destruct (verify_packet_encrypted a salt pt packet Hk Hs Hpt He) as (c & Hv & Ht & Hl & Hlater).
  rewrite (handle_new_claimed send create block s (mkPacket src packet) a ts c (salt ++ pt));
    cbn [payload peer]; rewrite ?Ht; [|done..].
  cbn zeta. rewrite Hb. cbn [udp_pool]. unfold get_or_create_now. rewrite Hpool, Hc. cbn zeta iota.
  rewrite Hsend, forward_plain by done. cbn [sessions udp_pool in_flight relays next_task auth].
  split_and!; [done|done|apply lookup_delete_eq|by rewrite lookup_insert_eq|done|].
  intros pt' packet' Hpt' He'. destruct (Hlater pt' packet' Hpt' He') as [Hd Hl'].
  unfold packet_loop_step. cbn [payload peer sessions udp_pool].
  destruct (Nat.ltb_spec (length packet') UNDERLAY_SALT_LEN); [lia|].
  rewrite lookup_insert_eq. unfold get_socket. cbn [inner]. rewrite lookup_insert_eq. cbn [cipher fmap option_fmap option_map].
  by rewrite Hd, Hsend, forward_plain.
Qed.

(** While a session and its endpoint are alive, a packet sealed under a
    newly stored authentication for the same peer is dropped, and dropped again
    by the handler, and the authentication stays unused: a re-key takes effect
    only after the session is gone. *)
Theorem rekey_dropped_while_session_lives send create block n s src session e a ts packet err :
  (UNDERLAY_SALT_LEN ≤ length packet)%nat →
  sessions s !! src = Some session → inner (udp_pool s) !! src = Some e →
  auth (in_flight s) !! take UNDERLAY_SALT_LEN packet = Some (a, ts) →
  is_Some (verify_packet (take UNDERLAY_SALT_LEN packet) packet a) →
  (decrypt_in_place (cipher session) packet).2 = Err err →
  packet_loop_step send n s (mkPacket src packet) = (s, LUndecryptable) ∧
  handle_non_quic_underlay_packet send create block s (mkPacket src packet) = (s, None, Ok tt).
Proof.
  intros Hl Hs Hp _ _ Hd.
  unfold packet_loop_step, handle_non_quic_underlay_packet, handle_existing_session. cbn [payload peer].
  destruct (Nat.ltb_spec (length packet) UNDERLAY_SALT_LEN); [lia|].
  rewrite Hs. unfold get_socket. rewrite Hp. cbn [fmap option_fmap option_map].
  destruct (decrypt_in_place (cipher session) packet) as [plain r]. cbn in Hd. by subst.
Qed.

(** When the pooled endpoint of a live session is gone, a valid packet
    creates a new endpoint and is sent from it, but no relay task is started for
    the new socket, so its responses are read by nobody. *)
Theorem recreated_endpoint_has_no_relay send create block s src session plain packet e :
  (UNDERLAY_SALT_LEN ≤ length packet)%nat →
  sessions s !! src = Some session → inner (udp_pool s) !! src = None →
  decrypt_in_place (cipher session) packet = (plain, Ok tt) →
  create (target session) = Ok e → (∀ d, send d = Ok tt) →
  let '(s', sent, r) := handle_non_quic_underlay_packet send create block s (mkPacket src packet) in
  r = Ok tt ∧ sent = Some (forward (from_endpoint e) plain) ∧
  inner (udp_pool s') = <[src := e]> (inner (udp_pool s)) ∧
  sessions s' = sessions s ∧ relays s' = relays s ∧ next_task s' = next_task s.
Proof.
  intros Hl Hs Hp Hd Hc Hsend.
  unfold handle_non_quic_underlay_packet, handle_existing_session. cbn [payload peer].
  destruct (Nat.ltb_spec (length packet) UNDERLAY_SALT_LEN); [lia|].
  rewrite Hs, Hd. unfold get_socket. rewrite Hp. cbn [fmap option_fmap option_map].
  unfold get_or_create_now. rewrite Hp, Hc. cbn. by rewrite Hsend.
Qed.

(** With UDP/443 disabled, a first packet whose authentication names port
    443 opens no endpoint, no session and no relay task and sends nothing; the
    authentication is spent. *)
Theorem udp_443_blocked send create s src a ts salt pt packet :
  length (psk a) = KEY_LEN → length salt = SALT_LEN → pt ≠ [] →
  encrypt_udp (psk a) pt salt = Ok packet →
  auth (in_flight s) !! salt = Some (a, ts) → sessions s !! src = None →
  metadata_port (metadata a) = 443 →
  let '(s', sent, r) := handle_non_quic_underlay_packet send create true s (mkPacket src packet) in
  r = Ok tt ∧ sent = None ∧ sessions s' = sessions s ∧ udp_pool s' = udp_pool s ∧
  relays s' = relays s ∧ auth (in_flight s') = delete salt (auth (in_flight s)).
Proof.
  intros Hk Hs Hpt He Ha Hsess Hport.
  destruct (verify_packet_encrypted a salt pt packet Hk Hs Hpt He) as (c & Hv & Ht & Hl & _).
  rewrite (handle_new_claimed send create true s (mkPacket src packet) a ts c (salt ++ pt));
    cbn [payload peer]; rewrite ?Ht; [|done..].
  cbn zeta. rewrite Hport. done.
Qed.

(** ** Responses *)
Lemma generate_salt_batch_salts rng :
  length rng = (BATCH_SIZE * 30)%nat →
  length (generate_salt_batch rng) = BATCH_SIZE ∧
  Forall (λ salt, ∃ rand, salt = generate_underlay_salt rand ∧ length salt = SALT_LEN)
    (generate_salt_batch rng).
Proof.
  intros Hr. unfold generate_salt_batch. split; [by rewrite length_fmap, length_seq|].
  apply Forall_fmap, Forall_forall. intros i Hi%elem_of_seq. cbv beta.
  exists (take 30 (drop (i * 30) rng)). split; [done|].
  rewrite length_app, length_take, length_drop, Hr. unfold BATCH_SIZE, SALT_LEN in *. cbn [length]. lia.
Qed.

Definition good_salt (salt : str) : Prop := ∃ rand, salt = generate_underlay_salt rand ∧ length salt = SALT_LEN.

(** A response as the client must be able to read it. *)
Definition readable (c : UnderlayCipher) (packet data : str) : Prop :=
  is_probably_quic_packet packet = false ∧
  (data ≠ [] → ∃ salt, length salt = SALT_LEN ∧ decrypt_in_place c packet = (salt ++ data, Ok tt)).

(** The receives that arrive one after the other within the idle timeout. *)
Fixpoint in_time (deadline : Z) (events : list (Z * result str)) : list str :=
  match events with
  | (t, Ok data) :: events => if deadline <? t then [] else data :: in_time (t + DEFAULT_NAT_TIMEOUT) events
  | _ => []
  end.

Lemma encrypt_response c salt data packet :
  good_salt salt → encrypt_in_place c (replicate SALT_LEN x00 ++ data) salt = Some (packet, Ok tt) →
  readable c packet data.
Proof.
  intros (rand & -> & Hl) He. split.
  - revert He. unfold encrypt_in_place. case_match; [done|].
    destruct (chacha_encrypt_detached _ _) as [[ct tag]|]; [|done]. by intros [= <-].
  - intros Hd. exists (generate_underlay_salt rand).
    split; [done|]. eapply encrypt_decrypt_in_place; [|done..]. by rewrite length_replicate.
Qed.

Lemma encrypt_in_place_total c salt data :
  (∀ pt, is_Some (chacha_encrypt_detached (cipher_key c) pt)) →
  ∃ packet, encrypt_in_place c (replicate SALT_LEN x00 ++ data) salt = Some (packet, Ok tt).
Proof.
  intros Hc. unfold encrypt_in_place.
  destruct (Nat.ltb_spec (length (replicate SALT_LEN x00 ++ data)) SALT_LEN) as [Hlt|_].
  { rewrite length_app, length_replicate in Hlt. lia. }
  destruct (Hc (drop SALT_LEN (replicate SALT_LEN x00 ++ data))) as [[ct tag] ->]. eauto.
Qed.

Lemma relay_back_spec c deliver deadline salt_pool rngs events :
  Forall good_salt salt_pool → Forall (λ rng, length rng = (BATCH_SIZE * 30)%nat) rngs →
  (∃ k, Forall2 (readable c) (relay_back c deliver deadline salt_pool rngs events)
          (take k (in_time deadline events))) ∧
  ((∀ pt, is_Some (chacha_encrypt_detached (cipher_key c) pt)) → (∀ packet, deliver packet = Ok tt) →
   (length events ≤ length salt_pool + BATCH_SIZE * length rngs)%nat →
   length (relay_back c deliver deadline salt_pool rngs events) = length (in_time deadline events)).
Proof.
  revert deadline salt_pool rngs. induction events as [|[t r] events IH]; intros deadline salt_pool rngs Hp Hr.
  { split; [by exists O|done]. }
  cbn [relay_back in_time]. destruct r as [data|e]; [|case_match; (split; [by exists O|done])].
  destruct (Z.ltb_spec deadline t); [split; [by exists O|done]|].
  set (refilled := match salt_pool, rngs with
                   | [], rng :: rngs => (generate_salt_batch rng, rngs)
                   | _, _ => (salt_pool, rngs) end).
  assert (Forall good_salt refilled.1 ∧ Forall (λ rng, length rng = (BATCH_SIZE * 30)%nat) refilled.2 ∧
          length refilled.1 + BATCH_SIZE * length refilled.2 = length salt_pool + BATCH_SIZE * length rngs ∧
          (refilled.1 = [] → rngs = [] ∧ salt_pool = []))%nat as (Hp' & Hr' & Hlen & Hnil).
  { subst refilled. destruct salt_pool as [|? ?]; [|done]. destruct rngs as [|rng rngs]; [done|].
    apply Forall_cons in Hr as [Hr1 Hr2]. destruct (generate_salt_batch_salts rng Hr1) as [Hl HF].
    cbn [fst snd length]. split_and!; [done|done|rewrite Hl; lia|].
    intros E. rewrite E in Hl. done. }
  destruct refilled as [salts rngs'] eqn:E. cbn [fst snd] in *.
  destruct (last salts) as [salt|] eqn:El.
  2: { split; [by exists O|]. intros _ _ Hlt. apply last_None in El as ->. destruct (Hnil eq_refl) as [-> ->].
       cbn in Hlt. lia. }
  apply last_Some in El as [salts' ->]. apply Forall_app in Hp' as [Hp1 [Hsalt _]%Forall_cons].
  replace (length (salts' ++ [salt]) - 1)%nat with (length salts') by (rewrite length_app; cbn; lia).
  rewrite take_app_length. destruct (IH (t + DEFAULT_NAT_TIMEOUT) salts' rngs' Hp1 Hr') as [[k Hk] Hall].
  split.
  - destruct (encrypt_in_place c _ salt) as [[packet [[]|er]]|] eqn:Ee; [|by exists O|by exists O].
    apply encrypt_response in Ee; [|done].
    destruct (deliver packet); [exists (S k)|exists 1%nat]; cbn; (constructor; [done|]); [done|constructor].
  - intros Hc Hd Hlt. destruct (encrypt_in_place_total c salt data Hc) as [packet ->]. rewrite Hd.
    cbn [length]. f_equal. apply Hall; [done|done|].
    rewrite length_app in Hlen. cbn [length] in Hlen, Hlt. unfold BATCH_SIZE in *. lia.
Qed.

(** The relay task sends back a prefix of the datagrams that arrive within
    the idle timeout, in order; each is a packet the demultiplexer of the peer
    does not take for QUIC and the session cipher opens to the datagram.  While
    encryption and sending succeed it sends all of them, however many batches of
    64 salts that takes. *)
Theorem relay_back_readable c deliver rng rngs events :
  Forall (λ rng, length rng = (BATCH_SIZE * 30)%nat) (rng :: rngs) →
  let sent := relay_back c deliver DEFAULT_NAT_TIMEOUT (generate_salt_batch rng) rngs events in
  (∃ k, Forall2 (readable c) sent (take k (in_time DEFAULT_NAT_TIMEOUT events))) ∧
  ((∀ pt, is_Some (chacha_encrypt_detached (cipher_key c) pt)) → (∀ packet, deliver packet = Ok tt) →
   (length events ≤ BATCH_SIZE * S (length rngs))%nat →
   Forall2 (readable c) sent (in_time DEFAULT_NAT_TIMEOUT events)).
Proof.
  intros [Hr Hrs]%Forall_cons sent. destruct (generate_salt_batch_salts rng Hr) as [Hl Hsalts].
  destruct (relay_back_spec c deliver DEFAULT_NAT_TIMEOUT (generate_salt_batch rng) rngs events Hsalts Hrs)
    as [[k Hk] Hall]. split; [by exists k|]. intros Hc Hd Hlt.
  specialize (Hall Hc Hd ltac:(rewrite Hl; lia)). fold sent in Hk, Hall.
  apply Forall2_length in Hk as Hlen. rewrite length_take in Hlen.
  rewrite take_ge in Hk by lia. done.
Qed.
End sessions.

(** ** Concrete runs, with the toy cipher *)
Module Witness.
#[local] Existing Instances Crypto.Toy.hkdf Crypto.Toy.chacha Crypto.Toy.hkdf_laws Crypto.Toy.chacha_laws.

Definition meta (port : Z) : ProxyMetadata := mkProxyMetadata Udp (B "1.2.3.4") port Uuid_nil.
Definition stored (key : byte) (port : Z) : UnderlayAuth :=
  mkUnderlayAuth (replicate 32 x00) (replicate 32 key) (meta port) Uuid_nil.
Definition salt : str := replicate 32 x02.
Definition src : SocketAddr := socket_addr (V4 [x01; x01; x01; x01]) 9.
Definition dest : SocketAddr := socket_addr (V4 [x01; x02; x03; x04]) 53.
Definition endpoint : UdpEndpoint := mkEndpoint 7 dest false (B "1.2.3.4:53").
Definition sealed (key : byte) (pt : str) : str :=
  match encrypt_udp (replicate 32 key) pt salt with Ok p => p | Err _ => [] end.
Definition send (d : Sent) : result unit := Ok tt.
Definition create (t : str) : result UdpEndpoint := Ok endpoint.

(** A server with one authentication stored, and one with a session too. *)
Definition idle (key : byte) (port : Z) : Shared :=
  mkShared ∅ UdpEndpointPool_new (mkState {[salt := (stored key port, 5)]} ∅ 0) ∅ 3.
Definition busy (e : gmap SocketAddr UdpEndpoint) : Shared :=
  mkShared {[src := mkSession (B "1.2.3.4:53") (from_subkey (replicate 32 x01)) None]}
    (mkPool e ∅ ∅ 0) (mkState {[salt := (stored x04 53, 5)]} ∅ 0) ∅ 3.
End Witness.
#[local] Existing Instances Crypto.Toy.hkdf Crypto.Toy.chacha Crypto.Toy.hkdf_laws Crypto.Toy.chacha_laws.

Lemma first_packet_opens_session_witness :
  let to pt := mkSent 7 pt Witness.dest in
  let '(s', sent, r) := handle_non_quic_underlay_packet Witness.send Witness.create false
                          (Witness.idle x01 53) (mkPacket Witness.src (Witness.sealed x01 (B "hi"))) in
  r = Ok tt ∧ sent = Some (to (B "hi")) ∧
  auth (in_flight s') !! Witness.salt = None ∧
  target <$> sessions s' !! Witness.src = Some (B "1.2.3.4:53") ∧
  relays s' = <[3%nat := Witness.src]> ∅ ∧
  ∀ pt' packet', pt' ≠ [] → encrypt_udp (replicate 32 x01) pt' Witness.salt = Ok packet' →
    packet_loop_step Witness.send 0 s' (mkPacket Witness.src packet') = (s', LForwarded (to pt')).
Proof.
  refine (first_packet_opens_session Witness.send Witness.create false 0 (Witness.idle x01 53) Witness.src
            (Witness.stored x01 53) 5 Witness.salt (B "hi") (Witness.sealed x01 (B "hi")) Witness.endpoint
            _ _ _ _ _ _ _ _ _ _); done || by vm_compute.
Defined.

Lemma rekey_dropped_while_session_lives_witness :
  let s := Witness.busy {[Witness.src := Witness.endpoint]} in
  let packet := Witness.sealed x04 (B "hi") in
  packet_loop_step Witness.send 9 s (mkPacket Witness.src packet) = (s, LUndecryptable) ∧
  handle_non_quic_underlay_packet Witness.send Witness.create false s (mkPacket Witness.src packet) = (s, None, Ok tt).
Proof.
  refine (rekey_dropped_while_session_lives Witness.send Witness.create false 9
            (Witness.busy {[Witness.src := Witness.endpoint]}) Witness.src
            (mkSession (B "1.2.3.4:53") (from_subkey (replicate 32 x01)) None) Witness.endpoint
            (Witness.stored x04 53) 5 (Witness.sealed x04 (B "hi")) (EMsg (B "underlay decrypt failed")) _ _ _ _ _ _);
    try (by vm_compute); vm_compute; [lia|by eexists].
Defined.

Lemma recreated_endpoint_has_no_relay_witness :
  let s := Witness.busy ∅ in
  let packet := Witness.sealed x01 (B "hi") in
  let '(s', sent, r) := handle_non_quic_underlay_packet Witness.send Witness.create false s (mkPacket Witness.src packet) in
  r = Ok tt ∧ sent = Some (forward (from_endpoint Witness.endpoint) (Witness.salt ++ B "hi")) ∧
  inner (udp_pool s') = <[Witness.src := Witness.endpoint]> (inner (udp_pool s)) ∧
  sessions s' = sessions s ∧ relays s' = relays s ∧ next_task s' = next_task s.
Proof.
  refine (recreated_endpoint_has_no_relay Witness.send Witness.create false (Witness.busy ∅) Witness.src
            (mkSession (B "1.2.3.4:53") (from_subkey (replicate 32 x01)) None) (Witness.salt ++ B "hi")
            (Witness.sealed x01 (B "hi")) Witness.endpoint _ _ _ _ _ _); done || (vm_compute; (done || lia)).
Defined.

Lemma udp_443_blocked_witness :
  let '(s', sent, r) := handle_non_quic_underlay_packet Witness.send Witness.create true
                          (Witness.idle x01 443) (mkPacket Witness.src (Witness.sealed x01 (B "hi"))) in
  r = Ok tt ∧ sent = None ∧ sessions s' = ∅ ∧ udp_pool s' = UdpEndpointPool_new ∧
  relays s' = ∅ ∧ auth (in_flight s') = delete Witness.salt (auth (in_flight (Witness.idle x01 443))).
Proof.
  refine (udp_443_blocked Witness.send Witness.create (Witness.idle x01 443) Witness.src
            (Witness.stored x01 443) 5 Witness.salt (B "hi") (Witness.sealed x01 (B "hi"))
            _ _ _ _ _ _ _); done || by vm_compute.
Defined.

Lemma relay_back_readable_witness :
  let c := from_subkey (replicate 32 x01) in
  let rng := replicate (BATCH_SIZE * 30) xff in
  let events := [(10, Ok (B "a")); (20, Ok (B "b"))] in
  let sent := relay_back c (λ _, Ok tt) DEFAULT_NAT_TIMEOUT (generate_salt_batch rng) [] events in
  (∃ k, Forall2 (readable c) sent (take k (in_time DEFAULT_NAT_TIMEOUT events))) ∧
  ((∀ pt, is_Some (chacha_encrypt_detached (cipher_key c) pt)) → (∀ packet : str, Ok tt = Ok tt) →
   (length events ≤ BATCH_SIZE * S (length (@nil str)))%nat →
   Forall2 (readable c) sent (in_time DEFAULT_NAT_TIMEOUT events)).
Proof.
  intros c rng events. apply (relay_back_readable c (λ _, Ok tt) rng [] events).
  constructor; [by vm_compute|constructor].
Defined.
