(* ===== verification/Conn.v ===== *)
(** * [server/src/server.rs]: QUIC connections and their streams

    Authentication on the first unidirectional stream, the task that reads
    underlay authentications from the rest of that stream, and the accept loop
    of a connection, as a machine driven by arriving bytes, by the clock and by
    what the QUIC library reports; the dispatch of one stream and its TCP
    relay. *)
From S2P Require Import Prelude Std Consts Net Protocol TcpRelay.
#[local] Open Scope Z_scope.

Section connection.
(** The users of the server, the TLS exporter of the connection, and the
    [uuid] crate's text form of a UUID. *)
Context (users : gmap Uuid str) (export_keying_material : str → str → result str) (show_uuid : Uuid → str).

(** ** Authentication *)

(** [handle_auth] after [accept_uni], as a reader of that stream. *)
Definition handle_auth : reader Uuid :=
  '(version, cmd_type) ← read_command_head_async;
  _ ← lift (ensure (bool_decide (version = PROTOCOL_VERSION))
              (EMsg (B "unsupported protocol version: " ++ show_dec (u8 version))));
  _ ← lift (ensure (bool_decide (cmd_type = AUTHENTICATE_TYPE))
              (EMsg (B "expected authenticate command, got: " ++ show_dec (u8 cmd_type))));
  '(uuid, received_token) ← read_authenticate_async;
  password ← lift (ok_or (users !! uuid) (EMsg (B "unknown user: " ++ show_uuid uuid)));
  expected_token ← lift (gen_token_via_connection export_keying_material uuid password);
  if decide (expected_token = received_token) then mret uuid
  else fail (EMsg (B "token mismatch for user " ++ show_uuid uuid)).

(** The messages that are complete in [buf], what is left of it, and why
    reading stopped.  A message has at least 65 bytes, so [length buf] rounds
    are enough. *)
Fixpoint drain (fuel : nat) (buf : str) : list UnderlayAuth * str * error :=
  match read_underlay_auth_async buf with
  | Err e => ([], buf, e)
  | Ok (a, rest) =>
      match fuel with
      | O => ([], buf, EUnexpectedEof)
      | S fuel => let '(l, rest, e) := drain fuel rest in (a :: l, rest, e)
      end
  end.

(** ** The connection

    [uni] holds the bytes of the first unidirectional stream that are not yet
    read, once it is accepted, and how the stream ended; [stored] are the calls
    of [in_flight.store], each under its [iv]; [streams] are the running stream
    tasks.  [heard] is ghost: all bytes of the unidirectional stream. *)
Inductive Phase :=
  | PHandshake
  | PAuth (deadline : Z)
  | PServe (user : Uuid) (reader_alive : bool) (streams : list nat)
  | PEnd (r : result unit).

Record Conn := mkConn {
  now : Z;
  phase : Phase;
  uni : option (str * option error);
  stored : list UnderlayAuth;
  next_stream : nat;
  close_code : option (Z * str);
  heard : str;
}.

Definition Conn_new (t : Z) : Conn := mkConn t PHandshake None [] 0 None [].

Inductive Label :=
  | LTick (d : N)
  | LHandshake (r : result unit)
  | LAcceptUni (r : result unit)
  | LData (bs : str)
  | LUniEnd (e : error)
  | LAuthTimer
  | LBi
  | LStreamDone (i : nat)
  | LClosed.

Definition set_phase (p : Phase) (c : Conn) : Conn :=
  mkConn (now c) p (uni c) (stored c) (next_stream c) (close_code c) (heard c).

Definition fail_auth (e : error) (c : Conn) : Conn :=
  mkConn (now c) (PEnd (Err e)) None (stored c) (next_stream c)
    (Some (0xfffffff1, B "authentication failed")) (heard c).

(** The reader task, after bytes arrived or the stream ended. *)
Definition read_auths_step (c : Conn) : Conn :=
  match phase c, uni c with
  | PServe user true streams, Some (buf, ended) =>
      let '(l, rest, e) := drain (length buf) buf in
      let alive := bool_decide (e = EUnexpectedEof) && bool_decide (ended = None) in
      mkConn (now c) (PServe user alive streams) (Some (rest, ended)) (stored c ++ l)
        (next_stream c) (close_code c) (heard c)
  | _, _ => c
  end.

(** The authentication, at the same moments: it waits while its input is
    incomplete and the stream is open. *)
Definition auth_step (c : Conn) : Conn :=
  match phase c, uni c with
  | PAuth _, Some (buf, ended) =>
      match handle_auth buf with
      | Ok (user, rest) =>
          read_auths_step (mkConn (now c) (PServe user true []) (Some (rest, ended)) (stored c)
                             (next_stream c) (close_code c) (heard c))
      | Err e =>
          if decide (e = EUnexpectedEof) then
            match ended with Some e => fail_auth e c | None => c end
          else fail_auth e c
      end
  | _, _ => read_auths_step c
  end.

(** [tokio::time::timeout] polls the authentication before the clock, so the
    timer fires only for one that is still incomplete. *)
Definition conn_step (c : Conn) (l : Label) : Conn :=
  match l, phase c with
  | _, PEnd _ => c
  | LTick d, _ =>
      mkConn (now c + Z.of_N d) (phase c) (uni c) (stored c) (next_stream c) (close_code c) (heard c)
  | LHandshake (Ok _), PHandshake => set_phase (PAuth (now c + AUTHENTICATE_TIMEOUT)) c
  | LHandshake (Err e), PHandshake => set_phase (PEnd (Err e)) c
  | LAcceptUni r, PAuth _ =>
      match uni c, r with
      | None, Ok _ => mkConn (now c) (phase c) (Some ([], None)) (stored c) (next_stream c) (close_code c) (heard c)
      | None, Err e => fail_auth e c
      | Some _, _ => c
      end
  | LData bs, _ =>
      match uni c with
      | Some (buf, None) =>
          auth_step (mkConn (now c) (phase c) (Some (buf ++ bs, None)) (stored c) (next_stream c)
                       (close_code c) (heard c ++ bs))
      | _ => c
      end
  | LUniEnd e, _ =>
      match uni c with
      | Some (buf, None) =>
          auth_step (mkConn (now c) (phase c) (Some (buf, Some e)) (stored c) (next_stream c)
                       (close_code c) (heard c))
      | _ => c
      end
  | LAuthTimer, PAuth deadline =>
      if deadline <=? now c then
        mkConn (now c) (PEnd (Err (EMsg (B "auth timeout")))) None (stored c) (next_stream c)
          (Some (0xfffffff2, B "authentication timeout")) (heard c)
      else c
  | LBi, PServe user alive streams =>
      mkConn (now c) (PServe user alive (next_stream c :: streams)) (uni c) (stored c)
        (S (next_stream c)) (close_code c) (heard c)
  | LStreamDone i, PServe user alive streams => set_phase (PServe user alive (filter (λ j, j ≠ i) streams)) c
  | LClosed, PServe _ _ _ => set_phase (PEnd (Ok tt)) c
  | _, _ => c
  end.

Definition handle_connection (t : Z) (ls : list Label) : Conn := foldl conn_step (Conn_new t) ls.
End connection.

(** ** Streams *)

(** The relays a stream is given to are arguments. *)
Definition handle_stream {A} (handle_tcp_relay : str → str → result A) (handle_udp_relay : str → result A)
    (recv_stream : str) : result A :=
  '((network, hostname, port), recv_stream) ← read_proxy_header_async recv_stream;
  let target := hostname ++ B ":" ++ show_dec port in
  if decide (network = NETWORK_TCP) then handle_tcp_relay target recv_stream
  else if decide (network = NETWORK_UDP) then handle_udp_relay recv_stream
  else Err (EMsg (B "unknown network type: " ++ show_dec (u8 network))).

(** [None] while the relay runs. *)
Definition handle_tcp_relay (linux : bool) (try_op : SocketOp → result unit) (d : Dialer) (target : str)
    (events : list RelayLabel) : option (result unit) :=
  match dial_tcp linux try_op d target with
  | Err e => Some (Err e)
  | Ok _ => outcome (relay (TCP_RELAY_IDLE_TIMEOUT * 1000) events)
  end.

(** ** Authentication reads *)
Section lemmas.
Context (users : gmap Uuid str) (export : str → str → result str) (show_uuid : Uuid → str).
Local Abbreviation handle_auth := (handle_auth users export show_uuid).
Local Abbreviation conn_step := (conn_step users export show_uuid).
Local Abbreviation auth_step := (auth_step users export show_uuid).

(** The opening bytes of an authenticated connection. *)
Definition authentic (user : Uuid) (opening : str) : Prop :=
  ∃ password token, opening = [PROTOCOL_VERSION; AUTHENTICATE_TYPE] ++ user ++ token ∧
    length user = 16%nat ∧ length token = 32%nat ∧
    users !! user = Some password ∧ export user password = Ok token.

Lemma read_head_inv s v c r : read_command_head_async s = Ok ((v, c), r) → s = v :: c :: r.
Proof. destruct s as [|x [|y s]]; try done. by intros [= -> -> ->]. Qed.

Lemma read_authenticate_inv s u t r :
  read_authenticate_async s = Ok ((u, t), r) → s = u ++ t ++ r ∧ length u = 16%nat ∧ length t = 32%nat.
Proof.
  unfold read_authenticate_async, read_authenticate, mbind, reader_bind, mret, reader_ret.
  destruct (read_exact 16 s) as [[u' s']|] eqn:E1; [|done]. apply read_exact_ok in E1 as [-> ?].
  destruct (read_exact 32 s') as [[t' r']|] eqn:E2; [|done]. apply read_exact_ok in E2 as [-> ?].
  by intros [= -> -> ->].
Qed.

Lemma handle_auth_ok s user r :
  handle_auth s = Ok (user, r) ↔ ∃ opening, authentic user opening ∧ s = opening ++ r.
Proof.
  split.
  - unfold Conn.handle_auth, mbind at 1, reader_bind at 1.
    destruct (read_command_head_async s) as [[[v c] s1]|] eqn:E1; [|done].
    apply read_head_inv in E1 as ->. unfold mbind, reader_bind, lift, ensure, gen_token_via_connection.
    case_bool_decide; [subst v|done]. case_bool_decide; [subst c|done].
    destruct (read_authenticate_async s1) as [[[u t] s2]|] eqn:E2; [|done].
    apply read_authenticate_inv in E2 as (-> & Hu & Ht).
    destruct (users !! u) as [pw|] eqn:Eu; [|done]. cbn [ok_or].
    destruct (export u pw) as [t'|] eqn:Et; [|done]. case_decide; [|done]. subst t'.
    intros [= -> ->]. exists ([PROTOCOL_VERSION; AUTHENTICATE_TYPE] ++ user ++ t).
    split; [exists pw, t; done|]. by rewrite <-!app_assoc.
  - intros (opening & (pw & t & -> & Hu & Ht & Eu & Et) & ->). unfold Conn.handle_auth.
    rewrite <-!app_assoc. cbn [app].
    rewrite (bind_ok _ read_command_head_async _ (PROTOCOL_VERSION, AUTHENTICATE_TYPE) (user ++ t ++ r)) by done.
    rewrite !bool_decide_true by done. unfold mbind, reader_bind, lift, ensure, gen_token_via_connection.
    unfold read_authenticate_async, read_authenticate, mbind, reader_bind.
    rewrite !read_exact_app by done. unfold mret, reader_ret. rewrite Eu. cbn [ok_or]. rewrite Et.
    by rewrite decide_True.
Qed.

Lemma incremental_handle_auth : incremental handle_auth.
Proof. unfold Conn.handle_auth. solve_incremental. Qed.

(** ** Draining *)
Lemma read_underlay_auth_shorter buf a r :
  read_underlay_auth_async buf = Ok (a, r) → (length r < length buf)%nat.
Proof.
  unfold read_underlay_auth_async. unfold mbind at 1, reader_bind at 1.
  destruct (read_exact 32 buf) as [[iv s]|] eqn:E; [|done]. apply read_exact_ok in E as [-> Hiv].
  match goal with |- ?m s = _ → _ => assert (incremental m) as Hm end.
  { unfold read_underlay_metadata_async. solve_incremental. }
  intros E. specialize (Hm s []). rewrite E in Hm. destruct Hm as [Hm%suffix_length _].
  rewrite length_app. lia.
Qed.

Lemma drain_spec fuel buf l rest e :
  drain fuel buf = (l, rest, e) → (length buf ≤ fuel)%nat →
  read_auths (length l) buf = Ok (l, rest) ∧ read_underlay_auth_async rest = Err e.
Proof.
  revert buf l rest e. induction fuel as [|fuel IH]; intros buf l rest e; cbn [drain].
  - destruct buf; simpl; [|lia]. by intros [= <- <- <-] _.
  - destruct (read_underlay_auth_async buf) as [[a r]|e'] eqn:E; [|by intros [= <- <- <-] _].
    destruct (drain fuel r) as [[l' r'] e''] eqn:Ed. intros [= <- <- <-] Hl.
    assert (length r < length buf)%nat.
    { by eapply read_underlay_auth_shorter. }
    destruct (IH _ _ _ _ Ed ltac:(lia)) as [Hr He]. split; [|done].
    cbn [length read_auths]. rewrite (bind_ok _ _ _ _ _ E). by rewrite (bind_ok _ _ _ _ _ Hr).
Qed.

(** ** Reading a sequence of messages *)
Lemma incremental_read_auths n : incremental (read_auths n).
Proof. induction n; cbn [read_auths]; solve_incremental. Qed.

Lemma read_auths_length n s l r : read_auths n s = Ok (l, r) → length l = n.
Proof.
  revert s l. induction n as [|n IH]; cbn [read_auths]; intros s l; [by intros [= <- _]|].
  unfold mbind, reader_bind, mret, reader_ret. destruct (read_underlay_auth_async s) as [[a s']|]; [|done].
  destruct (read_auths n s') as [[l' r']|] eqn:E; [|done]. intros [= <- <-]. simpl. by rewrite (IH _ _ E).
Qed.

Lemma read_auths_app n m s l r l' r' :
  read_auths n s = Ok (l, r) → read_auths m r = Ok (l', r') → read_auths (n + m) s = Ok (l ++ l', r').
Proof.
  revert s l. induction n as [|n IH]; cbn [read_auths Nat.add]; intros s l; [by intros [= <- ->]|].
  unfold mbind, reader_bind, mret, reader_ret. destruct (read_underlay_auth_async s) as [[a s']|]; [|done].
  destruct (read_auths n s') as [[l1 r1]|] eqn:E; [|done]. intros [= <- <-] Hm. by rewrite (IH _ _ E Hm).
Qed.

Lemma read_auths_extend n s l r t : read_auths n s = Ok (l, r) → read_auths n (s ++ t) = Ok (l, r ++ t).
Proof. intros E. pose proof (incremental_read_auths n s t) as H. rewrite E in H. apply H. Qed.

(** Reading until no message is left has one result. *)
Lemma read_auths_maximal n m s l r l' r' e e' :
  read_auths n s = Ok (l, r) → read_underlay_auth_async r = Err e →
  read_auths m s = Ok (l', r') → read_underlay_auth_async r' = Err e' → l = l' ∧ r = r'.
Proof.
  revert m s l l'. induction n as [|n IH]; intros [|m] s l l'; cbn [read_auths];
    unfold mbind, reader_bind, mret, reader_ret.
  - by intros [= <- <-] _ [= <- <-].
  - intros [= <- <-] Hs. by rewrite Hs.
  - intros H1 _ [= <- <-] Hs. by rewrite Hs in H1.
  - destruct (read_underlay_auth_async s) as [[a s']|]; [|done].
    destruct (read_auths n s') as [[l1 r1]|] eqn:E1; [|done]. intros [= <- <-] He.
    destruct (read_auths m s') as [[l2 r2]|] eqn:E2; [|done]. intros [= <- <-] He'.
    by destruct (IH _ _ _ _ E1 He E2 He') as [-> ->].
Qed.

(** ** The invariant *)

(** The bytes heard begin with a good authentication, and what is stored was
    read from the bytes after it. *)
Definition served (user : Uuid) (h : str) (l : list UnderlayAuth) (r : str) : Prop :=
  ∃ opening tail, authentic user opening ∧ h = opening ++ tail ∧ read_auths (length l) tail = Ok (l, r).

Definition conn_ok (c : Conn) : Prop :=
  match phase c with
  | PHandshake => uni c = None ∧ stored c = [] ∧ next_stream c = O ∧ heard c = [] ∧ close_code c = None
  | PAuth deadline =>
      stored c = [] ∧ next_stream c = O ∧ close_code c = None ∧
      match uni c with
      | None => heard c = []
      | Some (buf, ended) => heard c = buf ∧ handle_auth buf = Err EUnexpectedEof ∧ ended = None
      end
  | PServe user alive streams =>
      close_code c = None ∧
      ∃ buf ended r e, uni c = Some (buf, ended) ∧ served user (heard c) (stored c) r ∧
        read_underlay_auth_async r = Err e ∧ (alive = true → r = buf ∧ e = EUnexpectedEof) ∧
        (alive = false → is_Some ended ∨ e ≠ EUnexpectedEof)
  | PEnd _ => stored c = [] ∧ next_stream c = O ∨ ∃ user r, served user (heard c) (stored c) r
  end.

Lemma served_extend user h l r bs : served user h l r → served user (h ++ bs) l (r ++ bs).
Proof.
  intros (opening & tail & Ha & -> & Hr). exists opening, (tail ++ bs).
  split_and!; [done|by rewrite app_assoc|by apply read_auths_extend].
Qed.

(** The reader task's step restores the invariant when bytes have been added. *)
Lemma read_auths_step_ok c user alive streams buf ended r :
  phase c = PServe user alive streams → close_code c = None → uni c = Some (buf, ended) →
  served user (heard c) (stored c) r → (alive = true → r = buf) →
  (alive = false → ∃ e, read_underlay_auth_async r = Err e ∧ (is_Some ended ∨ e ≠ EUnexpectedEof)) →
  conn_ok (read_auths_step c).
Proof.
  intros Hp Hc Hu Hs Hr Hdead. unfold read_auths_step. rewrite Hp, Hu. destruct alive; [|].
  - specialize (Hr eq_refl) as ->. destruct (drain (length buf) buf) as [[l rest] e] eqn:Ed.
    apply drain_spec in Ed as [Hl He]; [|done]. unfold conn_ok; cbn [phase uni stored heard close_code].
    split; [done|]. exists rest, ended, rest, e. split_and!; [done| |done| |].
    + destruct Hs as (opening & tail & Ha & Hh & Hrd). exists opening, tail. split_and!; [done..|].
      rewrite length_app. by eapply read_auths_app.
    + by intros [He1%bool_decide_eq_true Hn%bool_decide_eq_true]%andb_prop.
    + intros [He1%bool_decide_eq_false|Hn%bool_decide_eq_false]%andb_false_iff; [by right|].
      left. by apply not_eq_None_Some.
  - destruct (Hdead eq_refl) as (e & He & Hn). unfold conn_ok. rewrite Hp. split; [done|].
    exists buf, ended, r, e. split_and!; done.
Qed.

Lemma auth_step_ok c buf ended :
  match phase c with
  | PAuth _ => stored c = [] ∧ next_stream c = O ∧ close_code c = None ∧ heard c = buf
  | PServe user alive _ => close_code c = None ∧ ∃ r, served user (heard c) (stored c) r ∧ (alive = true → r = buf) ∧
      (alive = false → ∃ e, read_underlay_auth_async r = Err e ∧ (is_Some ended ∨ e ≠ EUnexpectedEof))
  | _ => False
  end → uni c = Some (buf, ended) → conn_ok (auth_step c).
Proof.
  intros H Hu. unfold Conn.auth_step. destruct (phase c) as [|d|user alive streams|] eqn:Ep; [done| | |done].
  - destruct H as (Hs & Hn & Hc & Hh). rewrite Hu.
    destruct (handle_auth buf) as [[user rest]|e] eqn:Ea.
    + apply handle_auth_ok in Ea as (opening & Ha & ->).
      eapply (read_auths_step_ok _ user true [] rest ended rest); try done.
      cbn [heard stored]. rewrite Hs. by exists opening, rest.
    + case_decide; [subst e; destruct ended|].
      * left. done.
      * unfold conn_ok. rewrite Ep, Hu. done.
      * left. done.
  - destruct H as (Hc & r & Hs & Hr & Hd). by eapply read_auths_step_ok.
Qed.

Lemma conn_step_ok c l : conn_ok c → conn_ok (conn_step c l).
Proof.
  intros H. pose proof H as Hok. unfold conn_ok in H. unfold Conn.conn_step.
  destruct (phase c) as [|d|user alive streams|r] eqn:Ep; [| | |by destruct l as [|[]| | | | | | |]].
  - destruct H as (Hu & Hs & Hn & Hh & Hc).
    destruct l as [t|[[]|e]|r|bs|e| | |i|]; rewrite ?Hu; try done; unfold conn_ok; cbn.
    + by rewrite Hu.
    + by left.
  - destruct H as (Hs & Hn & Hc & Hu).
    destruct l as [t|r|r|bs|e| | |i|]; try done.
    + by destruct r.
    + destruct (uni c) as [[buf en]|] eqn:Eu; [done|]. destruct r as [[]|e]; [done|by left].
    + destruct (uni c) as [[buf en]|] eqn:Eu; [|done]. destruct Hu as (Hh & Ha & ->).
      eapply auth_step_ok; [|done]. cbn [phase stored next_stream close_code heard]. by rewrite Hh.
    + destruct (uni c) as [[buf en]|] eqn:Eu; [|done]. destruct Hu as (Hh & Ha & ->).
      eapply auth_step_ok; [|done]. done.
    + destruct (_ <=? _); [by left|done].
  - destruct H as (Hc & buf & ended & r & e0 & Hu & Hs & He & Hlive & Hdead).
    destruct l as [t|r'|r'|bs|e| | |i|]; rewrite ?Hu; try done.
    + split; [done|]. by exists buf, ended, r, e0.
    + by destruct r'.
    + destruct ended as [e|]; [done|].
      eapply auth_step_ok; [|done]. cbn [phase stored close_code heard]. split; [done|].
      exists (r ++ bs). split_and!; [by apply served_extend|by intros [-> _]%Hlive|].
      intros [[]%is_Some_None|Hne]%Hdead. exists e0. split; [|by right].
      pose proof (incremental_read_underlay_auth r bs) as Hi. rewrite He in Hi. by destruct Hi.
    + destruct ended as [e'|]; [done|].
      eapply auth_step_ok; [|done]. cbn [phase stored close_code heard]. split; [done|].
      exists r. split_and!; [done|by intros [-> _]%Hlive|]. intros _. exists e0. split; [done|by left].
    + split; [done|]. by exists buf, ended, r, e0.
    + split; [done|]. by exists buf, ended, r, e0.
    + right. eauto.
Qed.

Lemma conn_run_ok t ls : conn_ok (handle_connection users export show_uuid t ls).
Proof. unfold handle_connection. apply (foldl_invariant _ conn_ok); [intros; by apply conn_step_ok|done]. Qed.

(** ** What a connection does *)
Definition no_service (c : Conn) : Prop :=
  stored c = [] ∧ next_stream c = O ∧ ∀ user alive streams, phase c ≠ PServe user alive streams.

(** C4: a connection stores no underlay authentication, opens no stream and
    serves nobody unless the first bytes of its first unidirectional stream are
    the version, the authenticate command, a configured user and the 32-byte
    token the TLS exporter gives for that user's password; what is stored is
    what the bytes after them encode, in order. *)
Theorem auth_before_service t ls :
  let c := handle_connection users export show_uuid t ls in
  no_service c ∨
  ∃ user r, served user (heard c) (stored c) r ∧
            ∀ user' alive streams, phase c = PServe user' alive streams → user' = user.
Proof.
  intros c. pose proof (conn_run_ok t ls) as H. fold c in H. unfold conn_ok in H. unfold no_service.
  destruct (phase c) as [|d|user alive streams|r].
  - left. naive_solver.
  - left. naive_solver.
  - right. destruct H as (_ & buf & ended & r & e & _ & Hs & _). exists user, r. split; [done|]. by intros ??? [= <- _ _].
  - destruct H as [[? ?]|(user & r' & Hs)]; [left; done|]. right. exists user, r'. done.
Qed.

(** What a connection that has not ended makes of the bytes it heard. *)
Lemma stored_when_heard t ls user opening tail l r e :
  let c := handle_connection users export show_uuid t ls in
  authentic user opening → read_auths (length l) tail = Ok (l, r) → read_underlay_auth_async r = Err e →
  heard c = opening ++ tail → (∀ r, phase c ≠ PEnd r) →
  stored c = l ∧ ∃ alive streams, phase c = PServe user alive streams.
Proof.
  intros c Ha Hread Herr Hh Hend. pose proof (conn_run_ok t ls) as H. fold c in H. unfold conn_ok in H.
  assert (∀ r, handle_auth (opening ++ r) = Ok (user, r)) as Hauth.
  { intros r'. apply handle_auth_ok. by exists opening. }
  destruct (phase c) as [|d|user' alive streams|r']; [| | |by destruct (Hend r')].
  - destruct H as (_ & _ & _ & H0 & _). pose proof (Hauth tail) as E. by rewrite <-Hh, H0 in E.
  - destruct H as (_ & _ & _ & H). pose proof (Hauth tail) as E. rewrite <-Hh in E.
    destruct (uni c) as [[buf ended]|]; [|by rewrite H in E]. destruct H as (<- & He & _). congruence.
  - destruct H as (_ & buf & ended & r' & e' & _ & (opening' & tail' & Ha' & Hh' & Hr) & He & _).
    assert (handle_auth (heard c) = Ok (user', tail')) as E by (apply handle_auth_ok; eauto).
    rewrite Hh, Hauth in E. injection E as -> <-.
    destruct (read_auths_maximal _ _ _ _ _ _ _ e e' Hread Herr Hr He) as [-> _]. eauto.
Qed.

(** C5: in whatever pieces the bytes arrive, and whatever else happens in
    between: once a good authentication and any number of complete underlay
    authentications have been heard on a connection that has not ended, the user
    is served and exactly those authentications have been stored, in order. *)
Theorem auths_stored_as_they_arrive t ls user opening auths :
  let c := handle_connection users export show_uuid t ls in
  authentic user opening → Forall auth_ok auths →
  heard c = opening ++ concat ((λ a, (write_underlay_auth_async a).1) <$> auths) →
  (∀ r, phase c ≠ PEnd r) →
  stored c = received_auth <$> auths ∧ ∃ alive streams, phase c = PServe user alive streams.
Proof.
  intros c Ha Hok Hh Hend. destruct (read_concat_auths auths [] Hok) as [_ Hread]. rewrite app_nil_r in Hread.
  refine (stored_when_heard t ls user opening _ _ [] EUnexpectedEof Ha _ eq_refl Hh Hend). by rewrite length_fmap.
Qed.

(** ** Deadlines *)
Lemma handle_auth_eof s : handle_auth s = Err EUnexpectedEof → (length s < 50)%nat.
Proof.
  intros H. destruct (decide (length s < 50)%nat) as [|Hl]; [done|exfalso]. revert H.
  destruct s as [|v [|c s]]; [simpl in Hl; lia..|]. unfold Conn.handle_auth.
  rewrite (bind_ok _ read_command_head_async _ (v, c) s) by done.
  unfold mbind, reader_bind, lift, ensure, gen_token_via_connection, fail.
  case_bool_decide; [|done]. case_bool_decide; [|done].
  unfold read_authenticate_async, read_authenticate, mbind, reader_bind, read_exact.
  rewrite decide_True by (simpl in Hl; lia).
  rewrite decide_True by (rewrite length_drop; simpl in Hl; lia). unfold mret, reader_ret.
  destruct (users !! _); [|done]. cbn [ok_or]. destruct (export _ _); [|done]. by case_decide.
Qed.

Definition in_time (c : Conn) : Prop := ∀ d, phase c = PAuth d → d <= now c + AUTHENTICATE_TIMEOUT.

Lemma auth_step_in_time c : in_time c → in_time (auth_step c).
Proof.
  unfold in_time, Conn.auth_step, read_auths_step. intros H d. 
  destruct (phase c) as [|d'|user [] streams|] eqn:Ep; destruct (uni c) as [[buf ended]|]; cbn; rewrite ?Ep; try done; [| |].
  - destruct (handle_auth buf) as [[user rest]|e]; cbn; [by destruct (drain _ _) as [[? ?] ?]|].
    case_decide; [destruct ended|]; cbn; rewrite ?Ep; try done. by intros [= <-]; apply H.
  - intros [= <-]; by apply H.
  - by destruct (drain _ _) as [[? ?] ?].
Qed.

Lemma conn_step_in_time c l : in_time c → in_time (conn_step c l).
Proof.
  intros H. assert (∀ c', now c' = now c → phase c' = phase c → in_time c') as Hsame.
  { intros c' Hn Hp d. rewrite Hn, Hp. apply H. }
  assert (∀ c', now c' = now c → phase c' = phase c → in_time (auth_step c')) as Hauth.
  { intros c' Hn Hp. by apply auth_step_in_time, Hsame. }
  unfold Conn.conn_step. destruct (phase c) as [|d|user alive streams|r] eqn:Ep;
    destruct l as [t|[[]|e]|[[]|e]|bs|e| | |i|]; repeat case_match; try (by apply Hsame); try (by apply Hauth);
    intros d'; cbn; rewrite ?Ep; try done.
  all: intros [= <-]; try specialize (H d Ep); lia.
Qed.

(** While the authentication is pending, fewer than the 50 bytes of an
    authentication have been heard and nothing is served, so a complete one is
    answered at once; and the timer that runs out 10 seconds after the
    handshake closes the connection with 0xfffffff2. *)
Theorem auth_deadline t ls deadline delay :
  let c := handle_connection users export show_uuid t ls in
  phase c = PAuth deadline → AUTHENTICATE_TIMEOUT <= Z.of_N delay →
  (length (heard c) < 50)%nat ∧ no_service c ∧
  let c' := foldl conn_step c [LTick delay; LAuthTimer] in
  (∃ e, phase c' = PEnd (Err e)) ∧ close_code c' = Some (0xfffffff2, B "authentication timeout") ∧ no_service c'.
Proof.
  intros c Hp Hd. pose proof (conn_run_ok t ls) as H. fold c in H. unfold conn_ok in H. rewrite Hp in H.
  destruct H as (Hs & Hn & Hc & Hu).
  assert (in_time c) as Ht.
  { unfold c, handle_connection. apply (foldl_invariant _ in_time); [intros; by apply conn_step_in_time|by intros ?]. }
  specialize (Ht _ Hp). split_and!.
  - destruct (uni c) as [[buf ended]|]; [|rewrite Hu; simpl; lia].
    destruct Hu as (-> & He & _). by apply handle_auth_eof.
  - split_and!; [done|done|]. intros ???. by rewrite Hp.
  - cbn [foldl]. unfold Conn.conn_step. rewrite Hp. cbn [phase now].
    destruct (Z.leb_spec deadline (now c + Z.of_N delay)); [|lia]. cbn. split_and!; [by eexists|done|].
    by split_and!.
Qed.
End lemmas.

(** ** Streams and targets *)

(** The proxy header that a client builds for a TCP or UDP target starts
    the relay of that network: a TCP stream is dialled to the canonical host and
    the port, with the bytes after the header left for the relay; any other
    network byte is an error. *)
Theorem stream_dispatch {A} (tcp : str → str → result A) (udp : str → result A) network host port header rest :
  utf8_valid host = true → host ≠ [] → 0 <= port <= u16_max →
  build_proxy_header network host port = Ok header →
  handle_stream tcp udp (header ++ rest) =
    if decide (network = NETWORK_TCP) then tcp (canonical_host host ++ B ":" ++ show_dec port) rest
    else if decide (network = NETWORK_UDP) then udp rest
    else Err (EMsg (B "unknown network type: " ++ show_dec (u8 network))).
Proof.
  intros Hv Hh Hp Hb. unfold handle_stream, read_proxy_header_async.
  rewrite (read_build_proxy_header network host port header rest Hv Hp Hb). result_cbn.
  by destruct host.
Qed.

(** With [send_through] set, a TCP stream whose target is a domain name or
    an IPv6 address fails after its socket has been opened and bound: the dialer
    parses "host:port" as a socket address, which neither of them is. *)
Theorem send_through_needs_ipv4_literal linux try_op bind_addr host port events :
  parse_ipv4 host = None → head host ≠ Some x5b → 0 <= port <= u16_max →
  (∀ op, try_op op = Ok tt) →
  handle_tcp_relay linux try_op (BindDialer bind_addr) (host ++ B ":" ++ show_dec port) events
  = Some (Err EAddrParse).
Proof.
  intros H4 Hb Hp Hop. unfold handle_tcp_relay, dial_tcp, perform. rewrite !Hop. result_cbn.
  by rewrite parse_socket_addr_host_port.
Qed.

(** ** Concrete runs *)
Definition sample_user : Uuid := replicate 16 x07.
Definition sample_users : gmap Uuid str := {[sample_user := B "secret"]}.
Definition sample_export (label context : str) : result str := Ok (replicate 32 x05).
Definition sample_opening : str := [x00; x00] ++ sample_user ++ replicate 32 x05.
Definition sample_auth : UnderlayAuth :=
  mkUnderlayAuth (replicate 32 x01) (replicate 32 x02) (mkProxyMetadata Udp (B "a.b") 53 Uuid_nil) Uuid_nil.

Lemma auths_stored_as_they_arrive_witness :
  let message := (write_underlay_auth_async sample_auth).1 in
  let ls := [LHandshake (Ok tt); LAcceptUni (Ok tt); LData (take 20 sample_opening); LTick 5;
             LData (drop 20 sample_opening ++ message ++ take 7 message); LBi; LData (drop 7 message)] in
  let c := handle_connection sample_users sample_export (λ u, u) 0 ls in
  stored c = received_auth <$> [sample_auth; sample_auth] ∧
  ∃ alive streams, phase c = PServe sample_user alive streams.
Proof.
  intros message ls. apply (auths_stored_as_they_arrive _ _ _ 0 ls sample_user sample_opening [sample_auth; sample_auth]).
  - exists (B "secret"), (replicate 32 x05). by vm_compute.
  - by repeat constructor; vm_compute; lia || done.
  - by vm_compute.
  - intros r. by vm_compute.
Defined.

Lemma auth_deadline_witness :
  let c := handle_connection sample_users sample_export (λ u, u) 0
             [LHandshake (Ok tt); LAcceptUni (Ok tt); LData (take 49 sample_opening)] in
  (length (heard c) < 50)%nat ∧ no_service c ∧
  let c' := foldl (conn_step sample_users sample_export (λ u, u)) c [LTick 10000; LAuthTimer] in
  (∃ e, phase c' = PEnd (Err e)) ∧ close_code c' = Some (0xfffffff2, B "authentication timeout") ∧ no_service c'.
Proof.
  apply (auth_deadline sample_users sample_export (λ u, u) 0
           [LHandshake (Ok tt); LAcceptUni (Ok tt); LData (take 49 sample_opening)] 10000 10000);
    by vm_compute.
Defined.

Lemma stream_dispatch_witness :
  handle_stream (λ target rest, Ok (target, rest)) (λ _, Err EUtf8) ([x01; x03; x03] ++ B "a.b" ++ [x00; x50] ++ B "GET")
  = Ok (B "a.b:80", B "GET").
Proof.
  apply (stream_dispatch (λ target rest, Ok (target, rest)) (λ _, Err EUtf8) x01 (B "a.b") 80
           ([x01; x03; x03] ++ B "a.b" ++ [x00; x50]) (B "GET")); vm_compute; done || (split; discriminate).
Defined.

Lemma send_through_needs_ipv4_literal_witness :
  handle_tcp_relay true (λ _, Ok tt) (BindDialer (V4 [x0a; x00; x00; x01])) (B "example.org:443") [] = Some (Err EAddrParse)
  ∧ handle_tcp_relay true (λ _, Ok tt) (BindDialer (V4 [x0a; x00; x00; x01])) (B "2001:db8::1:443") [] = Some (Err EAddrParse).
Proof.
  split; [apply (send_through_needs_ipv4_literal true (λ _, Ok tt) (V4 [x0a; x00; x00; x01]) (B "example.org") 443)
         |apply (send_through_needs_ipv4_literal true (λ _, Ok tt) (V4 [x0a; x00; x00; x01]) (B "2001:db8::1") 443)];
    vm_compute; done || (split; discriminate).
Defined.
