(* ===== verification/UdpRelay.v ===== *)
(** * [server/src/server.rs], [handle_udp_relay]: UDP over a stream

    The datagrams of a stream, each with its address header, sent from one
    socket; the responses are [UdpPool.relay_responses]. *)
From S2P Require Import Prelude Std Consts Net Protocol UdpPool.
#[local] Open Scope Z_scope.

(** A payload and the address [send_to_addr] gives it to. *)
Abbreviation Datagram := (str * SocketAddr)%type.

Section relay.
(** [resolve n] is the [n]-th resolution of the stream, [send] the outcome of a
    [send_to]. *)
Context (resolve : nat → str → Z → result SocketAddr) (send : Datagram → result unit).

(** The cache of the loop: ports by host. *)
Abbreviation Resolved := (gmap str (gmap Z SocketAddr)).

Definition cached_target (cache : Resolved) (host : str) (port : Z) : option SocketAddr :=
  cache !! host ≫= λ ports, ports !! port.

Definition cache_target (cache : Resolved) (host : str) (port : Z) (a : SocketAddr) : Resolved :=
  <[host := <[port := a]> (default ∅ (cache !! host))]> cache.

(** [read_exact] of the length and then of the payload. *)
Definition read_payload : reader str :=
  len ← read_u16; read_exact (Z.to_nat len).

(** The loop of the [quic_to_remote] task: [fuel] is how many rounds it gets
    before the other direction ends and aborts it.  Every round reads at least
    a byte, so the length of the input is enough for all of them.  [t_addr_buf]
    is its string buffer, [n] counts resolutions. *)
Fixpoint quic_to_remote (fuel : nat) (is_ipv6 : bool) (t_addr_buf : str) (cache : Resolved) (n : nat) (recv : str)
    : list Datagram :=
  match fuel with
  | O => []
  | S fuel =>
      let '(t_addr_buf, r) := read_trojanc_addr_into_async t_addr_buf recv in
      match r with
      | Err _ => []
      | Ok (t_port, recv) =>
          match read_payload recv with
          | Err _ => []
          | Ok (payload, recv) =>
              let '(target, cache, n) :=
                match cached_target cache t_addr_buf t_port with
                | Some a => (Ok a, cache, n)
                | None =>
                    match resolve n t_addr_buf t_port with
                    | Ok a => (Ok a, cache_target cache t_addr_buf t_port a, S n)
                    | Err e => (Err e, cache, S n)
                    end
                end in
              match target with
              | Err _ => []
              | Ok target =>
                  let d := (payload, send_to_addr target is_ipv6) in
                  match send d with
                  | Err _ => [d]
                  | Ok _ => d :: quic_to_remote fuel is_ipv6 t_addr_buf cache n recv
                  end
              end
          end
      end
  end.

(** [dial_udp] binds a socket and tells its family.  The result is what was
    sent and how the handler returned; after the first datagram it returns
    normally whichever direction ends first. *)
Definition handle_udp_relay (disable_udp_443 : bool) (dial_udp : result bool) (fuel : nat) (recv : str)
    : list Datagram * result unit :=
  match read_trojanc_addr_async recv with
  | Err e => ([], Err e)
  | Ok ((first_host, first_port), recv) =>
      if disable_udp_443 && (first_port =? 443) then ([], Ok tt)
      else
        match resolve O first_host first_port with
        | Err e => ([], Err e)
        | Ok first_target =>
            match dial_udp with
            | Err e => ([], Err e)
            | Ok is_ipv6 =>
                match read_payload recv with
                | Err e => ([], Err e)
                | Ok (data, recv) =>
                    let d := (data, send_to_addr first_target is_ipv6) in
                    match send d with
                    | Err e => ([d], Err e)
                    | Ok _ => (d :: quic_to_remote fuel is_ipv6 [] ∅ 1 recv, Ok tt)
                    end
                end
            end
        end
  end.

(** ** Frames *)

(** A datagram as a client frames it. *)
Record Frame := mkFrame { fhost : str; fport : Z; fpayload : str }.

Definition frame_ok (f : Frame) : Prop :=
  utf8_valid (fhost f) = true ∧ is_Some (address_of (fhost f)) ∧ 0 <= fport f <= u16_max ∧
  Z.of_nat (length (fpayload f)) <= u16_max.

Definition frame_bytes (f : Frame) : str :=
  match build_trojanc_addr (fhost f) (fport f) with Ok h => h | Err _ => [] end
  ++ to_be16 (Z.of_nat (length (fpayload f))) ++ fpayload f.

Lemma read_payload_frame p r :
  Z.of_nat (length p) <= u16_max → read_payload (to_be16 (Z.of_nat (length p)) ++ p ++ r) = Ok (p, r).
Proof.
  intros Hp. unfold read_payload.
  rewrite (bind_ok _ _ _ _ _ (read_u16_be (Z.of_nat (length p)) (p ++ r) ltac:(lia))).
  by rewrite Nat2Z.id, read_exact_app.
Qed.

Lemma read_frame f r :
  frame_ok f →
  read_trojanc_addr_async (frame_bytes f ++ r) =
  Ok ((canonical_host (fhost f), fport f), to_be16 (Z.of_nat (length (fpayload f))) ++ fpayload f ++ r).
Proof.
  intros (Hv & [a Ha] & Hp & Hl). unfold frame_bytes, build_trojanc_addr.
  rewrite build_cached_from_host_port, Ha. cbn [app]. unfold read_trojanc_addr_async.
  destruct (encode_address_cons a) as (t & bs & E). rewrite E. cbn [app].
  rewrite bind_ok with (1 := read_byte_cons _ _). rewrite <-!app_assoc.
  rewrite (bind_ok _ _ _ _ _ (read_trojanc_host_encode a t bs _ (address_of_wf _ _ Ha) E)).
  rewrite (bind_ok _ _ _ _ _ (read_u16_be _ _ Hp)). by rewrite (address_of_host (fhost f)).
Qed.

Lemma read_frame_into buf f r :
  frame_ok f →
  read_trojanc_addr_into_async buf (frame_bytes f ++ r) =
  (canonical_host (fhost f), Ok (fport f, to_be16 (Z.of_nat (length (fpayload f))) ++ fpayload f ++ r)).
Proof.
  intros Hf. pose proof (read_frame f r Hf) as E. rewrite (read_trojanc_addr_into_plain buf) in E.
  destruct (read_trojanc_addr_into_async buf _) as [h' [[p s']|e]]; [|done]. by simplify_eq.
Qed.

(** ** Sending *)
Context (address : str → Z → SocketAddr).

Definition sent_frame (is_ipv6 : bool) (f : Frame) : Datagram :=
  (fpayload f, send_to_addr (address (canonical_host (fhost f)) (fport f)) is_ipv6).

Lemma cached_target_cache cache host port a h p :
  cached_target (cache_target cache host port a) h p =
  if decide (h = host ∧ p = port) then Some a else cached_target cache h p.
Proof.
  unfold cached_target, cache_target. destruct (decide (h = host)) as [->|Hh].
  - rewrite lookup_insert_eq. cbn [mbind option_bind]. destruct (decide (p = port)) as [->|Hp].
    + by rewrite lookup_insert_eq, decide_True.
    + rewrite lookup_insert_ne, decide_False by naive_solver. by destruct (cache !! host).
  - rewrite lookup_insert_ne, decide_False by naive_solver. done.
Qed.

Lemma quic_to_remote_frames fuel is_ipv6 buf cache n frames :
  (∀ n h p, resolve n h p = Ok (address h p)) → (∀ d, send d = Ok tt) →
  (∀ h p a, cached_target cache h p = Some a → a = address h p) →
  Forall frame_ok frames →
  quic_to_remote fuel is_ipv6 buf cache n (concat (frame_bytes <$> frames)) =
  take fuel (sent_frame is_ipv6 <$> frames).
Proof.
  intros Hres Hsend Hcache Hf. revert fuel buf cache n Hcache.
  induction Hf as [|f frames Hf _ IH]; intros [|fuel] buf cache n Hcache; try done.
  cbn [quic_to_remote fmap list_fmap concat take]. rewrite read_frame_into by done.
  destruct Hf as (_ & _ & _ & Hl). rewrite read_payload_frame by done.
  destruct (cached_target cache _ _) as [a|] eqn:E.
  - apply Hcache in E as ->. rewrite Hsend. f_equal. by apply IH.
  - rewrite Hres. rewrite Hsend. f_equal. apply IH. intros h p a.
    rewrite cached_target_cache. case_decide as Hd; [|apply Hcache]. destruct Hd as [-> ->]. by intros [= <-].
Qed.

Lemma handle_udp_relay_frames disable is_ipv6 fuel f frames :
  (∀ n h p, resolve n h p = Ok (address h p)) → (∀ d, send d = Ok tt) →
  Forall frame_ok (f :: frames) → disable && (fport f =? 443) = false →
  handle_udp_relay disable (Ok is_ipv6) fuel (concat (frame_bytes <$> f :: frames)) =
  (take (S fuel) (sent_frame is_ipv6 <$> f :: frames), Ok tt).
Proof.
  intros Hres Hsend [Hf Hfs]%Forall_cons Hd. unfold handle_udp_relay.
  cbn [fmap list_fmap concat]. rewrite read_frame by done. rewrite Hd, Hres.
  destruct Hf as (_ & _ & _ & Hl). rewrite read_payload_frame by done. rewrite Hsend.
  by rewrite quic_to_remote_frames.
Qed.

Lemma frames_length frames : Forall frame_ok frames → (length frames ≤ length (concat (frame_bytes <$> frames)))%nat.
Proof.
  induction 1 as [|f frames Hf _ IH]; [done|]. cbn [fmap list_fmap concat length]. rewrite length_app.
  unfold frame_bytes at 1. rewrite !length_app, length_to_be16. lia.
Qed.

(** The datagrams framed on a stream are sent, each to the address its host
    and port resolve to, payloads unchanged and in order: all of them when the
    loop is left to run, and the first ones when the other direction ends
    earlier. *)
Theorem udp_relay_forwards disable is_ipv6 fuel f frames :
  (∀ n h p, resolve n h p = Ok (address h p)) → (∀ d, send d = Ok tt) →
  Forall frame_ok (f :: frames) → disable && (fport f =? 443) = false →
  let recv := concat (frame_bytes <$> f :: frames) in
  handle_udp_relay disable (Ok is_ipv6) (length recv) recv = (sent_frame is_ipv6 <$> f :: frames, Ok tt) ∧
  handle_udp_relay disable (Ok is_ipv6) fuel recv = (take (S fuel) (sent_frame is_ipv6 <$> f :: frames), Ok tt).
Proof.
  intros Hres Hsend Hf Hd recv. split; [|by apply handle_udp_relay_frames].
  unfold recv at 2. rewrite handle_udp_relay_frames by done. rewrite take_ge; [done|].
  rewrite length_fmap. pose proof (frames_length _ Hf). fold recv in H. lia.
Qed.

(** With UDP/443 disabled only the first datagram of a stream is checked: a
    stream whose first datagram goes elsewhere carries any number of datagrams to
    port 443. *)
Theorem udp_443_only_checked_first is_ipv6 f frames :
  (∀ n h p, resolve n h p = Ok (address h p)) → (∀ d, send d = Ok tt) →
  Forall frame_ok (f :: frames) → fport f ≠ 443 → Forall (λ f, fport f = 443) frames →
  let recv := concat (frame_bytes <$> f :: frames) in
  (handle_udp_relay true (Ok is_ipv6) (length recv) recv).1 = sent_frame is_ipv6 f :: (sent_frame is_ipv6 <$> frames) ∧
  (handle_udp_relay true (Ok is_ipv6) (length recv) (concat (frame_bytes <$> frames))).1 = [].
Proof.
  intros Hres Hsend Hf Hp Hps recv. split.
  - unfold recv at 2. rewrite handle_udp_relay_frames; [|done..|by destruct (Z.eqb_spec (fport f) 443)].
    cbn [fst]. rewrite take_ge; [done|]. rewrite length_fmap. pose proof (frames_length _ Hf). fold recv in H. lia.
  - apply Forall_cons in Hf as [_ Hfs]. unfold handle_udp_relay. destruct Hps as [|g frames Hg _]; [done|].
    apply Forall_cons in Hfs as [Hok _]. cbn [fmap list_fmap concat]. rewrite read_frame by done. by rewrite Hg.
Qed.
End relay.

(** ** A concrete stream *)
Definition sample_frames : list Frame :=
  [mkFrame (B "a.b") 53 (B "one"); mkFrame (B "1.2.3.4") 443 (B "two"); mkFrame (B "a.b") 443 []].
Definition sample_address (h : str) (p : Z) : SocketAddr := socket_addr (V4 [x0a; x00; x00; x01]) p.

Lemma sample_frames_ok : Forall frame_ok sample_frames.
Proof. repeat constructor; try by vm_compute. all: by eexists; vm_compute. Qed.

Lemma udp_relay_forwards_witness :
  let recv := concat (frame_bytes <$> sample_frames) in
  let resolve (n : nat) h p := Ok (sample_address h p) in
  handle_udp_relay resolve (λ _, Ok tt) false (Ok false) (length recv) recv
    = (sent_frame sample_address false <$> sample_frames, Ok tt) ∧
  handle_udp_relay resolve (λ _, Ok tt) false (Ok false) 1 recv
    = (take 2 (sent_frame sample_address false <$> sample_frames), Ok tt).
Proof.
  apply (udp_relay_forwards (λ _ h p, Ok (sample_address h p)) (λ _, Ok tt) sample_address false false 1
           (mkFrame (B "a.b") 53 (B "one")) (drop 1 sample_frames)); try done. apply sample_frames_ok.
Defined.

Lemma udp_443_only_checked_first_witness :
  let recv := concat (frame_bytes <$> sample_frames) in
  let resolve (n : nat) h p := Ok (sample_address h p) in
  (handle_udp_relay resolve (λ _, Ok tt) true (Ok false) (length recv) recv).1
    = sent_frame sample_address false <$> sample_frames ∧
  (handle_udp_relay resolve (λ _, Ok tt) true (Ok false) (length recv)
     (concat (frame_bytes <$> drop 1 sample_frames))).1 = [].
Proof.
  apply (udp_443_only_checked_first (λ _ h p, Ok (sample_address h p)) (λ _, Ok tt) sample_address false
           (mkFrame (B "a.b") 53 (B "one")) (drop 1 sample_frames)); try done.
  - apply sample_frames_ok.
  - by repeat constructor.
Defined.
