(* ===== verification/Certs.v ===== *)
(** * [server/src/server.rs]: the TLS certificate

    Loading the private key and the pair, and the resolver that reloads it when
    the files change. *)
From S2P Require Import Prelude Std.
#[local] Open Scope Z_scope.

(** ** [load_private_key]

    [rustls_pemfile::read_one] yields the items of the file one by one, or an
    error. *)
Inductive Item := Pkcs1Key (k : str) | Pkcs8Key (k : str) | Sec1Key (k : str) | OtherItem.
Inductive PrivateKeyDer := Pkcs1 (k : str) | Pkcs8 (k : str) | Sec1 (k : str).

#[export] Instance PrivateKeyDer_eq_dec : EqDecision PrivateKeyDer.
Proof. solve_decision. Defined.

Definition item_key (i : Item) : option PrivateKeyDer :=
  match i with
  | Pkcs1Key k => Some (Pkcs1 k)
  | Pkcs8Key k => Some (Pkcs8 k)
  | Sec1Key k => Some (Sec1 k)
  | OtherItem => None
  end.

(** The loop, with [key_count]; a key is taken when the count reaches one. *)
Fixpoint first_key (key_count : Z) (items : list (result Item)) : result (Z * option PrivateKeyDer) :=
  match items with
  | [] => Ok (key_count, None)
  | Err e :: _ => Err e
  | Ok i :: items =>
      match item_key i with
      | Some k => if key_count + 1 =? 1 then Ok (key_count + 1, Some k) else first_key (key_count + 1) items
      | None => first_key key_count items
      end
  end.

(** The key, and whether the warning about multiple keys was logged. *)
Definition load_private_key (open_ : str → result (list (result Item))) (path : str)
    : result (PrivateKeyDer * bool) :=
  items ← open_ path;
  '(key_count, found) ← first_key 0 items;
  key ← ok_or found (EMsg (B "no private key found in " ++ path));
  Ok (key, 1 <? key_count).

(** ** The resolver *)
Section resolver.
(** [CertifiedKey::from_der] checks that the key matches the chain. *)
Context {CertifiedKey : Type} (from_der : list str → PrivateKeyDer → result CertifiedKey).

(** What the files are at a moment: their modification times, and what the PEM
    reader makes of them. *)
Record Files := mkFiles {
  modified_of : str → result Z;
  certs_of : str → result (list (result str));
  items_of : str → result (list (result Item));
}.

Record CachedCertificate := mkCached { key : CertifiedKey; modified : Z * Z }.

Record ReloadingCertificateResolver := mkResolver {
  cert_path : str;
  key_path : str;
  cached : CachedCertificate;
}.

Definition modified_at (f : Files) (cert_path key_path : str) : result (Z * Z) :=
  c ← modified_of f cert_path; k ← modified_of f key_path; Ok (c, k).

(** [collect] stops at the first error. *)
Fixpoint collect {A} (l : list (result A)) : result (list A) :=
  match l with
  | [] => Ok []
  | r :: l => a ← r; l ← collect l; Ok (a :: l)
  end.

Definition load_certs (f : Files) (path : str) : result (list str) :=
  l ← certs_of f path; collect l.

(** The certificates and the key are read one after the other: the files may
    have changed in between. *)
Definition load_pair (f_certs f_key : Files) (cert_path key_path : str) : result CertifiedKey :=
  certs ← load_certs f_certs cert_path;
  '(k, _) ← load_private_key (items_of f_key) key_path;
  from_der certs k.

Definition ReloadingCertificateResolver_new (f1 f2 f3 : Files) (cert_path key_path : str)
    : result ReloadingCertificateResolver :=
  m ← modified_at f1 cert_path key_path;
  k ← load_pair f2 f3 cert_path key_path;
  Ok (mkResolver cert_path key_path (mkCached k m)).

(** [reload], with the files as they are when the times, the certificates and
    the key are read. *)
Definition reload (f1 f2 f3 : Files) (r : ReloadingCertificateResolver) : ReloadingCertificateResolver * result unit :=
  match modified_at f1 (cert_path r) (key_path r) with
  | Err e => (r, Err e)
  | Ok m =>
      if decide (modified (cached r) = m) then (r, Ok tt)
      else
        match load_pair f2 f3 (cert_path r) (key_path r) with
        | Err e => (r, Err e)
        | Ok k => (mkResolver (cert_path r) (key_path r) (mkCached k m), Ok tt)
        end
  end.

Definition resolve (r : ReloadingCertificateResolver) : option CertifiedKey := Some (key (cached r)).

(** The task of the server reloads every five seconds; [times] are the moments
    of the three reads of each round. *)
Definition reload_task (fs : nat → Files) (times : list (nat * nat * nat)) (r : ReloadingCertificateResolver)
    : ReloadingCertificateResolver :=
  foldl (λ r '(t1, t2, t3), (reload (fs t1) (fs t2) (fs t3) r).1) r times.

(** ** The private key *)
Lemma first_key_count items n r : first_key 0 items = Ok (n, r) → n <= 1.
Proof.
  induction items as [|[i|e] items IH]; cbn [first_key]; [by intros [= <- _]| |done].
  destruct (item_key i); [|done]. cbn. by intros [= <- _].
Qed.

(** The private key is the first key of the file, whatever items precede or
    follow it; a read error before it is reported; and the warning about
    several keys is never logged, since reading stops at the first one. *)
Theorem load_private_key_first path open_ before i k after :
  open_ path = Ok ((Ok <$> before) ++ Ok i :: after) →
  Forall (λ i, item_key i = None) before → item_key i = Some k →
  load_private_key open_ path = Ok (k, false) ∧
  ∀ open_' path' k' warned, load_private_key open_' path' = Ok (k', warned) → warned = false.
Proof.
  intros Ho Hb Hi. split.
  - unfold load_private_key. rewrite Ho. result_cbn.
    assert (first_key 0 ((Ok <$> before) ++ Ok i :: after) = Ok (1, Some k)) as ->; [|done].
    clear Ho. induction Hb as [|j before Hj _ IH]; cbn [fmap list_fmap app first_key].
    + by rewrite Hi.
    + by rewrite Hj.
  - intros open_' path' k' warned. unfold load_private_key.
    destruct (open_' path') as [items|]; [|done]. result_cbn.
    destruct (first_key 0 items) as [[n r]|] eqn:E; [|done]. result_cbn. apply first_key_count in E.
    destruct r; [|done]. intros [= _ <-]. by apply Z.ltb_ge.
Qed.

(** ** Reloading *)

(** What a resolver of these paths may hold at time [now]: the pair read at some
    earlier moments, its times read before it. *)
Definition pair_of (fs : nat → Files) (now : nat) (r : ReloadingCertificateResolver) : Prop :=
  ∃ t1 t2 t3, (t1 ≤ t2)%nat ∧ (t2 ≤ t3)%nat ∧ (t3 ≤ now)%nat ∧
    modified_at (fs t1) (cert_path r) (key_path r) = Ok (modified (cached r)) ∧
    load_pair (fs t2) (fs t3) (cert_path r) (key_path r) = Ok (key (cached r)).

Fixpoint ordered (from : nat) (times : list (nat * nat * nat)) : Prop :=
  match times with
  | [] => True
  | (t1, t2, t3) :: times => (from ≤ t1 ≤ t2)%nat ∧ (t2 ≤ t3)%nat ∧ ordered t3 times
  end.

Lemma reload_pair_of fs now t1 t2 t3 r :
  (now ≤ t1 ≤ t2)%nat → (t2 ≤ t3)%nat → pair_of fs now r →
  pair_of fs t3 (reload (fs t1) (fs t2) (fs t3) r).1 ∧
  cert_path (reload (fs t1) (fs t2) (fs t3) r).1 = cert_path r ∧
  key_path (reload (fs t1) (fs t2) (fs t3) r).1 = key_path r.
Proof.
  intros H1 H2 (u1 & u2 & u3 & ? & ? & ? & Hm & Hk).
  assert (pair_of fs t3 r) by (exists u1, u2, u3; split_and!; done || lia).
  unfold reload. destruct (modified_at (fs t1) _ _) as [m|e] eqn:Em; [|done].
  case_decide; [done|]. destruct (load_pair (fs t2) (fs t3) _ _) as [k|e] eqn:Ek; [|done].
  split; [|done]. exists t1, t2, t3. split_and!; done || lia.
Qed.

Lemma reload_task_pair_of fs from times now r :
  ordered from times → (from ≤ now)%nat → Forall (λ t, (t.2 ≤ now)%nat) times → pair_of fs from r →
  pair_of fs now (reload_task fs times r) ∧
  cert_path (reload_task fs times r) = cert_path r ∧ key_path (reload_task fs times r) = key_path r.
Proof.
  unfold reload_task. revert from r. induction times as [|[[t1 t2] t3] times IH]; intros from r; cbn [ordered foldl].
  - intros _ Hn _ (u1 & u2 & u3 & ? & ? & ? & ? & ?). split; [|done].
    exists u1, u2, u3. split_and!; done || lia.
  - intros (H1 & H2 & Ho) Hn [Ht Hts]%Forall_cons Hp.
    destruct (reload_pair_of fs from t1 t2 t3 r H1 H2 Hp) as (Hp' & <- & <-). by apply (IH t3).
Qed.

(** Whatever happens to the files, the certificate that is served is a pair
    that was read from them and matched, and a round that fails changes
    nothing.  Once the files hold a matching pair and are left alone, one round
    serves that pair, provided that a file which changes also changes its
    modification time. *)
Theorem reload_converges fs times r t1 t2 t3 m k :
  (∀ i j, (i ≤ j)%nat → modified_at (fs i) (cert_path r) (key_path r) = modified_at (fs j) (cert_path r) (key_path r) →
     ∀ l, (i ≤ l ≤ j)%nat → fs l = fs j) →
  pair_of fs 0 r → ordered 0 times → Forall (λ t, (t.2 ≤ t1)%nat) times → (t1 ≤ t2)%nat → (t2 ≤ t3)%nat →
  let r' := reload_task fs times r in
  pair_of fs t1 r' ∧
  (∀ e f1 f2 f3, (reload f1 f2 f3 r').2 = Err e → (reload f1 f2 f3 r').1 = r') ∧
  (fs t2 = fs t1 → fs t3 = fs t1 → modified_at (fs t1) (cert_path r) (key_path r) = Ok m →
   load_pair (fs t1) (fs t1) (cert_path r) (key_path r) = Ok k →
   resolve (reload (fs t1) (fs t2) (fs t3) r').1 = Some k ∧ (reload (fs t1) (fs t2) (fs t3) r').2 = Ok tt).
Proof.
  intros Hfs Hp Ho Ht H12 H23 r'.
  destruct (reload_task_pair_of fs 0 times t1 r Ho ltac:(lia) Ht Hp) as (Hp' & Hc & Hk). fold r' in Hp', Hc, Hk.
  clearbody r'.
  split_and!; [done| |].
  - intros e f1 f2 f3. unfold reload. destruct (modified_at f1 _ _); [|done].
    case_decide; [done|]. by destruct (load_pair f2 f3 _ _).
  - intros E2 E3 Hm Hl. unfold reload. rewrite Hc, Hk, Hm. case_decide as Hd.
    + split; [|done]. unfold resolve. cbn [fst]. f_equal.
      destruct Hp' as (u1 & u2 & u3 & ? & ? & ? & Hmu & Hku). rewrite Hc, Hk in Hmu, Hku.
      assert (modified_at (fs u1) (cert_path r) (key_path r) = modified_at (fs t1) (cert_path r) (key_path r)) as Heq
        by congruence.
      pose proof (Hfs u1 t1 ltac:(lia) Heq) as Hsame.
      rewrite (Hsame u2), (Hsame u3) in Hku by lia. congruence.
    + rewrite E2, E3, Hl. done.
Qed.
End resolver.

(** ** A renewal in two steps: the certificate first, the key after it *)
Module Sample.
Definition pem (c k : byte) (t : Z) : Files :=
  mkFiles (λ _, Ok t) (λ _, Ok [Ok [c]]) (λ _, Ok [Ok OtherItem; Ok (Pkcs8Key [k])]).
Definition fs (t : nat) : Files :=
  match t with O => pem x01 x01 0 | 1%nat => pem x02 x01 1 | _ => pem x02 x02 2 end.
Definition from_der (certs : list str) (k : PrivateKeyDer) : result str :=
  if decide (k = Pkcs8 (default [] (head certs))) then Ok (default [] (head certs)) else Err (EMsg (B "mismatch")).
Definition resolver : ReloadingCertificateResolver := mkResolver [x63] [x6b] (mkCached [x01] (0, 0)).
End Sample.

Lemma load_private_key_first_witness :
  load_private_key (λ _, Ok [Ok OtherItem; Ok (Sec1Key [x01]); Ok (Pkcs8Key [x02])]) (B "key.pem") = Ok (Sec1 [x01], false)
  ∧ ∀ open_' path' k' warned, load_private_key open_' path' = Ok (k', warned) → warned = false.
Proof.
  apply (load_private_key_first (B "key.pem") (λ _, Ok [Ok OtherItem; Ok (Sec1Key [x01]); Ok (Pkcs8Key [x02])])
           [OtherItem] (Sec1Key [x01]) (Sec1 [x01]) [Ok (Pkcs8Key [x02])]); by repeat constructor.
Defined.

Lemma reload_converges_witness :
  let r' := reload_task Sample.from_der Sample.fs [(0, 0, 0); (1, 1, 1)]%nat Sample.resolver in
  resolve r' = Some [x01] ∧
  resolve (reload Sample.from_der (Sample.fs 2) (Sample.fs 3) (Sample.fs 3) r').1 = Some [x02].
Proof.
  intros r'. split; [by vm_compute|].
  refine (proj1 (proj2 (proj2 (reload_converges Sample.from_der Sample.fs [(0, 0, 0); (1, 1, 1)]%nat Sample.resolver
            2 3 3 (2, 2) [x02] _ _ _ _ _ _)) _ _ _ _)); try (by vm_compute); try lia.
  - intros i j Hij Hm l Hl. destruct i as [|[|i]], j as [|[|j]]; try lia; try done; destruct l as [|[|l]]; done || lia.
  - exists 0%nat, 0%nat, 0%nat. by split_and!.
  - cbn. lia.
  - repeat constructor; cbn; lia.
Defined.
