(* ===== verification/Server.v ===== *)
(** * [server/src/server.rs]: the server and its life cycle

    What [JuicityServer::new] makes of a configuration, the sockets it listens
    on, and the accept workers with their shutdown as a machine. *)
From S2P Require Import Prelude Std Consts Net Protocol Config Inflight TcpRelay Certs.
#[local] Open Scope Z_scope.

(** ** [JuicityServer::new] *)
Inductive Congestion := Cubic | NewReno | Bbr (initial_window : Z).

Record TransportConfig := mkTransport {
  tr_initial_rtt : option Z;
  tr_keep_alive_interval : option Z;
  max_concurrent_bidi_streams : Z;
  max_concurrent_uni_streams : Z;
  max_idle_timeout : Z;
  stream_receive_window : Z;
  receive_window : Z;
  send_window : Z;
  congestion_controller : Congestion;
}.

(** The factor the initial round trip time gives both receive windows. *)
Definition window (rtt : option Z) (w : Z) : Z :=
  match rtt with
  | Some rtt_ms => if rtt_ms <? 50 then w / 2 else if 200 <? rtt_ms then w * 2 else w
  | None => w
  end.

(** The names are ASCII letters none of which is the lower case of a character
    outside ASCII, so lower-casing ASCII decides the comparison. *)
Definition congestion_of (name : str) : Congestion :=
  let name := ascii_lowercase name in
  if decide (name = B "cubic") then Cubic
  else if decide (name = B "newreno") then NewReno
  else if decide (name = B "new_reno") then NewReno
  else Bbr (10 * ETHERNET_MTU).

Definition transport_config (c : Config) : TransportConfig :=
  mkTransport (initial_rtt c) (secs <$> keep_alive_interval c)
    MAX_OPEN_INCOMING_STREAMS MAX_OPEN_INCOMING_STREAMS MAX_QUIC_IDLE_TIMEOUT
    (window (initial_rtt c) QUIC_STREAM_RECEIVE_WINDOW)
    (window (initial_rtt c) QUIC_CONNECTION_RECEIVE_WINDOW)
    QUIC_SEND_WINDOW (congestion_of (congestion_control c)).

Section new.
Context `{HashOrder, UuidParse}.

Record JuicityServer {CertifiedKey : Type} := mkServer {
  users : gmap Uuid str;
  alpn_protocols : list str;
  max_early_data_size : Z;
  transport : TransportConfig;
  certificate_resolver : @ReloadingCertificateResolver CertifiedKey;
  dialer : Dialer;
  in_flight : InFlight;
  max_endpoints : nat;
  disable_outbound_udp443 : bool;
}.
#[global] Arguments JuicityServer : clear implicits.

Fixpoint parse_users (l : list (str * str)) (m : gmap Uuid str) : result (gmap Uuid str) :=
  match l with
  | [] => Ok m
  | (id, password) :: l => uuid ← ok_or (parse_uuid id) EUuidParse; parse_users l (<[uuid := password]> m)
  end.

Definition dialer_of (send_through : str) : result Dialer :=
  if is_empty send_through then Ok DefaultDialer
  else addr ← ok_or (parse_ip send_through) EAddrParse; Ok (BindDialer addr).

(** [load] is [ReloadingCertificateResolver::new] on the configured paths,
    [quic_ok] the conversion of the TLS configuration by [quinn]. *)
Definition JuicityServer_new {CertifiedKey} (load : str → str → result (@ReloadingCertificateResolver CertifiedKey))
    (quic_ok : result unit) (c : Config) : result (JuicityServer CertifiedKey) :=
  users ← parse_users (hm_iter (Config.users c)) ∅;
  certificate_resolver ← load (certificate c) (private_key c);
  _ ← quic_ok;
  dialer ← dialer_of (send_through c);
  Ok (mkServer CertifiedKey users [B "h3"] (if default true (enable_0rtt c) then u32_max else 0)
        (transport_config c) certificate_resolver dialer
        (mkInFlight IN_FLIGHT_UNDERLAY_TTL (default IN_FLIGHT_UNDERLAY_EVICT_TIMEOUT (underlay_evict_timeout c)))
        MAX_UDP_ENDPOINTS (Config.disable_outbound_udp443 c)).
End new.
#[global] Arguments mkServer {CertifiedKey}.

(** ** Listening *)

(** The address, its text in the log, and whether the socket is dual-stack. *)
Definition listen_address (addr : str) : result (SocketAddr * str * bool) :=
  if starts_with (B ":") addr then
    v6 ← ok_or (parse_socket_addr (B "[::]" ++ addr)) EAddrParse;
    Ok (v6, B "[::]" ++ addr ++ B " (dual-stack IPv4+IPv6)", true)
  else
    sa ← ok_or (parse_socket_addr addr) EAddrParse;
    Ok (sa, addr, false).

(** The calls on the sockets, each of which may fail. *)
Inductive SetupOp :=
  | SNew (ipv6 : bool)
  | SReusePort
  | SOnlyV6 (b : bool)
  | SBind (a : SocketAddr)
  | SNonblocking
  | SClone
  | SFromStd
  | SWrap
  | SEndpoint.

Definition create_reuseport_socket (unix : bool) (addr : SocketAddr) (dual_stack : bool) : list SetupOp :=
  [SNew (dual_stack || is_ipv6 addr)] ++ (if unix then [SReusePort] else []) ++
  (if dual_stack then [SOnlyV6 false] else []) ++ [SBind addr].

(** Socket [i] of the loop: the first one's clone becomes the socket responses
    are sent from. *)
Definition setup_socket (unix : bool) (addr : SocketAddr) (dual_stack : bool) (i : nat) : list SetupOp :=
  create_reuseport_socket unix addr dual_stack ++ [SNonblocking; SClone; SNonblocking] ++
  (if decide (i = O) then [SFromStd] else []) ++ [SWrap; SEndpoint].

(** The number of endpoints, each with its receiver and its accept worker. *)
Definition setup (unix : bool) (parallelism : option nat) (try_op : SetupOp → result unit) (listen : str) : result nat :=
  '(addr, _, dual_stack) ← listen_address listen;
  let num_sockets := if unix then default 4%nat parallelism else 1%nat in
  _ ← perform try_op (concat (setup_socket unix addr dual_stack <$> seq 0 num_sockets));
  _ ← ensure (negb (Nat.eqb num_sockets 0)) (EMsg (B "no sockets created"));
  Ok num_sockets.

(** ** Accept workers and shutdown

    Times are milliseconds.  [WDrain] remembers whether the worker left its
    loop because of the shutdown. *)
Definition accept_stop_timeout : Z := secs 3.
Definition connection_drain_timeout : Z := secs 5.
Definition max_concurrent_connection_handlers : nat := 1024.

Inductive WorkerState :=
  | WSelect
  | WPermit
  | WDrain (deadline : Z) (by_shutdown : bool)
  | WAborting
  | WDone.

(** [conn_tasks] are the handlers in the worker's [JoinSet], each with its permit; [cancelled] is the abort of the worker's own
    task, which takes effect when the runtime drops it; [told] are the handlers that the drop of the [JoinSet] has told
    to stop: nobody waits for them, and each of them ends when the runtime drops it in turn. *)
Record Worker := mkWorker { wstate : WorkerState; conn_tasks : list nat; next_conn : nat; cancelled : bool; told : list nat }.

Inductive MainState :=
  | MServing
  | MStopping (stop_deadline : Z)
  | MJoining
  | MReturned.

Record Sys := mkSys { now : Z; main : MainState; shutdown_tx : bool; workers : list Worker }.

Definition Sys_new (n : nat) : Sys := mkSys 0 MServing false (replicate n (mkWorker WSelect [] 0 false [])).

Inductive Label :=
  | LTick (d : N)
  | LIncoming (w : nat)
  | LEndpointClosed (w : nat)
  | LAcquired (w : nat)
  | LConnDone (w i : nat)
  | LShutdownSeen (w : nat)
  | LDrainPoll (w : nat)
  | LAborted (w : nat)
  | LCancelled (w : nat)
  | LToldDone (w i : nat)
  | LShutdown
  | LMainPoll
  | LJoined.

Definition set_worker (s : Sys) (i : nat) (w : Worker) : Sys :=
  mkSys (now s) (main s) (shutdown_tx s) (<[i := w]> (workers s)).

Definition set_wstate (st : WorkerState) (w : Worker) : Worker := mkWorker st (conn_tasks w) (next_conn w) (cancelled w) (told w).
Definition start_drain (now : Z) (by_shutdown : bool) (w : Worker) : Worker := set_wstate (WDrain (now + connection_drain_timeout) by_shutdown) w.

(** What happens in a worker.  [abort_all] lets the worker wait until the last handler has ended. *)
Definition worker_step (now : Z) (shutdown : bool) (l : Label) (w : Worker) : Worker :=
  match l, wstate w with
  | LIncoming _, WSelect => set_wstate WPermit w
  | LEndpointClosed _, WSelect => start_drain now false w
  | LShutdownSeen _, WSelect => if shutdown then start_drain now true w else w
  | LAcquired _, WPermit =>
      if (length (conn_tasks w) <? max_concurrent_connection_handlers)%nat
      then mkWorker WSelect (next_conn w :: conn_tasks w) (S (next_conn w)) (cancelled w) (told w) else w
  | LConnDone _ i, _ => mkWorker (wstate w) (filter (λ j, j ≠ i) (conn_tasks w)) (next_conn w) (cancelled w) (told w)
  | LDrainPoll _, WDrain deadline _ =>
      if decide (conn_tasks w = []) then set_wstate WDone w
      else if deadline <=? now then set_wstate WAborting w else w
  | LAborted _, WAborting => if decide (conn_tasks w = []) then set_wstate WDone w else w
  | LCancelled _, WDone => w
  | LCancelled _, _ => if cancelled w then mkWorker WDone [] (next_conn w) true (conn_tasks w ++ told w) else w
  | LToldDone _ i, _ => mkWorker (wstate w) (conn_tasks w) (next_conn w) (cancelled w) (filter (λ j, j ≠ i) (told w))
  | _, _ => w
  end.

(** The drop of a worker's guard. *)
Definition abort_worker (w : Worker) : Worker := mkWorker (wstate w) (conn_tasks w) (next_conn w) true (told w).

Definition finished (w : Worker) : bool := match wstate w with WDone => true | _ => false end.

Definition label_worker (l : Label) : option nat :=
  match l with
  | LIncoming w | LEndpointClosed w | LAcquired w | LConnDone w _ | LShutdownSeen w | LDrainPoll w | LAborted w | LCancelled w | LToldDone w _ => Some w
  | _ => None
  end.

Definition serve_step (s : Sys) (l : Label) : Sys :=
  match l, main s with
  | LTick d, _ => mkSys (now s + Z.of_N d) (main s) (shutdown_tx s) (workers s)
  | LShutdown, MServing => mkSys (now s) (MStopping (now s + accept_stop_timeout)) true (workers s)
  | LMainPoll, MStopping stop_deadline =>
      if (stop_deadline <=? now s) || forallb finished (workers s)
      then mkSys (now s) MJoining (shutdown_tx s) (abort_worker <$> workers s) else s
  | LJoined, MJoining => if forallb finished (workers s) then mkSys (now s) MReturned (shutdown_tx s) (workers s) else s
  | _, _ =>
      match label_worker l with
      | Some i =>
          match workers s !! i with
          | Some w => set_worker s i (worker_step (now s) (shutdown_tx s) l w)
          | None => s
          end
      | None => s
      end
  end.

Definition serve_with_shutdown (n : nat) (ls : list Label) : Sys := foldl serve_step (Sys_new n) ls.

(** ** Configuration *)
Section new_lemmas.
Context `{HashOrder, UuidParse}.

Lemma parse_users_ok l m :
  is_ok (parse_users l m) = true ↔ Forall (λ e, is_Some (parse_uuid e.1)) l.
Proof.
  revert m. induction l as [|[id pw] l IH]; intros m; cbn [parse_users]; [done|].
  rewrite Forall_cons. destruct (parse_uuid id) as [u|] eqn:E; cbn [ok_or]; result_cbn.
  - rewrite IH. cbn. rewrite E. naive_solver.
  - cbn. rewrite E. split; [done|]. by intros [[? ?] _].
Qed.

Lemma parse_users_source l m us uuid pw :
  parse_users l m = Ok us → us !! uuid = Some pw →
  m !! uuid = Some pw ∨ ∃ id, (id, pw) ∈ l ∧ parse_uuid id = Some uuid.
Proof.
  revert m. induction l as [|[id p] l IH]; intros m; cbn [parse_users]; [intros [= ->]; by left|].
  destruct (parse_uuid id) as [u|] eqn:E; [|done]. result_cbn. intros Hp Hu.
  destruct (IH _ Hp Hu) as [Hi|(id' & Hin & Hid)].
  - destruct (decide (u = uuid)) as [->|Hne].
    + rewrite lookup_insert_eq in Hi. injection Hi as ->. right. exists id. split; [by apply list_elem_of_here|done].
    + rewrite lookup_insert_ne in Hi by done. by left.
  - right. exists id'. split; [by apply list_elem_of_further|done].
Qed.

Lemma parse_users_kept l m us uuid pw :
  parse_users l m = Ok us → (m !! uuid = Some pw ∨ ∃ id, (id, pw) ∈ l ∧ parse_uuid id = Some uuid) →
  (∀ id p, (id, p) ∈ l → parse_uuid id = Some uuid → p = pw) → us !! uuid = Some pw.
Proof.
  revert m. induction l as [|[id p] l IH]; intros m; cbn [parse_users].
  - intros [= ->] [?|(id & Hin & _)] _; [done|by apply not_elem_of_nil in Hin].
  - destruct (parse_uuid id) as [u|] eqn:E; [|done]. result_cbn. intros Hp Hsrc Huniq.
    apply (IH _ Hp); [|intros id' p' Hin; apply (Huniq id'); by apply list_elem_of_further].
    destruct (decide (u = uuid)) as [->|Hne].
    + left. rewrite lookup_insert_eq. f_equal. apply (Huniq id); [by apply list_elem_of_here|done].
    + rewrite lookup_insert_ne by done. destruct Hsrc as [?|(id' & [[= -> ->]|Hin]%elem_of_cons & Hid)]; [by left|congruence|].
      right. eauto.
Qed.
End new_lemmas.

(** A server is built exactly when every configured user id is a UUID, the
    certificate loads and [send_through] is empty or an IP address.  Its users
    are the configured ones: every entry comes from the configuration, and a
    configured password is found under its UUID unless another spelling of the
    same UUID has a different one, whatever order the table is read in. *)
Theorem new_correct `{HashOrder, UuidParse} {CertifiedKey}
    (load : str → str → result (@ReloadingCertificateResolver CertifiedKey)) quic_ok c :
  (is_ok (JuicityServer_new load quic_ok c) = true ↔
     map_Forall (λ id _, is_Some (parse_uuid id)) (Config.users c) ∧
     is_ok (load (certificate c) (private_key c)) = true ∧ is_ok quic_ok = true ∧
     (send_through c = [] ∨ is_Some (parse_ip (send_through c)))) ∧
  ∀ srv, JuicityServer_new load quic_ok c = Ok srv →
    (∀ uuid pw, users srv !! uuid = Some pw →
       ∃ id, Config.users c !! id = Some pw ∧ parse_uuid id = Some uuid) ∧
    (∀ id uuid pw, Config.users c !! id = Some pw → parse_uuid id = Some uuid →
       (∀ id' pw', Config.users c !! id' = Some pw' → parse_uuid id' = Some uuid → pw' = pw) →
       users srv !! uuid = Some pw).
Proof.
  assert (∀ e, e ∈ hm_iter (Config.users c) ↔ Config.users c !! e.1 = Some e.2) as Hin.
  { intros [id pw]. rewrite (hm_iter_perm (Config.users c)). apply elem_of_map_to_list. }
  unfold JuicityServer_new. split.
  - assert (map_Forall (λ id _, is_Some (parse_uuid id)) (Config.users c) ↔
            is_ok (parse_users (hm_iter (Config.users c)) ∅) = true) as ->.
    { rewrite parse_users_ok, Forall_forall. unfold map_Forall. split.
      - intros Hf [id pw] He%Hin. by eapply Hf.
      - intros Hf id pw He. by apply (Hf (id, pw)), Hin. }
    unfold dialer_of. destruct (parse_users _ ∅) as [us|]; [|by split; [|intros [? _]]]. result_cbn.
    destruct (load _ _) as [r|]; [|by split; [|intros (_ & ? & _)]]. result_cbn.
    destruct quic_ok as [[]|]; [|by split; [|intros (_ & _ & ? & _)]]. result_cbn.
    destruct (send_through c) as [|x s] eqn:Es; cbn [is_empty]; result_cbn; [naive_solver|].
    destruct (parse_ip (x :: s)) as [a|]; result_cbn; [naive_solver|].
    split; [done|]. intros (_ & _ & _ & [?|[? ?]]); done.
  - intros srv. destruct (parse_users _ ∅) as [us|] eqn:Eu; [|done]. result_cbn.
    destruct (load _ _); [|done]. destruct quic_ok; [|done]. result_cbn. destruct (dialer_of _); [|done].
    result_cbn. intros <-%Ok_inj. cbn [users]. split.
    + intros uuid pw Hu. destruct (parse_users_source _ _ _ _ _ Eu Hu) as [?|(id & Hid & ?)]; [done|].
      exists id. split; [by apply Hin in Hid|done].
    + intros id uuid pw Hid Hp Huniq. eapply parse_users_kept; [exact Eu| |].
      * right. exists id. split; [by apply Hin|done].
      * intros id' pw' Hin'%Hin. by apply Huniq.
Qed.

(** A bare ":port" listens on that port of the unspecified IPv6 address
    with a dual-stack socket; a socket address in its usual text, IPv4 or
    bracketed IPv6, is used as it is. *)
Theorem listen_address_correct i p :
  ip_wf i → 0 <= p <= u16_max →
  (∃ log, listen_address (B ":" ++ show_dec p) = Ok (socket_addr (V6 (replicate 16 x00)) p, log, true)) ∧
  (∃ log, listen_address (show_socket_addr (socket_addr i p)) = Ok (socket_addr i p, log, false)).
Proof.
  intros Hi Hp. split.
  - eexists. unfold listen_address. change (starts_with (B ":") (B ":" ++ show_dec p)) with true.
    change (B "[::]" ++ B ":" ++ show_dec p) with (show_socket_addr (socket_addr (V6 (replicate 16 x00)) p)).
    by rewrite parse_show_socket_addr.
  - eexists. unfold listen_address. rewrite parse_show_socket_addr by done.
    assert (starts_with (B ":") (show_socket_addr (socket_addr i p)) = false) as ->; [|done].
    unfold show_socket_addr, starts_with. apply bool_decide_eq_false. intros [r Hr%strip_prefix_Some].
    destruct i as [o|o]; cbn [ip socket_addr] in Hr; [|done].
    pose proof (show_ipv4_no_colon o) as Hn. pose proof (show_ipv4_not_nil o Hi) as Hne.
    destruct (show_ipv4 o) as [|x s]; [done|]. injection Hr as -> _. apply Hn, list_elem_of_here.
Qed.

Lemma listen_address_correct_witness :
  (∃ log, listen_address (B ":23182") = Ok (socket_addr (V6 (replicate 16 x00)) 23182, log, true)) ∧
  (∃ log, listen_address (B "10.0.0.1:23182") = Ok (socket_addr (V4 [x0a; x00; x00; x01]) 23182, log, false)).
Proof. apply (listen_address_correct (V4 [x0a; x00; x00; x01]) 23182); vm_compute; [done|split; discriminate]. Defined.

(** ** Shutdown *)
Definition worker_ok (s : Sys) (w : Worker) : Prop :=
  (length (conn_tasks w) ≤ max_concurrent_connection_handlers)%nat ∧
  (wstate w = WDone → conn_tasks w = []) ∧
  (∀ d, wstate w = WDrain d true → ∀ stop, main s = MStopping stop →
     stop - accept_stop_timeout + connection_drain_timeout <= d) ∧
  (told w ≠ [] → cancelled w = true).

Definition sys_ok (s : Sys) : Prop :=
  Forall (worker_ok s) (workers s) ∧
  match main s with
  | MServing => shutdown_tx s = false ∧ Forall (λ w, (∀ d, wstate w ≠ WDrain d true) ∧ cancelled w = false) (workers s)
  | MStopping stop => stop <= now s + accept_stop_timeout ∧ Forall (λ w, cancelled w = false) (workers s)
  | MJoining => Forall (λ w, cancelled w = true) (workers s)
  | MReturned => Forall (λ w, cancelled w = true ∧ wstate w = WDone) (workers s)
  end.

Lemma worker_step_ok s l w :
  worker_ok s w → (main s = MServing → shutdown_tx s = false) →
  (∀ stop, main s = MStopping stop → stop <= now s + accept_stop_timeout) →
  worker_ok s (worker_step (now s) (shutdown_tx s) l w).
Proof.
  intros Hw Hmain Hstop. pose proof Hw as (Hl & Hd & Ht & Hc). unfold worker_step.
  assert (∀ by_shutdown, worker_ok s (start_drain (now s) by_shutdown w)) as Hdrain.
  { intros b. split_and!; cbn; [done|done| |done]. intros d [= <- ->] stop Hs. specialize (Hstop _ Hs). lia. }
  destruct l as [| | | |w0 i| | | | |w0 i| | |]; try done.
  - by destruct (wstate w).
  - by destruct (wstate w).
  - destruct (wstate w) eqn:E; try done. destruct (Nat.ltb_spec (length (conn_tasks w)) max_concurrent_connection_handlers); [|done].
    split_and!; cbn [conn_tasks wstate length]; done || lia.
  - split_and!; cbn [conn_tasks wstate told cancelled].
    + etrans; [apply length_filter|done].
    + by intros ->%Hd.
    + done.
    + done.
  - destruct (wstate w), (shutdown_tx s); done.
  - destruct (wstate w) as [| |d b| |]; try done. case_decide; [split_and!; cbn; done || lia|].
    destruct (_ <=? _); [split_and!; cbn; done|done].
  - destruct (wstate w); try done. case_decide; [|done]. split_and!; cbn; done || lia.
  - destruct (wstate w) eqn:E; try done; (destruct (cancelled w) eqn:Ecw; [|done]); split_and!; cbn; done || lia.
  - split_and!; cbn [conn_tasks wstate told cancelled]; try done. intros Hn. apply Hc. by destruct (told w).
Qed.

Lemma worker_ok_weaken s s' w :
  (∀ stop, main s' = MStopping stop → main s = MStopping stop) → worker_ok s w → worker_ok s' w.
Proof. intros Hm (? & ? & Ht & ?). split_and!; [done|done| |done]. intros d Hd stop Hs. eapply Ht; eauto. Qed.

Lemma worker_step_by_shutdown now l w d :
  wstate (worker_step now false l w) = WDrain d true → wstate w = WDrain d true.
Proof.
  unfold worker_step. destruct l; try done; destruct (wstate w) eqn:E; try done; cbn; rewrite ?E; try done;
    repeat case_match; cbn; rewrite ?E; try done.
Qed.

Lemma worker_step_done now b l w : wstate w = WDone → wstate (worker_step now b l w) = WDone.
Proof. unfold worker_step. intros E. destruct l; try done; cbn; rewrite ?E; try done. Qed.
Lemma worker_step_cancelled now b l w : cancelled (worker_step now b l w) = cancelled w.
Proof. unfold worker_step. destruct l; try done; destruct (wstate w); try done; cbn; repeat case_match; done. Qed.

Lemma set_worker_ok s i w l :
  sys_ok s → workers s !! i = Some w → sys_ok (set_worker s i (worker_step (now s) (shutdown_tx s) l w)).
Proof.
  intros [Hw Hm] Hi. assert (worker_ok s w) as Hwi by by eapply Forall_lookup_1.
  assert (worker_ok s (worker_step (now s) (shutdown_tx s) l w)) as Hwi'.
  { apply worker_step_ok; [done| |]; [intros E; by rewrite E in Hm; destruct Hm|intros stop E; by rewrite E in Hm; destruct Hm]. }
  unfold set_worker. split; cbn [workers main now shutdown_tx].
  - apply Forall_insert; [|by eapply worker_ok_weaken].
    eapply Forall_impl; [exact Hw|]. intros w' Hw'. by eapply worker_ok_weaken; [|exact Hw'].
  - destruct (main s) as [|stop| |].
    + destruct Hm as [Hs Hf]. split; [done|]. pose proof (Forall_lookup_1 _ _ _ _ Hf Hi) as [Hd Hc]. apply Forall_insert; [done|].
      split; [|by rewrite worker_step_cancelled]. rewrite Hs. intros d Hd'%worker_step_by_shutdown. by eapply Hd.
    + destruct Hm as [? Hf]. split; [done|]. apply Forall_insert; [done|]. rewrite worker_step_cancelled. by eapply (Forall_lookup_1 _ _ _ _ Hf Hi).
    + apply Forall_insert; [done|]. rewrite worker_step_cancelled. by eapply (Forall_lookup_1 _ _ _ _ Hm Hi).
    + pose proof (Forall_lookup_1 _ _ _ _ Hm Hi) as [Hc Hd]. apply Forall_insert; [done|]. rewrite worker_step_cancelled. split; [done|]. by apply worker_step_done.
Qed.

Lemma abort_worker_ok s s' w : (∀ stop, main s' ≠ MStopping stop) → worker_ok s w → worker_ok s' (abort_worker w).
Proof. intros Hm (? & ? & Ht & ?). split_and!; [done|done| |done]. intros d Hd stop Hs. by destruct (Hm stop). Qed.

Lemma serve_step_ok s l : sys_ok s → sys_ok (serve_step s l).
Proof.
  intros Hok. pose proof Hok as [Hw Hm].
  assert (∀ m b t, (∀ stop, m ≠ MStopping stop) ∨ m = main s → Forall (worker_ok (mkSys t m b (workers s))) (workers s)) as Hweak.
  { intros m b t [Hne|Hm']; (eapply Forall_impl; [exact Hw|]); intros w; apply worker_ok_weaken; cbn.
    - intros stop ->. by destruct (Hne stop).
    - by rewrite Hm'. }
  unfold serve_step. destruct (label_worker l) as [i|] eqn:El.
  - assert (sys_ok match workers s !! i with
                   | Some w => set_worker s i (worker_step (now s) (shutdown_tx s) l w) | None => s end).
    { destruct (workers s !! i) eqn:Ei; [by apply set_worker_ok|done]. }
    by destruct l, (main s).
  - destruct l; try done; destruct (main s) as [|stop| |] eqn:Em; try done.
    all: try (split; cbn [workers main now]; [by apply Hweak; (by right || by left)|]; cbn; try done; try lia).
    + destruct Hm. split; [lia|done].
    + split; cbn [workers main now].
      * destruct Hm as [_ Hf]. rewrite Forall_forall in *. intros w Hin. destruct (Hw w Hin) as (Hl & Hd & _ & Hc). split_and!; [done|done| |done].
        intros d Hd'. destruct (Hf w Hin) as [Hn _]. by destruct (Hn d).
      * destruct Hm as [_ Hf]. split; [lia|]. eapply Forall_impl; [exact Hf|]. by intros w [_ ?].
    + case_match; [|done]. split; cbn [workers main].
      * apply Forall_fmap. eapply Forall_impl; [exact Hw|]. intros w. by apply abort_worker_ok.
      * by apply Forall_fmap, Forall_forall.
    + destruct (forallb finished (workers s)) eqn:Ef; [|done]. split; cbn [workers main]; [by apply Hweak; left|].
      rewrite Forall_forall in *. intros w Hin. split; [by apply Hm|].
      rewrite List.forallb_forall in Ef. specialize (Ef w (proj1 (list_elem_of_In _ _) Hin)). unfold finished in Ef. by destruct (wstate w).
Qed.

Lemma serve_run_ok n ls : sys_ok (serve_with_shutdown n ls).
Proof.
  unfold serve_with_shutdown. apply (foldl_invariant _ sys_ok); [intros; by apply serve_step_ok|].
  unfold Sys_new. split; cbn [workers main shutdown_tx].
  - apply Forall_replicate. split_and!; cbn; [lia|done|done|done].
  - split; [done|]. by apply Forall_replicate.
Qed.

(** The handlers that nobody has told to stop, and those that were told and have not ended yet. *)
Definition running (s : Sys) : list nat := concat (conn_tasks <$> workers s).
Definition leftover (s : Sys) : list nat := concat (told <$> workers s).

Lemma all_done_running ws : Forall (λ w, wstate w = WDone ∧ conn_tasks w = []) ws → concat (conn_tasks <$> ws) = [].
Proof. induction 1 as [|w ws [_ Hw] _ IH]; [done|]. cbn. by rewrite Hw. Qed.

Lemma returned_running s : sys_ok s → main s = MReturned → running s = [].
Proof.
  intros [Hw Hm] E. rewrite E in Hm. unfold running. apply all_done_running. rewrite Forall_forall in *. intros w Hin.
  destruct (Hm w Hin) as [_ Hd]. split; [done|]. by apply (Hw w Hin).
Qed.

(** *** What stays true whatever happens *)
Definition joining (s : Sys) : Prop := main s = MJoining ∨ main s = MReturned.
Definition stopping (stop : Z) (s : Sys) : Prop := main s = MStopping stop ∨ joining s.
Definition done_at (i : nat) (s : Sys) : Prop := ∃ w, workers s !! i = Some w ∧ wstate w = WDone.
Definition stable (Q : Sys → Prop) : Prop := ∀ s l, Q s → Q (serve_step s l).

Lemma stable_run Q s ls : stable Q → Q s → Q (foldl serve_step s ls).
Proof. intros HQ. by apply foldl_invariant. Qed.

Lemma serve_step_main s l : main (serve_step s l) = main s ∨
  (l = LShutdown ∧ main s = MServing) ∨ (l = LMainPoll ∧ ∃ stop, main s = MStopping stop ∧ main (serve_step s l) = MJoining) ∨
  (l = LJoined ∧ main s = MJoining ∧ main (serve_step s l) = MReturned).
Proof.
  unfold serve_step. destruct l; cbn [label_worker]; try (left; destruct (main s) eqn:E, (workers s !! w); cbn; by rewrite ?E); try (by left).
  - destruct (main s) eqn:E; try (by left). right. left. done.
  - destruct (main s) as [|stop| |] eqn:E; try (by left). destruct ((stop <=? now s) || forallb finished (workers s)); [|by left].
    right. right. left. split; [done|]. by exists stop.
  - destruct (main s) eqn:E; try (by left). destruct (forallb finished (workers s)); [|by left]. right. right. right. done.
Qed.

Lemma joining_stable : stable joining.
Proof.
  intros s l Hs. destruct (serve_step_main s l) as [E|[[_ E]|[(_ & st & E & E')|(_ & E & E')]]]; unfold joining in *; rewrite ?E'; auto.
  - by rewrite E.
  - destruct Hs; congruence.
Qed.
Lemma stopping_stable stop : stable (stopping stop).
Proof.
  intros s l [Hs|Hs]; [|right; by apply joining_stable].
  destruct (serve_step_main s l) as [E|[[_ E]|[(_ & st & E & E')|(_ & E & E')]]]; unfold stopping, joining; rewrite ?E'; auto; [|congruence].
  left. congruence.
Qed.
Lemma returned_stable : stable (λ s, main s = MReturned).
Proof. intros s l Hs. destruct (serve_step_main s l) as [E|[[_ E]|[(_ & st & E & E')|(_ & E & E')]]]; congruence. Qed.

(** A step on the workers, one by one. *)
Lemma serve_step_worker s l i w : workers s !! i = Some w →
  ∃ w', workers (serve_step s l) !! i = Some w' ∧ (w' = w ∨ w' = abort_worker w ∨ label_worker l = Some i ∧ w' = worker_step (now s) (shutdown_tx s) l w).
Proof.
  intros Hi. assert (∀ j, label_worker l = Some j → ∃ w', workers match workers s !! j with
      | Some w => set_worker s j (worker_step (now s) (shutdown_tx s) l w) | None => s end !! i = Some w' ∧
      (w' = w ∨ w' = abort_worker w ∨ label_worker l = Some i ∧ w' = worker_step (now s) (shutdown_tx s) l w)) as Hset.
  { intros j Hj. destruct (workers s !! j) as [x|] eqn:Ej; [|eauto]. cbn. destruct (decide (j = i)) as [->|Hji].
    - rewrite list_lookup_insert_eq by (by eapply lookup_lt_Some). simplify_eq. eauto 6.
    - rewrite list_lookup_insert_ne by done. eauto. }
  unfold serve_step. destruct l; cbn [label_worker] in *; try (destruct (main s); by apply Hset); try (destruct (main s); by eauto).
  - destruct (main s); eauto. destruct (_ || _); [|eauto]. cbn. rewrite list_lookup_fmap, Hi. eauto.
  - destruct (main s); eauto. destruct (forallb _ _); eauto.
Qed.

Lemma done_stable i : stable (done_at i).
Proof.
  intros s l (w & Hi & Hd). destruct (serve_step_worker s l i w Hi) as (w' & Hi' & Hw'). exists w'. split; [done|].
  destruct Hw' as [->|[->|[_ ->]]]; [done|done|]. by apply worker_step_done.
Qed.

Lemma serve_step_length s l : length (workers (serve_step s l)) = length (workers s).
Proof.
  unfold serve_step. destruct l; cbn [label_worker]; try done; try (destruct (main s); destruct (workers s !! w); cbn; by rewrite ?length_insert).
  - by destruct (main s).
  - destruct (main s); try done. destruct (_ || _); cbn; by rewrite ?length_fmap.
  - destruct (main s); try done. by destruct (forallb _ _).
Qed.
Lemma serve_run_length s ls : length (workers (foldl serve_step s ls)) = length (workers s).
Proof. revert s. induction ls as [|l ls IH]; intros s; [done|]. cbn [foldl]. by rewrite IH, serve_step_length. Qed.

(** The time that passes. *)
Definition ticks (l : Label) : Z := match l with LTick d => Z.of_N d | _ => 0 end.
Definition elapsed (ls : list Label) : Z := foldr (λ l t, ticks l + t) 0 ls.
Lemma serve_step_now s l : now (serve_step s l) = now s + ticks l.
Proof.
  unfold serve_step. destruct l; cbn [label_worker ticks]; try (destruct (main s); destruct (workers s !! w); cbn; lia); try (destruct (main s); cbn; lia).
  - destruct (main s); try destruct (_ || _); cbn; lia.
  - destruct (main s); try destruct (forallb _ _); cbn; lia.
Qed.
Lemma serve_run_now s ls : now (foldl serve_step s ls) = now s + elapsed ls.
Proof. revert s. induction ls as [|l ls IH]; intros s; cbn [foldl elapsed foldr]; [lia|]. rewrite IH, serve_step_now. unfold elapsed. lia. Qed.

(** *** The way to the end *)
Lemma main_poll_joins stop s : stopping stop s → stop <= now s → joining (serve_step s LMainPoll).
Proof.
  intros [E|[E|E]] Ht; unfold joining, serve_step; rewrite E; cbn; [|by left|by right]. destruct (Z.leb_spec stop (now s)); [by left|lia].
Qed.

Lemma cancelled_done s i : sys_ok s → joining s → (i < length (workers s))%nat → done_at i (serve_step s (LCancelled i)).
Proof.
  intros [_ Hm] Hj [w Hi]%lookup_lt_is_Some_2. assert (cancelled w = true) as Hc.
  { destruct Hj as [E|E]; rewrite E in Hm; by apply (Forall_lookup_1 _ _ _ _ Hm Hi). }
  exists (worker_step (now s) (shutdown_tx s) (LCancelled i) w). split.
  - unfold serve_step. cbn [label_worker]. rewrite Hi. apply list_lookup_insert_eq; by eapply lookup_lt_Some.
  - unfold worker_step. destruct (wstate w) eqn:E; rewrite ?Hc; done.
Qed.

Lemma joined_returns s : joining s → (∀ i, (i < length (workers s))%nat → done_at i s) → main (serve_step s LJoined) = MReturned.
Proof.
  intros [E|E] Hd; unfold serve_step; rewrite E; cbn [label_worker]; [|exact E]. assert (forallb finished (workers s) = true) as ->; [|done].
  apply List.forallb_forall. intros w [i Hi]%list_elem_of_In%list_elem_of_lookup. destruct (Hd i) as (w' & Hi' & Hw); [by eapply lookup_lt_Some|].
  simplify_eq. unfold finished. by rewrite Hw.
Qed.

Lemma elem_split_run {A} (x : A) ls : x ∈ ls → ∃ l1 l2, ls = l1 ++ x :: l2.
Proof. apply list_elem_of_split. Qed.

(** Each worker is dropped. *)
Lemma cancelled_all s ls i : sys_ok s → joining s → (i < length (workers s))%nat → LCancelled i ∈ ls → done_at i (foldl serve_step s ls).
Proof.
  intros Hok Hj Hi (l1 & l2 & ->)%elem_split_run. rewrite foldl_app. cbn [foldl]. apply stable_run; [apply done_stable|]. apply cancelled_done.
  - apply (foldl_invariant _ sys_ok); [intros; by apply serve_step_ok|done].
  - by apply stable_run; [apply joining_stable|].
  - by rewrite serve_run_length.
Qed.

Lemma serve_stops stop s l1 l2 : sys_ok s → stopping stop s → stop <= now s + elapsed l1 →
  (∀ i, (i < length (workers s))%nat → LCancelled i ∈ l2) → main (foldl serve_step s (l1 ++ LMainPoll :: l2 ++ [LJoined])) = MReturned.
Proof.
  intros Hok Hs Ht Hc. rewrite foldl_app. cbn [foldl]. rewrite foldl_app. set (s1 := foldl serve_step s l1). set (s2 := serve_step s1 LMainPoll). cbn [foldl].
  assert (sys_ok s1) as Hok1 by (apply (foldl_invariant _ sys_ok); [intros; by apply serve_step_ok|done]).
  assert (joining s2) as Hj2.
  { apply (main_poll_joins stop); [by apply stable_run; [apply stopping_stable|]|]. unfold s1. by rewrite serve_run_now. }
  assert (length (workers s2) = length (workers s)) as El by (unfold s2, s1; by rewrite serve_step_length, serve_run_length).
  apply joined_returns; [by apply stable_run; [apply joining_stable|]|]. intros i Hi. rewrite serve_run_length, El in Hi.
  apply cancelled_all; [by apply serve_step_ok|done|by rewrite El|by apply Hc].
Qed.

(** Once the server has returned, the handlers that were told to stop only get fewer. *)
Lemma told_shrinks now b l w : wstate w = WDone →
  (∀ j, j ∈ told (worker_step now b l w) → j ∈ told w) ∧ ∀ i j, l = LToldDone i j → j ∉ told (worker_step now b l w).
Proof.
  intros E. unfold worker_step. split.
  - intros j. destruct l; try done; cbn; rewrite ?E; try done. by intros [_ ?]%list_elem_of_filter.
  - intros i j ->. cbn. by intros [? _]%list_elem_of_filter.
Qed.

Lemma told_gone s i j ls : main s = MReturned → sys_ok s → (∀ w, workers s !! i = Some w → j ∈ told w → LToldDone i j ∈ ls) →
  ∀ w, workers (foldl serve_step s ls) !! i = Some w → j ∉ told w.
Proof.
  revert s. induction ls as [|l ls IH]; intros s Hm Hok Hl w; cbn [foldl].
  - intros Hi Hj. specialize (Hl w Hi Hj). by apply not_elem_of_nil in Hl.
  - apply IH; [by apply returned_stable|by apply serve_step_ok|]. intros w1 Hi1 Hj1.
    destruct (workers s !! i) as [w0|] eqn:Hi0; [|apply lookup_ge_None in Hi0; apply lookup_lt_Some in Hi1; rewrite serve_step_length in Hi1; lia].
    destruct Hok as [_ Hok]. rewrite Hm in Hok. destruct (Forall_lookup_1 _ _ _ _ Hok Hi0) as [_ Hd].
    destruct (serve_step_worker s l i w0 Hi0) as (w' & Hi' & Hw'). simplify_eq.
    assert (l ≠ LToldDone i j) as Hne.
    { intros ->. unfold serve_step in Hi1. cbn [label_worker] in Hi1. rewrite Hi0 in Hi1. cbn [workers set_worker] in Hi1.
      rewrite list_lookup_insert_eq in Hi1 by (by eapply lookup_lt_Some). injection Hi1 as Hi1. rewrite <-Hi1 in Hj1.
      by apply (proj2 (told_shrinks (now s) (shutdown_tx s) (LToldDone i j) w0 Hd) i j eq_refl). }
    assert (j ∈ told w0) as Hj0.
    { destruct Hw' as [->|[->|[_ ->]]]; [done|done|]. by apply (proj1 (told_shrinks (now s) (shutdown_tx s) l w0 Hd)). }
    specialize (Hl w0 eq_refl Hj0). apply elem_of_cons in Hl as [Hl|Hl]; [by destruct Hne|done].
Qed.

Lemma told_nil ws : (∀ i w j, ws !! i = Some w → j ∉ told w) → concat (told <$> ws) = [].
Proof.
  induction ws as [|w ws IH]; intros Hw; [done|]. cbn. assert (told w = []) as ->.
  { destruct (told w) as [|j l] eqn:E; [done|]. destruct (Hw O w j eq_refl). rewrite E. by left. }
  apply IH. intros i. apply (Hw (S i)).
Qed.

(** C30: under every schedule an accept worker runs at most 1024 connection handlers.  From the moment the shutdown is
    requested [serve_with_shutdown] returns: whatever else happens, once three seconds have passed the main task's next
    poll aborts the workers, and when the runtime has dropped them the join succeeds.  When it has returned every handler
    has ended or has been told to stop, and those that were told are gone when the runtime has dropped them too; the
    function does not wait for that.  (Tasks that a handler spawned on its own are not handlers.) *)
Theorem shutdown_completes n ls :
  let s := serve_with_shutdown n ls in
  Forall (λ w, (length (conn_tasks w) ≤ max_concurrent_connection_handlers)%nat) (workers s) ∧
  (∀ stop l1 l2, main s = MStopping stop → accept_stop_timeout <= elapsed l1 → (∀ i, (i < n)%nat → LCancelled i ∈ l2) →
     main (foldl serve_step s (l1 ++ LMainPoll :: l2 ++ [LJoined])) = MReturned) ∧
  (main s = MReturned → running s = [] ∧
     ∀ l3, (∀ i w j, workers s !! i = Some w → j ∈ told w → LToldDone i j ∈ l3) → leftover (foldl serve_step s l3) = []).
Proof.
  intros s. pose proof (serve_run_ok n ls) as Hok. fold s in Hok. assert (length (workers s) = n) as Hn.
  { unfold s, serve_with_shutdown. rewrite serve_run_length. apply length_replicate. }
  split_and!.
  - eapply Forall_impl; [apply Hok|]. by intros w (? & _).
  - intros stop l1 l2 E Ht Hc. pose proof Hok as [_ Hm]. rewrite E in Hm. destruct Hm as [Hst _].
    apply (serve_stops stop); [done|by left|unfold accept_stop_timeout in *; lia|by rewrite Hn].
  - intros E. split; [by apply returned_running|]. intros l3 Hl. apply told_nil. intros i w j. apply told_gone; try done. intros w0 Hi. by apply Hl.
Qed.

(** A handler that goes on: after three seconds its worker is dropped and the server returns; then it is dropped itself. *)
Lemma shutdown_completes_witness :
  let s := serve_with_shutdown 2 [LIncoming 0; LAcquired 0; LShutdown; LShutdownSeen 0] in
  let s' := foldl serve_step s ([LTick 3000] ++ LMainPoll :: [LCancelled 1; LCancelled 0] ++ [LJoined]) in
  running s = [0%nat] ∧ main s' = MReturned ∧ running s' = [] ∧ leftover s' = [0%nat] ∧ leftover (foldl serve_step s' [LToldDone 0 0]) = [].
Proof.
  intros s s'. assert (main s' = MReturned) as Hm.
  { apply (proj1 (proj2 (shutdown_completes 2 [LIncoming 0; LAcquired 0; LShutdown; LShutdownSeen 0])) 3000 [LTick 3000] [LCancelled 1; LCancelled 0]); [by vm_compute..|].
    intros [|[|i]] Hi; [by right; left|by left|lia]. }
  assert (s' = serve_with_shutdown 2 ([LIncoming 0; LAcquired 0; LShutdown; LShutdownSeen 0] ++ [LTick 3000] ++ LMainPoll :: [LCancelled 1; LCancelled 0] ++ [LJoined])) as E by done.
  rewrite E in Hm |- *. destruct (proj2 (proj2 (shutdown_completes 2 _)) Hm) as [Hr Hl].
  split; [by vm_compute|]. split; [exact Hm|]. split; [exact Hr|]. split; [by vm_compute|]. apply Hl.
  intros [|[|i]] w j Hi; vm_compute in Hi; simplify_eq; cbn; [|by intros ?%not_elem_of_nil]. intros ->%list_elem_of_singleton. by left.
Defined.

(** The five seconds connections are given to drain never pass: a worker that
    drains because of the shutdown has a deadline at least two seconds after the
    moment the main task gives up waiting, and from that moment on every handler that
    still runs is told to stop as soon as its worker is dropped. *)
Theorem drain_cut_short n ls stop i :
  let s := serve_with_shutdown n ls in
  main s = MStopping stop → stop <= now s → (i < n)%nat →
  Forall (λ w, ∀ d, wstate w = WDrain d true → stop + 2000 <= d) (workers s) ∧
  ∃ w, workers (foldl serve_step s [LMainPoll; LCancelled i]) !! i = Some w ∧ wstate w = WDone ∧ conn_tasks w = [].
Proof.
  intros s E Hs Hi. pose proof (serve_run_ok n ls) as Hok. fold s in Hok. split.
  - eapply Forall_impl; [apply Hok|]. intros w (_ & _ & Ht & _) d Hd. specialize (Ht d Hd stop E).
    unfold accept_stop_timeout, connection_drain_timeout, secs in Ht. lia.
  - assert (length (workers s) = n) as Hn by (unfold s, serve_with_shutdown; rewrite serve_run_length; apply length_replicate).
    assert (sys_ok (serve_step s LMainPoll)) as Hok1 by by apply serve_step_ok.
    destruct (cancelled_done (serve_step s LMainPoll) i) as (w & Hw & Hd); [done|apply (main_poll_joins stop); [by left|done]|by rewrite serve_step_length, Hn|].
    exists w. split; [done|]. split; [done|]. assert (sys_ok (serve_step (serve_step s LMainPoll) (LCancelled i))) as [Hok2 _] by by apply serve_step_ok.
    by apply (Forall_lookup_1 _ _ _ _ Hok2 Hw).
Qed.

Lemma drain_cut_short_witness :
  let s := serve_with_shutdown 1 [LIncoming 0; LAcquired 0; LShutdown; LShutdownSeen 0; LTick 3000] in
  running s = [0%nat] ∧
  Forall (λ w, ∀ d, wstate w = WDrain d true → 3000 + 2000 <= d) (workers s) ∧
  ∃ w, workers (foldl serve_step s [LMainPoll; LCancelled 0]) !! O = Some w ∧ wstate w = WDone ∧ conn_tasks w = [].
Proof.
  split; [by vm_compute|].
  apply (drain_cut_short 1 [LIncoming 0; LAcquired 0; LShutdown; LShutdownSeen 0; LTick 3000] 3000 0); by vm_compute.
Defined.

(** ** A concrete configuration *)
Module Sample.
#[export] Instance hash_order : HashOrder := { hm_iter m := map_to_list m; hm_iter_perm m := reflexivity _ }.
#[export] Instance uuid_parse : UuidParse := λ s, if decide (length s = 16%nat) then Some s else None.
Definition config : Config :=
  let c := Config_default in
  mkConfig (server c) (uuid c) (password c) (sni c) (allow_insecure c) (pinned_certchain_sha256 c) (protect_path c)
    (forward c) (fwmark c) {[B "0123456789abcdef" := B "pw"]} (B "c.pem") (B "k.pem") (B "10.0.0.1") (dialer_link c)
    false (B ":443") (B "CUBIC") (log_level c) (Some 20) None None None.
Definition resolver : @ReloadingCertificateResolver unit := mkResolver (B "c.pem") (B "k.pem") (mkCached tt (0, 0)).
End Sample.
#[local] Existing Instances Sample.hash_order Sample.uuid_parse.

Example sample_transport : congestion_controller (transport_config Sample.config) = Cubic
  ∧ stream_receive_window (transport_config Sample.config) = 524288
  ∧ receive_window (transport_config Sample.config) = 8388608.
Proof. by vm_compute. Qed.

Lemma new_correct_witness :
  match JuicityServer_new (λ _ _, Ok Sample.resolver) (Ok tt) Sample.config with
  | Ok srv => ∀ id uuid pw, Config.users Sample.config !! id = Some pw → parse_uuid id = Some uuid →
                (∀ id' pw', Config.users Sample.config !! id' = Some pw' → parse_uuid id' = Some uuid → pw' = pw) →
                users srv !! uuid = Some pw
  | Err _ => False
  end.
Proof.
  destruct (JuicityServer_new (λ _ _, Ok Sample.resolver) (Ok tt) Sample.config) as [srv|e] eqn:E.
  - exact (proj2 (proj2 (new_correct (λ _ _, Ok Sample.resolver) (Ok tt) Sample.config) srv E)).
  - by vm_compute in E.
Defined.
