(* ===== verification/Reconnect.v ===== *)
(** * [client/src/client.rs]: the shared connection and its reconnection

    [connect_inner], [wait_for_reconnect], [lead_reconnect] and the guard of a
    cancelled leader, as a machine over any number of callers, with the
    reconnect mutex explicit. *)
From S2P Require Import Prelude Std Consts.
#[local] Open Scope Z_scope.

(** [ReconnectState]; errors are shared by their text. *)
Record ReconnectState := mkReconnect {
  last_failure : option (Z * error);
  attempts : Z;
  in_flight : bool;
  record_failure : bool;
  done_notify : option nat;
}.

Definition ReconnectState_default : ReconnectState := mkReconnect None 0 false false None.

(** [1 << attempts.min(5)] seconds, at most 30. *)
Definition reconnect_delay (attempts : Z) : Z := secs (Z.min (Z.shiftl 1 (Z.min attempts 5)) 30).

(** Where a call is.  A waiter carries its [Notify] and whether it fired. *)
Inductive CallState :=
  | CFast
  | CLock
  | CDecide
  | CWaitLive (n : nat) (notified : bool)
  | CWaitLock (n : nat) (notified : bool)
  | CWaitDecide (n : nat) (notified : bool)
  | CAwait (n : nat) (notified : bool)
  | CAfter
  | CAfterLock
  | CLeadStart (n : nat)
  | CLeadClear (n : nat)
  | CDial (n : nat)
  | CFailLock (n : nat) (e : error)
  | CAuthStore (n : nat) (conn : nat)
  | COkLock (n : nat) (conn : nat)
  | CPublish (n : nat) (conn : nat)
  | CNotify (n : nat) (r : result nat)
  | CGuard (n : nat)
  | CDone (r : option (result nat)).

Record Call := mkCall { records_failure : bool; pc : CallState }.
Definition set_pc (c : Call) (s : CallState) : Call := mkCall (records_failure c) s.

(** What the callers share: the connection (a closed one counts as none), the
    authentication stream by its connection, the mutex by its holder, and the
    guarded state. *)
Record Shared := mkShared {
  connection : option nat;
  auth_uni_stream : option nat;
  lock : option nat;
  reconnect : ReconnectState;
  next_notify : nat;
}.

Definition set_lock (l : option nat) (s : Shared) : Shared := mkShared (connection s) (auth_uni_stream s) l (reconnect s) (next_notify s).

(** Under the lock, with no live connection and no failure to share: join the
    attempt that is in flight or lead a new one.  An attempt without its
    [Notify] makes the [expect] panic. *)
Definition join_or_lead (c : Call) (s : Shared) : Shared * Call :=
  let r := reconnect s in
  match in_flight r, done_notify r with
  | true, None => (s, set_pc c (CDone None))
  | true, Some n =>
      (mkShared (connection s) (auth_uni_stream s) (lock s)
         (mkReconnect (last_failure r) (attempts r) true (record_failure r || records_failure c) (Some n)) (next_notify s),
       set_pc c (CWaitLive n false))
  | false, _ =>
      let n := next_notify s in
      (mkShared (connection s) (auth_uni_stream s) (lock s)
         (mkReconnect (last_failure r) (attempts r) true (records_failure c) (Some n)) (S n),
       set_pc c (CLeadStart n))
  end.

(** The decision of [connect_inner]; the lock is released at its end. *)
Definition decide_connect (now : Z) (c : Call) (s : Shared) : Shared * Call :=
  let s := set_lock None s in
  let r := reconnect s in
  match connection s with
  | Some conn => (s, set_pc c (CDone (Some (Ok conn))))
  | None =>
      match last_failure r with
      | Some (last, e) =>
          if now - last <? reconnect_delay (attempts r) then (s, set_pc c (CDone (Some (Err e))))
          else join_or_lead c s
      | None => join_or_lead c s
      end
  end.

(** What a waiter returns after the attempt ended. *)
Definition after_attempt (s : Shared) : CallState :=
  match last_failure (reconnect s) with
  | Some (_, e) => CDone (Some (Err e))
  | None => CLock
  end.

Definition publish_failure (now : Z) (e : error) (r : ReconnectState) : ReconnectState :=
  if record_failure r
  then mkReconnect (Some (now, e)) (u32_saturating_add (attempts r) 1) false (record_failure r) None
  else mkReconnect (last_failure r) (attempts r) false (record_failure r) None.

(** The drop of an armed guard, whose [try_lock] fails while anyone holds the
    lock. *)
Definition guard_drop (s : Shared) : Shared * list nat :=
  let r := reconnect s in
  match lock s with
  | None =>
      (mkShared (connection s) (auth_uni_stream s) (lock s)
         (mkReconnect (last_failure r) (attempts r) false (record_failure r) None) (next_notify s),
       match done_notify r with Some n => [n] | None => [] end)
  | Some _ => (s, [])
  end.

(** One step of call [i].  [dialled] is the outcome of resolving and dialling,
    if it is there. *)
Definition connect_step (now : Z) (i : nat) (s : Shared) (c : Call) (dialled : option (result nat))
    : Shared * list nat * Call :=
  let acquire (p : CallState) :=
    match lock s with
    | None => (set_lock (Some i) s, [], set_pc c p)
    | Some _ => (s, [], c)
    end in
  match pc c with
  | CFast =>
      match connection s with
      | Some conn => (s, [], set_pc c (CDone (Some (Ok conn))))
      | None => (s, [], set_pc c CLock)
      end
  | CLock => acquire CDecide
  | CDecide => let '(s, c) := decide_connect now c s in (s, [], c)
  | CWaitLive n b =>
      match connection s with
      | Some conn => (s, [], set_pc c (CDone (Some (Ok conn))))
      | None => (s, [], set_pc c (CWaitLock n b))
      end
  | CWaitLock n b => acquire (CWaitDecide n b)
  | CWaitDecide n b =>
      let s := set_lock None s in
      if in_flight (reconnect s) then (s, [], set_pc c (CAwait n b))
      else
        match connection s with
        | Some conn => (s, [], set_pc c (CDone (Some (Ok conn))))
        | None => (s, [], set_pc c (after_attempt s))
        end
  | CAwait n b => if b then (s, [], set_pc c CAfter) else (s, [], c)
  | CAfter =>
      match connection s with
      | Some conn => (s, [], set_pc c (CDone (Some (Ok conn))))
      | None => (s, [], set_pc c CAfterLock)
      end
  | CAfterLock =>
      match lock s with
      | None => (s, [], set_pc c (after_attempt s))
      | Some _ => (s, [], c)
      end
  | CLeadStart n => (mkShared None (auth_uni_stream s) (lock s) (reconnect s) (next_notify s), [], set_pc c (CLeadClear n))
  | CLeadClear n => (mkShared (connection s) None (lock s) (reconnect s) (next_notify s), [], set_pc c (CDial n))
  | CDial n =>
      match dialled with
      | Some (Ok conn) => (s, [], set_pc c (CAuthStore n conn))
      | Some (Err e) => (s, [], set_pc c (CFailLock n e))
      | None => (s, [], c)
      end
  | CFailLock n e =>
      match lock s with
      | None => (mkShared (connection s) (auth_uni_stream s) (lock s) (publish_failure now e (reconnect s)) (next_notify s), [],
                 set_pc c (CNotify n (Err e)))
      | Some _ => (s, [], c)
      end
  | CAuthStore n conn =>
      (mkShared (connection s) (Some conn) (lock s) (reconnect s) (next_notify s), [], set_pc c (COkLock n conn))
  | COkLock n conn => acquire (CPublish n conn)
  | CPublish n conn =>
      (mkShared (Some conn) (auth_uni_stream s) None ReconnectState_default (next_notify s), [], set_pc c (CNotify n (Ok conn)))
  | CNotify n r => (s, [n], set_pc c (CDone (Some r)))
  | CGuard n => let '(s, woken) := guard_drop s in (s, woken, set_pc c (CDone None))
  | CDone _ => (s, [], c)
  end.

(** Dropping a call at an await: it releases the lock if it holds it, and a
    leader is left with its guard to drop.  Between publishing and notifying
    there is no await. *)
Definition cancel (s : Shared) (c : Call) : Shared * Call :=
  match pc c with
  | CDecide | CWaitDecide _ _ => (set_lock None s, set_pc c (CDone None))
  | CPublish n _ => (set_lock None s, set_pc c (CGuard n))
  | CLeadStart n | CLeadClear n | CDial n | CFailLock n _ | CAuthStore n _ | COkLock n _ => (s, set_pc c (CGuard n))
  | CNotify _ _ | CGuard _ | CDone _ => (s, c)
  | _ => (s, set_pc c (CDone None))
  end.

Definition wake (woken : list nat) (c : Call) : Call :=
  match pc c with
  | CWaitLive n _ => if decide (n ∈ woken) then set_pc c (CWaitLive n true) else c
  | CWaitLock n _ => if decide (n ∈ woken) then set_pc c (CWaitLock n true) else c
  | CWaitDecide n _ => if decide (n ∈ woken) then set_pc c (CWaitDecide n true) else c
  | CAwait n _ => if decide (n ∈ woken) then set_pc c (CAwait n true) else c
  | _ => c
  end.

(** ** The system *)
Record System := mkSystem { now : Z; shared : Shared; calls : list Call }.

Inductive Label :=
  | LTick (d : N)
  | LConnect
  | LPreconnect
  | LStep (i : nat) (dialled : option (result nat))
  | LCancel (i : nat)
  | LConnectionClosed
  | LAuthStreamFailed.

Definition step (s : System) (l : Label) : System :=
  match l with
  | LTick d => mkSystem (now s + Z.of_N d) (shared s) (calls s)
  | LConnect => mkSystem (now s) (shared s) (calls s ++ [mkCall true CFast])
  | LPreconnect => mkSystem (now s) (shared s) (calls s ++ [mkCall false CFast])
  | LStep i dialled =>
      match calls s !! i with
      | Some c =>
          let '(sh, woken, c') := connect_step (now s) i (shared s) c dialled in
          mkSystem (now s) sh (<[i := c']> (wake woken <$> calls s))
      | None => s
      end
  | LCancel i =>
      match calls s !! i with
      | Some c => let '(sh, c') := cancel (shared s) c in mkSystem (now s) sh (<[i := c']> (calls s))
      | None => s
      end
  | LConnectionClosed =>
      mkSystem (now s) (mkShared None (auth_uni_stream (shared s)) (lock (shared s)) (reconnect (shared s))
                          (next_notify (shared s))) (calls s)
  | LAuthStreamFailed =>
      mkSystem (now s) (mkShared (connection (shared s)) None (lock (shared s)) (reconnect (shared s))
                          (next_notify (shared s))) (calls s)
  end.

Definition System_new : System := mkSystem 0 (mkShared None None None ReconnectState_default 0) [].
Definition run (ls : list Label) : System := foldl step System_new ls.

(** A guard is dropped while somebody holds the lock. *)
Definition guard_fails (s : System) (l : Label) : bool :=
  match l with
  | LStep i _ =>
      match calls s !! i with
      | Some c => match pc c with CGuard _ => bool_decide (lock (shared s) ≠ None) | _ => false end
      | None => false
      end
  | _ => false
  end.

Fixpoint guards_succeed (s : System) (ls : list Label) : bool :=
  match ls with
  | [] => true
  | l :: ls => negb (guard_fails s l) && guards_succeed (step s l) ls
  end.

(** ** Leaders and waiters *)

(** The attempt a call leads: it will end it, or drop its guard. *)
Definition leads (c : Call) : option nat :=
  match pc c with
  | CLeadStart n | CLeadClear n | CDial n | CFailLock n _ | CAuthStore n _ | COkLock n _ | CPublish n _ | CGuard n => Some n
  | _ => None
  end.

(** The attempt whose end a call still waits for. *)
Definition awaits (c : Call) : option nat :=
  match pc c with
  | CWaitLive n false | CWaitLock n false | CWaitDecide n false | CAwait n false => Some n
  | _ => None
  end.

Definition signals (n : nat) (c : Call) : Prop := leads c = Some n ∨ ∃ r, pc c = CNotify n r.
Definition is_leader (c : Call) : bool := bool_decide (is_Some (leads c)).

Definition leaders_ok (r : ReconnectState) (cs : list Call) : Prop :=
  count is_leader cs = (if in_flight r then 1 else 0)%nat ∧
  (in_flight r = true → is_Some (done_notify r)) ∧
  (∀ i c n, cs !! i = Some c → leads c = Some n → done_notify r = Some n).

Definition waiters_ok (cs : list Call) : Prop :=
  ∀ i c n, cs !! i = Some c → awaits c = Some n → ∃ j c', cs !! j = Some c' ∧ signals n c'.

Definition invariant (s : System) : Prop :=
  leaders_ok (reconnect (shared s)) (calls s) ∧ waiters_ok (calls s).

Lemma leads_wake woken c : leads (wake woken c) = leads c.
Proof. unfold wake, leads. destruct (pc c) eqn:E; try case_decide; simpl; by rewrite ?E. Qed.

Lemma is_leader_wake woken c : is_leader (wake woken c) = is_leader c.
Proof. unfold is_leader. by rewrite leads_wake. Qed.

Lemma reconnect_signals_wake n woken c : signals n (wake woken c) ↔ signals n c.
Proof.
  unfold signals. rewrite leads_wake. unfold wake. destruct (pc c) eqn:E; try case_decide; simpl; rewrite ?E; naive_solver.
Qed.

Lemma awaits_wake woken c n : awaits (wake woken c) = Some n → awaits c = Some n ∧ n ∉ woken.
Proof.
  unfold awaits, wake. destruct (pc c) as [| | |m b|m b|m b|m b| | | | | | | | | | | |] eqn:E; rewrite ?E; try done;
    (case_decide; simpl; rewrite ?E; [done|]; destruct b; [done|]; by intros [= ->]).
Qed.

Lemma count_fmap_wake woken cs : count is_leader (wake woken <$> cs) = count is_leader cs.
Proof.
  induction cs as [|c cs IH]; [done|]. rewrite fmap_cons, !count_cons, IH. by rewrite is_leader_wake.
Qed.

Lemma leader_true c n : leads c = Some n → is_leader c = true.
Proof. intros Hl. unfold is_leader. by rewrite Hl, bool_decide_true. Qed.

Lemma leader_false c : leads c = None → is_leader c = false.
Proof. intros Hl. unfold is_leader. rewrite Hl. apply bool_decide_false. by intros []%is_Some_None. Qed.

Lemma count_leader cs : (0 < count is_leader cs)%nat ↔ ∃ i c n, cs !! i = Some c ∧ leads c = Some n.
Proof.
  induction cs as [|c cs IH].
  - split; [cbn; lia|]. by intros (i & c & n & Hi & _).
  - rewrite count_cons. unfold is_leader. case_bool_decide as Hc.
    + split; [|lia]. intros _. destruct Hc as [n Hn]. by exists O, c, n.
    + rewrite Nat.add_0_l, IH. split.
      * intros (i & c1 & n & ? & ?). by exists (S i), c1, n.
      * intros ([|i] & c1 & n & Hi & Hn); [|by exists i, c1, n]. cbn in Hi. simplify_eq. destruct Hc. by exists n.
Qed.

(** How one call's step may change the shared state. *)
Variant change (r r' : ReconnectState) (c c' : Call) : Prop :=
  | change_none :
      in_flight r' = in_flight r → done_notify r' = done_notify r → leads c' = leads c → change r r' c c'
  | change_begin n :
      in_flight r = false → in_flight r' = true → done_notify r' = Some n → leads c = None → leads c' = Some n →
      change r r' c c'
  | change_end n :
      in_flight r' = false → leads c = Some n → leads c' = None → change r r' c c'.

Lemma leaders_change r r' cs woken i c c' :
  leaders_ok r cs → cs !! i = Some c → change r r' c c' → leaders_ok r' (<[i := c']> (wake woken <$> cs)).
Proof.
  intros (Hcount & Hdone & Hlead) Hi Hch. unfold leaders_ok.
  assert (Hi' : (wake woken <$> cs) !! i = Some (wake woken c)) by by rewrite list_lookup_fmap, Hi.
  pose proof (count_insert is_leader i _ c' _ Hi') as Hc. rewrite count_fmap_wake, is_leader_wake in Hc.
  assert (∀ j x n, j ≠ i → <[i := c']> (wake woken <$> cs) !! j = Some x → leads x = Some n → done_notify r = Some n ∧
            in_flight r = true) as Hother.
  { intros j x n Hj Hx Hn. rewrite list_lookup_insert_ne, list_lookup_fmap in Hx by done.
    apply fmap_Some in Hx as (y & Hy & ->). rewrite leads_wake in Hn. split; [by eapply Hlead|].
    assert (0 < count is_leader cs)%nat by (apply count_leader; eauto). destruct (in_flight r); [done|lia]. }
  assert (<[i := c']> (wake woken <$> cs) !! i = Some c') as Hself.
  { apply list_lookup_insert_eq. apply lookup_lt_Some in Hi. by rewrite length_fmap. }
  destruct Hch as [Hf Hd Hl|n Hf Hf' Hd Hl Hl'|n Hf' Hl Hl'].
  - assert (is_leader c' = is_leader c) as E by (unfold is_leader; by rewrite Hl). rewrite E in Hc.
    split_and!; [rewrite Hf; lia|by rewrite Hf, Hd|]. intros j x n Hx Hn. rewrite Hd.
    destruct (decide (j = i)) as [->|Hj]; [|by eapply Hother]. rewrite Hself in Hx. simplify_eq.
    rewrite Hl in Hn. by eapply Hlead.
  - rewrite (leader_false c Hl), (leader_true c' n Hl') in Hc. rewrite Hf in Hcount. rewrite Hf', Hd.
    split_and!; [lia|done|]. intros j x m Hx Hm.
    destruct (decide (j = i)) as [->|Hj]; [|by destruct (Hother j x m Hj Hx Hm); congruence].
    rewrite Hself in Hx. simplify_eq. congruence.
  - rewrite (leader_true c n Hl), (leader_false c' Hl') in Hc. rewrite Hf'.
    assert (in_flight r = true) as Hf.
    { assert (0 < count is_leader cs)%nat by (apply count_leader; eauto). destruct (in_flight r); [done|lia]. }
    rewrite Hf in Hcount. split_and!; [lia|done|]. intros j x m Hx Hm.
    assert (0 < count is_leader (<[i := c']> (wake woken <$> cs)))%nat by (apply count_leader; eauto). lia.
Qed.

Lemma awaits_not_signals n m c : awaits c = Some n → ¬ signals m c.
Proof. unfold awaits, signals, leads. intros Ha [Hl|[r Hr]]; destruct (pc c); naive_solver. Qed.

(** A waiter's promise survives a step of another call that passes the promise
    on or keeps it. *)
Lemma waiters_change r cs woken i c c' :
  leaders_ok r cs → waiters_ok cs → cs !! i = Some c →
  (∀ n, signals n c → signals n c' ∨ n ∈ woken) →
  (∀ n, awaits c' = Some n → awaits c = Some n ∨ leads c = None ∧ in_flight r = true ∧ done_notify r = Some n) →
  waiters_ok (<[i := c']> (wake woken <$> cs)).
Proof.
  intros (Hcount & Hdone & Hlead) Hwait Hi Hsig Haw j x n Hx Hn.
  assert (<[i := c']> (wake woken <$> cs) !! i = Some c') as Hself.
  { apply list_lookup_insert_eq. apply lookup_lt_Some in Hi. by rewrite length_fmap. }
  assert (∀ k z, k ≠ i → cs !! k = Some z → <[i := c']> (wake woken <$> cs) !! k = Some (wake woken z)) as Hkeep.
  { intros k z Hk Hz. by rewrite list_lookup_insert_ne, list_lookup_fmap, Hz by done. }
  destruct (decide (j = i)) as [->|Hj].
  - rewrite Hself in Hx. simplify_eq. destruct (Haw n Hn) as [Hc|(Hl & Hf & Hd)].
    + destruct (Hwait i c n Hi Hc) as (k & z & Hk & Hz). exists k, (wake woken z). rewrite reconnect_signals_wake.
      split; [|done]. apply Hkeep; [|done]. intros ->. simplify_eq. by eapply awaits_not_signals.
    + rewrite Hf in Hcount. assert (0 < count is_leader cs)%nat as (k & z & m & Hk & Hm)%count_leader by lia.
      pose proof (Hlead k z m Hk Hm) as Hdm. simplify_eq. exists k, (wake woken z).
      split; [apply Hkeep; [|done]; intros ->; congruence|]. rewrite reconnect_signals_wake. left. congruence.
  - rewrite list_lookup_insert_ne, list_lookup_fmap in Hx by done. apply fmap_Some in Hx as (y & Hy & ->).
    apply awaits_wake in Hn as [Hn Hw]. destruct (Hwait j y n Hy Hn) as (k & z & Hk & Hz).
    destruct (decide (k = i)) as [->|Hki].
    + simplify_eq. destruct (Hsig n Hz) as [?|?]; [by exists i, c'|done].
    + exists k, (wake woken z). rewrite reconnect_signals_wake. split; [by apply Hkeep|done].
Qed.

Lemma invariant_change now now' s s' cs woken i c c' :
  invariant (mkSystem now s cs) → cs !! i = Some c → change (reconnect s) (reconnect s') c c' →
  (∀ n, signals n c → signals n c' ∨ n ∈ woken) →
  (∀ n, awaits c' = Some n → awaits c = Some n ∨
     leads c = None ∧ in_flight (reconnect s) = true ∧ done_notify (reconnect s) = Some n) →
  invariant (mkSystem now' s' (<[i := c']> (wake woken <$> cs))).
Proof.
  intros [Hl Hw] Hi Hch Hsig Haw. split; [by eapply leaders_change|by eapply waiters_change].
Qed.

(** The three conditions of [invariant_change]. *)
Definition reconnect_step_ok (s s' : Shared) (woken : list nat) (c c' : Call) : Prop :=
  change (reconnect s) (reconnect s') c c' ∧
  (∀ n, signals n c → signals n c' ∨ n ∈ woken) ∧
  (∀ n, awaits c' = Some n → awaits c = Some n ∨
     leads c = None ∧ in_flight (reconnect s) = true ∧ done_notify (reconnect s) = Some n).

(** A step that leads, signals and awaits what it did before. *)
Lemma step_ok_same s s' woken c c' :
  in_flight (reconnect s') = in_flight (reconnect s) → done_notify (reconnect s') = done_notify (reconnect s) →
  leads c' = leads c → (∀ n r, pc c = CNotify n r → pc c' = pc c) →
  (∀ n, awaits c' = Some n → awaits c = Some n) → reconnect_step_ok s s' woken c c'.
Proof.
  intros Hf Hd Hl Hn Ha. split_and!; [by apply change_none| |by intros n ?%Ha; left].
  intros n [Hs|[r Hr]]; left; [left; congruence|]. right. exists r. rewrite <-Hr. by eapply Hn.
Qed.

Ltac same_case E := apply step_ok_same; unfold leads, awaits; simpl; rewrite ?E; try done; try congruence.

Lemma join_or_lead_ok s c s' c' :
  pc c = CDecide → join_or_lead c s = (s', c') → reconnect_step_ok s s' [] c c'.
Proof.
  intros E. unfold join_or_lead. destruct (in_flight (reconnect s)) eqn:Ef.
  - destruct (done_notify (reconnect s)) as [n|] eqn:Ed; intros [= <- <-]; [|by same_case E].
    split_and!; cbn [reconnect].
    + apply change_none; unfold leads; simpl; by rewrite ?E.
    + unfold signals, leads. rewrite E. naive_solver.
    + intros m [= <-]. right. unfold leads. by rewrite E.
  - intros [= <- <-]. split_and!.
    + eapply change_begin; try done. unfold leads. by rewrite E.
    + unfold signals, leads. rewrite E. naive_solver.
    + done.
Qed.

Lemma publish_failure_done now e r :
  in_flight (publish_failure now e r) = false ∧ done_notify (publish_failure now e r) = None.
Proof. unfold publish_failure. by destruct (record_failure r). Qed.

Lemma decide_connect_ok now s c s' c' :
  pc c = CDecide → decide_connect now c s = (s', c') → reconnect_step_ok s s' [] c c'.
Proof.
  intros E. unfold decide_connect. destruct (connection (set_lock None s)); [intros [= <- <-]; same_case E|].
  assert (join_or_lead c (set_lock None s) = (s', c') → reconnect_step_ok s s' [] c c') as Hj.
  { intros H%join_or_lead_ok; [|done]. destruct H as (Hch & ? & ?). by split_and!. }
  destruct (last_failure _) as [[last e]|]; [|done].
  destruct (_ <? _); [intros [= <- <-]; same_case E|done].
Qed.

Lemma after_attempt_quiet s c :
  leads (set_pc c (after_attempt s)) = None ∧ awaits (set_pc c (after_attempt s)) = None.
Proof. unfold after_attempt. by destruct (last_failure (reconnect s)) as [[? ?]|]. Qed.

Lemma connect_step_ok now i s c dialled s' woken c' :
  (∀ n, leads c = Some n → done_notify (reconnect s) = Some n) →
  (∀ n, pc c = CGuard n → lock s = None) →
  connect_step now i s c dialled = (s', woken, c') → reconnect_step_ok s s' woken c c'.
Proof.
  intros Hdone Hguard. unfold connect_step.
  destruct (pc c) as [| | |n b|n b|n b|n b| | |n|n|n|n e|n conn|n conn|n conn|n r|n|r] eqn:E.
  - destruct (connection s); intros [= <- <- <-]; same_case E.
  - destruct (lock s); intros [= <- <- <-]; same_case E.
  - destruct (decide_connect now c s) as [s1 c1] eqn:Ed. intros [= <- <- <-]. by eapply decide_connect_ok.
  - destruct (connection s); intros [= <- <- <-]; same_case E.
  - destruct (lock s); intros [= <- <- <-]; same_case E.
  - destruct (in_flight _) eqn:Ef; [intros [= <- <- <-]; same_case E|].
    destruct (connection _); intros [= <- <- <-]; [same_case E|].
    destruct (after_attempt_quiet (set_lock None s) c) as [Hl Ha].
    apply step_ok_same; [done|done|rewrite Hl; unfold leads; by rewrite E|by rewrite E|by rewrite Ha].
  - destruct b; intros [= <- <- <-]; same_case E.
  - destruct (connection s); intros [= <- <- <-]; same_case E.
  - destruct (lock s); intros [= <- <- <-]; [same_case E|].
    destruct (after_attempt_quiet s c) as [Hl Ha].
    apply step_ok_same; [done|done|rewrite Hl; unfold leads; by rewrite E|by rewrite E|by rewrite Ha].
  - intros [= <- <- <-]; same_case E.
  - intros [= <- <- <-]; same_case E.
  - destruct dialled as [[conn|e]|]; intros [= <- <- <-]; same_case E.
  - destruct (lock s); intros [= <- <- <-]; [same_case E|].
    destruct (publish_failure_done now e (reconnect s)) as [Hf Hd]. split_and!; cbn [reconnect].
    + eapply (change_end _ _ _ _ n); [done|by unfold leads; rewrite E|done].
    + unfold signals, leads. rewrite E. naive_solver.
    + done.
  - intros [= <- <- <-]; same_case E.
  - destruct (lock s); intros [= <- <- <-]; same_case E.
  - intros [= <- <- <-]. split_and!; cbn [reconnect].
    + eapply (change_end _ _ _ _ n); [done|by unfold leads; rewrite E|done].
    + unfold signals, leads. rewrite E. naive_solver.
    + done.
  - intros [= <- <- <-]. split_and!; [apply change_none; unfold leads; simpl; by rewrite ?E| |done].
    unfold signals, leads. rewrite E. intros m [?|[r' [= <- <-]]]; [done|]. right. apply list_elem_of_here.
  - specialize (Hguard n eq_refl). assert (Hd : done_notify (reconnect s) = Some n) by (apply Hdone; unfold leads; by rewrite E).
    unfold guard_drop. rewrite Hguard, Hd. intros [= <- <- <-]. split_and!; cbn [reconnect].
    + eapply (change_end _ _ _ _ n); [done|by unfold leads; rewrite E|done].
    + unfold signals, leads. rewrite E. intros m [[= <-]|[r ?]]; [|done]. right. apply list_elem_of_here.
    + done.
  - intros [= <- <- <-]; same_case E.
Qed.

Lemma reconnect_wake_nil c : wake [] c = c.
Proof. unfold wake. destruct (pc c); try done; by rewrite decide_False by apply not_elem_of_nil. Qed.

Lemma reconnect_cancel_ok s c s' c' : cancel s c = (s', c') → reconnect_step_ok s s' [] c c'.
Proof.
  unfold cancel. destruct (pc c) eqn:E; intros [= <- <-]; same_case E.
Qed.

Lemma invariant_foreign now now' s s' cs :
  reconnect s' = reconnect s → invariant (mkSystem now s cs) → invariant (mkSystem now' s' cs).
Proof. intros E [Hl Hw]. split; cbn in *; [by rewrite E|done]. Qed.

Lemma reconnect_invariant_call now s cs c : leads c = None → awaits c = None → invariant (mkSystem now s cs) →
  invariant (mkSystem now s (cs ++ [c])).
Proof.
  intros Hlc Hac [(Hc & Hd & Hl) Hw]. cbn [shared calls] in *. split; cbn [shared calls].
  - split_and!; [rewrite count_app, Hc, count_cons, (leader_false c Hlc); cbn; destruct (in_flight _); done|done|].
    intros i x n [Hi|(_ & Hi)]%lookup_app_Some; [by eapply Hl|].
    apply list_lookup_singleton_Some in Hi as [_ <-]. congruence.
  - intros i x n [Hi|(_ & Hi)]%lookup_app_Some Hn.
    + destruct (Hw i x n Hi Hn) as (j & y & Hj & Hy). exists j, y. split; [by apply lookup_app_l_Some|done].
    + apply list_lookup_singleton_Some in Hi as [_ <-]. congruence.
Qed.

Lemma reconnect_invariant_step s l : guard_fails s l = false → invariant s → invariant (step s l).
Proof.
  intros Hg Hinv. destruct s as [t sh cs]. destruct l as [d| | |i dialled|i| |]; cbn [step now shared calls].
  - by eapply (invariant_foreign t).
  - by apply reconnect_invariant_call.
  - by apply reconnect_invariant_call.
  - destruct (cs !! i) as [c|] eqn:Ei; [|done].
    destruct (connect_step t i sh c dialled) as [[sh' woken] c'] eqn:Es.
    apply connect_step_ok in Es as (? & ? & ?); [by eapply invariant_change| |].
    + intros n Hn. destruct Hinv as [(_ & _ & Hl) _]. by eapply Hl.
    + intros n En. cbn in Hg. rewrite Ei, En in Hg. by destruct (lock sh).
  - destruct (cs !! i) as [c|] eqn:Ei; [|done]. destruct (cancel sh c) as [sh' c'] eqn:Ec.
    apply reconnect_cancel_ok in Ec as (? & ? & ?).
    replace (<[i:=c']> cs) with (<[i:=c']> (wake [] <$> cs)); [by eapply invariant_change|].
    f_equal. rewrite <-(list_fmap_id cs) at 2. apply list_fmap_ext. intros ???. apply reconnect_wake_nil.
  - by eapply (invariant_foreign t).
  - by eapply (invariant_foreign t).
Qed.

Lemma reconnect_invariant_run ls s : invariant s → guards_succeed s ls = true → invariant (foldl step s ls).
Proof.
  revert s. induction ls as [|l ls IH]; intros s Hs; [done|]. cbn [guards_succeed foldl].
  intros [Hg%negb_true_iff Hls]%andb_prop. apply IH; [by apply reconnect_invariant_step|done].
Qed.

Lemma reconnect_invariant_new : invariant System_new.
Proof. split; [split_and!|]; by intros. Qed.

(** ** The authentication stream *)

(** The connection a call is about to publish. *)
Definition publishing (c : Call) : option nat :=
  match pc c with COkLock _ conn | CPublish _ conn => Some conn | _ => None end.

(** The stream of the connection is there; with [bad], a write to it may have failed and cleared it. *)
Definition auth_of (bad : bool) (s : Shared) (conn : nat) : Prop := auth_uni_stream s = Some conn ∨ auth_uni_stream s = None ∧ bad = true.

(** Whether a write failed since the last stream was stored, before and after an event. *)
Definition bad_after (bad : bool) (c : Call) : bool := match pc c with CAuthStore _ _ => false | _ => bad end.
Definition bad_next (bad : bool) (s : System) (l : Label) : bool :=
  match l with
  | LAuthStreamFailed => true
  | LStep i _ => match calls s !! i with Some c => bad_after bad c | None => bad end
  | _ => bad
  end.
Fixpoint write_failed (bad : bool) (s : System) (ls : list Label) : bool :=
  match ls with [] => bad | l :: ls => write_failed (bad_next bad s l) (step s l) ls end.

Definition stream_ok (bad : bool) (s : System) : Prop :=
  (∀ conn, connection (shared s) = Some conn → auth_of bad (shared s) conn ∧ in_flight (reconnect (shared s)) = false) ∧
  (∀ i c conn, calls s !! i = Some c → publishing c = Some conn → auth_of bad (shared s) conn).

Lemma leader_unique r cs i j c d n m :
  leaders_ok r cs → cs !! i = Some c → leads c = Some n → cs !! j = Some d → leads d = Some m → i = j.
Proof.
  intros (Hc & _) Hi Hn Hj Hm. destruct (decide (i = j)) as [|Hij]; [done|exfalso].
  pose proof (count_insert is_leader i c (mkCall true CFast) cs Hi) as H. rewrite (leader_true c n Hn) in H.
  assert (0 < count is_leader (<[i:=mkCall true CFast]> cs))%nat.
  { apply count_leader. exists j, d, m. by rewrite list_lookup_insert_ne. }
  cbn in H. destruct (in_flight r); lia.
Qed.

Lemma leader_in_flight r cs i c n : leaders_ok r cs → cs !! i = Some c → leads c = Some n → in_flight r = true.
Proof.
  intros (Hc & _) Hi Hn. assert (0 < count is_leader cs)%nat by (apply count_leader; eauto).
  destruct (in_flight r); [done|lia].
Qed.

Lemma publishing_leads c conn : publishing c = Some conn → ∃ n, leads c = Some n.
Proof. unfold publishing, leads. destruct (pc c); naive_solver. Qed.

Lemma publishing_wake woken c : publishing (wake woken c) = publishing c.
Proof. unfold publishing, wake. destruct (pc c) eqn:E; try case_decide; simpl; by rewrite ?E. Qed.

(** What a step does to the connection and the authentication stream. *)
Definition stream_step_ok (bad bad' : bool) (s s' : Shared) (c c' : Call) : Prop :=
  (∀ conn, connection s' = Some conn → auth_of bad' s' conn ∧ in_flight (reconnect s') = false) ∧
  (∀ conn, publishing c' = Some conn → auth_of bad' s' conn) ∧
  ((∀ conn, auth_of bad s conn → auth_of bad' s' conn) ∨ ∃ n, leads c = Some n).

Lemma stream_step_quiet bad s s' c c' :
  (∀ conn, connection s = Some conn → auth_of bad s conn ∧ in_flight (reconnect s) = false) →
  connection s' = connection s → auth_uni_stream s' = auth_uni_stream s →
  (connection s = None ∨ in_flight (reconnect s') = in_flight (reconnect s)) →
  (∀ conn, publishing c' = Some conn → auth_of bad s conn) →
  stream_step_ok bad bad s s' c c'.
Proof.
  intros H1 Hc Ha Hf Hp. unfold stream_step_ok, auth_of in *. rewrite Hc, Ha. split_and!.
  - intros conn Hconn. destruct (H1 _ Hconn) as [? Hfl]. split; [done|]. destruct Hf as [?|Hf]; [congruence|]. by rewrite Hf.
  - done.
  - by left.
Qed.

Lemma decide_connect_stream bad now s c s' c' :
  (∀ conn, connection s = Some conn → auth_of bad s conn ∧ in_flight (reconnect s) = false) →
  decide_connect now c s = (s', c') → stream_step_ok bad bad s s' c c'.
Proof.
  intros H1 Hd. unfold decide_connect in Hd. cbn [set_lock connection] in Hd.
  destruct (connection s) as [conn|] eqn:Ec.
  { injection Hd as <- <-. rewrite <-Ec in H1. apply stream_step_quiet; try done. by right. }
  rewrite <-Ec in H1.
  assert (connection s' = connection s ∧ auth_uni_stream s' = auth_uni_stream s ∧ publishing c' = None) as (? & ? & Hp).
  { revert Hd. unfold join_or_lead. repeat case_match; by intros [= <- <-]. }
  apply stream_step_quiet; [done|done|done|by left|by rewrite Hp].
Qed.

Lemma connect_step_stream bad now i s c dialled s' woken c' :
  (∀ conn, connection s = Some conn → auth_of bad s conn ∧ in_flight (reconnect s) = false) →
  (∀ conn, publishing c = Some conn → auth_of bad s conn) →
  (∀ n, leads c = Some n → connection s = None) →
  connect_step now i s c dialled = (s', woken, c') → stream_step_ok bad (bad_after bad c) s s' c c'.
Proof.
  intros H1 H2 H3. unfold connect_step, bad_after.
  assert (∀ st s1 c1, connection s1 = connection s → auth_uni_stream s1 = auth_uni_stream s → pc c1 = st →
            in_flight (reconnect s1) = in_flight (reconnect s) → publishing c1 = None → stream_step_ok bad bad s s1 c c1) as Hquiet.
  { intros st s1 c1 ? ? ? ? Hp. apply stream_step_quiet; try done; [by right|by rewrite Hp]. }
  assert (∀ p s1 woken1 c1, match lock s with
            | None => (set_lock (Some i) s, [], set_pc c p) | Some _ => (s, [], c) end = (s1, woken1 : list nat, c1) →
          (∀ conn, publishing (set_pc c p) = Some conn → auth_of bad s conn) → stream_step_ok bad bad s s1 c c1) as Hacq.
  { intros p s1 w1 c1. destruct (lock s); intros [= <- <- <-] ?; apply stream_step_quiet; try done; by right. }
  destruct (pc c) as [| | |n b|n b|n b|n b| | |n|n|n|n e|n conn|n conn|n conn|n r|n|r] eqn:E.
  - destruct (connection s) eqn:Ec; intros [= <- <- <-]; by eapply Hquiet.
  - intros Hs. by eapply Hacq.
  - destruct (decide_connect now c s) as [s1 c1] eqn:Ed. intros [= <- <- <-]. by eapply decide_connect_stream.
  - destruct (connection s) eqn:Ec; intros [= <- <- <-]; by eapply Hquiet.
  - intros Hs. by eapply Hacq.
  - assert (publishing (set_pc c (after_attempt (set_lock None s))) = None)
      by (unfold after_attempt; by destruct (last_failure _) as [[? ?]|]).
    destruct (in_flight (reconnect (set_lock None s))); [|destruct (connection (set_lock None s))]; intros [= <- <- <-];
      by eapply Hquiet.
  - destruct b; intros [= <- <- <-]; eapply Hquiet; try done. unfold publishing. by rewrite E.
  - destruct (connection s) eqn:Ec; intros [= <- <- <-]; by eapply Hquiet.
  - assert (publishing (set_pc c (after_attempt s)) = None)
      by (unfold after_attempt; by destruct (last_failure _) as [[? ?]|]).
    destruct (lock s); intros [= <- <- <-]; eapply Hquiet; try done. unfold publishing. by rewrite E.
  - intros [= <- <- <-]. split_and!; [done|done|by left].
  - intros [= <- <- <-]. split_and!; [|done|right; exists n; unfold leads; by rewrite E].
    cbn [connection]. rewrite (H3 n) by (unfold leads; by rewrite E). done.
  - destruct dialled as [[conn|e]|]; intros [= <- <- <-]; eapply Hquiet; try done. unfold publishing. by rewrite E.
  - assert (connection s = None) as Hn by (apply (H3 n); unfold leads; by rewrite E).
    destruct (lock s); intros [= <- <- <-]; (apply stream_step_quiet; [done|done|done|by left|]); unfold publishing;
      [by rewrite E|done].
  - intros [= <- <- <-]. split_and!; [|intros ? [= <-]; by left|right; exists n; unfold leads; by rewrite E].
    cbn [connection]. rewrite (H3 n) by (unfold leads; by rewrite E). done.
  - intros Hs. eapply Hacq; [done|]. intros conn' [= <-]. apply H2. unfold publishing. by rewrite E.
  - intros [= <- <- <-]. split_and!; [|done|by left]. intros conn' [= <-]. split; [|done].
    apply H2. unfold publishing. by rewrite E.
  - intros [= <- <- <-]. by eapply Hquiet.
  - destruct (guard_drop s) as [s1 w1] eqn:Eg. intros [= <- <- <-].
    assert (connection s = None) as Hn by (apply (H3 n); unfold leads; by rewrite E).
    unfold guard_drop in Eg. destruct (lock s); injection Eg as <- <-;
      (apply stream_step_quiet; [done|done|done|by left|done]).
  - intros [= <- <- <-]. eapply Hquiet; try done. unfold publishing. by rewrite E.
Qed.

Lemma stream_ok_change bad bad' now now' s s' cs cs' i c c' woken :
  leaders_ok (reconnect s) cs → stream_ok bad (mkSystem now s cs) → cs !! i = Some c →
  (∀ j, cs' !! j = if decide (j = i) then Some c' else wake woken <$> cs !! j) →
  stream_step_ok bad bad' s s' c c' → stream_ok bad' (mkSystem now' s' cs').
Proof.
  intros Hl [H1 H2] Hi Hcs (Hconn & Hpub & Hother). split; cbn [shared calls] in *; [done|].
  intros j x conn Hj Hx. rewrite Hcs in Hj. case_decide as Hji; [simplify_eq; by apply Hpub|].
  apply fmap_Some in Hj as (y & Hy & ->). rewrite publishing_wake in Hx. destruct Hother as [Hkeep|[n Hn]].
  - apply Hkeep. by eapply H2.
  - apply publishing_leads in Hx as [m Hm]. destruct Hji. symmetry. by eapply leader_unique.
Qed.

Lemma stream_ok_step bad s l : invariant s → stream_ok bad s → stream_ok (bad_next bad s l) (step s l).
Proof.
  intros [Hl _] Hs. destruct s as [t sh cs]. cbn [shared calls] in Hl. pose proof Hs as [H1 H2]. cbn [shared calls] in *.
  assert (∀ c i n, cs !! i = Some c → leads c = Some n → connection sh = None) as H3.
  { intros c i n Hi Hn. pose proof (leader_in_flight _ _ _ _ _ Hl Hi Hn) as Hf.
    destruct (connection sh) eqn:Ec; [|done]. destruct (H1 _ eq_refl). congruence. }
  destruct l as [d| | |i dialled|i| |]; cbn [step now shared calls bad_next].
  - done.
  - split; [done|]. cbn. intros j x conn [Hj|(_ & Hj)]%lookup_app_Some; [by eapply H2|].
    apply list_lookup_singleton_Some in Hj as [_ <-]. done.
  - split; [done|]. cbn. intros j x conn [Hj|(_ & Hj)]%lookup_app_Some; [by eapply H2|].
    apply list_lookup_singleton_Some in Hj as [_ <-]. done.
  - destruct (cs !! i) as [c|] eqn:Ei; [|done].
    destruct (connect_step t i sh c dialled) as [[sh' woken] c'] eqn:Es.
    apply (connect_step_stream bad) in Es; [|done|by intros conn; eapply H2|by intros n; eapply H3].
    eapply (stream_ok_change _ _ _ _ _ _ cs _ i c c' woken); try done. intros j.
    case_decide as Hj; [subst; apply list_lookup_insert_eq; rewrite length_fmap; by eapply lookup_lt_Some|].
    by rewrite list_lookup_insert_ne, list_lookup_fmap.
  - destruct (cs !! i) as [c|] eqn:Ei; [|done]. destruct (cancel sh c) as [sh' c'] eqn:Ec.
    assert (connection sh' = connection sh ∧ auth_uni_stream sh' = auth_uni_stream sh ∧ reconnect sh' = reconnect sh ∧
            (publishing c' = None)) as (E1 & E2 & E3 & E4).
    { revert Ec. unfold cancel, publishing. destruct (pc c) eqn:E; intros [= <- <-]; cbn; by rewrite ?E. }
    eapply (stream_ok_change _ _ _ _ _ _ cs _ i c c' []); [done..| |].
    + intros j. case_decide as Hj; [subst; apply list_lookup_insert_eq; by eapply lookup_lt_Some|].
      rewrite list_lookup_insert_ne by done. destruct (cs !! j); cbn; by rewrite ?reconnect_wake_nil.
    + apply stream_step_quiet; [done|done|done|right; by rewrite E3|by rewrite E4].
  - split; [done|]. done.
  - assert (∀ sh0 conn, auth_uni_stream sh0 = None → auth_of true sh0 conn) as Hn by (intros; by right).
    split; cbn; [|intros; by apply Hn]. intros conn Hc. split; [by apply Hn|]. by apply (H1 conn).
Qed.

(** ** Theorems *)

Lemma reconnect_run_ok bad s ls : invariant s → stream_ok bad s → guards_succeed s ls = true →
  invariant (foldl step s ls) ∧ stream_ok (write_failed bad s ls) (foldl step s ls).
Proof.
  revert bad s. induction ls as [|l ls IH]; intros bad s Hi Hs; [done|].
  cbn [guards_succeed foldl write_failed]. intros [Hl%negb_true_iff Hls]%andb_prop.
  apply IH; [by apply reconnect_invariant_step|by apply stream_ok_step|done].
Qed.

Lemma stream_ok_new : stream_ok false System_new.
Proof. split; by intros. Qed.

(** C22: under every interleaving of connects, preconnects, dial results,
    closures and cancelled callers, as long as no guard is dropped while somebody
    holds the reconnect lock: at most one caller dials at a time, and exactly one
    while an attempt is marked; every caller that waits for an attempt waits for
    one that is still to be ended; and the connection that callers see has the
    authentication stream that was opened on it, unless a write failed since that
    stream was stored and cleared it. *)
Theorem reconnect_single_flight ls :
  guards_succeed System_new ls = true →
  let s := run ls in
  count is_leader (calls s) = (if in_flight (reconnect (shared s)) then 1 else 0)%nat ∧
  (∀ i c n, calls s !! i = Some c → awaits c = Some n → ∃ j c', calls s !! j = Some c' ∧ signals n c') ∧
  (∀ conn, connection (shared s) = Some conn →
     auth_uni_stream (shared s) = Some conn ∨ auth_uni_stream (shared s) = None ∧ write_failed false System_new ls = true).
Proof.
  intros Hg s. destruct (reconnect_run_ok false System_new ls reconnect_invariant_new stream_ok_new Hg) as [[[Hc _] Hw] [Hs _]].
  split_and!; [done|done|]. intros conn Hconn. by apply Hs.
Qed.

(** A preconnect that leads and a connect that waits; and a call that connects. *)
Lemma reconnect_single_flight_witness :
  (let s := run [LPreconnect; LStep 0 None; LStep 0 None; LStep 0 None; LConnect; LStep 1 None; LStep 1 None;
                LCancel 1; LConnect; LStep 2 None; LStep 2 None; LStep 2 None; LStep 2 None] in
   count is_leader (calls s) = 1%nat ∧ ∃ j c', calls s !! j = Some c' ∧ signals 0 c') ∧
  (let s := run [LConnect; LStep 0 None; LStep 0 None; LStep 0 None; LStep 0 None; LStep 0 None; LStep 0 (Some (Ok 7%nat));
                 LStep 0 None; LStep 0 None; LStep 0 None] in
   connection (shared s) = Some 7%nat ∧ auth_uni_stream (shared s) = Some 7%nat).
Proof.
  split.
  - destruct (reconnect_single_flight [LPreconnect; LStep 0 None; LStep 0 None; LStep 0 None; LConnect; LStep 1 None; LStep 1 None;
                LCancel 1; LConnect; LStep 2 None; LStep 2 None; LStep 2 None; LStep 2 None]) as (H1 & H2 & _); [by vm_compute|].
    split; [exact H1|]. apply (H2 2%nat (mkCall true (CWaitLock 0 false)) 0%nat); by vm_compute.
  - destruct (reconnect_single_flight [LConnect; LStep 0 None; LStep 0 None; LStep 0 None; LStep 0 None; LStep 0 None; LStep 0 (Some (Ok 7%nat));
                 LStep 0 None; LStep 0 None; LStep 0 None]) as (_ & _ & H3); [by vm_compute|].
    split; [by vm_compute|]. destruct (H3 7%nat) as [E|[_ E]]; [by vm_compute|exact E|by vm_compute in E].
Defined.

(** *** A guard dropped while the lock is held *)

(** An attempt is marked that nobody leads. *)
Definition blocked (lf : option (Z * error)) (s : Shared) : Prop :=
  in_flight (reconnect s) = true ∧ is_Some (done_notify (reconnect s)) ∧ connection s = None ∧ last_failure (reconnect s) = lf.

(** What a call returns, or is about to. *)
Definition outcome (c : Call) : option (result nat) := match pc c with CDone (Some r) | CNotify _ r => Some r | _ => None end.

Lemma outcome_wake woken c : outcome (wake woken c) = outcome c.
Proof. unfold outcome, wake. destruct (pc c) eqn:E; try case_decide; simpl; by rewrite ?E. Qed.

Lemma connect_step_blocked lf now i s c dialled s' woken c' :
  blocked lf s → leads c = None → connect_step now i s c dialled = (s', woken, c') →
  blocked lf s' ∧ leads c' = None ∧ ∀ r, outcome c' = Some r → outcome c = Some r ∨ ∃ t e, lf = Some (t, e) ∧ r = Err e.
Proof.
  intros (Hf & [n Hn] & Hc & Hl). unfold leads, outcome, blocked, connect_step, decide_connect, join_or_lead, after_attempt.
  destruct (pc c) as [| | |m b|m b|m b|m b| | |m|m|m|m e|m conn|m conn|m conn|m r|m|r] eqn:E; try done; cbn [set_lock connection reconnect];
    rewrite ?Hc, ?Hf, ?Hl, ?Hn; intros _.
  3: { destruct lf as [[t e]|]; [destruct (_ <? _)|]; intros [= <- <- <-]; cbn; rewrite ?E; naive_solver. }
  all: try (destruct (lock s)); try destruct b; try (destruct lf as [[t e]|]); intros [= <- <- <-]; cbn; rewrite ?E, ?Hc, ?Hf, ?Hl, ?Hn; naive_solver.
Qed.

(** Nobody leads, and a call returns what it was about to return in [cs], or the failure. *)
Definition calls_blocked (lf : option (Z * error)) (cs0 cs : list Call) : Prop :=
  ∀ i c, cs !! i = Some c → leads c = None ∧
    ∀ r, outcome c = Some r → (∃ c0, cs0 !! i = Some c0 ∧ outcome c0 = Some r) ∨ ∃ t e, lf = Some (t, e) ∧ r = Err e.

Lemma calls_blocked_insert lf cs0 cs woken i c c' : calls_blocked lf cs0 cs → cs !! i = Some c → leads c' = None →
  (∀ r, outcome c' = Some r → outcome c = Some r ∨ ∃ t e, lf = Some (t, e) ∧ r = Err e) → calls_blocked lf cs0 (<[i := c']> (wake woken <$> cs)).
Proof.
  intros Hcs Hi Hl Ho j x. destruct (decide (j = i)) as [->|Hj].
  - rewrite list_lookup_insert_eq by (rewrite length_fmap; by eapply lookup_lt_Some). intros [= <-]. split; [done|].
    intros r [Hr|?]%Ho; [|by right]. by apply (Hcs i c Hi).
  - rewrite list_lookup_insert_ne, list_lookup_fmap by done. intros (y & Hy & ->)%fmap_Some. rewrite leads_wake, outcome_wake. by apply (Hcs j y).
Qed.

Lemma calls_blocked_new lf cs0 cs b : calls_blocked lf cs0 cs → calls_blocked lf cs0 (cs ++ [mkCall b CFast]).
Proof.
  intros Hcs i c [Hi|(_ & Hi)]%lookup_app_Some; [by apply Hcs|]. by apply list_lookup_singleton_Some in Hi as [_ <-].
Qed.

Lemma blocked_step lf cs0 s l : blocked lf (shared s) → calls_blocked lf cs0 (calls s) →
  blocked lf (shared (step s l)) ∧ calls_blocked lf cs0 (calls (step s l)).
Proof.
  intros Hb Hcs. destruct s as [t sh cs]. cbn [shared calls] in *.
  destruct l as [d| | |i dialled|i| |]; cbn [step now shared calls]; try (split; [|done]; by destruct Hb as (? & ? & ? & ?)).
  - split; [done|]. by apply calls_blocked_new.
  - split; [done|]. by apply calls_blocked_new.
  - destruct (cs !! i) as [c|] eqn:Ei; [|done]. destruct (connect_step t i sh c dialled) as [[sh' woken] c'] eqn:Es.
    apply (connect_step_blocked lf) in Es as (Hb' & Hl' & Ho); [|done|by apply (Hcs i)]. split; [done|]. by eapply calls_blocked_insert.
  - destruct (cs !! i) as [c|] eqn:Ei; [|done]. destruct (cancel sh c) as [sh' c'] eqn:Ec. destruct (Hcs i c Ei) as [Hl _].
    assert (connection sh' = connection sh ∧ reconnect sh' = reconnect sh ∧ leads c' = None ∧ ∀ r, outcome c' = Some r → outcome c = Some r) as (E1 & E2 & E3 & E4).
    { revert Ec Hl. unfold cancel, leads, outcome. destruct (pc c) eqn:E; try done; intros [= <- <-] _; cbn; rewrite ?E; by split_and!. }
    split; [unfold blocked in *; cbn; by rewrite E1, E2|].
    replace (<[i:=c']> cs) with (<[i:=c']> (wake [] <$> cs)); [eapply calls_blocked_insert; eauto|].
    f_equal. rewrite <-(list_fmap_id cs) at 2. apply list_fmap_ext. intros ???. apply reconnect_wake_nil.
Qed.

(** A leader is dialling and another caller holds the lock when the leader is
    cancelled. *)
Definition cancelled_leader : list Label :=
  [LConnect; LStep 0 None; LStep 0 None; LStep 0 None; LStep 0 None; LConnect; LStep 1 None; LStep 1 None; LCancel 0].

(** C33: when the guard of a cancelled leader is dropped while somebody holds the reconnect lock, after any run in which this
    did not happen before: from then on, whatever happens, the attempt stays marked, nobody ever dials and there is no
    connection; a caller that had no result by then never gets a connection, and gets an error at most as long as an
    earlier failure is shared. *)
Theorem cancelled_leader_blocks_all ls l ls' :
  guards_succeed System_new ls = true → guard_fails (run ls) l = true →
  let s := run (ls ++ l :: ls') in
  in_flight (reconnect (shared s)) = true ∧ connection (shared s) = None ∧ count is_leader (calls s) = O ∧
  ∀ i c r, calls s !! i = Some c → pc c = CDone (Some r) →
    (∃ c0, calls (run ls) !! i = Some c0 ∧ outcome c0 = Some r) ∨
    ∃ t e, last_failure (reconnect (shared (run ls))) = Some (t, e) ∧ r = Err e.
Proof.
  intros Hg Hfail s. destruct (reconnect_run_ok false System_new ls reconnect_invariant_new stream_ok_new Hg) as [[Hlead _] [Hconn _]].
  fold (run ls) in Hlead, Hconn. set (s0 := run ls) in *. set (lf := last_failure (reconnect (shared s0))).
  assert (blocked lf (shared (step s0 l)) ∧ calls_blocked lf (calls s0) (calls (step s0 l))) as [Hb Hc].
  { unfold guard_fails in Hfail. destruct l as [| | |i dialled| | |]; try done. destruct (calls s0 !! i) as [c|] eqn:Ei; [|done].
    destruct (pc c) as [| | |m b|m b|m b|m b| | |m|m|m|m e|m conn|m conn|m conn|m r|m|r] eqn:Ep; try done. apply bool_decide_eq_true in Hfail.
    assert (leads c = Some m) as Hl by (unfold leads; by rewrite Ep). pose proof (leader_in_flight _ _ _ _ _ Hlead Ei Hl) as Hfl.
    cbn [step]. rewrite Ei. unfold connect_step. rewrite Ep. unfold guard_drop. destruct (lock (shared s0)) as [h|] eqn:Elk; [|done]. cbn [shared calls]. split.
    - split_and!; [done|by apply Hlead| |done]. destruct (connection (shared s0)) eqn:Ec; [|done]. destruct (Hconn _ eq_refl). congruence.
    - intros j x. destruct (decide (j = i)) as [->|Hj].
      + rewrite list_lookup_insert_eq by (rewrite length_fmap; by eapply lookup_lt_Some). by intros [= <-].
      + rewrite list_lookup_insert_ne, list_lookup_fmap by done. intros (y & Hy & ->)%fmap_Some. rewrite leads_wake, outcome_wake. split; [|eauto].
        destruct (leads y) as [n|] eqn:Ey; [|done]. destruct Hj. by eapply leader_unique. }
  assert (blocked lf (shared s) ∧ calls_blocked lf (calls s0) (calls s)) as [(Hf & _ & Hcn & _) Hcs].
  { unfold s, run. rewrite foldl_app. fold (run ls). cbn [foldl]. fold s0.
    apply (foldl_invariant _ (λ s, blocked lf (shared s) ∧ calls_blocked lf (calls s0) (calls s))); [|done]. intros s1 l1 [? ?]. by apply blocked_step. }
  split_and!; [done|done| |].
  - destruct (decide (0 < count is_leader (calls s))%nat) as [(i & c & n & Hi & Hn)%count_leader|]; [|lia]. destruct (Hcs i c Hi). congruence.
  - intros i c r Hi Hp. apply (Hcs i c Hi). unfold outcome. by rewrite Hp.
Qed.

(** The second caller, and one that comes later, go on waiting. *)
Lemma cancelled_leader_blocks_all_witness :
  let s := run (cancelled_leader ++ LStep 0 None :: [LStep 1 None; LConnect; LTick 1000000; LStep 2 None; LStep 2 None; LStep 2 None]) in
  connection (shared s) = None ∧ count is_leader (calls s) = O.
Proof.
  destruct (cancelled_leader_blocks_all cancelled_leader (LStep 0 None) [LStep 1 None; LConnect; LTick 1000000; LStep 2 None; LStep 2 None; LStep 2 None])
    as (_ & Hc & Hl & _); [by vm_compute..|]. by split.
Defined.
