(* ===== verification/Client.v ===== *)
(** * [client/src/client.rs]: the client of one server

    The address and the certificate pin of a configuration, [JuicityClient::new],
    dialling and authenticating, the streams it opens and the underlay
    authentications it sends.  [Reconnect] shares the dialled connection. *)
From S2P Require Import Prelude Std Consts Net Protocol Crypto Config Link Server Conn UdpRelay.
#[local] Open Scope Z_scope.

(** ** Operations

    What a client does with sockets and QUIC.  Context that is attached to an
    error keeps its cause, and only the cause is modelled. *)
Inductive Op :=
  | ONewSocket
  | OSetOnlyV6 (b : bool)
  | OSetMark (mark : Z)
  | OBind (a : SocketAddr)
  | ORuntime
  | OWrapSocket
  | OEndpoint
  | OEndpointClient (a : SocketAddr)
  | OQuicConfig
  | OConnectWith (a : SocketAddr) (sni : str)
  | OHandshake
  | OOpenUni
  | OConnect
  | OOpenBi
  | OWriteAll (bs : str).

(** What is written on a stream. *)
Definition written (l : list Op) : str := concat ((λ o, match o with OWriteAll bs => bs | _ => [] end) <$> l).

(** ** Free functions *)
Definition parse_server (server sni : str) : result (str * Z * str) :=
  '(host, port) ←
    match parse_socket_addr server with
    | Some addr => Ok (show_ip (ip addr), port addr)
    | None =>
        '(host, port) ← parse_host_port server;
        if is_empty host || contains x3a host || starts_with (B "[") server
        then Err (EMsg (B "Invalid server address: " ++ server))
        else Ok (host, port)
    end;
  Ok (host, port, if is_empty sni then host else sni).

(** The attempt at an address is [None] when it takes longer than
    [DEFAULT_DIAL_TIMEOUT]. *)
Fixpoint try_addresses_from {T} (connect : SocketAddr → option (result T)) (last : option error)
    (addresses : list SocketAddr) : result T :=
  match addresses with
  | [] => Err (default (EMsg (B "No addresses found for server")) last)
  | addr :: addresses =>
      match connect addr with
      | Some (Ok connection) => Ok connection
      | Some (Err e) => try_addresses_from connect (Some e) addresses
      | None => try_addresses_from connect (Some (EMsg (B "QUIC connection attempt timed out"))) addresses
      end
  end.
Definition try_addresses {T} (addresses : list SocketAddr) (connect : SocketAddr → option (result T)) : result T :=
  try_addresses_from connect None addresses.

Definition resolve_with_timeout {T} (lookup : option (result T)) : result T :=
  match lookup with Some r => r | None => Err (EMsg (B "DNS lookup timed out")) end.

Definition udp_packet_len (data : str) : result str :=
  let len := Z.of_nat (length data) in
  if len <=? u16_max then Ok (to_be16 len) else Err (EMsg (B "UDP payload exceeds 65535 bytes")).

(** ** Certificate verification *)

(** The [base64] crate's two engines, both with the standard padding, and the
    [hex] crate. *)
Class Base64 := { decode_url_safe : str → option str; decode_standard : str → option str }.
Class HexDecode := hex_decode : str → result str.

(** A digit of the URL-safe alphabet stands for six bits. *)
Definition url_safe_digit (c : byte) : bool :=
  between 65 90 c || between 97 122 c || between 48 57 c || bool_decide (c = x2d) || bool_decide (c = x5f).
Class Base64Laws `{Base64} : Prop := {
  decode_url_safe_quads s k : forallb url_safe_digit s = true → length s = (4 * k)%nat →
    ∃ d, decode_url_safe s = Some d ∧ length d = (3 * k)%nat;
}.
Class Sha256Laws `{Sha256} : Prop := { sha256_length s : length (sha256_digest s) = 32%nat }.

Inductive Verifier :=
  | SkipVerify
  | PinVerify (pinned_hash : str)
  | WebPkiRoots.

Section verifier.
Context `{Sha256} (web_pki : list str → result unit).

Definition verify_server_cert (v : Verifier) (end_entity : str) (intermediates : list str) : result unit :=
  match v with
  | SkipVerify => Ok tt
  | PinVerify pinned_hash =>
      if decide (generate_cert_chain_hash (end_entity :: intermediates) = pinned_hash) then Ok tt
      else Err (EMsg (B "pinned cert chain hash mismatch"))
  | WebPkiRoots => web_pki (end_entity :: intermediates)
  end.
End verifier.

Record TlsConfig := mkTls {
  verifier : Verifier;
  alpn_protocols : list str;
  enable_early_data : bool;
}.

Definition build_tls_config (allow_insecure : bool) (pinned_hash : str) (enable_early_data : bool) : TlsConfig :=
  mkTls (if allow_insecure then SkipVerify
         else if negb (is_empty pinned_hash) then PinVerify pinned_hash
         else WebPkiRoots)
    [B "h3"] enable_early_data.

Record ClientConfig := mkClientConfig { tls : TlsConfig; transport : TransportConfig }.

Definition build_quic_config (allow_insecure : bool) (pinned_hash congestion_control : str)
    (initial_rtt keep_alive_interval : option Z) (enable_0rtt : bool) : effect Op ClientConfig :=
  let tls_config := build_tls_config allow_insecure pinned_hash enable_0rtt in
  _ ← op OQuicConfig;
  mret (mkClientConfig tls_config
    (mkTransport initial_rtt (secs <$> keep_alive_interval)
       MAX_OPEN_INCOMING_STREAMS MAX_OPEN_INCOMING_STREAMS MAX_QUIC_IDLE_TIMEOUT
       (window initial_rtt QUIC_STREAM_RECEIVE_WINDOW)
       (window initial_rtt QUIC_CONNECTION_RECEIVE_WINDOW)
       QUIC_SEND_WINDOW (congestion_of congestion_control))).

(** ** [JuicityClient::new] *)
Record JuicityClient := mkClient {
  server_host : str;
  server_port : Z;
  uuid : Uuid;
  password : str;
  sni : str;
  quic_config : ClientConfig;
}.

Definition decode_pin `{Base64, HexDecode} (pin : str) : result str :=
  if is_empty pin then Ok []
  else
    match decode_url_safe pin with
    | Some hash => Ok hash
    | None =>
        match decode_standard pin with
        | Some hash => Ok hash
        | None => hex_decode pin
        end
    end.

Definition client_endpoint (linux : bool) (fwmark : option Z) (bind_addr : SocketAddr) : list Op :=
  match fwmark with
  | Some mark =>
      [ONewSocket; OSetOnlyV6 false] ++ (if linux then [OSetMark mark] else []) ++
      [OBind bind_addr; ORuntime; OWrapSocket; OEndpoint]
  | None => [OEndpointClient bind_addr]
  end.

Definition JuicityClient_new `{UuidParse, Base64, HexDecode} (linux : bool) (c : Config) : effect Op JuicityClient :=
  uuid ← pure (ok_or (parse_uuid (Config.uuid c)) EUuidParse);
  '(server_host, server_port, sni) ← pure (parse_server (Config.server c) (Config.sni c));
  pinned_hash ← pure (decode_pin (pinned_certchain_sha256 c));
  bind_addr ← pure (ok_or (parse_socket_addr (B "[::]:0")) EAddrParse);
  _ ← ops (client_endpoint linux (fwmark c) bind_addr);
  quic_config ← build_quic_config (allow_insecure c) pinned_hash (congestion_control c) (initial_rtt c)
                  (keep_alive_interval c) (default true (enable_0rtt c));
  mret (mkClient server_host server_port uuid (Config.password c) sni quic_config).

(** ** Dialling *)
Section dial.
Context (export_keying_material : str → str → result str).

(** The result is what was written on the unidirectional stream. *)
Definition connect_to_address (client : JuicityClient) (addr : SocketAddr) : effect Op str :=
  _ ← op (OConnectWith addr (sni client));
  _ ← op OHandshake;
  _ ← op OOpenUni;
  token ← pure (gen_token_via_connection export_keying_material (uuid client) (password client));
  let auth_buf := [PROTOCOL_VERSION; AUTHENTICATE_TYPE] ++ uuid client ++ token in
  _ ← op (OWriteAll auth_buf);
  mret auth_buf.

(** The attempt of [lead_reconnect]; [try_at a] is [None] when the attempt at
    [a] times out. *)
Definition dial (client : JuicityClient) (lookup : option (result (list SocketAddr)))
    (try_at : SocketAddr → option (Op → result unit)) : result (SocketAddr * str) :=
  addresses ← resolve_with_timeout lookup;
  try_addresses addresses (λ addr,
    (λ try_op, pair addr <$> (connect_to_address client addr try_op).2) <$> try_at addr).
End dial.

(** ** Streams *)
Definition open_tcp_stream (addr : str) (port : Z) : effect Op unit :=
  _ ← op OConnect;
  _ ← op OOpenBi;
  header ← pure (build_proxy_header NETWORK_TCP addr port);
  op (OWriteAll header).

Definition open_udp_stream (addr : str) (port : Z) (first_packet : str) : effect Op unit :=
  pkt_len ← pure (udp_packet_len first_packet);
  _ ← op OConnect;
  _ ← op OOpenBi;
  stream_header ← pure (build_proxy_header NETWORK_UDP addr port);
  dgram_addr ← pure (build_trojanc_addr addr port);
  op (OWriteAll (stream_header ++ dgram_addr ++ pkt_len ++ first_packet)).

(** The scratch buffer is returned as it is left. *)
Definition send_udp_datagram (cached : CachedAddr) (data addr_buf : str) : str * effect Op unit :=
  match udp_packet_len data with
  | Err e => (addr_buf, pure (Err e))
  | Ok len =>
      match build_trojanc_addr_cached [] cached with
      | Err e => ([], pure (Err e))
      | Ok addr_buf => let addr_buf := addr_buf ++ len ++ data in (addr_buf, op (OWriteAll addr_buf))
      end
  end.

(** ** Underlay authentications

    The authentication stream of one connection: whether it is still stored, and
    all bytes written on it. *)
Record AuthStream := mkAuthStream { available : bool; wire : str }.

(** How the writes of a message end: some may be accepted before one fails. *)
Inductive WriteOutcome :=
  | WAll
  | WFail (accepted : nat) (e : error).

Definition send_underlay_auth (connect : result unit) (s : AuthStream) (auth : UnderlayAuth) (w : WriteOutcome)
    : AuthStream * result unit :=
  match connect with
  | Err e => (s, Err e)
  | Ok _ =>
      if negb (available s) then (s, Err (EMsg (B "auth uni stream not available")))
      else
        let '(bs, r) := write_underlay_auth_async auth in
        let '(bs, r) :=
          match w with
          | WAll => (bs, r)
          | WFail n e => if decide (n < length bs)%nat then (take n bs, Err e) else (bs, r)
          end in
        match r with
        | Ok _ => (mkAuthStream true (wire s ++ bs), Ok tt)
        | Err e => (mkAuthStream false (wire s ++ bs), Err e)
        end
  end.

(** A sequence of sends, and the messages whose send succeeded. *)
Fixpoint send_all (s : AuthStream) (l : list (result unit * UnderlayAuth * WriteOutcome)) : AuthStream * list UnderlayAuth :=
  match l with
  | [] => (s, [])
  | (connect, auth, w) :: l =>
      let '(s, r) := send_underlay_auth connect s auth w in
      let '(s, sent) := send_all s l in
      (s, if is_ok r then auth :: sent else sent)
  end.

(** ** What was written *)
Lemma written_app l l' : written (l ++ l') = written l ++ written l'.
Proof. unfold written. by rewrite fmap_app, concat_app. Qed.

(** ** The server address *)

(** The server address is a socket address, or a non-empty host without
    brackets and colons before a port; a host name and an IPv4 address are taken as
    written, a bracketed IPv6 address without its brackets, a port always fits in
    16 bits, and an empty SNI is the host. *)
Theorem parse_server_correct sni :
  (∀ host p, host ≠ [] → x3a ∉ host → starts_with (B "[") host = false → 0 <= p <= u16_max →
     parse_server (host ++ B ":" ++ show_dec p) sni = Ok (host, p, if is_empty sni then host else sni)) ∧
  (∀ o p, length o = 16%nat → 0 <= p <= u16_max →
     parse_server (B "[" ++ show_ipv6 o ++ B "]:" ++ show_dec p) sni =
     Ok (show_ipv6 o, p, if is_empty sni then show_ipv6 o else sni)) ∧
  (∀ server host p name, parse_server server sni = Ok (host, p, name) →
     name = (if is_empty sni then host else sni) ∧
     ((∃ a, parse_socket_addr server = Some a ∧ host = show_ip (ip a) ∧ p = port a) ∨
      (host ≠ [] ∧ x3a ∉ host ∧ starts_with (B "[") server = false ∧
       ∃ ds, server = host ++ B ":" ++ ds ∧ parse_u16 ds = Some p))).
Proof.
  split_and!.
  - intros host p Hn Hc Hb Hp. unfold parse_server. destruct (parse_ipv4 host) as [o|] eqn:E4.
    + pose proof (parse_ipv4_length _ _ E4) as Hl. apply parse_ipv4_canonical in E4 as <-.
      change (show_ipv4 o ++ B ":" ++ show_dec p) with (show_socket_addr (socket_addr (V4 o) p)).
      by rewrite parse_show_socket_addr.
    + rewrite parse_socket_addr_host_port; [|done| |done].
      * rewrite parse_host_port_plain by done. result_cbn.
        destruct host as [|c host]; [done|]. apply contains_false in Hc as ->.
        assert (starts_with (B "[") ((c :: host) ++ B ":" ++ show_dec p) = false) as ->; [|done].
        unfold starts_with in *. simpl in *. by case_decide.
      * destruct host as [|c host]; [done|]. intros [= ->]. done.
  - intros o p Ho Hp. unfold parse_server.
    change (B "[" ++ show_ipv6 o ++ B "]:" ++ show_dec p) with (show_socket_addr (socket_addr (V6 o) p)).
    by rewrite parse_show_socket_addr.
  - intros server host p name. unfold parse_server. destruct (parse_socket_addr server) as [a|] eqn:Ea.
    + result_cbn. intros [= <- <- <-]. split; [done|]. left. by exists a.
    + destruct (parse_host_port server) as [[h q]|e] eqn:E; [|done]. result_cbn.
      destruct (is_empty h) eqn:En; [done|]. destruct (contains x3a h) eqn:Ec; [done|].
      destruct (starts_with (B "[") server) eqn:Es; [done|]. cbn [orb]. result_cbn. intros [= <- <- <-].
      split; [done|]. right. apply contains_false in Ec. split_and!; [by intros ->|done|done|].
      apply parse_host_port_inv in E as (ds & Hds & [[-> _]|(-> & _)]); [done|]. by exists ds.
Qed.

Lemma parse_server_correct_witness :
  parse_server (B "proxy.example" ++ B ":" ++ show_dec 443) [] = Ok (B "proxy.example", 443, B "proxy.example").
Proof.
  apply (proj1 (parse_server_correct [])); [done|by apply contains_false|done|unfold u16_max; lia].
Defined.

(** ** [JuicityClient::new] and certificates *)
Section certificates.
Context `{UuidParse, Base64, HexDecode, Sha256} (web_pki : list str → result unit).

Lemma build_quic_config_ok allow pin cc rtt keep early try_op q :
  (build_quic_config allow pin cc rtt keep early try_op).2 = Ok q →
  tls q = build_tls_config allow pin early ∧
  transport q = mkTransport rtt (secs <$> keep) MAX_OPEN_INCOMING_STREAMS MAX_OPEN_INCOMING_STREAMS
    MAX_QUIC_IDLE_TIMEOUT (window rtt QUIC_STREAM_RECEIVE_WINDOW) (window rtt QUIC_CONNECTION_RECEIVE_WINDOW)
    QUIC_SEND_WINDOW (congestion_of cc).
Proof.
  intros ([] & _ & E)%effect_bind_snd. unfold mret, effect_ret in E. cbn [snd] in E. by injection E as <-.
Qed.

Lemma JuicityClient_new_ok linux c try_op client :
  (JuicityClient_new linux c try_op).2 = Ok client →
  parse_uuid (Config.uuid c) = Some (uuid client) ∧ password client = Config.password c ∧
  parse_server (Config.server c) (Config.sni c) = Ok (server_host client, server_port client, sni client) ∧
  ∃ h, decode_pin (pinned_certchain_sha256 c) = Ok h ∧
       verifier (tls (quic_config client)) =
         (if allow_insecure c then SkipVerify else if negb (is_empty h) then PinVerify h else WebPkiRoots).
Proof.
  unfold JuicityClient_new. intros (u & Hu & E)%effect_bind_snd.
  apply effect_bind_snd in E as ([[h p] n] & Hs & E). apply effect_bind_snd in E as (pin & Hp & E).
  apply effect_bind_snd in E as (a & _ & E). apply effect_bind_snd in E as ([] & _ & E).
  apply effect_bind_snd in E as (q & [Hq _]%build_quic_config_ok & E).
  unfold pure in *. cbn [snd] in *. unfold mret, effect_ret in E. cbn [snd] in E. injection E as <-.
  cbn. unfold ok_or in Hu. destruct (parse_uuid _) as [u'|]; [|done]. injection Hu as ->.
  split_and!; [done|done|done|]. exists pin. by rewrite Hq.
Qed.

(** A client that was built accepts, with a pin and without
    [allow_insecure], exactly the certificate chains whose chain hash is the
    decoded pin, whatever the public roots say of them; [allow_insecure] accepts
    every chain even when a pin is set, and without either the public roots
    decide. *)
Theorem client_verifies_pin linux c try_op client end_entity intermediates :
  (JuicityClient_new linux c try_op).2 = Ok client →
  let verified := verify_server_cert web_pki (verifier (tls (quic_config client))) end_entity intermediates in
  (allow_insecure c = true → verified = Ok tt) ∧
  (allow_insecure c = false → pinned_certchain_sha256 c = [] → verified = web_pki (end_entity :: intermediates)) ∧
  (∀ h, allow_insecure c = false → decode_pin (pinned_certchain_sha256 c) = Ok h → h ≠ [] →
     (verified = Ok tt ↔ generate_cert_chain_hash (end_entity :: intermediates) = h)).
Proof.
  intros (_ & _ & _ & h & Hh & Hv)%JuicityClient_new_ok verified. unfold verified. rewrite Hv.
  split_and!.
  - by intros ->.
  - intros -> Hn. rewrite Hn in Hh. injection Hh as <-. done.
  - intros h' -> Hh' Hn. rewrite Hh in Hh'. injection Hh' as <-. destruct h as [|b h]; [done|].
    cbn [is_empty negb]. unfold verify_server_cert. by case_decide.
Qed.

(** A pin in hexadecimal. *)
Definition hex_digit (c : byte) : bool := bool_decide (is_Some (to_digit 16 c)).

Lemma hex_digit_url_safe c : hex_digit c = true → url_safe_digit c = true.
Proof.
  intros Hc. pose proof (byte_forall (λ c, negb (hex_digit c) || url_safe_digit c) ltac:(by vm_compute) c) as Hf.
  cbn beta in Hf. by rewrite Hc in Hf.
Qed.

Lemma chain_hash_length `{!Sha256Laws} c cs : length (generate_cert_chain_hash (c :: cs)) = 32%nat.
Proof.
  destruct cs as [|d ds _] using rev_ind; [apply sha256_length|].
  rewrite app_comm_cons, chain_hash_snoc. apply sha256_length.
Qed.

Lemma hex_pin_refused `{!Base64Laws, !Sha256Laws} linux c try_op client end_entity intermediates :
  forallb hex_digit (pinned_certchain_sha256 c) = true → length (pinned_certchain_sha256 c) = 64%nat →
  allow_insecure c = false →
  (JuicityClient_new linux c try_op).2 = Ok client →
  verify_server_cert web_pki (verifier (tls (quic_config client))) end_entity intermediates =
  Err (EMsg (B "pinned cert chain hash mismatch")).
Proof.
  intros Hx Hl Hi (_ & _ & _ & h & Hh & ->)%JuicityClient_new_ok. rewrite Hi. unfold decode_pin in Hh.
  destruct (decode_url_safe_quads (pinned_certchain_sha256 c) 16) as (d & Hd & Hdl); [|done|].
  { apply List.forallb_forall. intros b Hb. apply hex_digit_url_safe. rewrite List.forallb_forall in Hx. by apply Hx. }
  destruct (pinned_certchain_sha256 c) as [|b s]; [done|]. cbn [is_empty] in Hh. rewrite Hd in Hh.
  injection Hh as <-. destruct d as [|x d]; [done|]. cbn [is_empty negb]. unfold verify_server_cert.
  rewrite decide_False; [done|]. intros E. apply (f_equal length) in E. rewrite chain_hash_length in E.
  by rewrite Hdl in E.
Qed.

(** A chain hash written as 64 hexadecimal digits is not usable as a pin:
    hexadecimal digits are base64 digits, so the text always decodes as base64,
    to 48 bytes, and the client refuses every certificate chain. *)
Theorem hex_pin_never_matches `{!Base64Laws, !Sha256Laws} linux c try_op client end_entity intermediates :
  forallb hex_digit (pinned_certchain_sha256 c) = true → length (pinned_certchain_sha256 c) = 64%nat →
  allow_insecure c = false →
  (JuicityClient_new linux c try_op).2 = Ok client →
  verify_server_cert web_pki (verifier (tls (quic_config client))) end_entity intermediates =
  Err (EMsg (B "pinned cert chain hash mismatch")).
Proof. apply hex_pin_refused. Qed.
End certificates.

(** ** Dialling *)
Lemma try_addresses_ok {T} (connect : SocketAddr → option (result T)) last l x :
  try_addresses_from connect last l = Ok x →
  ∃ l1 a l2, l = l1 ++ a :: l2 ∧ connect a = Some (Ok x) ∧ Forall (λ b, ∀ y, connect b ≠ Some (Ok y)) l1.
Proof.
  revert last. induction l as [|a l IH]; intros last; cbn [try_addresses_from]; [done|].
  destruct (connect a) as [[y|e]|] eqn:E.
  - intros [= ->]. by exists [], a, l.
  - intros (l1 & b & l2 & -> & Hb & Hl)%IH. exists (a :: l1), b, l2. split_and!; [done|done|].
    constructor; [|done]. intros y. by rewrite E.
  - intros (l1 & b & l2 & -> & Hb & Hl)%IH. exists (a :: l1), b, l2. split_and!; [done|done|].
    constructor; [|done]. intros y. by rewrite E.
Qed.

Section authentication.
Context (export : str → str → result str) (users : gmap Uuid str) (show_uuid : Uuid → str).

(** The configured user has the client's password, and the exporter of the
    connection gives tokens of 32 bytes. *)
Definition known (client : JuicityClient) : Prop :=
  length (uuid client) = 16%nat ∧ users !! uuid client = Some (password client) ∧
  ∀ u p t, export u p = Ok t → length t = 32%nat.

Lemma connect_to_address_authentic client addr try_op opening :
  known client → (connect_to_address export client addr try_op).2 = Ok opening →
  authentic users export (uuid client) opening.
Proof.
  intros (Hu & Hp & Ht) E. unfold connect_to_address in E.
  do 3 apply effect_bind_snd in E as ([] & _ & E). apply effect_bind_snd in E as (t & Et & E).
  apply effect_bind_snd in E as ([] & _ & E). unfold mret, effect_ret in E. cbn [snd] in E. injection E as <-.
  unfold pure, gen_token_via_connection in Et. cbn [snd] in Et.
  destruct (export (uuid client) (password client)) as [t'|] eqn:Ex; [|done]. injection Et as ->.
  exists (password client), t. split_and!; [done|done|by eapply Ht|done|done].
Qed.

Lemma dial_authentic client lookup try_at addr opening :
  known client → dial export client lookup try_at = Ok (addr, opening) →
  authentic users export (uuid client) opening.
Proof.
  intros Hk. unfold dial, resolve_with_timeout. destruct lookup as [[addresses|]|]; [|done|done]. result_cbn.
  intros (l1 & a & l2 & _ & E & _)%try_addresses_ok. apply fmap_Some in E as (try_op & _ & E).
  destruct (connect_to_address export client a try_op).2 as [o|] eqn:Eo; [|done]. injection E as -> ->.
  by eapply connect_to_address_authentic.
Qed.

(** C14: a connection that the client dials authenticates it: the addresses
    of the server are tried in order and the first one whose handshake, stream,
    token and write all succeed in time is used, and a server that has the user
    accepts exactly the bytes written there, whatever follows them. *)
Theorem client_authenticates client lookup try_at addr opening :
  known client → dial export client lookup try_at = Ok (addr, opening) →
  (∀ rest, handle_auth users export show_uuid (opening ++ rest) = Ok (uuid client, rest)) ∧
  ∃ before after, lookup = Some (Ok (before ++ addr :: after)) ∧
    (∃ try_op, try_at addr = Some try_op ∧ (connect_to_address export client addr try_op).2 = Ok opening) ∧
    Forall (λ b, ∀ try_op o, try_at b = Some try_op → (connect_to_address export client b try_op).2 ≠ Ok o) before.
Proof.
  intros Hk E. split.
  { intros rest. apply handle_auth_ok. exists opening. split; [by eapply dial_authentic|done]. }
  unfold dial, resolve_with_timeout in E. destruct lookup as [[addresses|]|]; [|done|done]. revert E. result_cbn.
  intros (l1 & a & l2 & -> & E & Hl)%try_addresses_ok. apply fmap_Some in E as (try_op & Ht & E).
  destruct (connect_to_address export client a try_op).2 as [o|] eqn:Eo; [|done]. injection E as -> ->.
  exists l1, l2. split_and!; [done|by exists try_op|]. eapply Forall_impl; [exact Hl|].
  cbn beta. intros b Hb try_op' o' Hb' Eo'. apply (Hb (b, o')). rewrite Hb'. cbn. by rewrite Eo'.
Qed.

(** ** Underlay authentications *)

(** An authentication that a client can be asked to send: the key material may
    have any length. *)
Definition sendable (a : UnderlayAuth) : Prop :=
  length (iv a) = 32%nat ∧ (0 < length (hostname (metadata a)) ≤ 255)%nat ∧
  utf8_valid (hostname (metadata a)) = true ∧ 0 <= metadata_port (metadata a) <= u16_max.

Definition partial_message (bs : str) : Prop := read_underlay_auth_async bs = Err EUnexpectedEof.

Lemma short_message bs : (length bs < 64)%nat → partial_message bs.
Proof.
  intros Hl. unfold partial_message, read_underlay_auth_async, mbind, reader_bind, read_exact.
  case_decide as H1; [|done]. rewrite decide_False; [done|]. rewrite length_drop. unfold UNDERLAY_PSK_LEN. lia.
Qed.

(** What a send leaves on the stream. *)
Lemma write_underlay_auth_cases a n :
  sendable a →
  let '(bs, r) := write_underlay_auth_async a in
  (auth_ok a ∧ r = Ok tt ∧ ((n < length bs)%nat → partial_message (take n bs))) ∨
  (is_ok r = false ∧ partial_message bs ∧ partial_message (take n bs)).
Proof.
  intros (Hi & Hh & Hv & Hp). destruct (decide (length (psk a) = UNDERLAY_PSK_LEN)) as [Hk|Hk].
  - destruct (underlay_auth_roundtrip_one a []) as (bs & -> & Hr); [done|]. left. split_and!; [done|done|].
    intros Hn. unfold partial_message. eapply (incremental_prefix _ (take n bs) (drop n bs));
      [apply incremental_read_underlay_auth|rewrite take_drop; by rewrite app_nil_r in Hr|].
    intros E%(f_equal length). rewrite length_drop in E. simpl in E. lia.
  - unfold write_underlay_auth_async. rewrite (proj2 (Nat.eqb_neq _ _) Hk). cbn [negb]. right.
    split_and!; [done|apply short_message; lia|apply short_message; rewrite length_take; lia].
Qed.

Definition message (a : UnderlayAuth) : str := (write_underlay_auth_async a).1.

(** After any sends, the stream holds the opening, the messages that were sent
    and, once it is given up, the beginning of another one. *)
Lemma send_all_wire l s s' sent :
  Forall (λ x, sendable x.1.2) l → send_all s l = (s', sent) →
  Forall auth_ok sent ∧
  (available s = false → sent = [] ∧ s' = s) ∧
  ∃ rest, wire s' = wire s ++ concat (message <$> sent) ++ rest ∧ partial_message rest ∧ (available s' = true → rest = []).
Proof.
  intros Hl. revert s s' sent. induction Hl as [|[[c a] w] l Ha _ IH]; intros s s' sent; cbn [send_all].
  { intros [= <- <-]. split_and!; [constructor|done|]. exists []. by rewrite app_nil_r. }
  destruct (send_underlay_auth c s a w) as [s1 r1] eqn:E1. destruct (send_all s1 l) as [s2 sent2] eqn:E2.
  destruct (IH _ _ _ E2) as (Hok & Hdead & rest & Hw & Hp & Hr). intros [= <- <-]. cbn [fst snd] in Ha.
  unfold send_underlay_auth in E1. destruct c as [[]|e].
  2: { injection E1 as <- <-. split_and!; [done|done|]. by exists rest. }
  destruct (available s) eqn:Eav; cbn [negb] in E1.
  2: { injection E1 as <- <-. destruct (Hdead Eav) as [-> ->]. split_and!; [done|done|]. by exists rest. }
  pose proof (write_underlay_auth_cases a (match w with WFail n _ => n | WAll => O end) Ha) as Hc.
  destruct (write_underlay_auth_async a) as [bs r] eqn:Em.
  assert (message a = bs) as Hm by (unfold message; by rewrite Em).
  assert (∀ bs' e', s1 = mkAuthStream false (wire s ++ bs') → r1 = Err e' → partial_message bs' →
    Forall auth_ok (if is_ok r1 then a :: sent2 else sent2) ∧
    (true = false → (if is_ok r1 then a :: sent2 else sent2) = [] ∧ s2 = s) ∧
    ∃ rest, wire s2 = wire s ++ concat (message <$> if is_ok r1 then a :: sent2 else sent2) ++ rest ∧
            partial_message rest ∧ (available s2 = true → rest = [])) as Hfail.
  { intros bs' e' -> -> Hpart. cbn [is_ok]. destruct (Hdead eq_refl) as [-> ->]. split_and!; [done|done|].
    by exists bs'. }
  destruct Hc as [(Hao & -> & Htk)|(Hr1 & Hb & Htk)].
  - assert (s1 = mkAuthStream true (wire s ++ bs) → r1 = Ok tt →
      Forall auth_ok (if is_ok r1 then a :: sent2 else sent2) ∧
      (true = false → (if is_ok r1 then a :: sent2 else sent2) = [] ∧ s2 = s) ∧
      ∃ rest, wire s2 = wire s ++ concat (message <$> if is_ok r1 then a :: sent2 else sent2) ++ rest ∧
              partial_message rest ∧ (available s2 = true → rest = [])) as Hgood.
    { intros -> ->. cbn [is_ok]. split_and!; [by constructor|done|]. exists rest. split_and!; [|done|done].
      rewrite Hw, fmap_cons. cbn [concat wire]. rewrite Hm. by rewrite <-!app_assoc. }
    destruct w as [|n e]; [injection E1 as <- <-; by apply Hgood|].
    destruct (decide (n < length bs)%nat) as [Hn|Hn]; injection E1 as <- <-; [|by apply Hgood].
    by eapply Hfail; [done..|apply Htk].
  - destruct r as [|e1]; [done|]. destruct w as [|n e]; [injection E1 as <- <-; by eapply Hfail|].
    destruct (decide (n < length bs)%nat); injection E1 as <- <-; by eapply Hfail.
Qed.

(** Whatever becomes of the writes of a sequence of underlay
    authentications on one connection, the server that has heard the stream has
    stored exactly those whose send succeeded, in order: a send that fails midway
    gives the stream up, so no later message is read out of step. *)
Theorem underlay_sends_stored client lookup try_at addr opening sends t ls :
  known client → dial export client lookup try_at = Ok (addr, opening) →
  Forall (λ x, sendable x.1.2) sends →
  let '(s, sent) := send_all (mkAuthStream true opening) sends in
  let c := handle_connection users export show_uuid t ls in
  heard c = wire s → (∀ r, phase c ≠ PEnd r) →
  stored c = received_auth <$> sent ∧ ∃ alive streams, phase c = PServe (uuid client) alive streams.
Proof.
  intros Hk Hd Hs. destruct (send_all (mkAuthStream true opening) sends) as [s sent] eqn:E. intros c Hh Hend.
  destruct (send_all_wire _ _ _ _ Hs E) as (Hok & _ & rest & Hw & Hp & _). cbn [wire] in Hw.
  destruct (read_concat_auths sent rest Hok) as [_ Hread].
  refine (stored_when_heard users export show_uuid t ls (uuid client) opening _ _ rest EUnexpectedEof
            (dial_authentic _ _ _ _ _ Hk Hd) _ Hp _ Hend); [|by rewrite <-Hw]. by rewrite length_fmap.
Qed.
End authentication.

(** ** Streams *)
Lemma build_proxy_header_address n host p a :
  address_of host = Some a → build_proxy_header n host p = Ok (n :: encode_address a ++ to_be16 p).
Proof.
  intros Ha. assert (is_empty host = false) as He by by destruct host.
  unfold address_of in Ha. unfold build_proxy_header. rewrite He. destruct (contains x3a host) eqn:Ec.
  - destruct (parse_ipv6 host) as [o|]; [|done]. injection Ha as <-. done.
  - destruct (parse_ipv4 host) as [o|]; [by injection Ha as <-|]. case_bool_decide as Hl; [|done].
    injection Ha as <-. rewrite bool_decide_false by by intros []%is_Some_None.
    unfold_result. destruct (Z.leb_spec (Z.of_nat (length host)) 255); [done|lia].
Qed.

Lemma udp_packet_len_ok data :
  Z.of_nat (length data) <= u16_max → udp_packet_len data = Ok (to_be16 (Z.of_nat (length data))).
Proof. intros Hl. unfold udp_packet_len. by destruct (Z.leb_spec (Z.of_nat (length data)) u16_max); [|lia]. Qed.

Lemma send_udp_datagram_frame f buf :
  frame_ok f →
  send_udp_datagram (from_host_port (fhost f) (fport f)) (fpayload f) buf = (frame_bytes f, op (OWriteAll (frame_bytes f))).
Proof.
  intros (_ & [a Ha] & _ & Hl). unfold send_udp_datagram, frame_bytes. rewrite udp_packet_len_ok by done.
  rewrite build_cached_from_host_port, build_trojanc_addr_address, Ha. cbn [app]. by rewrite <-!app_assoc.
Qed.

(** A session that sends frames: the first one opens the stream. *)
Fixpoint send_frames (addr_buf : str) (frames : list Frame) : effect Op unit :=
  match frames with
  | [] => mret tt
  | f :: frames =>
      let '(addr_buf, send) := send_udp_datagram (from_host_port (fhost f) (fport f)) (fpayload f) addr_buf in
      _ ← send; send_frames addr_buf frames
  end.

Definition udp_session (f : Frame) (frames : list Frame) : effect Op unit :=
  _ ← open_udp_stream (fhost f) (fport f) (fpayload f); send_frames [] frames.

Section streams.
Context (try_op : Op → result unit) (all_ok : ∀ o, try_op o = Ok tt).

Lemma send_frames_written buf frames :
  Forall frame_ok frames →
  (send_frames buf frames try_op).2 = Ok tt ∧
  written (send_frames buf frames try_op).1 = concat (frame_bytes <$> frames).
Proof.
  intros Hf. revert buf. induction Hf as [|f frames Hf _ IH]; intros buf; [done|].
  cbn [send_frames]. rewrite send_udp_datagram_frame by done. rewrite op_bind, all_ok.
  destruct (IH (frame_bytes f)) as [H1 H2]. split; [done|].
  rewrite fmap_cons. cbn [fst concat]. rewrite <-H2. done.
Qed.

Lemma udp_session_written f frames :
  Forall frame_ok (f :: frames) →
  ∃ header, build_proxy_header NETWORK_UDP (fhost f) (fport f) = Ok header ∧
    (udp_session f frames try_op).2 = Ok tt ∧
    written (udp_session f frames try_op).1 = header ++ concat (frame_bytes <$> f :: frames).
Proof.
  intros [Hf Hfs]%Forall_cons. destruct Hf as (Hv & [a Ha] & Hp & Hl).
  eexists. split; [by apply build_proxy_header_address|].
  destruct (send_frames_written [] frames Hfs) as [H1 H2].
  set (header := NETWORK_UDP :: encode_address a ++ to_be16 (fport f)).
  assert (open_udp_stream (fhost f) (fport f) (fpayload f) try_op
          = ([OConnect; OOpenBi; OWriteAll (header ++ frame_bytes f)], Ok tt)) as E.
  { unfold open_udp_stream. rewrite udp_packet_len_ok, pure_bind by done. rewrite op_bind, all_ok, op_bind, all_ok.
    rewrite (build_proxy_header_address _ _ _ a Ha), pure_bind. unfold frame_bytes.
    rewrite build_trojanc_addr_address, Ha, pure_bind. unfold op. by rewrite all_ok. }
  unfold udp_session. destruct (send_frames [] frames try_op) as [l r] eqn:El.
  rewrite (effect_bind_ok _ _ _ _ _ _ _ E El). split; [done|]. cbn [fst] in *.
  rewrite written_app, H2, fmap_cons. unfold written. cbn [fmap list_fmap concat app]. by rewrite !app_nil_r, app_assoc.
Qed.

(** The datagrams of a session arrive at the server. *)
Lemma udp_session_served resolve send address disable_443 is_ipv6 f frames :
  (∀ n h q, resolve n h q = Ok (address h q)) → (∀ d, send d = Ok tt) →
  Forall frame_ok (f :: frames) → disable_443 && (fport f =? 443) = false →
  handle_stream (λ _ _, Err EUnexpectedEof)
    (λ recv, Ok (handle_udp_relay resolve send disable_443 (Ok is_ipv6) (length recv) recv))
    (written (udp_session f frames try_op).1)
    = Ok (sent_frame address is_ipv6 <$> f :: frames, Ok tt).
Proof.
  intros Hres Hsend Hf Hd. destruct (udp_session_written f frames Hf) as (header & Hb & _ & Hw). rewrite Hw.
  pose proof (Forall_cons_1 _ _ _ Hf) as [(Hvf & [af Haf] & Hpf & Hlf) _].
  unfold handle_stream, read_proxy_header_async. rewrite (read_build_proxy_header _ _ _ _ _ Hvf Hpf Hb).
  result_cbn. rewrite decide_False by done. rewrite decide_True by done.
  rewrite (handle_udp_relay_frames resolve send address) by done.
  rewrite take_ge; [done|]. rewrite length_fmap. etrans; [by apply frames_length|]. apply Nat.le_succ_diag_r.
Qed.

Lemma tcp_stream_served {A} (tcp : str → str → result A) (udp : str → result A) host p payload :
  utf8_valid host = true → is_Some (address_of host) → 0 <= p <= u16_max →
  handle_stream tcp udp (written (open_tcp_stream host p try_op).1 ++ payload)
    = tcp (canonical_host host ++ B ":" ++ show_dec p) payload.
Proof.
  intros Hv [a Ha] Hp. pose proof (build_proxy_header_address NETWORK_TCP host p a Ha) as Hb.
  assert (written (open_tcp_stream host p try_op).1 = NETWORK_TCP :: encode_address a ++ to_be16 p) as ->.
  { unfold open_tcp_stream. rewrite op_bind, all_ok, op_bind, all_ok, Hb, pure_bind.
    unfold op, written. cbn [fst fmap list_fmap concat app]. by rewrite app_nil_r. }
  unfold handle_stream, read_proxy_header_async. rewrite (read_build_proxy_header _ _ _ _ payload Hv Hp Hb).
  result_cbn. by destruct host.
Qed.

(** C13: what a client writes for a TCP stream makes the server dial the
    host and the port it was asked for and relay every byte after the header; and
    what it writes for a UDP session makes the server send every datagram, each to
    the address its host and port resolve to, payloads unchanged and in order. *)
Theorem client_streams_served {A} (tcp : str → str → result A) (udp : str → result A)
    (resolve : nat → str → Z → result SocketAddr) (send : Datagram → result unit) (address : str → Z → SocketAddr)
    disable_443 is_ipv6 host p payload f frames :
  utf8_valid host = true → is_Some (address_of host) → 0 <= p <= u16_max →
  (∀ n h q, resolve n h q = Ok (address h q)) → (∀ d, send d = Ok tt) →
  Forall frame_ok (f :: frames) → disable_443 && (fport f =? 443) = false →
  handle_stream tcp udp (written (open_tcp_stream host p try_op).1 ++ payload)
    = tcp (canonical_host host ++ B ":" ++ show_dec p) payload ∧
  let bytes := written (udp_session f frames try_op).1 in
  handle_stream (λ _ _, Err EUnexpectedEof)
    (λ recv, Ok (handle_udp_relay resolve send disable_443 (Ok is_ipv6) (length recv) recv)) bytes
    = Ok (sent_frame address is_ipv6 <$> f :: frames, Ok tt).
Proof.
  intros Hv Ha Hp Hres Hsend Hf Hd. split; [by apply tcp_stream_served|].
  by apply udp_session_served.
Qed.
End streams.

(** A datagram of more than 65535 bytes is refused before anything is
    done: no connection is made, nothing is written and the scratch buffer keeps
    its content; every other payload is framed with its length. *)
Theorem oversized_datagram_refused host p cached data buf try_op :
  (u16_max < Z.of_nat (length data) →
   open_udp_stream host p data try_op = ([], Err (EMsg (B "UDP payload exceeds 65535 bytes"))) ∧
   (send_udp_datagram cached data buf).1 = buf ∧
   (send_udp_datagram cached data buf).2 try_op = ([], Err (EMsg (B "UDP payload exceeds 65535 bytes")))) ∧
  (Z.of_nat (length data) <= u16_max →
   ∃ hi lo, udp_packet_len data = Ok [hi; lo] ∧ from_be16 hi lo = Z.of_nat (length data)).
Proof.
  split.
  - intros Hl. assert (udp_packet_len data = Err (EMsg (B "UDP payload exceeds 65535 bytes"))) as E.
    { unfold udp_packet_len. by destruct (Z.leb_spec (Z.of_nat (length data)) u16_max); [lia|]. }
    unfold open_udp_stream, send_udp_datagram. rewrite E, pure_bind. done.
  - intros Hl. rewrite udp_packet_len_ok by done. unfold to_be16. eexists _, _. split; [done|].
    apply from_to_be16. lia.
Qed.

(** ** A concrete client *)
Module Toy.
(** A base64 decoder without padding, enough for the law. *)
Definition value (c : byte) : Z :=
  if between 65 90 c then u8 c - 65 else if between 97 122 c then u8 c - 71
  else if between 48 57 c then u8 c + 4 else if decide (c = x2d) then 62 else 63.

Definition quad (a b c d : byte) : str :=
  let z := value a * 262144 + value b * 4096 + value c * 64 + value d in
  [byte_of (z / 65536); byte_of (z / 256); byte_of z].

Fixpoint decode (s : str) : option str :=
  match s with
  | [] => Some []
  | a :: b :: c :: d :: s =>
      if forallb url_safe_digit [a; b; c; d] then app (quad a b c d) <$> decode s else None
  | _ => None
  end.

#[export] Instance base64 : Base64 := {| decode_url_safe := decode; decode_standard _ := None |}.
#[export] Instance hex : HexDecode := λ _, Err EUtf8.
#[export] Instance sha256 : Sha256 := λ s, take 32 (s ++ replicate 32 x00).
#[export] Instance uuid_parse : UuidParse := λ s, Some (take 16 (s ++ replicate 16 x00)).

Lemma decode_quads s k :
  forallb url_safe_digit s = true → length s = (4 * k)%nat → ∃ d, decode s = Some d ∧ length d = (3 * k)%nat.
Proof.
  revert s. induction k as [|k IH]; intros s Hs Hl.
  - destruct s; [by exists []|done].
  - destruct s as [|a [|b [|c [|d s]]]]; simpl in Hl; try lia.
    cbn [forallb] in Hs. rewrite !andb_true_iff in Hs. destruct Hs as (Ha & Hb & Hc & Hd & Hs).
    destruct (IH s) as (r & Hr & Hrl); [done|lia|]. exists (quad a b c d ++ r).
    cbn [decode forallb]. rewrite Ha, Hb, Hc, Hd, Hr. split; [done|]. unfold quad. simpl. lia.
Qed.

#[export] Instance base64_laws : Base64Laws.
Proof. constructor. apply decode_quads. Qed.
#[export] Instance sha256_laws : Sha256Laws.
Proof.
  constructor. intros s. unfold sha256_digest, sha256. rewrite length_take, length_app, length_replicate. lia.
Qed.

Definition config (pin : str) : Config :=
  mkConfig (B "127.0.0.1:443") (B "user") (B "secret") [] false pin [] ∅ None ∅ [] [] [] [] false []
    (B "bbr") (B "info") None None None None.
Definition client : JuicityClient :=
  mkClient (B "127.0.0.1") 443 sample_user (B "secret") (B "127.0.0.1")
    (mkClientConfig (build_tls_config false [] true) (mkTransport None None 0 0 0 0 0 0 Cubic)).
Definition addr : SocketAddr := socket_addr (V4 [x7f; x00; x00; x01]) 443.
Definition other : SocketAddr := socket_addr (V4 [x7f; x00; x00; x02]) 443.
Definition all_ok (o : Op) : result unit := Ok tt.
(** The first address times out. *)
Definition try_at (a : SocketAddr) : option (Op → result unit) :=
  if bool_decide (ip a = ip other) then None else Some all_ok.
End Toy.
#[local] Existing Instances Toy.base64 Toy.hex Toy.sha256 Toy.uuid_parse Toy.base64_laws Toy.sha256_laws.

Definition new_or_sample (pin : str) : JuicityClient :=
  match (JuicityClient_new true (Toy.config pin) Toy.all_ok).2 with Ok c => c | Err _ => Toy.client end.

Lemma client_verifies_pin_witness :
  match decode_pin (concat (replicate 10 (B "Zz09"))) with
  | Ok h =>
      verify_server_cert (λ _, Ok tt) (verifier (tls (quic_config (new_or_sample (concat (replicate 10 (B "Zz09")))))))
        (B "cert") [] = Ok tt ↔ generate_cert_chain_hash [B "cert"] = h
  | Err _ => False
  end.
Proof.
  destruct (decode_pin _) as [h|e] eqn:Hh; [|by vm_compute in Hh]. unfold new_or_sample.
  destruct (JuicityClient_new true (Toy.config _) Toy.all_ok).2 as [cl|e] eqn:E; [|by vm_compute in E].
  apply (client_verifies_pin (λ _, Ok tt) true (Toy.config (concat (replicate 10 (B "Zz09")))) Toy.all_ok cl (B "cert") []);
    [exact E|done|exact Hh|]. intros ->. by vm_compute in Hh.
Defined.

Lemma hex_pin_never_matches_witness :
  let pin := concat (replicate 16 (B "0aF9")) in
  verify_server_cert (λ _, Ok tt) (verifier (tls (quic_config (new_or_sample pin)))) (B "cert") [B "issuer"]
  = Err (EMsg (B "pinned cert chain hash mismatch")).
Proof.
  intros pin. unfold new_or_sample.
  destruct (JuicityClient_new true (Toy.config pin) Toy.all_ok).2 as [cl|e] eqn:E; [|by vm_compute in E].
  by apply (hex_pin_never_matches (λ _, Ok tt) true (Toy.config pin) Toy.all_ok cl).
Defined.

Lemma sample_known : known sample_export sample_users Toy.client.
Proof. split_and!; [done|by vm_compute|]. by intros u p t [= <-]. Qed.

Lemma client_authenticates_witness :
  let lookup := Some (Ok [Toy.other; Toy.addr]) in
  dial sample_export Toy.client lookup Toy.try_at = Ok (Toy.addr, sample_opening) ∧
  ∀ rest, handle_auth sample_users sample_export (λ u, u) (sample_opening ++ rest) = Ok (sample_user, rest).
Proof.
  intros lookup. split; [by vm_compute|].
  apply (client_authenticates sample_export sample_users (λ u, u) Toy.client lookup Toy.try_at Toy.addr);
    [apply sample_known|by vm_compute].
Defined.

Lemma underlay_sends_stored_witness :
  let short := mkUnderlayAuth (iv sample_auth) [x01] (metadata sample_auth) Uuid_nil in
  let sends := [(Ok tt, sample_auth, WAll); (Err EUtf8, sample_auth, WAll); (Ok tt, sample_auth, WAll);
                (Ok tt, short, WAll); (Ok tt, sample_auth, WAll)] in
  let s := (send_all (mkAuthStream true sample_opening) sends).1 in
  let c := handle_connection sample_users sample_export (λ u, u) 0
             [LHandshake (Ok tt); LAcceptUni (Ok tt); LData (take 100 (wire s)); LData (drop 100 (wire s))] in
  stored c = received_auth <$> [sample_auth; sample_auth] ∧ ∃ alive streams, phase c = PServe sample_user alive streams.
Proof.
  intros short sends s c.
  apply (underlay_sends_stored sample_export sample_users (λ u, u) Toy.client (Some (Ok [Toy.addr])) Toy.try_at Toy.addr
           sample_opening sends 0
           [LHandshake (Ok tt); LAcceptUni (Ok tt); LData (take 100 (wire s)); LData (drop 100 (wire s))]).
  - apply sample_known.
  - by vm_compute.
  - repeat constructor; vm_compute; done || lia || (split; discriminate).
  - by vm_compute.
  - intros r. by vm_compute.
Defined.

Lemma client_streams_served_witness :
  let bytes := written (udp_session (mkFrame (B "a.b") 53 (B "one")) (drop 1 sample_frames) Toy.all_ok).1 in
  handle_stream (λ target rest, Ok (target, rest)) (λ _, Err EUtf8)
    (written (open_tcp_stream (B "a.b") 80 Toy.all_ok).1 ++ B "GET") = Ok (B "a.b:80", B "GET") ∧
  handle_stream (λ _ _, Err EUnexpectedEof)
    (λ recv, Ok (handle_udp_relay (λ _ h p, Ok (sample_address h p)) (λ _, Ok tt) false (Ok false) (length recv) recv)) bytes
    = Ok (sent_frame sample_address false <$> sample_frames, Ok tt).
Proof.
  apply (client_streams_served Toy.all_ok (λ _, eq_refl) (λ target rest, Ok (target, rest)) (λ _, Err EUtf8)
           (λ _ h p, Ok (sample_address h p)) (λ _, Ok tt) sample_address false false (B "a.b") 80 (B "GET")
           (mkFrame (B "a.b") 53 (B "one")) (drop 1 sample_frames)); try done.
  apply sample_frames_ok.
Defined.

Lemma oversized_datagram_refused_witness :
  ∃ hi lo, udp_packet_len (B "abc") = Ok [hi; lo] ∧ from_be16 hi lo = 3.
Proof.
  apply (oversized_datagram_refused (B "a.b") 53 (from_host_port (B "a.b") 53) (B "abc") [] Toy.all_ok).
  unfold u16_max. simpl. lia.
Defined.
