(* ===== verification/Socks.v ===== *)
(** * [client/src/local.rs]: the SOCKS5 front end

    The SOCKS5 handshake and request, its replies, and the UDP packets of an
    association in both directions.  The byte formats are those of [Protocol];
    the theorems relate them. *)
From S2P Require Import Prelude Std Consts Net Protocol UdpPool Conn UdpRelay Client.
#[local] Open Scope Z_scope.

Definition INBOUND_HEAD_TIMEOUT : Z := secs 10.

(** ** The request *)

(** The greeting, without the answer to it. *)
Definition read_methods : reader unit :=
  buf ← read_exact 2;
  let n_methods := u8 (default x00 (buf !! 1%nat)) in
  _ ← read_exact (Z.to_nat n_methods);
  mret tt.

(** The address of a request; a domain must be UTF-8, and may be empty. *)
Definition read_socks5_addr (addr_type : byte) : reader (str * Z) :=
  if decide (addr_type = x01) then
    ip ← read_exact 4; port ← read_u16; mret (show_ipv4 ip, port)
  else if decide (addr_type = x03) then
    len ← read_byte;
    domain ← read_exact (Z.to_nat (u8 len));
    port ← read_u16;
    host ← lift (from_utf8 domain);
    mret (host, port)
  else if decide (addr_type = x04) then
    ip ← read_exact 16; port ← read_u16; mret (show_ipv6 ip, port)
  else fail (EMsg (B "unsupported address type: " ++ show_dec (u8 addr_type))).

Definition read_request : reader (byte * str * Z) :=
  req ← read_exact 4;
  let cmd := default x00 (req !! 1%nat) in
  let addr_type := default x00 (req !! 3%nat) in
  '(host, port) ← read_socks5_addr addr_type;
  mret (cmd, host, port).

Definition build_socks5_response (reply : byte) (host : str) (port : Z) : str :=
  let '(addr_type, addr_bytes) :=
    match parse_ipv4 host with
    | Some ip => (x01, ip)
    | None =>
        match parse_ipv6 host with
        | Some ip => (x04, ip)
        | None => (x03, byte_of (Z.of_nat (length host)) :: host)
        end
    end in
  [x05; reply; x00; addr_type] ++ addr_bytes ++ to_be16 port.

(** ** The handler *)

(** What the handler does besides reading from its connection. *)
Inductive LocalOp :=
  | LWriteAll (bs : str)
  | LOpenTcpStream (host : str) (port : Z)
  | LUdpBind (a : SocketAddr)
  | LQuicWriteAll (bs : str).

(** How it goes on: copying both ways, with the bytes already received still to
    be sent; the same, but only until the response ends; or as an association
    until the control connection ends. *)
Inductive Served :=
  | SRelay (unread : str)
  | SForward (unread : str)
  | SAssociate (a : SocketAddr)
  | SNothing.

(** What the connection delivers before the deadline: bytes, and the error at
    their end, if it ended.  A read that needs more bytes waits for the deadline
    otherwise. *)
Record Inbound := mkInbound { arrived : str; ended : option error }.

Definition timed {A} (timeout : error) (inb : Inbound) (r : result A) : result A :=
  match r with
  | Err e => if decide (e = EUnexpectedEof) then Err (default timeout (ended inb)) else Err e
  | Ok a => Ok a
  end.

Definition socks5_timed_out : error := EMsg (B "SOCKS5 handshake timed out").

(** The head of the connection: greeting, answer, request. *)
Definition socks5_head (inb : Inbound) : effect LocalOp (byte * str * Z * str) :=
  '(_, recv) ← pure (timed socks5_timed_out inb (read_methods (arrived inb)));
  _ ← op (LWriteAll [x05; x00]);
  '(cmd, host, port, recv) ← pure (timed socks5_timed_out inb (read_request recv));
  mret (cmd, host, port, recv).

(** [udp_local_addr] is the address the operating system binds. *)
Definition handle_socks5 (local_addr : SocketAddr) (udp_local_addr : SocketAddr → SocketAddr) (inb : Inbound)
    : effect LocalOp Served :=
  '(cmd, host, port, recv) ← socks5_head inb;
  if decide (cmd = x01) then
    opened ← attempt (op (LOpenTcpStream host port));
    match opened with
    | Err e => _ ← op (LWriteAll (build_socks5_response x01 (B "0.0.0.0") 0)); pure (Err e)
    | Ok _ => _ ← op (LWriteAll (build_socks5_response x00 host port)); mret (SRelay recv)
    end
  else if decide (cmd = x03) then
    let udp_bind_addr := socket_addr (ip local_addr) 0 in
    _ ← op (LUdpBind udp_bind_addr);
    let udp_listen_addr := udp_local_addr udp_bind_addr in
    _ ← op (LWriteAll (build_socks5_response x00 (show_ip (ip udp_listen_addr)) (Net.port udp_listen_addr)));
    mret (SAssociate udp_listen_addr)
  else
    _ ← op (LWriteAll (build_socks5_response x07 (B "0.0.0.0") 0));
    mret SNothing.

(** ** UDP packets *)
Record UdpOutboundDatagram := mkOutbound { addr : str; port : Z; payload : str }.

(** Indexing and slicing, [None] where they panic. *)
Definition slice (s : str) (from to : nat) : option str :=
  if decide (from ≤ to ≤ length s)%nat then Some (take (to - from) (drop from s)) else None.

Definition port_at (packet : str) (offset : nat) : option Z :=
  hi ← packet !! offset; lo ← packet !! S offset; Some (from_be16 hi lo).

(** The address and the port at [offset] and where the payload begins; the
    inner [None] is the function's. *)
Definition socks5_udp_addr (packet : str) (offset : nat) (atyp : byte) : option (option (str * Z * nat)) :=
  if decide (atyp = x01) then
    if decide (length packet < offset + 4 + 2)%nat then Some None
    else
      a ← packet !! offset; b ← packet !! (offset + 1)%nat; c ← packet !! (offset + 2)%nat; d ← packet !! (offset + 3)%nat;
      let offset := (offset + 4)%nat in
      p ← port_at packet offset;
      Some (Some (show_ipv4 [a; b; c; d], p, (offset + 2)%nat))
  else if decide (atyp = x03) then
    match packet !! offset with
    | None => Some None
    | Some dlen =>
        let dlen := Z.to_nat (u8 dlen) in
        let offset := S offset in
        if decide (length packet < offset + dlen + 2)%nat then Some None
        else
          domain ← slice packet offset (offset + dlen);
          match from_utf8 domain with
          | Err _ => Some None
          | Ok domain =>
              let offset := (offset + dlen)%nat in
              p ← port_at packet offset;
              Some (Some (domain, p, (offset + 2)%nat))
          end
    end
  else if decide (atyp = x04) then
    if decide (length packet < offset + 16 + 2)%nat then Some None
    else
      ip ← slice packet offset (offset + 16);
      let offset := (offset + 16)%nat in
      p ← port_at packet offset;
      Some (Some (show_ipv6 ip, p, (offset + 2)%nat))
  else Some None.

Definition parse_socks5_udp_request (packet : str) : option (option UdpOutboundDatagram) :=
  if decide (length packet < 4)%nat then Some None
  else
    frag ← packet !! 2%nat;
    if decide (frag ≠ x00) then Some None
    else
      match packet !! 3%nat with
      | None => Some None
      | Some atyp =>
          parsed ← socks5_udp_addr packet 4 atyp;
          match parsed with
          | None => Some None
          | Some (addr, port, offset) =>
              if decide (length packet < offset)%nat then Some None
              else
                payload ← slice packet offset (length packet);
                Some (Some (mkOutbound addr port payload))
          end
      end.

Definition build_socks5_udp_packet (addr : str) (port : Z) (payload : str) : str :=
  [x00; x00; x00] ++
  match parse_ipv4 addr with
  | Some ipv4 => x01 :: ipv4
  | None =>
      match parse_ipv6 addr with
      | Some ipv6 => x04 :: ipv6
      | None => x03 :: byte_of (Z.of_nat (length addr)) :: addr
      end
  end ++ to_be16 port ++ payload.

(** The address and the port; the payload is left in the caller's buffer. *)
Definition read_one_udp_response : reader (str * Z * str) :=
  '(resp_addr, resp_port) ← read_trojanc_addr_async;
  pkt_len ← read_u16;
  buf ← read_exact (Z.to_nat pkt_len);
  mret (resp_addr, resp_port, buf).

(** ** Addresses *)

(** The address under which a host is written. *)
Definition host_address (host : str) : Address :=
  match parse_ipv4 host with
  | Some o => ADIpv4 o
  | None => match parse_ipv6 host with Some o => ADIpv6 o | None => ADDomain host end
  end.

Definition domain_utf8 (a : Address) : Prop := match a with ADDomain d => utf8_valid d = true | _ => True end.

Lemma host_address_ok host :
  utf8_valid host = true → (0 < length host ≤ 255)%nat →
  address_wf (host_address host) ∧ domain_utf8 (host_address host) ∧ address_host (host_address host) = canonical_host host.
Proof.
  intros Hv Hl. unfold host_address, canonical_host. destruct (parse_ipv4 host) as [o|] eqn:E4.
  - rewrite parse_ipv6_no_colon by by apply contains_false; eapply parse_ipv4_no_colon.
    split_and!; [by eapply parse_ipv4_length|done|]. by apply parse_ipv4_canonical.
  - destruct (parse_ipv6 host) as [o|] eqn:E6; [|split_and!; [done|done|by apply from_utf8_lossy_valid]].
    split_and!; [by eapply parse_ipv6_length|done|done].
Qed.

Lemma read_socks5_encode a t bs p r :
  address_wf a → domain_utf8 a → encode_address a = t :: bs → 0 <= p <= u16_max →
  read_socks5_addr t (bs ++ to_be16 p ++ r) = Ok ((address_host a, p), r).
Proof.
  intros Hwf Hu E Hp. destruct a as [o|o|d]; injection E as <- <-; unfold read_socks5_addr; cbn [decide].
  - rewrite decide_True by done. rewrite (bind_ok _ _ _ _ _ (read_exact_app 4 o _ Hwf)).
    by rewrite (bind_ok _ _ _ _ _ (read_u16_be p r Hp)).
  - rewrite !decide_False, decide_True by done. rewrite (bind_ok _ _ _ _ _ (read_exact_app 16 o _ Hwf)).
    by rewrite (bind_ok _ _ _ _ _ (read_u16_be p r Hp)).
  - rewrite decide_False, decide_True by done. cbn [address_wf domain_utf8] in *. cbn [app].
    rewrite bind_ok with (1 := read_byte_cons _ _). rewrite byte_of_small by lia. rewrite Nat2Z.id.
    rewrite (bind_ok _ _ _ _ _ (read_exact_app _ d _ eq_refl)), (bind_ok _ _ _ _ _ (read_u16_be p r Hp)).
    unfold from_utf8. rewrite Hu. cbn [address_host]. by rewrite from_utf8_lossy_valid.
Qed.

Lemma build_socks5_response_address reply host p :
  build_socks5_response reply host p = [x05; reply; x00] ++ encode_address (host_address host) ++ to_be16 p.
Proof.
  unfold build_socks5_response, host_address. destruct (parse_ipv4 host); [done|]. by destruct (parse_ipv6 host).
Qed.

Lemma build_socks5_udp_address addr p payload :
  build_socks5_udp_packet addr p payload = [x00; x00; x00] ++ encode_address (host_address addr) ++ to_be16 p ++ payload.
Proof.
  unfold build_socks5_udp_packet, host_address. destruct (parse_ipv4 addr); [done|]. by destruct (parse_ipv6 addr).
Qed.

(** ** The packet parser reads within its bounds *)
Lemma lookup_app_add {A} (pre rest : list A) k : (pre ++ rest) !! (length pre + k)%nat = rest !! k.
Proof. rewrite lookup_app_r by lia. f_equal. lia. Qed.

Lemma port_at_add pre rest k : port_at (pre ++ rest) (length pre + k) = port_at rest k.
Proof. unfold port_at. by rewrite plus_n_Sm, !lookup_app_add. Qed.

Lemma slice_add pre rest i j : slice (pre ++ rest) (length pre + i) (length pre + j) = slice rest i j.
Proof.
  unfold slice. rewrite length_app. repeat case_decide; try lia; [|done]. f_equal.
  replace (length pre + j - (length pre + i))%nat with (j - i)%nat by lia. by rewrite drop_app_add.
Qed.

Lemma slice_app a r : slice (a ++ r) 0 (length a) = Some a.
Proof.
  unfold slice. rewrite decide_True by (rewrite length_app; lia). by rewrite Nat.sub_0_r, drop_0, take_app_length.
Qed.

Lemma port_at_app a hi lo r : port_at (a ++ hi :: lo :: r) (length a) = Some (from_be16 hi lo).
Proof. by rewrite <-(Nat.add_0_r (length a)), port_at_add. Qed.

Lemma slice_to_end pre r : slice (pre ++ r) (length pre) (length (pre ++ r)) = Some r.
Proof.
  rewrite length_app, <-(Nat.add_0_r (length pre)) at 1. rewrite slice_add.
  pose proof (slice_app r []) as H. by rewrite app_nil_r in H.
Qed.

Lemma split_at (s : str) n : (n ≤ length s)%nat → ∃ a r, s = a ++ r ∧ length a = n.
Proof. intros Hn. exists (take n s), (drop n s). rewrite take_drop, length_take. split; [done|lia]. Qed.

Lemma read_exact_short n s : (length s < n)%nat → read_exact n s = Err EUnexpectedEof.
Proof. intros Hn. unfold read_exact. by rewrite decide_False by lia. Qed.

Lemma read_port_cases s :
  (length s < 2)%nat ∧ read_u16 s = Err EUnexpectedEof ∨ ∃ hi lo r, s = hi :: lo :: r ∧ read_u16 s = Ok (from_be16 hi lo, r).
Proof. destruct s as [|hi [|lo r]]; [left; split; [simpl; lia|done]..|right; by exists hi, lo, r]. Qed.

(** Fixed-size addresses: [n] bytes and the port. *)
Lemma fixed_addr_cases (f : str → str) n s :
  (length s < n + 2)%nat ∧ (ip ← read_exact n; port ← read_u16; mret (f ip, port)) s = Err EUnexpectedEof ∨
  ∃ a hi lo r, s = a ++ hi :: lo :: r ∧ length a = n ∧
    (ip ← read_exact n; port ← read_u16; mret (f ip, port)) s = Ok ((f a, from_be16 hi lo), r).
Proof.
  destruct (decide (n ≤ length s)%nat) as [Hn|Hn].
  - apply split_at in Hn as (a & r & -> & Ha). rewrite (bind_ok _ _ _ _ _ (read_exact_app n a r Ha)).
    destruct (read_port_cases r) as [[Hl E]|(hi & lo & r' & -> & E)].
    + left. split; [rewrite length_app; lia|]. by rewrite (bind_err _ _ _ _ E).
    + right. exists a, hi, lo, r'. by rewrite (bind_ok _ _ _ _ _ E).
  - left. split; [lia|]. by rewrite (bind_err _ _ _ _ (read_exact_short n s ltac:(lia))).
Qed.

Lemma four_bytes (a : str) : length a = 4%nat → ∃ b c d e, a = [b; c; d; e].
Proof. destruct a as [|b [|c [|d [|e [|]]]]]; try done. by exists b, c, d, e. Qed.

(** What the parser finds at an offset is what the reader of requests reads
    there. *)
Lemma socks5_udp_addr_reads pre s t :
  socks5_udp_addr (pre ++ s) (length pre) t =
  Some (match read_socks5_addr t s with
        | Ok ((h, p), r) => Some (h, p, (length (pre ++ s) - length r)%nat)
        | Err _ => None
        end).
Proof.
  unfold socks5_udp_addr, read_socks5_addr. destruct (decide (t = x01)) as [->|H1]; [|destruct (decide (t = x03)) as [->|H3]].
  - destruct (fixed_addr_cases show_ipv4 4 s) as [[Hl E]|(a & hi & lo & r & -> & Ha & E)]; rewrite E.
    { rewrite decide_True by (rewrite length_app; lia). done. }
    apply four_bytes in Ha as (b & c & d & e & ->). rewrite decide_False by (rewrite !length_app; simpl; lia).
    rewrite <-(Nat.add_0_r (length pre)) at 1. rewrite !lookup_app_add, port_at_add. cbn.
    do 3 f_equal. rewrite !length_app. simpl. lia.
  - destruct s as [|len s].
    { rewrite <-(Nat.add_0_r (length pre)), lookup_app_add. done. }
    rewrite <-(Nat.add_0_r (length pre)) at 1. rewrite lookup_app_add. cbn [lookup list_lookup].
    rewrite bind_ok with (1 := read_byte_cons _ _). set (n := Z.to_nat (u8 len)).
    rewrite length_app. cbn [length].
    destruct (decide (n ≤ length s)%nat) as [Hn|Hn].
    2: { rewrite decide_True by lia. by rewrite (bind_err _ _ _ _ (read_exact_short n s ltac:(lia))). }
    apply split_at in Hn as (d & r & -> & Hd). rewrite (bind_ok _ _ _ _ _ (read_exact_app n d r Hd)).
    rewrite length_app. destruct (read_port_cases r) as [[Hl E]|(hi & lo & r' & -> & E)].
    { rewrite decide_True by lia. by rewrite (bind_err _ _ _ _ E). }
    rewrite (bind_ok _ _ _ _ _ E). rewrite decide_False by (simpl; lia).
    replace (pre ++ len :: d ++ hi :: lo :: r') with ((pre ++ [len]) ++ d ++ hi :: lo :: r') by by rewrite <-app_assoc.
    replace (S (length pre)) with (length (pre ++ [len]) + 0)%nat by (rewrite length_app; simpl; lia).
    rewrite <-!Nat.add_assoc, slice_add, <-Hd, Nat.add_0_l, slice_app. cbn [mbind option_bind].
    rewrite port_at_add, port_at_app. unfold lift, mbind at 2, reader_bind, mret, reader_ret, from_utf8.
    destruct (utf8_valid d); [|done]. cbn [mbind option_bind]. do 3 f_equal. rewrite length_app. simpl. lia.
  - destruct (decide (t = x04)) as [->|H4]; [|done].
    destruct (fixed_addr_cases show_ipv6 16 s) as [[Hl E]|(a & hi & lo & r & -> & Ha & E)]; rewrite E.
    { rewrite decide_True by (rewrite length_app; lia). done. }
    rewrite decide_False by (rewrite !length_app; simpl; lia).
    rewrite <-(Nat.add_0_r (length pre)) at 1. rewrite slice_add, <-Ha, slice_app. cbn [mbind option_bind].
    rewrite port_at_add, port_at_app. cbn [mbind option_bind]. do 3 f_equal. rewrite !length_app. simpl. lia.
Qed.

Lemma read_socks5_addr_suffix t s h p r :
  read_socks5_addr t s = Ok ((h, p), r) → ∃ a, s = a ++ r.
Proof.
  assert (incremental (read_socks5_addr t)) as Hi by (unfold read_socks5_addr, read_u16; solve_incremental).
  intros E. specialize (Hi s []). rewrite E in Hi. by destruct Hi as [[a Ha] _]; exists a.
Qed.

Lemma socks5_udp_parse packet :
  parse_socks5_udp_request packet =
  Some (match packet with
        | _ :: _ :: frag :: atyp :: s =>
            if decide (frag = x00) then
              match read_socks5_addr atyp s with
              | Ok ((addr, port), payload) => Some (mkOutbound addr port payload)
              | Err _ => None
              end
            else None
        | _ => None
        end).
Proof.
  destruct packet as [|b0 [|b1 [|frag [|atyp s]]]]; [done..|]. unfold parse_socks5_udp_request.
  rewrite decide_False by (simpl; lia). cbn [lookup list_lookup mbind option_bind].
  destruct (decide (frag = x00)) as [->|Hf]; [|by rewrite decide_True].
  rewrite decide_False by (by intros []).
  set (pre := [b0; b1; x00; atyp]). change (b0 :: b1 :: x00 :: atyp :: s) with (pre ++ s).
  change 4%nat with (length pre). rewrite socks5_udp_addr_reads. cbn [mbind option_bind].
  destruct (read_socks5_addr atyp s) as [[[h p] r]|e] eqn:E; [|done].
  apply read_socks5_addr_suffix in E as (a & ->).
  rewrite decide_False by lia.
  assert (length (pre ++ a ++ r) - length r = length (pre ++ a))%nat as -> by (rewrite !length_app; lia).
  by rewrite app_assoc, slice_to_end.
Qed.

(** The parser of SOCKS5 UDP packets is total: on every packet it stays
    within its bounds, and it accepts exactly the unfragmented packets whose
    header the request reader reads, with the bytes after the header as the
    payload. *)
Theorem socks5_udp_parser_reads packet :
  parse_socks5_udp_request packet =
  Some (match packet with
        | _ :: _ :: frag :: atyp :: s =>
            if decide (frag = x00) then
              match read_socks5_addr atyp s with
              | Ok ((addr, port), payload) => Some (mkOutbound addr port payload)
              | Err _ => None
              end
            else None
        | _ => None
        end).
Proof. apply socks5_udp_parse. Qed.

(** ** Requests and replies *)
Lemma address_host_text a :
  address_wf a → domain_utf8 a → utf8_valid (address_host a) = true ∧ (0 < length (address_host a) ≤ 255)%nat.
Proof.
  intros Hwf Hu. destruct a as [o|o|d]; cbn [address_wf domain_utf8 address_host] in *.
  - split; [apply utf8_valid_ascii, show_ipv4_ascii|]. pose proof (show_ipv4_length o).
    pose proof (show_ipv4_not_nil o Hwf). destruct (show_ipv4 o); [done|]. simpl in *. lia.
  - split; [by apply utf8_valid_ascii, show_ipv6_ascii|]. pose proof (show_ipv6_length o Hwf).
    pose proof (show_ipv6_colon o Hwf) as Hc. destruct (show_ipv6 o); [by apply not_elem_of_nil in Hc|]. simpl in *. lia.
  - by rewrite from_utf8_lossy_valid.
Qed.

Lemma read_response_address reply host p r :
  utf8_valid host = true → (0 < length host ≤ 255)%nat → 0 <= p <= u16_max →
  read_trojanc_addr_async (drop 3 (build_socks5_response reply host p) ++ r) = Ok ((canonical_host host, p), r).
Proof.
  intros Hv Hl Hp. rewrite build_socks5_response_address. change (drop 3 ([x05; reply; x00] ++ ?s)) with s.
  destruct (host_address_ok host Hv Hl) as (Hwf & _ & <-). rewrite <-app_assoc. by apply read_trojanc_addr_encode.
Qed.

(** A greeting with any methods and a request. *)
Definition socks5_bytes (methods : str) (cmd : byte) (a : Address) (p : Z) : str :=
  [x05; byte_of (Z.of_nat (length methods))] ++ methods ++ [x05; cmd; x00] ++ encode_address a ++ to_be16 p.

Lemma timed_ok {A} e inb (x : A) : timed e inb (Ok x) = Ok x.
Proof. done. Qed.

Lemma socks5_head_reads methods cmd a p rest ended try_op :
  (length methods ≤ 255)%nat → address_wf a → domain_utf8 a → 0 <= p <= u16_max →
  try_op (LWriteAll [x05; x00]) = Ok tt →
  socks5_head (mkInbound (socks5_bytes methods cmd a p ++ rest) ended) try_op =
  ([LWriteAll [x05; x00]], Ok (cmd, address_host a, p, rest)).
Proof.
  intros Hm Hwf Hu Hp Hw. unfold socks5_head, socks5_bytes. cbn [arrived].
  assert (∀ s, read_methods (([x05; byte_of (Z.of_nat (length methods))] ++ methods ++ s) ++ rest) = Ok (tt, s ++ rest)) as Em.
  { intros s. unfold read_methods. rewrite <-!app_assoc.
    rewrite (bind_ok _ _ _ _ _ (read_exact_app 2 [x05; byte_of (Z.of_nat (length methods))] _ eq_refl)).
    simpl. rewrite byte_of_small, Nat2Z.id by lia.
    by rewrite (bind_ok _ _ _ _ _ (read_exact_app _ methods _ eq_refl)). }
  rewrite Em, timed_ok, pure_bind, op_bind, Hw.
  destruct (encode_address_cons a) as (t & bs & E). rewrite E.
  assert (read_request (([x05; cmd; x00] ++ (t :: bs) ++ to_be16 p) ++ rest) = Ok ((cmd, address_host a, p), rest)) as ->.
  { unfold read_request. change (([x05; cmd; x00] ++ (t :: bs) ++ to_be16 p) ++ rest) with ([x05; cmd; x00; t] ++ (bs ++ to_be16 p) ++ rest).
    rewrite (bind_ok _ _ _ _ _ (read_exact_app 4 [x05; cmd; x00; t] _ eq_refl)). cbn [lookup list_lookup from_option].
    rewrite <-app_assoc. by rewrite (bind_ok _ _ _ _ _ (read_socks5_encode a t bs p rest Hwf Hu E Hp)). }
  by rewrite timed_ok, pure_bind.
Qed.

(** A SOCKS5 CONNECT, with any authentication methods and any of the
    three kinds of addresses, opens a stream to that host and port; then its
    success is answered, with the address and the port, and every byte after the
    request is left for the relay; a failure to open is answered with code 1. *)
Theorem socks5_connect_served local_addr udp_local_addr methods a p rest ended try_op :
  (length methods ≤ 255)%nat → address_wf a → domain_utf8 a → 0 <= p <= u16_max →
  (∀ bs, try_op (LWriteAll bs) = Ok tt) →
  let inb := mkInbound (socks5_bytes methods x01 a p ++ rest) ended in
  let served := handle_socks5 local_addr udp_local_addr inb try_op in
  match try_op (LOpenTcpStream (address_host a) p) with
  | Ok _ => ∃ reply,
      served = ([LWriteAll [x05; x00]; LOpenTcpStream (address_host a) p; LWriteAll ([x05; x00; x00] ++ reply)],
                Ok (SRelay rest)) ∧
      read_trojanc_addr_async reply = Ok ((canonical_host (address_host a), p), [])
  | Err e =>
      served = ([LWriteAll [x05; x00]; LOpenTcpStream (address_host a) p;
                 LWriteAll [x05; x01; x00; x01; x00; x00; x00; x00; x00; x00]], Err e)
  end.
Proof.
  intros Hm Hwf Hu Hp Hw inb served. subst served. unfold handle_socks5, inb.
  pose proof (socks5_head_reads methods x01 a p rest ended try_op Hm Hwf Hu Hp (Hw _)) as E.
  destruct (address_host_text a Hwf Hu) as [Hv Hl].
  match goal with |- context [(?m ≫= ?f) try_op] => destruct (f (x01, address_host a, p, rest) try_op) as [l r] eqn:Ef;
    rewrite (effect_bind_ok f m try_op _ _ _ _ E Ef) end.
  cbn beta in Ef. rewrite decide_True in Ef by done. rewrite attempt_bind in Ef.
  destruct (try_op (LOpenTcpStream (address_host a) p)) as [[]|e].
  - rewrite op_bind, Hw in Ef. injection Ef as <- <-.
    exists (drop 3 (build_socks5_response x00 (address_host a) p)). split.
    + by rewrite build_socks5_response_address.
    + pose proof (read_response_address x00 (address_host a) p [] Hv Hl Hp) as H. by rewrite app_nil_r in H.
  - rewrite op_bind, Hw in Ef. injection Ef as <- <-. done.
Qed.

Lemma socks5_udp_roundtrip addr p payload :
  utf8_valid addr = true → (0 < length addr ≤ 255)%nat → 0 <= p <= u16_max →
  parse_socks5_udp_request (build_socks5_udp_packet addr p payload) =
  Some (Some (mkOutbound (canonical_host addr) p payload)).
Proof.
  intros Hv Hl Hp. rewrite socks5_udp_parse, build_socks5_udp_address. destruct (host_address_ok addr Hv Hl) as (Hwf & Hu & <-).
  destruct (encode_address_cons (host_address addr)) as (t & bs & E). rewrite E. cbn [app].
  rewrite decide_True by done. by rewrite (read_socks5_encode _ t bs p payload Hwf Hu E Hp).
Qed.

(** ** Associations *)

(** A packet as a SOCKS5 client builds it. *)
Definition socks5_packet (x : Address * Z * str) : str :=
  [x00; x00; x00] ++ encode_address x.1.1 ++ to_be16 x.1.2 ++ x.2.

Definition packet_frame (x : Address * Z * str) : Frame := mkFrame (address_host x.1.1) x.1.2 x.2.
Definition packet_ok (x : Address * Z * str) : Prop :=
  address_wf x.1.1 ∧ domain_utf8 x.1.1 ∧ is_Some (address_of (address_host x.1.1)) ∧
  0 <= x.1.2 <= u16_max ∧ Z.of_nat (length x.2) <= u16_max.

Lemma packet_frame_ok x : packet_ok x → frame_ok (packet_frame x).
Proof.
  intros (Hwf & Hu & Ha & Hp & Hl). destruct (address_host_text _ Hwf Hu) as [Hv _].
  unfold frame_ok. cbn [fhost fport fpayload packet_frame]. by split_and!; try apply Hp.
Qed.

Lemma parse_socks5_packet x :
  packet_ok x → parse_socks5_udp_request (socks5_packet x) = Some (Some (mkOutbound (address_host x.1.1) x.1.2 x.2)).
Proof.
  destruct x as [[a p] pl]. intros (Hwf & Hu & _ & Hp & _). cbn [fst snd] in *. rewrite socks5_udp_parse. unfold socks5_packet.
  destruct (encode_address_cons a) as (t & bs & E). cbn [fst snd]. rewrite E. cbn [app].
  rewrite decide_True by done. by rewrite (read_socks5_encode _ t bs p pl Hwf Hu E Hp).
Qed.

(** An association carries datagrams unchanged in both directions: the
    packets a SOCKS5 client sends are parsed, and a session that sends the parsed
    datagrams makes the server send each payload to the address of its own
    packet, in order; and a response of the server is handed to the client in a
    packet that names the source of the response, its port and its payload. *)
Theorem socks5_association_transparent try_op resolve send address disable_443 is_ipv6 x xs :
  (∀ o, try_op o = Ok tt) → (∀ n h q, resolve n h q = Ok (address h q)) → (∀ d, send d = Ok tt) →
  Forall packet_ok (x :: xs) → disable_443 && (x.1.2 =? 443) = false →
  ((λ y, parse_socks5_udp_request (socks5_packet y)) <$> x :: xs) =
    ((λ y, Some (Some (mkOutbound (address_host y.1.1) y.1.2 y.2))) <$> x :: xs) ∧
  handle_stream (λ _ _, Err EUnexpectedEof)
    (λ recv, Ok (handle_udp_relay resolve send disable_443 (Ok is_ipv6) (length recv) recv))
    (written (udp_session (packet_frame x) (packet_frame <$> xs) try_op).1)
    = Ok ((λ y, (y.2, send_to_addr (address (canonical_host (address_host y.1.1)) y.1.2) is_ipv6)) <$> x :: xs, Ok tt) ∧
  ∀ d frame r, datagram_ok d → response_frame d.2 d.1 = Ok frame →
    let source := show_ip (to_canonical (ip d.2)) in
    read_one_udp_response (frame ++ r) = Ok ((source, Net.port d.2, d.1), r) ∧
    parse_socks5_udp_request (build_socks5_udp_packet source (Net.port d.2) d.1) =
      Some (Some (mkOutbound source (Net.port d.2) d.1)).
Proof.
  intros Hop Hres Hsend Hx Hd. split_and!.
  - apply list_fmap_ext. intros i y Hy. apply parse_socks5_packet. by eapply (Forall_lookup_1 _ _ _ _ Hx).
  - rewrite (udp_session_served try_op Hop resolve send address); [|done..| |done].
    + change (packet_frame x :: (packet_frame <$> xs)) with (packet_frame <$> x :: xs).
      by rewrite <-list_fmap_compose.
    + change (packet_frame x :: (packet_frame <$> xs)) with (packet_frame <$> x :: xs). apply Forall_fmap. eapply Forall_impl; [exact Hx|]. intros y. apply packet_frame_ok.
  - intros d frame r Hok Hfr source. split.
    + pose proof (read_response_frame d frame r Hok Hfr) as E. unfold UdpPool.read_frame in E. unfold read_one_udp_response.
      unfold mbind, reader_bind, mret, reader_ret in *.
      destruct (read_trojanc_addr_async (frame ++ r)) as [[[h q] s]|]; [|done].
      destruct (read_u16 s) as [[len s']|]; [|done]. destruct (read_exact (Z.to_nat len) s') as [[pl s'']|]; [|done].
      cbn in E. injection E as -> -> -> ->. done.
    + destruct d as [pl addr]. destruct Hok as [_ (Hi & Hp & _)]. cbn [fst snd] in *. pose proof (to_canonical_wf _ Hi) as Hc.
      rewrite socks5_udp_roundtrip; [| | |done].
      * do 3 f_equal. unfold canonical_host, source. destruct (to_canonical (ip addr)) as [o|o]; cbn [show_ip ip_wf] in *.
        -- rewrite parse_ipv6_no_colon; [done|]. apply contains_false, show_ipv4_no_colon.
        -- by rewrite parse_show_ipv6.
      * unfold source. rewrite <-ip_address_host. apply address_host_text; by destruct (to_canonical (ip addr)).
      * unfold source. rewrite <-ip_address_host. apply address_host_text; by destruct (to_canonical (ip addr)).
Qed.

(** The length byte of a domain wraps: a response may name its source by
    up to 765 bytes, since invalid bytes become replacement characters, and the
    packet made of a name of more than 255 bytes is never read back with that
    name: part of it is taken for the port and the payload. *)
Theorem long_response_domain_misframed :
  (∀ host p payload d, parse_ipv4 host = None → parse_ipv6 host = None → (255 < length host)%nat →
     parse_socks5_udp_request (build_socks5_udp_packet host p payload) = Some (Some d) →
     Z.of_nat (length (addr d)) = Z.of_nat (length host) mod 256) ∧
  ∃ response host payload, read_one_udp_response response = Ok ((host, 53, payload), []) ∧ length host = 384%nat ∧
    (addr <$> (parse_socks5_udp_request (build_socks5_udp_packet host 53 payload) ≫= id)) ≠ Some host.
Proof.
  split.
  - intros host p payload d H4 H6 Hl. rewrite socks5_udp_parse, build_socks5_udp_address. unfold host_address.
    rewrite H4, H6. cbn [encode_address app]. rewrite decide_True by done. unfold read_socks5_addr.
    rewrite decide_False, decide_True by done. rewrite bind_ok with (1 := read_byte_cons _ _).
    unfold mbind, reader_bind, mret, reader_ret, lift, from_utf8.
    destruct (read_exact _ _) as [[dom r]|] eqn:E; [|done]. apply read_exact_ok in E as [_ Hd].
    destruct (read_u16 r) as [[q r']|]; [|done]. destruct (utf8_valid dom); [|done]. intros [= <-]. cbn [addr].
    rewrite Hd, u8_byte_of. pose proof (Z.mod_pos_bound (Z.of_nat (length host)) 256 ltac:(lia)). lia.
  - exists ([x03; x80] ++ replicate 128 x80 ++ to_be16 53 ++ to_be16 2 ++ B "ok"), (from_utf8_lossy (replicate 128 x80)), (B "ok").
    split_and!; [by vm_compute|by vm_compute|]. vm_compute. discriminate.
Qed.

(** ** Concrete runs *)
Lemma socks5_connect_served_witness :
  let served := handle_socks5 (socket_addr (V4 [x7f; x00; x00; x01]) 1080) (λ a, a)
                  (mkInbound (socks5_bytes [x00; x02] x01 (ADDomain (B "a.b")) 80 ++ B "GET") None) (λ _, Ok tt) in
  ∃ reply, served = ([LWriteAll [x05; x00]; LOpenTcpStream (B "a.b") 80; LWriteAll ([x05; x00; x00] ++ reply)], Ok (SRelay (B "GET"))) ∧
    read_trojanc_addr_async reply = Ok ((B "a.b", 80), []).
Proof.
  apply (socks5_connect_served (socket_addr (V4 [x7f; x00; x00; x01]) 1080) (λ a, a) [x00; x02] (ADDomain (B "a.b")) 80 (B "GET") None
           (λ _, Ok tt)); vm_compute; try done; try lia; split; (discriminate || lia).
Defined.

Lemma socks5_association_transparent_witness :
  let x := (ADDomain (B "a.b"), 53, B "one") in
  let y := (ADIpv4 [x01; x02; x03; x04], 443, B "two") in
  handle_stream (λ _ _, Err EUnexpectedEof)
    (λ recv, Ok (handle_udp_relay (λ _ h p, Ok (sample_address h p)) (λ _, Ok tt) true (Ok false) (length recv) recv))
    (written (udp_session (packet_frame x) [packet_frame y] (λ _, Ok tt)).1)
  = Ok ([(B "one", send_to_addr (sample_address (B "a.b") 53) false);
         (B "two", send_to_addr (sample_address (B "1.2.3.4") 443) false)], Ok tt).
Proof.
  intros x y. apply (socks5_association_transparent (λ _, Ok tt) (λ _ h p, Ok (sample_address h p)) (λ _, Ok tt) sample_address
                       true false x [y]); try done.
  repeat constructor; vm_compute; try done; try lia; try by eexists.
Defined.

Lemma long_response_domain_misframed_witness :
  Z.of_nat (length (addr (default (mkOutbound [] 0 []) (parse_socks5_udp_request (build_socks5_udp_packet (replicate 300 x61) 53 []) ≫= id))))
  = 300 mod 256.
Proof.
  apply (proj1 long_response_domain_misframed (replicate 300 x61) 53 []); vm_compute; done || lia.
Defined.
