(* ===== verification/Http.v ===== *)
(** * [client/src/local.rs]: the HTTP front end and the mixed inbound

    The request head with its limits, [CONNECT] tunnels, and absolute-form
    requests with their rewriting for the origin server; the choice between
    SOCKS5 and HTTP by the first byte. *)
From S2P Require Import Prelude Std Net Text Protocol Link Client Socks.
#[local] Open Scope Z_scope.

Definition MAX_HTTP_LINE_LEN : nat := 8 * 1024.
Definition MAX_HTTP_HEADERS : nat := 100.

(** ** The head of a request *)
Definition CRLF : str := [x0d; x0a].
Definition incomplete_head : error := EMsg (B "incomplete HTTP request head").
Definition line_too_long : error := EMsg (B "HTTP header line too long").
Definition head_timed_out : error := EMsg (B "HTTP request head timed out").

(** [read_line] of at most one byte more than a line may have: up to the end of
    the line, or to the limit; [eof] tells whether the input ends after these
    bytes. *)
Definition read_http_line (eof : bool) : reader str := λ s,
  let limited := take (MAX_HTTP_LINE_LEN + 1) s in
  let line :=
    match find x0a limited with
    | Some i => Some (take (i + 1) limited)
    | None => if eof || bool_decide (MAX_HTTP_LINE_LEN < length s)%nat then Some limited else None
    end in
  match line with
  | None => Err EUnexpectedEof
  | Some line =>
      _ ← from_utf8 line;
      _ ← ensure (bool_decide (length line ≤ MAX_HTTP_LINE_LEN)%nat) line_too_long;
      _ ← ensure (bool_decide (last line = Some x0a)) incomplete_head;
      Ok (line, drop (length line) s)
  end.

Definition parse_request_line (line : str) : option (str * str * str) :=
  match split_whitespace line with
  | method :: target :: version :: _ => Some (method, target, version)
  | _ => None
  end.

(** [room] is how many headers may still come. *)
Fixpoint read_headers (eof : bool) (room : nat) : reader (list str) :=
  line ← read_http_line eof;
  if is_empty (trim line) then mret []
  else
    match room with
    | O => fail (EMsg (B "too many HTTP headers"))
    | S room => headers ← read_headers eof room; mret (line :: headers)
    end.

Definition BAD_REQUEST : str :=
  B "HTTP/1.1 400 Bad Request" ++ CRLF ++ B "Connection: close" ++ CRLF ++ CRLF.
Definition ESTABLISHED : str := B "HTTP/1.1 200 Connection Established" ++ CRLF ++ CRLF.

Definition at_eof (inb : Inbound) : bool := bool_decide (ended inb = Some EUnexpectedEof).

(** Method, target, version, headers, and what follows the head. *)
Definition http_head (inb : Inbound) : effect LocalOp (str * str * str * list str * str) :=
  '(request_line, recv) ← pure (timed head_timed_out inb (read_http_line (at_eof inb) (arrived inb)));
  match parse_request_line request_line with
  | None =>
      _ ← op (LWriteAll BAD_REQUEST);
      pure (Err (EMsg (B "invalid HTTP request line: " ++ trim request_line)))
  | Some (method, target, version) =>
      '(headers, recv) ← pure (timed head_timed_out inb (read_headers (at_eof inb) MAX_HTTP_HEADERS recv));
      mret (method, target, version, headers, recv)
  end.

(** ** Targets *)
Definition host_port_or (authority : str) (port : Z) : str * Z :=
  match parse_host_port authority with Ok hp => hp | Err _ => (authority, port) end.

(** The value of the first [Host] header. *)
Fixpoint host_header (headers : list str) : option str :=
  match headers with
  | [] => None
  | header :: headers =>
      match split_once x3a header with
      | Some (name, value) => if eq_ignore_ascii_case (trim name) (B "host") then Some (trim value) else host_header headers
      | None => host_header headers
      end
  end.

Definition split_proxy_target (target : str) (headers : list str) : option (str * Z * str) :=
  match strip_prefix (B "http://") target with
  | Some rest =>
      let '(authority, path) := match find x2f rest with Some idx => (take idx rest, drop idx rest) | None => (rest, B "/") end in
      let authority := after_last x40 authority in
      if is_empty authority then None
      else let '(host, port) := host_port_or authority 80 in Some (host, port, path)
  | None =>
      authority ← host_header headers;
      if is_empty authority then None
      else let '(host, port) := host_port_or authority 80 in Some (host, port, target)
  end.

Definition header_name (header : str) : str := trim (before x3a header).

Definition dropped_header (header : str) : bool :=
  eq_ignore_ascii_case (header_name header) (B "proxy-connection")
  || eq_ignore_ascii_case (header_name header) (B "proxy-authorization")
  || eq_ignore_ascii_case (header_name header) (B "connection").

Definition rewritten_header (header : str) : str := trim_end_matches [x0d; x0a] header ++ CRLF.

(** The loop over the headers: the request so far and whether it has a host. *)
Fixpoint rewrite_headers (request : str) (has_host : bool) (headers : list str) : str * bool :=
  match headers with
  | [] => (request, has_host)
  | header :: headers =>
      if dropped_header header then rewrite_headers request has_host headers
      else
        rewrite_headers (request ++ rewritten_header header)
          (has_host || eq_ignore_ascii_case (header_name header) (B "host")) headers
  end.

Definition authority_of (host : str) (port : Z) : str :=
  if contains x3a host then B "[" ++ host ++ B "]:" ++ show_dec port else host ++ B ":" ++ show_dec port.

Definition build_origin_request (method path version : str) (headers : list str) (host : str) (port : Z) : str :=
  let request := method ++ B " " ++ path ++ B " " ++ version ++ CRLF in
  let '(request, has_host) := rewrite_headers request false headers in
  let request := if has_host then request else request ++ B "Host: " ++ authority_of host port ++ CRLF in
  request ++ B "Connection: close" ++ CRLF ++ CRLF.

(** ** The handlers *)

(** [buffered] of the bytes after the head are already in the reader's buffer. *)
Definition handle_http_connect (buffered : nat) (recv target : str) : effect LocalOp Served :=
  let '(host, port) := host_port_or target 443 in
  let leftover := take buffered recv in
  _ ← op (LOpenTcpStream host port);
  _ ← op (LWriteAll ESTABLISHED);
  _ ← (if is_empty leftover then mret tt else op (LQuicWriteAll leftover));
  mret (SRelay (drop buffered recv)).

Definition handle_http_forward (recv method target version : str) (headers : list str) : effect LocalOp Served :=
  match split_proxy_target target headers with
  | None =>
      _ ← op (LWriteAll BAD_REQUEST);
      pure (Err (EMsg (B "unsupported HTTP request target: " ++ target)))
  | Some (host, port, path) =>
      let request := build_origin_request method path version headers host port in
      _ ← op (LOpenTcpStream host port);
      _ ← op (LQuicWriteAll request);
      mret (SForward recv)
  end.

Definition handle_http_proxy (buffered : nat) (inb : Inbound) : effect LocalOp Served :=
  '(method, target, version, headers, recv) ← http_head inb;
  if decide (method = B "CONNECT") then handle_http_connect buffered recv target
  else handle_http_forward recv method target version headers.

(** The first byte is peeked; at the end of the input it is zero. *)
Definition handle_connection (local_addr : SocketAddr) (udp_local_addr : SocketAddr → SocketAddr) (buffered : nat)
    (inb : Inbound) : effect LocalOp Served :=
  match arrived inb, ended inb with
  | [], None => pure (Err (EMsg (B "inbound handshake timed out")))
  | [], Some e => if decide (e = EUnexpectedEof) then handle_http_proxy buffered inb else pure (Err e)
  | c :: _, _ =>
      if decide (c = x05) then handle_socks5 local_addr udp_local_addr inb else handle_http_proxy buffered inb
  end.

Example target_ex : split_proxy_target (B "http://user:pw@[::1]:8080/x") [] = Some (B "::1", 8080, B "/x").
Proof. reflexivity. Qed.
Example origin_ex :
  build_origin_request (B "GET") (B "/x") (B "HTTP/1.1") [B "A: b" ++ CRLF; B "Connection: x" ++ CRLF] (B "::1") 80
  = B "GET /x HTTP/1.1" ++ CRLF ++ B "A: b" ++ CRLF ++ B "Host: [::1]:80" ++ CRLF ++ B "Connection: close" ++ CRLF ++ CRLF.
Proof. reflexivity. Qed.

(** ** Reading lines *)
Lemma read_http_line_line eof body s :
  x0a ∉ body → utf8_valid body = true → (length body < MAX_HTTP_LINE_LEN)%nat →
  read_http_line eof ((body ++ [x0a]) ++ s) = Ok (body ++ [x0a], s).
Proof.
  intros Hn Hv Hl. unfold read_http_line. rewrite <-app_assoc. cbn [app].
  assert (take (MAX_HTTP_LINE_LEN + 1) (body ++ x0a :: s) = body ++ x0a :: take (MAX_HTTP_LINE_LEN - length body) s) as ->.
  { rewrite take_app, take_ge by lia. f_equal.
    replace (MAX_HTTP_LINE_LEN + 1 - length body)%nat with (S (MAX_HTTP_LINE_LEN - length body)) by lia. done. }
  rewrite find_app by done.
  replace (take (length body + 1) (body ++ x0a :: take (MAX_HTTP_LINE_LEN - length body) s)) with (body ++ [x0a]).
  2: { rewrite take_app, take_ge by lia. by replace (length body + 1 - length body)%nat with 1%nat by lia. }
  unfold from_utf8. rewrite utf8_valid_app_ascii, Hv by done. result_cbn.
  rewrite last_snoc, (bool_decide_true (Some x0a = Some x0a)) by done.
  rewrite bool_decide_true by (rewrite length_app; simpl; lia). result_cbn. do 2 f_equal.
  change (x0a :: s) with ([x0a] ++ s). by rewrite app_assoc, drop_app_length.
Qed.

Lemma read_http_line_ok eof s line r :
  read_http_line eof s = Ok (line, r) →
  s = line ++ r ∧ utf8_valid line = true ∧ (length line ≤ MAX_HTTP_LINE_LEN)%nat ∧ ∃ body, line = body ++ [x0a] ∧ x0a ∉ body.
Proof.
  unfold read_http_line, from_utf8.
  set (limited := take (MAX_HTTP_LINE_LEN + 1) s).
  match goal with |- match ?m with _ => _ end = _ → _ => destruct m as [l|] eqn:El end; [|done].
  destruct (utf8_valid l) eqn:Hv; [|done]. result_cbn.
  destruct (bool_decide (length l ≤ MAX_HTTP_LINE_LEN)%nat) eqn:Hl; [|done]. apply bool_decide_eq_true in Hl. result_cbn.
  destruct (bool_decide (last l = Some x0a)) eqn:Hlast; [|done]. apply bool_decide_eq_true in Hlast. result_cbn. intros [= <- <-].
  destruct (find x0a limited) as [i|] eqn:Ef.
  - injection El as <-. apply find_Some in Ef as (Hs & Hb & Hi).
    assert (take (i + 1) limited = take i limited ++ [x0a]) as E.
    { rewrite Hs at 1. rewrite take_app, take_ge by (rewrite length_take; lia). rewrite length_take, Nat.min_l by lia.
      by replace (i + 1 - i)%nat with 1%nat by lia. }
    split_and!; [|done|done|exists (take i limited); by rewrite E].
    assert (take (i + 1) limited = take (i + 1) s) as ->.
    { unfold limited. rewrite take_take. f_equal. unfold limited in Hi. rewrite length_take in Hi. lia. }
    rewrite length_take, Nat.min_l; [by rewrite take_drop|]. unfold limited in Hi. rewrite length_take in Hi. lia.
  - exfalso. case_match; [|done]. injection El as <-. apply find_None in Ef. apply Ef.
    apply last_Some in Hlast as [l' Hl']. rewrite Hl'. set_solver.
Qed.

(** A line that both a header loop and the line reader take as it is. *)
Definition readable_line (l : str) : Prop :=
  ∃ c body, l = c :: body ++ [x0a] ∧ visible c = true ∧ x0a ∉ body ∧ utf8_valid (c :: body) = true ∧
            (S (length body) < MAX_HTTP_LINE_LEN)%nat.

Lemma visible_not_newline c : visible c = true → c ≠ x0a ∧ is_ascii c = true.
Proof.
  intros Hc. pose proof (byte_forall (λ d, negb (visible d) || bool_decide (d ≠ x0a) && is_ascii d) ltac:(by vm_compute) c) as H.
  cbn beta in H. rewrite Hc in H. by apply andb_prop in H as [?%bool_decide_eq_true ?].
Qed.

Lemma readable_line_reads eof l s :
  readable_line l → read_http_line eof (l ++ s) = Ok (l, s) ∧ is_empty (trim l) = false.
Proof.
  intros (c & body & -> & Hc & Hn & Hv & Hl). split.
  - rewrite app_comm_cons. apply read_http_line_line; [|done|simpl; lia]. apply not_elem_of_cons.
    split; [|done]. apply visible_not_newline in Hc as [? _]. congruence.
  - destruct (trim_visible c (body ++ [x0a]) Hc) as [s' ->]. done.
Qed.

Lemma read_headers_lines eof ls room s :
  Forall readable_line ls → (length ls ≤ room)%nat → read_headers eof room (concat ls ++ CRLF ++ s) = Ok (ls, s).
Proof.
  intros Hls. revert room. induction Hls as [|l ls Hl _ IH]; intros room Hr.
  - cbn [concat app]. pose proof (read_http_line_line eof [x0d] s ltac:(by apply contains_false) eq_refl) as E.
    change (CRLF ++ s) with (([x0d] ++ [x0a]) ++ s). destruct room; cbn [read_headers];
      (rewrite (bind_ok _ _ _ _ _ (E ltac:(unfold MAX_HTTP_LINE_LEN; simpl; lia)))); done.
  - destruct room as [|room]; [simpl in Hr; lia|]. cbn [concat read_headers]. rewrite <-app_assoc.
    destruct (readable_line_reads eof l (concat ls ++ CRLF ++ s) Hl) as [E Ht].
    rewrite (bind_ok _ _ _ _ _ E), Ht. simpl in Hr. by rewrite (bind_ok _ _ _ _ _ (IH room ltac:(lia))).
Qed.

(** ** Rewriting *)

(** A header as it arrives: a text and its line end. *)
Definition header_ok (h : str) : Prop :=
  ∃ c text eol, h = (c :: text) ++ eol ∧ (eol = CRLF ∨ eol = [x0a]) ∧ visible c = true ∧ x0a ∉ text ∧
    last (c :: text) ≠ Some x0d ∧ utf8_valid (c :: text) = true ∧ (length text + 3 ≤ MAX_HTTP_LINE_LEN)%nat.

Lemma crlf_line text :
  (∃ c t, text = c :: t ∧ visible c = true ∧ x0a ∉ t) → utf8_valid text = true → (length text + 2 ≤ MAX_HTTP_LINE_LEN)%nat →
  readable_line (text ++ CRLF).
Proof.
  intros (c & t & -> & Hc & Hn) Hv Hl. exists c, (t ++ [x0d]). split_and!; [|done| | |].
  - unfold CRLF. by rewrite <-app_assoc.
  - intros [Hin|Hin]%elem_of_app; [done|]. revert Hin. by apply contains_false.
  - rewrite app_comm_cons. by rewrite utf8_valid_app_ascii.
  - rewrite length_app. simpl in *. lia.
Qed.

Lemma rewritten_header_ok h : header_ok h → readable_line (rewritten_header h).
Proof.
  intros (c & text & eol & -> & He & Hc & Hn & Hl & Hv & Hlen). unfold rewritten_header.
  rewrite trim_end_matches_app; [|by destruct He as [->| ->]|].
  - apply crlf_line; [by exists c, text|done|simpl; lia].
  - intros d Hd. rewrite Hd in Hl. intros Hin. apply list_elem_of_In in Hin. destruct Hin as [<-|[<-|[]]]; [done|].
    apply last_Some in Hd as [l Hd]. assert (x0a ∈ c :: text) as Hin by (rewrite Hd; set_solver).
    apply elem_of_cons in Hin as [<-|Hin]; [|done]. by vm_compute in Hc.
Qed.

Definition kept_headers (headers : list str) : list str := filter (λ h, dropped_header h = false) headers.
Definition names_host (h : str) : bool := eq_ignore_ascii_case (header_name h) (B "host").

(** The headers of the rewritten request. *)
Definition origin_headers (headers : list str) (host : str) (port : Z) : list str :=
  (rewritten_header <$> kept_headers headers) ++
  (if existsb names_host (kept_headers headers) then [] else [(B "Host: " ++ authority_of host port) ++ CRLF]) ++
  [B "Connection: close" ++ CRLF].

Lemma rewrite_headers_kept request b headers :
  rewrite_headers request b headers =
  (request ++ concat (rewritten_header <$> kept_headers headers), b || existsb names_host (kept_headers headers)).
Proof.
  revert request b. induction headers as [|h headers IH]; intros request b; unfold kept_headers in *; cbn [rewrite_headers].
  { cbn. by rewrite app_nil_r, orb_false_r. }
  rewrite filter_cons. destruct (dropped_header h); [by rewrite IH, decide_False|].
  rewrite decide_True by done. rewrite IH, fmap_cons. cbn [concat existsb]. by rewrite <-app_assoc, orb_assoc.
Qed.

Lemma build_origin_request_headers method path version headers host port :
  build_origin_request method path version headers host port =
  (method ++ B " " ++ path ++ B " " ++ version ++ CRLF) ++ concat (origin_headers headers host port) ++ CRLF.
Proof.
  unfold build_origin_request, origin_headers. rewrite rewrite_headers_kept. cbn [orb].
  destruct (existsb names_host (kept_headers headers)); rewrite !concat_app; cbn [concat]; by rewrite ?app_nil_r, <-?app_assoc.
Qed.

Lemma forallb_visible_facts s : forallb visible s = true → x0a ∉ s ∧ forallb is_ascii s = true.
Proof.
  intros Hs. rewrite List.forallb_forall in Hs. split.
  - intros Hin%list_elem_of_In%Hs. by vm_compute in Hin.
  - apply List.forallb_forall. intros c Hc%Hs. by apply visible_not_newline.
Qed.

Lemma forallb_app_visible s t : forallb visible s = true → forallb visible t = true → forallb visible (s ++ t) = true.
Proof. intros. rewrite forallb_app. by apply andb_true_intro. Qed.

Lemma authority_visible host p :
  forallb visible host = true → 0 <= p <= u16_max → forallb visible (authority_of host p) = true.
Proof.
  intros Hh Hp. pose proof (show_dec_visible p Hp). unfold authority_of.
  destruct (contains x3a host); repeat apply forallb_app_visible; done.
Qed.

Lemma show_port_length p : 0 <= p <= u16_max → (length (show_dec p) ≤ 5)%nat.
Proof. intros Hp. apply show_dec_length; unfold u16_max in *; lia. Qed.

Lemma authority_length host p : 0 <= p <= u16_max → (length (authority_of host p) ≤ length host + 8)%nat.
Proof.
  intros Hp. pose proof (show_port_length p Hp). unfold authority_of.
  destruct (contains x3a host); rewrite !length_app; simpl; lia.
Qed.

Lemma origin_headers_readable headers host p :
  Forall header_ok headers → forallb visible host = true → (length host ≤ 255)%nat → 0 <= p <= u16_max →
  Forall readable_line (origin_headers headers host p).
Proof.
  intros Hh Hv Hl Hp. unfold origin_headers. rewrite !Forall_app. split_and!.
  - apply Forall_fmap. unfold kept_headers. rewrite Forall_forall in *. intros h [_ Hin]%list_elem_of_filter.
    by apply rewritten_header_ok, Hh.
  - case_match; constructor; [|constructor]. pose proof (authority_visible host p Hv Hp) as Ha.
    apply forallb_visible_facts in Ha as [Hn Ha]. pose proof (authority_length host p Hp). apply crlf_line.
    + exists x48, (B "ost: " ++ authority_of host p). split_and!; [done|done|]. rewrite elem_of_app.
      intros [Hin|Hin]; [|done]. revert Hin. by apply contains_false.
    + rewrite utf8_valid_app_ascii; done.
    + unfold MAX_HTTP_LINE_LEN. rewrite length_app. simpl. lia.
  - constructor; [|constructor]. apply crlf_line.
    + exists x43, (B "onnection: close"). split_and!; [done|done|by apply contains_false].
    + done.
    + unfold MAX_HTTP_LINE_LEN. simpl. lia.
Qed.

(** A request line of three visible words. *)
Definition words_ok (method path version : str) : Prop :=
  forallb visible method = true ∧ forallb visible path = true ∧ forallb visible version = true ∧
  method ≠ [] ∧ path ≠ [] ∧ version ≠ [] ∧ (length method + length path + length version + 4 ≤ MAX_HTTP_LINE_LEN)%nat.

Definition request_line (method path version : str) : str := method ++ B " " ++ path ++ B " " ++ version ++ CRLF.

Lemma request_line_reads eof method path version s :
  words_ok method path version →
  read_http_line eof (request_line method path version ++ s) = Ok (request_line method path version, s) ∧
  parse_request_line (request_line method path version) = Some (method, path, version).
Proof.
  intros (Hm & Hp & Hv & Nm & Np & Nv & Hl). split.
  - set (body := method ++ B " " ++ path ++ B " " ++ version ++ [x0d]).
    assert (request_line method path version = body ++ [x0a]) as ->.
    { unfold request_line, body, CRLF. by rewrite <-!app_assoc. }
    apply forallb_visible_facts in Hm as [Hm1 Hm2], Hp as [Hp1 Hp2], Hv as [Hv1 Hv2].
    apply read_http_line_line; unfold body.
    + rewrite !elem_of_app. intros [?|[Hin|[?|[Hin|[?|Hin]]]]]; try done; revert Hin; by apply contains_false.
    + apply utf8_valid_ascii. rewrite !forallb_app, Hm2, Hp2, Hv2. done.
    + rewrite !length_app. simpl. lia.
  - unfold parse_request_line, request_line, CRLF. by rewrite split_three_words.
Qed.

Lemma http_head_reads method target version headers rest ended try_op :
  words_ok method target version → Forall readable_line headers → (length headers ≤ MAX_HTTP_HEADERS)%nat →
  http_head (mkInbound (request_line method target version ++ concat headers ++ CRLF ++ rest) ended) try_op =
  ([], Ok (method, target, version, headers, rest)).
Proof.
  intros Hw Hh Hl. unfold http_head. set (inb := mkInbound _ ended). cbn [arrived inb].
  destruct (request_line_reads (at_eof inb) method target version (concat headers ++ CRLF ++ rest) Hw) as [-> Hp].
  rewrite timed_ok, pure_bind, Hp. rewrite (read_headers_lines (at_eof inb) headers _ rest Hh Hl).
  by rewrite timed_ok, pure_bind.
Qed.

(** The rewritten request of an absolute-form request is what it should
    be for whoever reads it with the same rules: the method, the path and the
    version, then the client's headers in their order without the proxy and
    connection headers, a [Host] header made from the target if none was kept, and
    [Connection: close] as the only connection header, at the end. *)
Theorem origin_request_reads_back method path version headers host port rest ended try_op :
  words_ok method path version → Forall header_ok headers → (length headers ≤ MAX_HTTP_HEADERS - 2)%nat →
  forallb visible host = true → (length host ≤ 255)%nat → 0 <= port <= u16_max →
  http_head (mkInbound (build_origin_request method path version headers host port ++ rest) ended) try_op =
    ([], Ok (method, path, version, origin_headers headers host port, rest)) ∧
  kept_headers headers `sublist_of` headers ∧
  Forall (λ h, dropped_header h = false) (kept_headers headers) ∧
  (∀ h, h ∈ headers → dropped_header h = false → rewritten_header h ∈ origin_headers headers host port).
Proof.
  intros Hw Hh Hl Hv Hlen Hp. split_and!.
  - assert (build_origin_request method path version headers host port ++ rest =
            request_line method path version ++ concat (origin_headers headers host port) ++ CRLF ++ rest) as ->.
    { rewrite build_origin_request_headers. unfold request_line. by rewrite <-!app_assoc. }
    apply http_head_reads; [done|by apply origin_headers_readable|].
    unfold origin_headers. rewrite !length_app, length_fmap.
    assert (length (kept_headers headers) ≤ length headers)%nat by apply length_filter.
    unfold MAX_HTTP_HEADERS in *. destruct (existsb names_host (kept_headers headers)); simpl; lia.
  - unfold kept_headers. apply sublist_filter.
  - unfold kept_headers. apply Forall_forall. by intros h [? _]%list_elem_of_filter.
  - intros h Hin Hd. unfold origin_headers. apply elem_of_app. left. apply list_elem_of_fmap.
    exists h. split; [done|]. by apply list_elem_of_filter.
Qed.

(** ** Bounds *)
Lemma timed_inv {A} e inb (r : result A) x : timed e inb r = Ok x → r = Ok x.
Proof. unfold timed. destruct r as [y|e']; [done|by case_decide]. Qed.

Lemma read_headers_bounds eof room s headers r :
  read_headers eof room s = Ok (headers, r) →
  ∃ head, s = head ++ r ∧ (length headers ≤ room)%nat ∧
    Forall (λ h, length h ≤ MAX_HTTP_LINE_LEN ∧ utf8_valid h = true)%nat headers ∧
    (length head ≤ (length headers + 1) * MAX_HTTP_LINE_LEN)%nat.
Proof.
  revert s headers. induction room as [|room IH]; intros s headers; cbn [read_headers];
    unfold mbind at 1, reader_bind at 1; destruct (read_http_line eof s) as [[line s']|] eqn:E; try done;
    apply read_http_line_ok in E as (-> & Hv & Hl & _); destruct (is_empty (trim line)).
  - intros [= <- <-]. exists line. split_and!; [done|cbn [length]; lia|apply Forall_nil_2|cbn [length]; lia].
  - done.
  - intros [= <- <-]. exists line. split_and!; [done|cbn [length]; lia|apply Forall_nil_2|cbn [length]; lia].
  - unfold mbind, reader_bind, mret, reader_ret. destruct (read_headers eof room s') as [[hs s'']|] eqn:E; [|done].
    intros [= <- <-]. apply IH in E as (head & -> & Hr & Hf & Hb). exists (line ++ head).
    split_and!; [by rewrite app_assoc|cbn [length]; lia|by constructor|]. rewrite length_app. cbn [length]. lia.
Qed.

(** C38: an accepted request head is bounded: at most 100 headers, every line
    of it at most 8192 bytes, so the whole head takes at most 102 lines' worth of
    the connection; all of them are text. *)
Theorem http_head_bounded inb try_op method target version headers rest :
  (http_head inb try_op).2 = Ok (method, target, version, headers, rest) →
  ∃ head, arrived inb = head ++ rest ∧ (length head ≤ 102 * MAX_HTTP_LINE_LEN)%nat ∧
    (length headers ≤ MAX_HTTP_HEADERS)%nat ∧
    Forall (λ h, length h ≤ MAX_HTTP_LINE_LEN ∧ utf8_valid h = true)%nat headers.
Proof.
  unfold http_head. intros ([line s] & El & E)%effect_bind_snd. unfold pure in El. cbn [snd] in El.
  apply timed_inv, read_http_line_ok in El as (-> & _ & Hl & _).
  destruct (parse_request_line line) as [[[m t] v]|].
  - apply effect_bind_snd in E as ([hs r] & Eh & E). unfold pure in Eh. cbn [snd] in Eh. apply timed_inv in Eh.
    unfold mret, effect_ret in E. cbn [snd] in E. injection E as -> -> -> -> ->.
    apply read_headers_bounds in Eh as (head & -> & Hr & Hf & Hb). exists (line ++ head).
    split_and!; [by rewrite app_assoc| |done|done]. rewrite length_app. unfold MAX_HTTP_HEADERS in *. nia.
  - apply effect_bind_snd in E as ([] & _ & E). done.
Qed.

(** ** Targets *)
Lemma split_absolute user authority path headers :
  x2f ∉ user ++ authority → (user = [] ∨ ∃ u, user = u ++ [x40]) → x40 ∉ authority → authority ≠ [] →
  (path = [] ∨ ∃ path', path = x2f :: path') →
  split_proxy_target (B "http://" ++ user ++ authority ++ path) headers =
  let '(host, port) := host_port_or authority 80 in Some (host, port, if is_empty path then B "/" else path).
Proof.
  intros Hs Hu Ha Hn Hp. unfold split_proxy_target. rewrite strip_prefix_app. rewrite (app_assoc user).
  assert (after_last x40 (user ++ authority) = authority) as Hau.
  { destruct Hu as [->|[u ->]]; [by apply after_last_none|]. rewrite <-app_assoc. by apply find_after_last. }
  assert (is_empty authority = false) as He by by destruct authority.
  destruct Hp as [->|[path' ->]].
  - rewrite app_nil_r. apply find_None in Hs as ->. rewrite Hau, He. done.
  - rewrite find_app by done. rewrite take_app_length, drop_app_length, Hau, He. done.
Qed.

Lemma parse_host_port_no_colon h : starts_with (B "[") h = false → x3a ∉ h → is_err (parse_host_port h) = true.
Proof. intros Hb Hc. unfold parse_host_port. rewrite Hb. apply rfind_None in Hc as ->. done. Qed.

Lemma parse_host_port_no_port h : x5d ∉ h → is_err (parse_host_port (B "[" ++ h ++ B "]")) = true.
Proof.
  intros Hb. unfold parse_host_port. change (B "[" ++ h ++ B "]") with ((x5b :: h) ++ [x5d]).
  assert (starts_with (B "[") ((x5b :: h) ++ [x5d]) = true) as -> by done.
  rewrite find_app by by apply not_elem_of_cons.
  rewrite lookup_ge_None_2; [done|]. rewrite length_app. simpl. lia.
Qed.

Lemma host_port_or_err authority p : is_err (parse_host_port authority) = true → host_port_or authority p = (authority, p).
Proof. unfold host_port_or. by destruct (parse_host_port authority). Qed.

(** A byte is in none of the parts of a string. *)
Ltac not_in_parts :=
  rewrite ?not_elem_of_app; split_and?;
  first [assumption | by apply contains_false | apply show_radix_not_elem; unfold u16_max in *; lia || done].

(** The target of a request is found in all its forms: the host and the
    port of [http://host:port/path], port 80 where there is none, an IPv6 address
    in brackets with a port, in each case with or without credentials and with the
    path, or a slash if it is missing. *)
Theorem proxy_target_found user path headers :
  x2f ∉ user → (user = [] ∨ ∃ u, user = u ++ [x40]) → (path = [] ∨ ∃ path', path = x2f :: path') →
  let path' := if is_empty path then B "/" else path in
  (∀ host p, host ≠ [] → x2f ∉ host → x40 ∉ host → x3a ∉ host → starts_with (B "[") host = false → 0 <= p <= u16_max →
     split_proxy_target (B "http://" ++ user ++ (host ++ B ":" ++ show_dec p) ++ path) headers = Some (host, p, path') ∧
     split_proxy_target (B "http://" ++ user ++ host ++ path) headers = Some (host, 80, path')) ∧
  (∀ host p, x2f ∉ host → x40 ∉ host → x5d ∉ host → 0 <= p <= u16_max →
     split_proxy_target (B "http://" ++ user ++ (B "[" ++ host ++ B "]:" ++ show_dec p) ++ path) headers = Some (host, p, path')).
Proof.
  intros Hu Hut Hp path'. split.
  - intros host p Hn H1 H2 H3 H4 Hpp. split.
    + rewrite split_absolute; [|not_in_parts|done|not_in_parts|by destruct host|done].
      unfold host_port_or. by rewrite parse_host_port_plain.
    + rewrite split_absolute; [|not_in_parts|done..]. by rewrite host_port_or_err by by apply parse_host_port_no_colon.
  - intros host p H1 H2 H3 Hpp. rewrite split_absolute; [|not_in_parts|done|not_in_parts|done|done].
    unfold host_port_or. by rewrite parse_host_port_bracketed.
Qed.

(** An IPv6 address in brackets without a port, as in [http://[::1]/] or
    [CONNECT [::1]], keeps its brackets, and no stream can be opened to it: the
    header is not built, after the connection has been made. *)
Theorem ipv6_target_without_port_fails user h path headers p try_op :
  x2f ∉ user → (user = [] ∨ ∃ u, user = u ++ [x40]) → (path = [] ∨ ∃ path', path = x2f :: path') →
  x3a ∈ h → x2f ∉ h → x40 ∉ h → x5d ∉ h → (∀ o, try_op o = Ok tt) →
  let host := B "[" ++ h ++ B "]" in
  split_proxy_target (B "http://" ++ user ++ host ++ path) headers = Some (host, 80, if is_empty path then B "/" else path) ∧
  host_port_or host 443 = (host, 443) ∧
  open_tcp_stream host p try_op = ([OConnect; OOpenBi], Err EAddrParse).
Proof.
  intros Hu Hut Hp Hc H1 H2 H3 Hop host. pose proof (parse_host_port_no_port h H3) as He. split_and!.
  - rewrite split_absolute; [|unfold host; not_in_parts|done|unfold host; not_in_parts|done|done].
    by rewrite host_port_or_err.
  - by apply host_port_or_err.
  - unfold open_tcp_stream. rewrite op_bind, Hop, op_bind, Hop.
    assert (build_proxy_header NETWORK_TCP host p = Err EAddrParse) as ->; [|by rewrite pure_bind].
    unfold build_proxy_header. assert (contains x3a host = true) as ->.
    { apply contains_true. unfold host. rewrite !elem_of_app. auto. }
    assert (parse_ipv6 host = None) as -> by done. done.
Qed.

(** ** The handler *)
Definition quic_written (l : list LocalOp) : str :=
  concat ((λ o, match o with LQuicWriteAll bs => bs | _ => [] end) <$> l).

(** A connection whose first byte is not five is served as HTTP.  A
    [CONNECT] opens a stream to its target, answers, and every byte after the head
    goes to the tunnel exactly once, whatever part of it was read ahead; an
    absolute-form request opens a stream to its host, and what is written there is
    the rewritten request, with the rest left as its body. *)
Theorem http_request_served local_addr udp_local_addr buffered method target version headers rest ended try_op :
  words_ok method target version → head method ≠ Some x05 → Forall readable_line headers →
  (length headers ≤ MAX_HTTP_HEADERS)%nat → (∀ o, try_op o = Ok tt) →
  let inb := mkInbound (request_line method target version ++ concat headers ++ CRLF ++ rest) ended in
  let '(ops, r) := handle_connection local_addr udp_local_addr buffered inb try_op in
  if decide (method = B "CONNECT") then
    let '(host, port) := host_port_or target 443 in
    ∃ unread, r = Ok (SRelay unread) ∧ take 2 ops = [LOpenTcpStream host port; LWriteAll ESTABLISHED] ∧
              quic_written ops ++ unread = rest
  else
    match split_proxy_target target headers with
    | Some (host, port, path) =>
        ops = [LOpenTcpStream host port; LQuicWriteAll (build_origin_request method path version headers host port)] ∧
        r = Ok (SForward rest)
    | None => ops = [LWriteAll BAD_REQUEST] ∧ is_err r = true
    end.
Proof.
  intros Hw Hm Hh Hl Hop inb.
  assert (handle_connection local_addr udp_local_addr buffered inb = handle_http_proxy buffered inb) as ->.
  { unfold handle_connection, inb. cbn [arrived]. destruct Hw as (_ & _ & _ & Nm & _).
    destruct method as [|c m]; [done|]. unfold request_line. cbn [app]. rewrite decide_False; [done|]. by intros ->. }
  unfold handle_http_proxy. pose proof (http_head_reads method target version headers rest ended try_op Hw Hh Hl) as E.
  match goal with |- context [(?m ≫= ?f) try_op] =>
    destruct (f (method, target, version, headers, rest) try_op) as [l r] eqn:Ef;
    rewrite (effect_bind_ok f m try_op _ _ _ _ E Ef) end.
  cbn beta iota in Ef. cbn [app]. destruct (decide (method = B "CONNECT")) as [_|_].
  - unfold handle_http_connect in Ef. destruct (host_port_or target 443) as [host port].
    rewrite op_bind, Hop, op_bind, Hop in Ef. destruct (is_empty (take buffered rest)) eqn:Et.
    + injection Ef as <- <-. exists (drop buffered rest). split_and!; [done|done|]. apply is_empty_true in Et.
      rewrite <-(take_drop buffered rest) at 2. by rewrite Et.
    + rewrite op_bind, Hop in Ef. injection Ef as <- <-. exists (drop buffered rest). split_and!; [done|done|].
      unfold quic_written. cbn [fmap list_fmap concat app]. by rewrite app_nil_r, take_drop.
  - unfold handle_http_forward in Ef. destruct (split_proxy_target target headers) as [[[host port] path]|].
    + rewrite op_bind, Hop, op_bind, Hop in Ef. by injection Ef as <- <-.
    + rewrite op_bind, Hop in Ef. by injection Ef as <- <-.
Qed.

(** ** Concrete requests *)
Definition sample_headers : list str :=
  [B "Accept: */*" ++ CRLF; B "Proxy-Connection: Keep-Alive" ++ CRLF; B "Proxy-Authorization: Basic Zm9v" ++ [x0a]].

Lemma sample_headers_ok : Forall header_ok sample_headers.
Proof.
  assert (∀ c text eol, eol = CRLF ∨ eol = [x0a] → visible c && negb (contains x0a text) && negb (bool_decide (last (c :: text) = Some x0d))
    && utf8_valid (c :: text) && bool_decide (length text ≤ 100)%nat = true → header_ok ((c :: text) ++ eol)) as H.
  { intros c text eol He Hb. rewrite !andb_true_iff, !negb_true_iff in Hb.
    destruct Hb as ((((Hc & Hn) & Hl) & Hv) & Hlen). exists c, text, eol. apply bool_decide_eq_true in Hlen.
    split_and!; [done|done|done|by apply contains_false|by apply bool_decide_eq_false in Hl|done|unfold MAX_HTTP_LINE_LEN; lia]. }
  repeat constructor.
  - by apply (H x41 (B "ccept: */*") CRLF); [left|vm_compute].
  - by apply (H x50 (B "roxy-Connection: Keep-Alive") CRLF); [left|vm_compute].
  - by apply (H x50 (B "roxy-Authorization: Basic Zm9v") [x0a]); [right|vm_compute].
Qed.

Lemma sample_words_ok method target : forallb visible method && forallb visible target && negb (is_empty method) && negb (is_empty target)
    && bool_decide (length method + length target ≤ 100)%nat = true → words_ok method target (B "HTTP/1.1").
Proof.
  intros Hb. rewrite !andb_true_iff, !negb_true_iff in Hb. destruct Hb as ((((Hm & Ht) & Nm) & Nt) & Hl).
  apply bool_decide_eq_true in Hl. split_and!; [done|done|done| | |done|unfold MAX_HTTP_LINE_LEN; simpl; lia].
  - by intros ->.
  - by intros ->.
Qed.

Lemma origin_request_reads_back_witness :
  http_head (mkInbound (build_origin_request (B "GET") (B "/x") (B "HTTP/1.1") sample_headers (B "::1") 80 ++ B "body") None) (λ _, Ok tt) =
  ([], Ok (B "GET", B "/x", B "HTTP/1.1",
           [B "Accept: */*" ++ CRLF; B "Host: [::1]:80" ++ CRLF; B "Connection: close" ++ CRLF], B "body")).
Proof.
  apply (origin_request_reads_back (B "GET") (B "/x") (B "HTTP/1.1") sample_headers (B "::1") 80 (B "body") None (λ _, Ok tt)).
  - by apply sample_words_ok.
  - apply sample_headers_ok.
  - unfold MAX_HTTP_HEADERS. simpl. lia.
  - done.
  - simpl. lia.
  - unfold u16_max. lia.
Defined.

Definition sample_inbound : Inbound :=
  mkInbound (request_line (B "CONNECT") (B "a.b:443") (B "HTTP/1.1") ++ concat [B "A: b" ++ CRLF] ++ CRLF ++ B "hello") None.

Lemma sample_line_ok : readable_line (B "A: b" ++ CRLF).
Proof.
  apply crlf_line; [exists x41, (B ": b"); split_and!; [done|done|by apply contains_false]|done|].
  unfold MAX_HTTP_LINE_LEN. simpl. lia.
Qed.

Lemma http_head_bounded_witness :
  ∃ head, arrived sample_inbound = head ++ B "hello" ∧ (length head ≤ 102 * MAX_HTTP_LINE_LEN)%nat ∧
    (length [B "A: b" ++ CRLF] ≤ MAX_HTTP_HEADERS)%nat ∧
    Forall (λ h, length h ≤ MAX_HTTP_LINE_LEN ∧ utf8_valid h = true)%nat [B "A: b" ++ CRLF].
Proof.
  apply (http_head_bounded sample_inbound (λ _, Ok tt) (B "CONNECT") (B "a.b:443") (B "HTTP/1.1")).
  unfold sample_inbound. rewrite http_head_reads; [done|by apply sample_words_ok| |unfold MAX_HTTP_HEADERS; simpl; lia].
  constructor; [apply sample_line_ok|constructor].
Defined.

Lemma proxy_target_found_witness :
  split_proxy_target (B "http://" ++ B "u:p@" ++ (B "a.b" ++ B ":" ++ show_dec 8080) ++ B "/x") [] = Some (B "a.b", 8080, B "/x").
Proof.
  apply (proxy_target_found (B "u:p@") (B "/x") []); try by apply contains_false.
  - right. by exists (B "u:p").
  - right. by exists (B "x").
  - done.
  - done.
  - unfold u16_max. lia.
Defined.

Lemma ipv6_target_without_port_fails_witness :
  split_proxy_target (B "http://" ++ [] ++ (B "[" ++ B "::1" ++ B "]") ++ B "/x") [] = Some (B "[::1]", 80, B "/x") ∧
  host_port_or (B "[::1]") 443 = (B "[::1]", 443) ∧
  open_tcp_stream (B "[::1]") 443 (λ _, Ok tt) = ([OConnect; OOpenBi], Err EAddrParse).
Proof.
  apply (ipv6_target_without_port_fails [] (B "::1") (B "/x") [] 443 (λ _, Ok tt)); try by apply contains_false.
  - by left.
  - right. by exists (B "x").
  - by apply contains_true.
  - done.
Defined.

Lemma http_request_served_witness :
  let '(ops, r) := handle_connection (socket_addr (V4 [x7f; x00; x00; x01]) 1080) (λ a, a) 3 sample_inbound (λ _, Ok tt) in
  ∃ unread, r = Ok (SRelay unread) ∧ take 2 ops = [LOpenTcpStream (B "a.b") 443; LWriteAll ESTABLISHED] ∧
            quic_written ops ++ unread = B "hello".
Proof.
  apply (http_request_served (socket_addr (V4 [x7f; x00; x00; x01]) 1080) (λ a, a) 3 (B "CONNECT") (B "a.b:443") (B "HTTP/1.1")
           [B "A: b" ++ CRLF] (B "hello") None (λ _, Ok tt)).
  - by apply sample_words_ok.
  - done.
  - constructor; [apply sample_line_ok|constructor].
  - unfold MAX_HTTP_HEADERS. simpl. lia.
  - done.
Defined.
