(* ===== verification/Sessions.v ===== *)
(** * [client/src/local.rs] and [forwarder.rs]: the UDP sessions of a client

    A receive loop, a map of sessions by source, tasks that open a stream, and
    for every session a writer, a reader and a supervisor, as a machine whose
    labels are the steps of all of them.  Both files have the same code for it;
    they differ in what a datagram is and in how the loop stops. *)
From Stdlib Require Import Sorted.
From stdpp Require Import sorting.
From S2P Require Import Prelude Std Consts Net Protocol UdpPool Conn UdpRelay Client Socks.
#[local] Open Scope Z_scope.

(** ** What an association accepts *)

(** The receive loop of [handle_socks5] up to the lookup: datagrams of other
    hosts and packets that do not parse are dropped. *)
Definition assoc_accepts (peer_addr src : SocketAddr) (packet : str) : option UdpOutboundDatagram :=
  if decide (ip src ≠ ip peer_addr) then None
  else
    d ← parse_socks5_udp_request packet ≫= id;
    if MAX_UDP_PAYLOAD <? Z.of_nat (length (payload d)) then None else Some d.

(** ** The machine *)
Definition SESSION_QUEUE : nat := 256.

(** [UdpSessionEntry] and [UdpSession]; the sender of a session's channel is in
    its entry only, so it is alive while the entry is there. *)
Record Entry := mkEntry { entry_id : nat; last_used : Z }.

Inductive TaskState := TOpening | TRun | TCheck | TRemove | TDone.

Section sessions.
Context {Src D : Type} `{Countable Src}.

(** The task with its place in the list as its id.  A datagram is known by its
    number among the arrivals.  [writer] is the writer with its end of the
    channel, [guard] the [OpeningGuard].  [accepted] is ghost: all datagrams given
    to the session. *)
Record Task := mkTask {
  task_src : Src;
  tstate : TaskState;
  guard : bool;
  writer : bool;
  reader : bool;
  queue : list nat;
  sent : list nat;
  accepted : list nat;
  w_deadline : Z;
  r_deadline : Z;
}.

(** Where the receive loop is with its datagram. *)
Inductive RecvState :=
  | RIdle
  | RClosed (src : Src) (n : nat) (id : nat)
  | RRemove (src : Src) (n : nat)
  | RSpawn (src : Src) (n : nat)
  | RStopping
  | RStopped.

Record State := mkState {
  now : Z;
  arrivals : list (Src * D);
  recv : RecvState;
  sessions : gmap Src Entry;
  opening : gset Src;
  tasks : list Task;
  cancelled : bool;
}.

Definition State_new : State := mkState 0 [] RIdle ∅ ∅ [] false.

Inductive Label :=
  | LTick (d : N)
  | LDatagram (src : Src) (d : D)
  | LRecv
  | LOpened (id : nat) (ok : bool)
  | LGuard (id : nat)
  | LWriterTake (id : nat) (ok : bool)
  | LWriterNone (id : nat)
  | LWriterIdle (id : nat)
  | LReaderGot (id : nat) (ok : bool)
  | LReaderErr (id : nat)
  | LReaderIdle (id : nat)
  | LSupervise (id : nat)
  | LCleanup (src : Src)
  | LStop (clear : bool)
  | LCancel.

Definition set_recv (r : RecvState) (s : State) : State :=
  mkState (now s) (arrivals s) r (sessions s) (opening s) (tasks s) (cancelled s).
Definition set_sessions (m : gmap Src Entry) (s : State) : State :=
  mkState (now s) (arrivals s) (recv s) m (opening s) (tasks s) (cancelled s).
Definition set_task (id : nat) (t : Task) (s : State) : State :=
  mkState (now s) (arrivals s) (recv s) (sessions s) (opening s) (<[id := t]> (tasks s)) (cancelled s).

(** The entry of [src] is that of session [id]. *)
Definition entry_is (s : State) (src : Src) (id : nat) : bool :=
  match sessions s !! src with Some e => bool_decide (entry_id e = id) | None => false end.

Definition push (n : nat) (t : Task) : Task :=
  mkTask (task_src t) (tstate t) (guard t) (writer t) (reader t) (queue t ++ [n]) (sent t) (accepted t ++ [n])
    (w_deadline t) (r_deadline t).

(** Both ends, stopped: what is in the channel is lost. *)
Definition stop_writer (t : Task) : Task :=
  mkTask (task_src t) (tstate t) (guard t) false (reader t) [] (sent t) (accepted t) (w_deadline t) (r_deadline t).
Definition stop_reader (t : Task) : Task :=
  mkTask (task_src t) (tstate t) (guard t) (writer t) false (queue t) (sent t) (accepted t) (w_deadline t) (r_deadline t).
Definition set_tstate (st : TaskState) (t : Task) : Task :=
  mkTask (task_src t) st (guard t) (writer t) (reader t) (queue t) (sent t) (accepted t) (w_deadline t) (r_deadline t).

(** A datagram: lookup, refresh and [try_send] under the shard's lock. *)
Definition datagram_step (src : Src) (d : D) (s : State) : State :=
  let n := length (arrivals s) in
  let s := mkState (now s) (arrivals s ++ [(src, d)]) (recv s) (sessions s) (opening s) (tasks s) (cancelled s) in
  match sessions s !! src with
  | None => set_recv (RSpawn src n) s
  | Some e =>
      let s := set_sessions (<[src := mkEntry (entry_id e) (now s)]> (sessions s)) s in
      match tasks s !! entry_id e with
      | Some t =>
          if writer t then
            if (length (queue t) <? SESSION_QUEUE)%nat then set_task (entry_id e) (push n t) s else s
          else set_recv (RClosed src n (entry_id e)) s
      | None => s
      end
  end.

(** The rest of the loop's turn: [remove_session_if_match] in two steps, and
    the start of a session. *)
Definition recv_step (s : State) : State :=
  match recv s with
  | RClosed src n id => set_recv (if entry_is s src id then RRemove src n else RSpawn src n) s
  | RRemove src n => set_recv (RSpawn src n) (set_sessions (delete src (sessions s)) s)
  | RSpawn src n =>
      if decide (src ∈ opening s) then set_recv RIdle s
      else
        mkState (now s) (arrivals s) RIdle (sessions s) ({[src]} ∪ opening s)
          (tasks s ++ [mkTask src TOpening true false false [] [] [n] 0 0]) (cancelled s)
  | _ => s
  end.

Definition nat_deadline (s : State) : Z := now s + DEFAULT_NAT_TIMEOUT.

(** [open_udp_stream] returns: it has sent the first datagram. *)
Definition opened (id : nat) (t : Task) (ok : bool) (s : State) : State :=
  match tstate t with
  | TOpening =>
      if ok then
        set_task id (mkTask (task_src t) TRun (guard t) true true [] (accepted t) (accepted t) (nat_deadline s) (nat_deadline s))
          (set_sessions (<[task_src t := mkEntry id (now s)]> (sessions s)) s)
      else set_task id (set_tstate TDone t) s
  | _ => s
  end.

Definition drop_guard (id : nat) (t : Task) (s : State) : State :=
  match tstate t, guard t with
  | TOpening, _ | _, false => s
  | _, true =>
      let t := mkTask (task_src t) (tstate t) false (writer t) (reader t) (queue t) (sent t) (accepted t) (w_deadline t) (r_deadline t) in
      mkState (now s) (arrivals s) (recv s) (sessions s) (opening s ∖ {[task_src t]}) (<[id := t]> (tasks s)) (cancelled s)
  end.

Definition writer_take (id : nat) (t : Task) (ok : bool) (s : State) : State :=
  match writer t, queue t with
  | true, n :: q =>
      if ok then
        set_task id (mkTask (task_src t) (tstate t) (guard t) true (reader t) q (sent t ++ [n]) (accepted t)
                       (nat_deadline s) (r_deadline t)) s
      else set_task id (stop_writer t) s
  | _, _ => s
  end.

(** The supervisor: end of a side or cancellation, then the check of the entry
    and its removal. *)
Definition supervise (id : nat) (t : Task) (s : State) : State :=
  match tstate t with
  | TRun =>
      if negb (writer t) || negb (reader t) || cancelled s
      then set_task id (set_tstate TCheck (stop_reader (stop_writer t))) s else s
  | TCheck => set_task id (set_tstate (if entry_is s (task_src t) id then TRemove else TDone) t) s
  | TRemove => set_task id (set_tstate TDone t) (set_sessions (delete (task_src t) (sessions s)) s)
  | _ => s
  end.

(** The periodic cleanup, entry by entry. *)
Definition cleanup (src : Src) (s : State) : State :=
  match sessions s !! src with
  | Some e =>
      let closed := match tasks s !! entry_id e with Some t => negb (writer t) | None => true end in
      if closed || (CLIENT_UDP_SESSION_IDLE_TIMEOUT <? saturating_sub (now s) (last_used e))
      then set_sessions (delete src (sessions s)) s else s
  | None => s
  end.

Definition with_task (s : State) (id : nat) (f : Task → State) : State :=
  match tasks s !! id with Some t => f t | None => s end.

Definition step (s : State) (l : Label) : State :=
  match l with
  | LTick d => mkState (now s + Z.of_N d) (arrivals s) (recv s) (sessions s) (opening s) (tasks s) (cancelled s)
  | LDatagram src d => match recv s with RIdle => datagram_step src d s | _ => s end
  | LRecv => recv_step s
  | LOpened id ok => with_task s id (λ t, opened id t ok s)
  | LGuard id => with_task s id (λ t, drop_guard id t s)
  | LWriterTake id ok => with_task s id (λ t, writer_take id t ok s)
  | LWriterNone id =>
      with_task s id (λ t, if writer t && bool_decide (queue t = []) && negb (entry_is s (task_src t) id)
                           then set_task id (stop_writer t) s else s)
  | LWriterIdle id => with_task s id (λ t, if writer t && (w_deadline t <=? now s) then set_task id (stop_writer t) s else s)
  | LReaderGot id ok =>
      with_task s id (λ t,
        if reader t then
          set_task id (if ok then mkTask (task_src t) (tstate t) (guard t) (writer t) true (queue t) (sent t) (accepted t)
                                    (w_deadline t) (nat_deadline s)
                       else stop_reader t) s
        else s)
  | LReaderErr id => with_task s id (λ t, if reader t then set_task id (stop_reader t) s else s)
  | LReaderIdle id => with_task s id (λ t, if reader t && (r_deadline t <=? now s) then set_task id (stop_reader t) s else s)
  | LSupervise id => with_task s id (λ t, supervise id t s)
  | LCleanup src => cleanup src s
  | LStop clear =>
      match recv s with
      | RIdle => set_recv RStopping (if clear then set_sessions ∅ s else s)
      | _ => s
      end
  | LCancel =>
      match recv s with
      | RStopping => mkState (now s) (arrivals s) RStopped (sessions s) (opening s) (tasks s) true
      | _ => s
      end
  end.

Definition run (ls : list Label) : State := foldl step State_new ls.

(** ** The invariant *)

(** The datagram in the receive loop's hand, and the first number no session
    has been given. *)
Definition pending (s : State) : option (Src * nat) :=
  match recv s with RClosed src n _ | RRemove src n | RSpawn src n => Some (src, n) | _ => None end.

Definition frontier (s : State) : nat :=
  match pending s with Some (_, n) => n | None => length (arrivals s) end.

Definition live (st : TaskState) : Prop := st = TRun ∨ st = TCheck ∨ st = TRemove.

(** One session by itself. *)
Record task_ok (t : Task) : Prop := {
  ok_sorted : StronglySorted lt (accepted t);
  ok_sent : sent t `prefix_of` accepted t;
  ok_writer : writer t = true → tstate t = TRun ∧ sent t ++ queue t = accepted t;
  ok_reader : reader t = true → tstate t = TRun;
  ok_opening : tstate t = TOpening → guard t = true ∧ sent t = [];
  ok_queue : (length (queue t) ≤ SESSION_QUEUE)%nat;
}.

Definition entries_ok (m : gmap Src Entry) (ts : list Task) : Prop :=
  ∀ src e, m !! src = Some e → ∃ t, ts !! entry_id e = Some t ∧ task_src t = src ∧ live (tstate t).

Record inv (s : State) : Prop := {
  i_tasks : ∀ id t, tasks s !! id = Some t → task_ok t;
  i_accepted : ∀ id t n, tasks s !! id = Some t → n ∈ accepted t →
    (n < frontier s)%nat ∧ fst <$> arrivals s !! n = Some (task_src t);
  i_once : ∀ i j ti tj n, tasks s !! i = Some ti → tasks s !! j = Some tj →
    n ∈ accepted ti → n ∈ accepted tj → i = j;
  i_entries : entries_ok (sessions s) (tasks s);
  i_opening : ∀ src, src ∈ opening s ↔ ∃ id t, tasks s !! id = Some t ∧ guard t = true ∧ task_src t = src;
  i_single : ∀ i j ti tj, tasks s !! i = Some ti → tasks s !! j = Some tj →
    guard ti = true → guard tj = true → task_src ti = task_src tj → i = j;
  i_pending : ∀ src n, pending s = Some (src, n) →
    fst <$> arrivals s !! n = Some src ∧ length (arrivals s) = S n;
}.

Lemma frontier_le s : inv s → (frontier s ≤ length (arrivals s))%nat.
Proof.
  intros I. unfold frontier. destruct (pending s) as [[src n]|] eqn:E; [|done].
  destruct (i_pending s I src n E). lia.
Qed.

Lemma inv_new : inv State_new.
Proof. split; simpl; try done. intros src; split; [set_solver|]. by intros (? & ? & ? & _). Qed.

(** A session keeps its source, guard and datagrams; the map may change too. *)
Lemma inv_set_task s id t t' m :
  inv s → tasks s !! id = Some t → task_ok t' →
  task_src t' = task_src t → guard t' = guard t → accepted t' = accepted t →
  entries_ok m (<[id := t']> (tasks s)) →
  inv (set_task id t' (set_sessions m s)).
Proof.
  intros I Ht Ok Es Eg Ea He.
  assert (Old : ∀ i u, <[id := t']> (tasks s) !! i = Some u →
                ∃ u0, tasks s !! i = Some u0 ∧ task_src u = task_src u0 ∧ guard u = guard u0 ∧ accepted u = accepted u0).
  { intros i u [(-> & -> & _)|(_ & E)]%list_lookup_insert_Some; eauto. }
  split; simpl.
  - intros i u [(_ & -> & _)|(_ & E)]%list_lookup_insert_Some; [done|]. by eapply i_tasks.
  - intros i u n (u0 & E & -> & _ & ->)%Old. by apply (i_accepted s I i).
  - intros i j ti tj n (ui & Ei & _ & _ & ->)%Old (uj & Ej & _ & _ & ->)%Old. by apply (i_once s I).
  - done.
  - intros src. rewrite (i_opening s I src). split.
    + intros (i & u & E & Hg & Hs). destruct (decide (i = id)) as [->|].
      * exists id, t'. rewrite list_lookup_insert_eq by (eapply lookup_lt_Some; eauto). simplify_eq. by rewrite Eg, Es.
      * exists i, u. by rewrite list_lookup_insert_ne.
    + intros (i & u & (u0 & E & -> & -> & _)%Old & ? & ?). eauto.
  - intros i j ti tj (ui & Ei & -> & -> & _)%Old (uj & Ej & -> & -> & _)%Old. by apply (i_single s I).
  - apply (i_pending s I).
Qed.

Lemma inv_set_sessions s m : inv s → entries_ok m (tasks s) → inv (set_sessions m s).
Proof. intros [] Hm. by split. Qed.

Lemma entries_insert_task m ts id t t' :
  entries_ok m ts → ts !! id = Some t → task_src t' = task_src t →
  (live (tstate t) → live (tstate t')) → entries_ok m (<[id := t']> ts).
Proof.
  intros He Ht Es Hl src e (u & Hu & Hs & Hv)%He. destruct (decide (entry_id e = id)) as [<-|].
  - exists t'. rewrite list_lookup_insert_eq by (eapply lookup_lt_Some; eauto).
    simplify_eq. rewrite Es. eauto.
  - exists u. by rewrite list_lookup_insert_ne.
Qed.

Lemma entries_delete m ts src : entries_ok m ts → entries_ok (delete src m) ts.
Proof. intros He src' e [_ E]%lookup_delete_Some. eauto. Qed.

(** No entry leads to a session that is not alive. *)
Lemma entries_dead s id t t' :
  inv s → tasks s !! id = Some t → task_src t' = task_src t → entry_is s (task_src t) id = false →
  entries_ok (sessions s) (<[id := t']> (tasks s)).
Proof.
  intros I Ht Es Hd src e Hse. destruct (i_entries s I src e Hse) as (u & Hu & Hs & Hv).
  assert (entry_id e ≠ id).
  { intros <-. simplify_eq. unfold entry_is in Hd. rewrite Hse in Hd. by case_bool_decide. }
  exists u. by rewrite list_lookup_insert_ne.
Qed.

Lemma inv_recv s r :
  inv s → (∀ src n, pending (set_recv r s) = Some (src, n) → pending s = Some (src, n)) → inv (set_recv r s).
Proof.
  intros I Hp.
  assert ((frontier s ≤ frontier (set_recv r s))%nat) as Hf.
  { pose proof (frontier_le s I) as Hle. unfold frontier at 2. destruct (pending (set_recv r s)) as [[src n]|] eqn:E; [|done].
    unfold frontier. by rewrite (Hp _ _ eq_refl). }
  destruct I as [T A O E Op Si P]. split; try done.
  - intros id t n Ht Hn. destruct (A id t n Ht Hn). split; [|done]. simpl. lia.
  - intros src n Hn. apply P, Hp, Hn.
Qed.

(** ** Every step keeps it *)

(** A datagram arrives: it is in the loop's hand. *)
Definition arrive (src : Src) (d : D) (s : State) : State :=
  mkState (now s) (arrivals s ++ [(src, d)]) (RSpawn src (length (arrivals s))) (sessions s) (opening s) (tasks s) (cancelled s).

Lemma inv_arrive s src d : inv s → inv (arrive src d s).
Proof.
  intros I. pose proof (frontier_le s I) as Hle. destruct I as [T A O E Op Si P]. split; try done.
  - intros id t n Ht Hn. destruct (A id t n Ht Hn) as [Hlt Ha]. unfold frontier; simpl. split; [lia|].
    rewrite lookup_app_l by lia. done.
  - intros src' n [= <- <-]. simpl. rewrite lookup_app_r, Nat.sub_diag, length_app by done. simpl. split; [done|lia].
Qed.

Lemma ne_lt_sorted (l : list nat) n : StronglySorted lt l → (∀ k, k ∈ l → k < n)%nat → StronglySorted lt (l ++ [n]).
Proof.
  intros Hs Hl. apply StronglySorted_app. split_and!; [|done|by repeat constructor].
  intros k k' Hk ->%list_elem_of_singleton. by apply Hl.
Qed.

(** The datagram in the loop's hand goes to a session. *)
Lemma inv_push s src n id t :
  inv s → pending s = Some (src, n) → tasks s !! id = Some t → task_src t = src →
  writer t = true → (length (queue t) < SESSION_QUEUE)%nat →
  inv (set_recv RIdle (set_task id (push n t) s)).
Proof.
  intros I Hp Et Hs Ew Hq. destruct (i_pending s I _ _ Hp) as [Hn Hl].
  pose proof (i_tasks s I _ t Et) as [So Se Wr Re Op Qu].
  assert (Hf : ∀ i u k, tasks s !! i = Some u → k ∈ accepted u → (k < n)%nat).
  { intros i u k Hu Hk. destruct (i_accepted s I i u k Hu Hk) as [Hlt _]. unfold frontier in Hlt. by rewrite Hp in Hlt. }
  assert (Old : ∀ i u, <[id := push n t]> (tasks s) !! i = Some u →
     ∃ u0, tasks s !! i = Some u0 ∧ task_src u = task_src u0 ∧ guard u = guard u0 ∧
           ∀ k, k ∈ accepted u → k ∈ accepted u0 ∨ k = n ∧ i = id).
  { intros i u [(-> & <- & _)|(_ & E)]%list_lookup_insert_Some.
    - exists t. simpl. repeat split; try done. intros k [?| ->%list_elem_of_singleton]%elem_of_app; auto.
    - exists u. auto. }
  split; simpl.
  - intros i u [(_ & <- & _)|(_ & E)]%list_lookup_insert_Some; [|by eapply i_tasks].
    destruct (Wr Ew) as [Hrun Hq']. split; simpl; try done.
    + apply ne_lt_sorted; eauto.
    + by apply prefix_app_r.
    + intros _. split; [done|]. by rewrite app_assoc, Hq'.
    + rewrite length_app. simpl. lia.
  - intros i u k (u0 & E & Hsu & _ & Hk)%Old Hku. rewrite Hsu. unfold frontier; simpl.
    destruct (Hk _ Hku) as [H1|[-> ->]]; [pose proof (Hf _ _ _ E H1); split; [lia|by apply (i_accepted s I i)]|].
    simplify_eq. split; [lia|done].
  - intros i j ti tj k (ui & Ei & _ & _ & Hki)%Old (uj & Ej & _ & _ & Hkj)%Old Hi' Hj'.
    destruct (Hki _ Hi') as [H1|[-> ->]], (Hkj _ Hj') as [H2|[E2 ->]]; [by eapply (i_once s I)| | |done].
    + subst k. pose proof (Hf _ _ _ Ei H1). lia.
    + pose proof (Hf _ _ _ Ej H2). lia.
  - by apply (entries_insert_task _ _ _ t); [apply I| ..].
  - intros src'. rewrite (i_opening s I src'). split.
    + intros (i & u & E & Hg & Hsu). destruct (decide (i = id)) as [->|].
      * exists id, (push n t). rewrite list_lookup_insert_eq by (eapply lookup_lt_Some; eauto). by simplify_eq.
      * exists i, u. by rewrite list_lookup_insert_ne.
    + intros (i & u & (u0 & E & -> & -> & _)%Old & ? & ?). eauto.
  - intros i j ti tj (ui & Ei & -> & -> & _)%Old (uj & Ej & -> & -> & _)%Old. by apply (i_single s I).
  - done.
Qed.

Lemma inv_datagram s src d : inv s → recv s = RIdle → inv (datagram_step src d s).
Proof.
  intros I Hr. unfold datagram_step; simpl. pose proof (inv_arrive s src d I) as Ia.
  destruct (sessions s !! src) as [e|] eqn:Ee; [|done].
  set (m := <[src := mkEntry (entry_id e) (now s)]> (sessions s)).
  assert (Im : inv (set_sessions m (arrive src d s))).
  { apply inv_set_sessions; [done|]. intros src' e'. unfold m.
    intros [[<- <-]|[_ E]]%lookup_insert_Some; [exact (i_entries s I _ _ Ee)|exact (i_entries s I _ _ E)]. }
  assert (inv (set_recv RIdle (set_sessions m (arrive src d s)))) as Hdrop by (by apply inv_recv).
  destruct (i_entries s I src e Ee) as (t & Et & Hs & _). rewrite Et.
  assert (∀ ts, mkState (now s) (arrivals s ++ [(src, d)]) (recv s) m (opening s) ts (cancelled s) =
    set_recv RIdle (mkState (now s) (arrivals s ++ [(src, d)]) RIdle m (opening s) ts (cancelled s))) as Er
    by (intros; unfold set_recv; by rewrite Hr).
  destruct (writer t) eqn:Ew; [|by apply (inv_recv (set_sessions m (arrive src d s)))].
  destruct (Nat.ltb_spec (length (queue t)) SESSION_QUEUE); unfold set_sessions, set_task; simpl; rewrite Er; [|done].
  by apply (inv_push (set_sessions m (arrive src d s)) src _ _ t).
Qed.

(** A session is started for the datagram in hand. *)
Lemma inv_spawn s src n :
  inv s → pending s = Some (src, n) → src ∉ opening s →
  inv (mkState (now s) (arrivals s) RIdle (sessions s) ({[src]} ∪ opening s)
         (tasks s ++ [mkTask src TOpening true false false [] [] [n] 0 0]) (cancelled s)).
Proof.
  intros I Hp Ho. destruct (i_pending s I _ _ Hp) as [Hn Hl].
  set (t := mkTask src TOpening true false false [] [] [n] 0 0).
  assert (Hf : ∀ i u k, tasks s !! i = Some u → k ∈ accepted u → (k < n)%nat).
  { intros i u k Hu Hk. destruct (i_accepted s I i u k Hu Hk) as [Hlt _]. unfold frontier in Hlt. by rewrite Hp in Hlt. }
  assert (New : ∀ i u, (tasks s ++ [t]) !! i = Some u → tasks s !! i = Some u ∨ i = length (tasks s) ∧ u = t).
  { intros i u [Hu|[Hi Hu]]%lookup_app_Some; [auto|]. right.
    apply list_lookup_singleton_Some in Hu as [? <-]. split; [lia|done]. }
  assert (Hg : ∀ i u, tasks s !! i = Some u → guard u = true → task_src u = src → False).
  { intros i u Hu Hgu Hs. apply Ho, (i_opening s I). eauto. }
  split; simpl.
  - intros i u [Hu|[_ ->]]%New; [by eapply i_tasks|]. split; simpl; try done; [by repeat constructor|apply prefix_nil|lia].
  - intros i u k [Hu|[_ ->]]%New Hk; unfold frontier; simpl.
    + pose proof (Hf _ _ _ Hu Hk). split; [lia|by apply (i_accepted s I i)].
    + apply list_elem_of_singleton in Hk as ->. split; [lia|done].
  - intros i j ti tj k [Hi|[-> ->]]%New [Hj|[-> ->]]%New Hki Hkj; [by eapply (i_once s I)| | |done].
    + apply list_elem_of_singleton in Hkj as ->. pose proof (Hf _ _ _ Hi Hki). lia.
    + apply list_elem_of_singleton in Hki as ->. pose proof (Hf _ _ _ Hj Hkj). lia.
  - intros src' e He. destruct (i_entries s I _ _ He) as (u & Hu & ?). exists u. split; [|done].
    by apply lookup_app_l_Some.
  - intros src'. rewrite elem_of_union, elem_of_singleton, (i_opening s I src'). split.
    + intros [->|(i & u & Hu & ?)].
      * exists (length (tasks s)), t. by rewrite lookup_app_r, Nat.sub_diag.
      * exists i, u. split; [by apply lookup_app_l_Some|done].
    + intros (i & u & [Hu|[-> ->]]%New & Hgu & Hs); [right; eauto|by left].
  - intros i j ti tj [Hi|[-> ->]]%New [Hj|[-> ->]]%New Hgi Hgj Hs; [by apply (i_single s I) with ti tj| | |done]; simpl in Hs.
    + by destruct (Hg _ _ Hi Hgi).
    + by destruct (Hg _ _ Hj Hgj).
  - done.
Qed.

Lemma inv_recv_step s : inv s → inv (recv_step s).
Proof.
  intros I. unfold recv_step. destruct (recv s) as [|src n id|src n|src n| |] eqn:E; try done.
  - apply inv_recv; [done|]. unfold pending; simpl. rewrite E. by destruct (entry_is s src id).
  - apply (inv_set_sessions (set_recv (RSpawn src n) s)); [|apply entries_delete, I].
    apply inv_recv; [done|]. unfold pending; simpl. by rewrite E.
  - destruct (decide (src ∈ opening s)); [by apply inv_recv|]. apply inv_spawn; [done| |done]. unfold pending. by rewrite E.
Qed.

Lemma inv_opened s id t ok : inv s → tasks s !! id = Some t → inv (opened id t ok s).
Proof.
  intros I Ht. unfold opened. destruct (tstate t) eqn:E; try done.
  pose proof (i_tasks s I _ t Ht) as [So Se Wr Re Op Qu]. destruct (Op E) as [Hg Hs].
  assert (Hd : entry_is s (task_src t) id = false).
  { unfold entry_is. destruct (sessions s !! task_src t) as [e|] eqn:He; [|done]. apply bool_decide_eq_false.
    destruct (i_entries s I _ _ He) as (u & Hu & _ & Hl). intros <-. simplify_eq. rewrite E in Hl.
    by destruct Hl as [?|[?|?]]. }
  destruct ok.
  - apply (inv_set_task s id t); try done.
    + split; simpl; try done; [|lia]. intros _. by rewrite app_nil_r.
    + intros src e [[<- <-]|[_ He]]%lookup_insert_Some.
      * simpl. eexists. rewrite list_lookup_insert_eq by (eapply lookup_lt_Some; eauto). split_and!; [done|done|by left].
      * by apply (entries_dead s id t (mkTask (task_src t) TRun (guard t) true true [] (accepted t) (accepted t) (nat_deadline s) (nat_deadline s))) in He.
  - apply (inv_set_task s id t _ (sessions s)); try done; [|by apply (entries_dead s id t)].
    split; simpl; try done; [intros Hw; apply Wr in Hw as [? _]; congruence|intros Hr; apply Re in Hr; congruence].
Qed.

Lemma inv_drop_guard s id t : inv s → tasks s !! id = Some t → inv (drop_guard id t s).
Proof.
  intros I Ht. unfold drop_guard. destruct (guard t) eqn:Eg; [|by destruct (tstate t)].
  set (t' := mkTask (task_src t) (tstate t) false (writer t) (reader t) (queue t) (sent t) (accepted t) (w_deadline t) (r_deadline t)).
  assert (tstate t ≠ TOpening → inv (mkState (now s) (arrivals s) (recv s) (sessions s) (opening s ∖ {[task_src t]}) (<[id := t']> (tasks s)) (cancelled s))) as Hi.
  2: { destruct (tstate t); [done|..]; by apply Hi. }
  intros Hst. pose proof (i_tasks s I _ t Ht) as [So Se Wr Re Op Qu].
  assert (Old : ∀ i u, <[id := t']> (tasks s) !! i = Some u →
                ∃ u0, tasks s !! i = Some u0 ∧ task_src u = task_src u0 ∧ accepted u = accepted u0 ∧
                      (guard u = true → guard u0 = true ∧ i ≠ id)).
  { intros i u [(-> & <- & _)|(? & E)]%list_lookup_insert_Some; [exists t; auto|exists u; auto]. }
  split; simpl.
  - intros i u [(_ & <- & _)|(_ & E)]%list_lookup_insert_Some; [by split|by eapply i_tasks].
  - intros i u n (u0 & E & -> & -> & _)%Old. by apply (i_accepted s I i).
  - intros i j ti tj n (ui & Ei & _ & -> & _)%Old (uj & Ej & _ & -> & _)%Old. by apply (i_once s I).
  - apply (entries_insert_task _ _ _ t); [apply I|done..].
  - intros src. rewrite elem_of_difference, elem_of_singleton, (i_opening s I src). split.
    + intros [(i & u & E & Hg & <-) Hne]. exists i, u. rewrite list_lookup_insert_ne; [done|]. intros <-. simplify_eq.
    + intros (i & u & (u0 & E & -> & _ & Hg)%Old & Hgu & <-). destruct (Hg Hgu) as [Hg0 Hne]. split; [eauto|].
      intros Hs. by apply Hne, (i_single s I i id u0 t).
  - intros i j ti tj (ui & Ei & -> & _ & Gi)%Old (uj & Ej & -> & _ & Gj)%Old Hi' Hj'.
    apply (i_single s I); [done|done|by apply Gi|by apply Gj].
  - apply (i_pending s I).
Qed.

Lemma task_ok_stop_writer t : task_ok t → task_ok (stop_writer t).
Proof. intros []. split; simpl; try done. lia. Qed.

Lemma task_ok_stop_reader t : task_ok t → task_ok (stop_reader t).
Proof. by intros []. Qed.

(** A step of one side of a running session. *)
Lemma inv_side s id t t' :
  inv s → tasks s !! id = Some t → task_ok t' → task_src t' = task_src t → guard t' = guard t →
  accepted t' = accepted t → (live (tstate t) → live (tstate t')) → inv (set_task id t' s).
Proof.
  intros I Ht Ok Es Eg Ea Hl. apply (inv_set_task s id t t' (sessions s)); try done.
  apply (entries_insert_task _ _ _ t); [apply I|done..].
Qed.

Lemma inv_writer_take s id t ok : inv s → tasks s !! id = Some t → inv (writer_take id t ok s).
Proof.
  intros I Ht. unfold writer_take. destruct (writer t) eqn:Ew; [|done]. destruct (queue t) as [|n q] eqn:Eq; [done|].
  pose proof (i_tasks s I _ t Ht) as Ok. destruct ok; [|by apply (inv_side s id t); [..|apply task_ok_stop_writer| | | |]].
  apply (inv_side s id t); try done. destruct Ok as [So Se Wr Re Op Qu]. destruct (Wr Ew) as [Er Es]. rewrite Eq in Es, Qu.
  split; simpl; try done.
  - rewrite <-Es. apply prefix_app. by exists q.
  - intros _. split; [done|]. by rewrite <-app_assoc.
  - by rewrite Er.
  - simpl in Qu. lia.
Qed.

Lemma inv_supervise s id t : inv s → tasks s !! id = Some t → inv (supervise id t s).
Proof.
  intros I Ht. pose proof (i_tasks s I _ t Ht) as Ok. unfold supervise. destruct (tstate t) eqn:E; try done.
  - destruct (negb (writer t) || negb (reader t) || cancelled s); [|done].
    apply (inv_side s id t); try done; [|intros _; simpl; right; by left].
    destruct Ok as [So Se Wr Re Op Qu]. split; simpl; try done. lia.
  - assert (Ok' : ∀ st, live st ∨ st = TDone → task_ok (set_tstate st t)).
    { intros st Hst. destruct Ok as [So Se Wr Re Op Qu]. split; simpl; try done.
      - intros Hw. apply Wr in Hw as [? _]. congruence.
      - intros Hr. apply Re in Hr. congruence.
      - intros ->. by destruct Hst as [[?|[?|?]]|?]. }
    destruct (entry_is s (task_src t) id) eqn:Ei.
    + apply (inv_side s id t); try done; [apply Ok'; left|intros _]; do 2 right; done.
    + apply (inv_set_task s id t _ (sessions s)); try done; [apply Ok'; by right|by apply (entries_dead s id t)].
  - apply (inv_set_task s id t _ (delete (task_src t) (sessions s))); try done.
    + destruct Ok as [So Se Wr Re Op Qu]. split; simpl; try done.
      * intros Hw. apply Wr in Hw as [? _]. congruence.
      * intros Hr. apply Re in Hr. congruence.
    + intros src e [Hne He]%lookup_delete_Some. destruct (i_entries s I _ _ He) as (u & Hu & Hs & Hl).
      exists u. rewrite list_lookup_insert_ne; [done|]. intros ->. by simplify_eq.
Qed.

Lemma inv_step s l : inv s → inv (step s l).
Proof.
  intros I.
  assert (Hw : ∀ id f, (∀ t, tasks s !! id = Some t → inv (f t)) → inv (with_task s id f)).
  { intros id f Hf. unfold with_task. destruct (tasks s !! id) eqn:E; [by apply Hf|done]. }
  assert (Hsw : ∀ id t, tasks s !! id = Some t → inv (set_task id (stop_writer t) s)).
  { intros id t Ht. apply (inv_side s id t); try done. apply task_ok_stop_writer, (i_tasks s I id), Ht. }
  assert (Hsr : ∀ id t, tasks s !! id = Some t → inv (set_task id (stop_reader t) s)).
  { intros id t Ht. apply (inv_side s id t); try done. apply task_ok_stop_reader, (i_tasks s I id), Ht. }
  destruct l as [d|src d| |id ok|id|id ok|id|id|id ok|id|id|id|src|clear|]; simpl;
    try (apply Hw; intros t Ht).
  - by destruct I.
  - destruct (recv s) eqn:E; try done. by apply inv_datagram.
  - by apply inv_recv_step.
  - by apply inv_opened.
  - by apply inv_drop_guard.
  - by apply inv_writer_take.
  - destruct (_ && _); auto.
  - destruct (_ && _); auto.
  - destruct (reader t) eqn:Er; [|done]. destruct ok; [|auto].
    apply (inv_side s id t); try done. destruct (i_tasks s I id t Ht). split; simpl; auto.
  - destruct (reader t); auto.
  - destruct (_ && _); auto.
  - by apply inv_supervise.
  - unfold cleanup. destruct (sessions s !! src) as [e|]; [|done]. destruct (_ || _); [|done].
    apply inv_set_sessions; [done|]. apply entries_delete, I.
  - destruct (recv s) eqn:E; try done. destruct clear; [|by apply inv_recv].
    apply (inv_recv (set_sessions ∅ s)); [|done]. by apply inv_set_sessions.
  - destruct (recv s) eqn:E; try done. unfold frontier, pending in *.
    pose proof (inv_recv s RStopped I) as [] ; [done|]. by split.
Qed.

Lemma run_inv ls : inv (run ls).
Proof. unfold run. apply (foldl_invariant step inv); [intros; by apply inv_step|apply inv_new]. Qed.

(** ** The end of a session *)

Definition is_supervise (id : nat) (l : Label) : bool :=
  match l with LSupervise i => bool_decide (i = id) | _ => false end.

(** Steps the supervisor has left. *)
Definition steps_left (st : TaskState) : nat :=
  match st with TOpening => 4 | TRun => 3 | TCheck => 2 | TRemove => 1 | TDone => 0 end.

Definition ended (s : State) (t : Task) : Prop := writer t = false ∨ reader t = false ∨ cancelled s = true.

Definition doomed (s : State) (id k : nat) : Prop :=
  ∃ t, tasks s !! id = Some t ∧ (steps_left (tstate t) ≤ k)%nat ∧ tstate t ≠ TOpening ∧ (tstate t = TRun → ended s t).

(** What others do to a session: no side of it starts again. *)
Definition later (t t' : Task) : Prop :=
  tstate t' = tstate t ∧ (writer t = false → writer t' = false) ∧ (reader t = false → reader t' = false).

Lemma later_insert (ts : list Task) i id t u :
  ts !! id = Some t → (i = id → later t u) → ∃ t', <[i := u]> ts !! id = Some t' ∧ later t t'.
Proof.
  intros Ht Hl. destruct (decide (i = id)) as [->|].
  - exists u. rewrite list_lookup_insert_eq by (eapply lookup_lt_Some; eauto). auto.
  - exists t. by rewrite list_lookup_insert_ne.
Qed.

Lemma step_later s l id t :
  tasks s !! id = Some t → tstate t ≠ TOpening → is_supervise id l = false →
  ∃ t', tasks (step s l) !! id = Some t' ∧ later t t'.
Proof.
  intros Ht Ho Hl.
  assert (Same : ∃ t', tasks s !! id = Some t' ∧ later t t') by (by exists t).
  destruct l as [d|src d| |i ok|i|i ok|i|i|i ok|i|i|i|src|clear|]; simpl; try done;
    try (unfold with_task; destruct (tasks s !! i) as [u|] eqn:Hu; [|done]).
  - destruct (recv s); try done. unfold datagram_step. repeat case_match; simpl; try done.
    apply later_insert; [done|]. intros Hid. rewrite Hid in *. by simplify_eq/=.
  - unfold recv_step. repeat case_match; simpl; try done. exists t. split; [|done]. by apply lookup_app_l_Some.
  - unfold opened. repeat case_match; simpl; try done; apply later_insert; try done; intros ->; by simplify_eq.
  - unfold drop_guard. repeat case_match; simpl; try done; apply later_insert; try done; intros ->; by simplify_eq/=.
  - unfold writer_take. repeat case_match; simpl; try done; apply later_insert; try done; intros ->; simplify_eq/=;
      split_and!; simpl; congruence.
  - case_match; [|done]. apply later_insert; [done|]. intros ->. by simplify_eq/=.
  - case_match; [|done]. apply later_insert; [done|]. intros ->. by simplify_eq/=.
  - repeat case_match; simpl; try done; apply later_insert; try done; intros ->; simplify_eq/=; split_and!; simpl; congruence.
  - case_match; [|done]. apply later_insert; [done|]. intros ->. by simplify_eq/=.
  - case_match; [|done]. apply later_insert; [done|]. intros ->. by simplify_eq/=.
  - simpl in Hl. apply bool_decide_eq_false in Hl. unfold supervise. repeat case_match; simpl; try done; by apply later_insert.
  - unfold cleanup. repeat case_match; done.
  - repeat case_match; done.
  - repeat case_match; done.
Qed.

Lemma step_cancelled s l : cancelled s = true → cancelled (step s l) = true.
Proof.
  intros Hc. destruct l as [d|src d| |i ok|i|i ok|i|i|i ok|i|i|i|src|clear|]; simpl;
    unfold with_task, datagram_step, recv_step, opened, drop_guard, writer_take, supervise, cleanup;
    repeat case_match; simpl; done.
Qed.

Lemma doomed_step s l id k : doomed s id k → doomed (step s l) id (k - if is_supervise id l then 1 else 0).
Proof.
  intros (t & Ht & Hk & Ho & He). destruct (is_supervise id l) eqn:Hl.
  - destruct l; try done. apply bool_decide_eq_true in Hl as ->. simpl. unfold with_task. rewrite Ht. unfold supervise.
    assert (Hi : ∀ u, <[id := u]> (tasks s) !! id = Some u).
    { intros u. apply list_lookup_insert_eq. by eapply lookup_lt_Some. }
    destruct (tstate t) eqn:E; simpl in Hk; try done.
    + assert (negb (writer t) || negb (reader t) || cancelled s = true) as ->.
      { destruct (He eq_refl) as [->|[->| ->]]; [done|by rewrite orb_true_r|by rewrite !orb_true_r]. }
      eexists; simpl; rewrite Hi. split_and!; [done|simpl; lia|done|done].
    + eexists; simpl; rewrite Hi. split_and!; [done|..]; destruct (entry_is s (task_src t) id); simpl; try done; lia.
    + eexists; simpl; rewrite Hi. split_and!; [done|simpl; lia|done|done].
    + exists t. rewrite E. simpl. split_and!; try done. lia.
  - destruct (step_later s l id t Ht Ho Hl) as (t' & Ht' & Es & Ew & Er). exists t'. rewrite Es, Nat.sub_0_r.
    split_and!; try done. intros Hrun. destruct (He Hrun) as [?|[?|?]]; [left|right; left|do 2 right]; auto using step_cancelled.
Qed.

Lemma doomed_foldl s ls id k : doomed s id k → doomed (foldl step s ls) id (k - count (is_supervise id) ls).
Proof.
  revert s k. induction ls as [|l ls IH]; intros s k Hd; simpl; [by rewrite Nat.sub_0_r|].
  rewrite count_cons, Nat.sub_add_distr. apply IH. by apply doomed_step.
Qed.

(** What arrived was a label of the schedule. *)
Lemma step_arrivals (P : Src → D → Prop) s l :
  (∀ src d, l = LDatagram src d → P src d) →
  Forall (λ a, P a.1 a.2) (arrivals s) → Forall (λ a, P a.1 a.2) (arrivals (step s l)).
Proof.
  intros Hl Ha. destruct l as [d|src d| |i ok|i|i ok|i|i|i ok|i|i|i|src|clear|]; simpl; try done;
    unfold with_task, recv_step, opened, drop_guard, writer_take, supervise, cleanup;
    try (repeat case_match; simpl; done).
  assert (Forall (λ a, P a.1 a.2) (arrivals s ++ [(src, d)])).
  { apply Forall_app. split; [done|]. apply Forall_singleton. by apply Hl. }
  unfold datagram_step. repeat case_match; simpl; done.
Qed.

Lemma run_arrivals (P : Src → D → Prop) ls :
  (∀ src d, LDatagram src d ∈ ls → P src d) → Forall (λ a, P a.1 a.2) (arrivals (run ls)).
Proof.
  unfold run. assert (Forall (λ a, P a.1 a.2) (arrivals State_new)) as H0 by constructor. revert H0.
  generalize State_new as s. induction ls as [|l ls IH]; intros s Hs Hls; simpl; [done|].
  apply IH; [|set_solver]. apply step_arrivals; [set_solver|done].
Qed.

Lemma run_sessions_app ls ls' : run (ls ++ ls') = foldl step (run ls) ls'.
Proof. apply foldl_app. Qed.

(** ** What a session has sent *)
Lemma sorted_indices_sublist {A} (l : list A) idx k :
  StronglySorted lt idx → Forall (λ i, k ≤ i)%nat idx → omap (λ i, l !! i) idx `sublist_of` drop k l.
Proof.
  intros Hs. revert k. induction Hs as [|i idx Hs IH Hi]; intros k Hk; [apply sublist_nil_l|].
  apply Forall_cons in Hk as [Hki _].
  assert (omap (λ i, l !! i) idx `sublist_of` drop (S i) l) as Hsub.
  { apply IH. eapply Forall_impl; [done|]. simpl. lia. }
  cbn [omap list_omap]. destruct (l !! i) as [x|] eqn:E.
  - transitivity (drop i l); [rewrite (drop_S l x i E); by apply sublist_skip|].
    replace i with (k + (i - k))%nat by lia. rewrite <-drop_drop. apply sublist_drop.
  - etrans; [done|]. replace (S i) with (k + (S i - k))%nat by lia. rewrite <-drop_drop. apply sublist_drop.
Qed.

Definition sent_items (s : State) (t : Task) : list D := omap (λ n, snd <$> arrivals s !! n) (sent t).

Lemma sent_items_sublist ls id t :
  tasks (run ls) !! id = Some t →
  sent_items (run ls) t `sublist_of` (snd <$> filter (λ a, a.1 = task_src t) (arrivals (run ls))).
Proof.
  intros Ht. pose proof (run_inv ls) as I. destruct (i_tasks _ I _ _ Ht) as [So Se _ _ _ _].
  assert (StronglySorted lt (sent t)) as Hs.
  { destruct Se as [k E]. rewrite E in So. by apply StronglySorted_app in So as (_ & ? & _). }
  set (items := omap (λ n, arrivals (run ls) !! n) (sent t)).
  assert (sent_items (run ls) t = snd <$> items) as ->.
  { unfold sent_items, items. clear. induction (sent t) as [|n l IH]; [done|]. cbn [omap list_omap].
    destruct (arrivals (run ls) !! n) as [[s d]|]; [cbn [fmap option_fmap option_map list_fmap snd]; by f_equal|done]. }
  assert (Forall (λ a, a.1 = task_src t) items) as Hf.
  { apply Forall_forall. intros a (n & Hn & Ha)%list_elem_of_omap.
    assert (n ∈ accepted t) as Hacc by (destruct Se as [k ->]; apply elem_of_app; by left).
    destruct (i_accepted _ I _ _ _ Ht Hacc) as [_ E]. rewrite Ha in E. by injection E. }
  apply fmap_sublist.
  assert (items `sublist_of` arrivals (run ls)) as Hsub.
  { apply (sorted_indices_sublist (arrivals (run ls)) (sent t) 0 Hs). apply Forall_forall. lia. }
  clearbody items. revert Hf. induction Hsub as [|a l k Hsub IH|a l k Hsub IH]; intros Hf; [done| |].
  - apply Forall_cons in Hf as [Ha Hf]. rewrite filter_cons_True by done. apply sublist_skip. by apply IH.
  - rewrite filter_cons. case_decide; [apply sublist_cons|]; by apply IH.
Qed.

(** ** What a session gets *)

(** C19: in every interleaving of the receive loop, the sessions' tasks, their
    supervisors and the cleanup, every datagram a session was given came from
    the session's own source, sessions are given datagrams in the order of
    arrival and no datagram goes to two of them; what a session has sent is an
    initial part of that, and while its writer runs nothing in between is
    lost; no channel exceeds its capacity. *)
Theorem sessions_keep_datagrams ls id t :
  tasks (run ls) !! id = Some t →
  StronglySorted lt (accepted t) ∧
  Forall (λ n, fst <$> arrivals (run ls) !! n = Some (task_src t)) (accepted t) ∧
  sent t `prefix_of` accepted t ∧
  (writer t = true → sent t ++ queue t = accepted t) ∧
  (length (queue t) ≤ SESSION_QUEUE)%nat ∧
  ∀ id' t', tasks (run ls) !! id' = Some t' → id' ≠ id → accepted t ## accepted t'.
Proof.
  intros Ht. pose proof (run_inv ls) as I. destruct (i_tasks _ I _ _ Ht) as [So Se Wr Re Op Qu]. split_and!; try done.
  - apply Forall_forall. intros n Hn. by apply (i_accepted _ I id).
  - intros Hw. by apply Wr.
  - intros id' t' Ht' Hne n Hn Hn'. by apply Hne, (i_once _ I id' id t' t n).
Qed.

(** In every interleaving each entry of the session map belongs to a task of
    the same source whose supervisor has not finished, the set of sources being
    opened holds exactly the sources of the tasks with a guard, and no two
    streams are being opened for one source. *)
Theorem session_map_consistent ls :
  (∀ src e, sessions (run ls) !! src = Some e → ∃ t, tasks (run ls) !! entry_id e = Some t ∧ task_src t = src ∧
     (tstate t = TRun ∨ tstate t = TCheck ∨ tstate t = TRemove)) ∧
  (∀ src, src ∈ opening (run ls) ↔ ∃ id t, tasks (run ls) !! id = Some t ∧ guard t = true ∧ task_src t = src) ∧
  (∀ i j ti tj, tasks (run ls) !! i = Some ti → tasks (run ls) !! j = Some tj →
     tstate ti = TOpening → tstate tj = TOpening → task_src ti = task_src tj → i = j).
Proof.
  pose proof (run_inv ls) as I. split_and!; [apply I|apply I|].
  intros i j ti tj Hi Hj Si Sj. apply (i_single _ I); try done.
  - by apply (ok_opening _ (i_tasks _ I i ti Hi)).
  - by apply (ok_opening _ (i_tasks _ I j tj Hj)).
Qed.

(** C20: once a side of an opened session has stopped, or the whole association
    or forward is cancelled, the session is over and has no entry left as soon as
    its supervisor has run three steps, in whatever order with all others. *)
Theorem stopped_session_removed ls ls' id t :
  tasks (run ls) !! id = Some t → tstate t ≠ TOpening →
  writer t = false ∨ reader t = false ∨ cancelled (run ls) = true →
  (3 ≤ count (is_supervise id) ls')%nat →
  ∃ t', tasks (run (ls ++ ls')) !! id = Some t' ∧ tstate t' = TDone ∧
        ∀ src e, sessions (run (ls ++ ls')) !! src = Some e → entry_id e ≠ id.
Proof.
  intros Ht Ho He Hc.
  assert (doomed (run ls) id 3) as Hd.
  { exists t. split_and!; try done. destruct (tstate t); simpl; lia || done. }
  apply (doomed_foldl _ ls') in Hd as (t' & Ht' & Hk & Ho' & _). rewrite <-run_sessions_app in Ht'.
  assert (tstate t' = TDone) as Hdone by (destruct (tstate t'); simpl in Hk; try done; lia).
  exists t'. split_and!; [done..|]. intros src e (u & Hu & _ & Hl)%(i_entries _ (run_inv _)) <-.
  simplify_eq. rewrite Hdone in Hl. by destruct Hl as [?|[?|?]].
Qed.
End sessions.

(** ** An association end to end *)

Definition outbound_frame (d : UdpOutboundDatagram) : Frame := mkFrame (addr d) (Socks.port d) (payload d).

Lemma assoc_accepts_own_host peer src packet d : assoc_accepts peer src packet = Some d → ip src = ip peer.
Proof. unfold assoc_accepts. case_decide; [done|]. by intros _. Qed.

(** C18: a SOCKS5 association end to end.  In every interleaving of its receive
    loop, sessions and supervisors, with packets arriving from any host: a session
    belongs to the host of the control connection; what it has written to its
    stream makes the server send exactly the datagrams it took, each to the
    address that its own packet names and in order; and these are some of the
    datagrams that came from that session's source, in their order of arrival. *)
Theorem association_delivered ls peer id t d ds resolve send address disable_443 is_ipv6 try_op :
  (∀ src d, LDatagram src d ∈ ls → ∃ packet, assoc_accepts peer src packet = Some d) →
  tasks (run ls) !! id = Some t → sent_items (run ls) t = d :: ds → Forall (λ d, frame_ok (outbound_frame d)) (d :: ds) →
  disable_443 && (Socks.port d =? 443) = false →
  (∀ n h q, resolve n h q = Ok (address h q)) → (∀ d, send d = Ok tt) → (∀ o, try_op o = Ok tt) →
  ip (task_src t) = ip peer ∧
  handle_stream (λ _ _, Err EUnexpectedEof)
    (λ recv, Ok (handle_udp_relay resolve send disable_443 (Ok is_ipv6) (length recv) recv))
    (Client.written (udp_session (outbound_frame d) (outbound_frame <$> ds) try_op).1) =
    Ok ((λ d, (payload d, send_to_addr (address (canonical_host (addr d)) (Socks.port d)) is_ipv6)) <$> d :: ds, Ok tt) ∧
  d :: ds `sublist_of` (snd <$> filter (λ a, a.1 = task_src t) (arrivals (run ls))).
Proof.
  intros Hls Ht Hs Hf Hd Hres Hsend Hop. pose proof (sent_items_sublist ls id t Ht) as Hsub. rewrite Hs in Hsub.
  split_and!; [| |done].
  - assert (d ∈ snd <$> filter (λ a, a.1 = task_src t) (arrivals (run ls))) as Hin
      by (eapply elem_of_sublist, Hsub; by left).
    apply list_elem_of_fmap in Hin as (a & _ & [<- Ha]%list_elem_of_filter).
    assert (Forall (λ a, ip a.1 = ip peer) (arrivals (run ls))) as Hip.
    { apply (run_arrivals (λ src _, ip src = ip peer)). intros src d' (packet & E)%Hls. by eapply assoc_accepts_own_host. }
    rewrite Forall_forall in Hip. by apply Hip.
  - rewrite (udp_session_served try_op Hop resolve send address disable_443 is_ipv6); [|done|done| |done].
    + do 2 f_equal. rewrite <-fmap_cons. by rewrite <-list_fmap_compose.
    + rewrite <-fmap_cons. by apply Forall_fmap.
Qed.

(** ** Witnesses *)

Definition peer_example : SocketAddr := socket_addr (V4 [x7f; x00; x00; x01]) 5000.
Definition packet_example : str := [x00; x00; x00; x01; x0a; x00; x00; x01; x00; x35; x07].
Definition datagram_example : UdpOutboundDatagram :=
  default (mkOutbound [] 0 []) (assoc_accepts peer_example peer_example packet_example).

(** A session with a datagram sent and one queued. *)
Definition session_example : list Label :=
  let l := LDatagram peer_example datagram_example in
  [l; LRecv; LOpened 0 true; LGuard 0; l; l; LWriterTake 0 true].

Lemma sessions_keep_datagrams_witness :
  ∃ t, tasks (run session_example) !! 0%nat = Some t ∧ accepted t = [0; 1; 2]%nat ∧ sent t ++ queue t = accepted t.
Proof.
  eexists. split; [vm_compute; reflexivity|]. split; [reflexivity|].
  apply (sessions_keep_datagrams session_example 0); vm_compute; reflexivity.
Defined.

(** The reader fails while the others go on. *)
Definition stopped_example : list Label := session_example ++ [LReaderErr 0].
Definition ending_example : list (Label (Src := SocketAddr) (D := UdpOutboundDatagram)) := [LSupervise 0; LTick 1; LSupervise 0; LCleanup peer_example; LSupervise 0].

Lemma stopped_session_removed_witness :
  ∃ t', tasks (run (stopped_example ++ ending_example)) !! 0%nat = Some t' ∧ tstate t' = TDone ∧
        ∀ src e, sessions (run (stopped_example ++ ending_example)) !! src = Some e → entry_id e ≠ 0%nat.
Proof.
  eapply (stopped_session_removed stopped_example);
    [vm_compute; reflexivity|vm_compute; congruence|right; left; reflexivity|vm_compute; lia].
Defined.

Lemma association_delivered_witness :
  ∃ t, tasks (run session_example) !! 0%nat = Some t ∧ ip (task_src t) = ip peer_example ∧
    [datagram_example; datagram_example] `sublist_of` (snd <$> filter (λ a, a.1 = task_src t) (arrivals (run session_example))).
Proof.
  eexists. split; [vm_compute; reflexivity|].
  match goal with |- context [task_src ?t] =>
    edestruct (association_delivered session_example peer_example 0 t datagram_example [datagram_example]
      (λ _ h q, Ok (sample_address h q)) (λ _, Ok tt) sample_address false false (λ _, Ok tt)) as (H1 & _ & H2);
    [..|exact (conj H1 H2)] end; try done.
  - intros src d Hl. exists packet_example. unfold session_example in Hl.
    repeat (apply elem_of_cons in Hl as [Hl|Hl]; [try discriminate Hl; injection Hl as -> ->; reflexivity|]).
    by apply elem_of_nil in Hl.
  - repeat constructor; vm_compute; try discriminate; by eexists.
Defined.

(** ** Removal of a session's replacement *)

(** The reader of session 0 fails; its supervisor has looked up the entry and
    found its own id; meanwhile the receive loop removes that entry and opens
    session 1 for the same source; then the supervisor removes. *)
Definition replaced_example : list Label :=
  let l := LDatagram peer_example datagram_example in
  [l; LRecv; LOpened 0 true; LGuard 0; LReaderErr 0; LSupervise 0; LSupervise 0;
   l; LRecv; LRecv; LRecv; LOpened 1 true; LGuard 1].

(** The check of the id and the removal of the entry are two steps, and
    between them the receive loop can replace the session: then the
    supervisor of the stopped session removes the entry of the new session,
    whose writer, left without a sender, ends although both its sides worked
    and nothing was cancelled. *)
Theorem replacement_removed :
  let s := run replaced_example in
  let s' := step s (LSupervise 0) in
  let s'' := step s' (LWriterNone 1) in
  entry_is s peer_example 1 = true ∧
  (∃ t, tasks s !! 1%nat = Some t ∧ writer t = true ∧ reader t = true ∧ tstate t = TRun) ∧
  sessions s' !! peer_example = None ∧
  (∃ t, tasks s'' !! 1%nat = Some t ∧ writer t = false ∧ now s'' = 0 ∧ cancelled s'' = false).
Proof.
  vm_compute. split_and!; [reflexivity|eexists; repeat split|reflexivity|eexists; repeat split].
Qed.
