(* ===== verification/Forward.v ===== *)
(** * [client/src/forwarder.rs]: port forwards, and the accept loops of the client

    The entries of the configuration, the listeners started for them, the accept
    loop with its permits (the same in [LocalServer::serve_with_listener]), a
    forwarded TCP connection with its two copying directions, and what becomes
    of the datagrams of a forwarded UDP session. *)
From S2P Require Import Prelude Std Net Consts Link Protocol UdpPool TcpRelay Conn UdpRelay Client Socks Sessions.
#[local] Open Scope Z_scope.

(** ** Entries *)
Inductive ProtocolFilter := Tcp | Udp | Both.
#[export] Instance ProtocolFilter_eq_dec : EqDecision ProtocolFilter.
Proof. solve_decision. Defined.

Record ForwardEntry := mkForwardEntry { local_addr : SocketAddr; target : str; protocol : ProtocolFilter }.

Definition unknown_protocol (proto raw : str) : error :=
  EMsg (B "unknown protocol '" ++ proto ++ B "' in forward address '" ++ raw ++ B "', expected tcp/udp").

Definition parse_local_addr (raw : str) : result (str * ProtocolFilter) :=
  match rfind x2f raw with
  | Some slash_pos =>
      let addr := take slash_pos raw in
      let proto := drop (slash_pos + 1) raw in
      if eq_ignore_ascii_case proto (B "tcp") then Ok (addr, Tcp)
      else if eq_ignore_ascii_case proto (B "udp") then Ok (addr, Udp)
      else Err (unknown_protocol proto raw)
  | None => Ok (raw, Both)
  end.

(** The entries of the hash map in the order of its iteration. *)
Definition Forwarder_new (forward_map : list (str * str)) : result (list ForwardEntry) :=
  mapM (λ '(local_raw, target),
    '(addr_str, protocol) ← parse_local_addr local_raw;
    local_addr ← ok_or (parse_socket_addr addr_str) (EMsg (B "invalid forward local address '" ++ addr_str ++ B "'"));
    mret (mkForwardEntry local_addr target protocol)) forward_map.

Definition parse_target (target : str) : result (str * Z) := parse_host_port target.

(** ** Listeners *)

(** [OAcceptLoop] and [OUdpLoop] are the endless loops below, ending only with an
    error. *)
Inductive ListenOp :=
  | OBindTcp (a : SocketAddr)
  | OBindUdp (a : SocketAddr)
  | OAcceptLoop (target : str)
  | OUdpLoop (host : str) (port : Z).

Definition start_tcp_forward (entry : ForwardEntry) : effect ListenOp unit :=
  _ ← op (OBindTcp (local_addr entry)); op (OAcceptLoop (target entry)).

Definition start_udp_forward (entry : ForwardEntry) : effect ListenOp unit :=
  _ ← op (OBindUdp (local_addr entry));
  '(host, port) ← pure (parse_target (target entry));
  op (OUdpLoop host port).

(** The tasks spawned by [start], in order; it returns when all have ended. *)
Definition Forwarder_start (entries : list ForwardEntry) : list (effect ListenOp unit) :=
  entries ≫= λ entry,
    (if bool_decide (protocol entry = Tcp) || bool_decide (protocol entry = Both) then [start_tcp_forward entry] else [])
    ++ (if bool_decide (protocol entry = Udp) || bool_decide (protocol entry = Both) then [start_udp_forward entry] else []).

(** ** The accept loop

    [connections] are the connections whose handlers hold a permit. *)
Inductive AcceptPc := AAcquire | AAccept | ASleep (until : Z).

Record Acceptor := mkAcceptor { clock : Z; permits : nat; apc : AcceptPc; connections : list nat; next_conn : nat }.

Definition Acceptor_new (n : nat) : Acceptor := mkAcceptor 0 n AAcquire [] 0.

Inductive AcceptLabel :=
  | ATick (d : N)
  | AGranted
  | AAccepted
  | AError
  | AAwake
  | AEnd (id : nat).

(** Milliseconds. *)
Definition ACCEPT_BACKOFF : Z := 100.

Definition accept_step (a : Acceptor) (l : AcceptLabel) : Acceptor :=
  match l, apc a with
  | ATick d, pc => mkAcceptor (clock a + Z.of_N d) (permits a) pc (connections a) (next_conn a)
  | AGranted, AAcquire =>
      match permits a with
      | S n => mkAcceptor (clock a) n AAccept (connections a) (next_conn a)
      | O => a
      end
  | AAccepted, AAccept =>
      mkAcceptor (clock a) (permits a) AAcquire (next_conn a :: connections a) (S (next_conn a))
  | AError, AAccept =>
      mkAcceptor (clock a) (S (permits a)) (ASleep (clock a + ACCEPT_BACKOFF)) (connections a) (next_conn a)
  | AAwake, ASleep until =>
      if until <=? clock a then mkAcceptor (clock a) (permits a) AAcquire (connections a) (next_conn a) else a
  | AEnd id, pc =>
      if bool_decide (id ∈ connections a)
      then mkAcceptor (clock a) (S (permits a)) pc (filter (.≠ id) (connections a)) (next_conn a) else a
  | _, _ => a
  end.

Definition accept_loop (n : nat) (ls : list AcceptLabel) : Acceptor := foldl accept_step (Acceptor_new n) ls.

(** ** A forwarded connection *)
Definition forward_tcp_connection (target : str) : effect LocalOp Served :=
  '(host, port) ← pure (parse_target target);
  _ ← op (LOpenTcpStream host port);
  mret (SRelay []).

(** [copy_direction]: [copy_buf] over a reader of 16 KiB, then [shutdown]. *)
Definition LOCAL_BUF : nat := 16 * 1024.

Definition copy_direction_step (d : Dir) (ev : IoEvent) : Dir :=
  match ev with
  | EvRead bs => if (length bs <=? LOCAL_BUF)%nat then (copy_step d ev).1 else d
  | _ => (copy_step d ev).1
  end.

(** [join!] of both directions: it goes on until both have ended. *)
Record LocalRelay := mkLocalRelay { to_quic : Dir; to_local : Dir }.

Inductive LocalRelayLabel := JQuic (ev : IoEvent) | JLocal (ev : IoEvent).

Definition is_done (d : Dir) : bool := match dir_state d with DDone _ => true | _ => false end.

Definition relay_ended (r : LocalRelay) : bool := is_done (to_quic r) && is_done (to_local r).

Definition local_relay_step (r : LocalRelay) (l : LocalRelayLabel) : LocalRelay :=
  if relay_ended r then r
  else match l with
       | JQuic ev => mkLocalRelay (copy_direction_step (to_quic r) ev) (to_local r)
       | JLocal ev => mkLocalRelay (to_quic r) (copy_direction_step (to_local r) ev)
       end.

Definition local_relay (ls : list LocalRelayLabel) : LocalRelay :=
  foldl local_relay_step (mkLocalRelay Dir_new Dir_new) ls.

(** ** Forwarded datagrams *)

(** The address of a response is read and dropped. *)
Definition read_one_udp_response : Prelude.reader str :=
  _ ← read_trojanc_addr_async;
  pkt_len ← read_u16;
  read_exact (Z.to_nat pkt_len).

(** ** Entries are read back from their text *)

Lemma show_socket_addr_no_slash i p : ip_wf i → 0 <= p <= u16_max → x2f ∉ show_socket_addr (socket_addr i p).
Proof.
  intros Hi Hp. assert (x2f ∉ show_dec p) as Hd by (apply show_radix_not_elem; unfold u16_max in *; [lia|lia|done]).
  unfold show_socket_addr, socket_addr. destruct i as [o|o]; cbn [ip port scope_id ip_wf] in *.
  - rewrite !not_elem_of_app. split_and!; [by apply (show_ip_not_elem x2f (V4 o))|by apply contains_false|done].
  - rewrite Z.eqb_refl, !not_elem_of_app. split_and!; [by apply contains_false|by apply (show_ip_not_elem x2f (V6 o))|by apply contains_false|done].
Qed.

(** The text of an entry: its address, and a protocol after a slash if there is one. *)
Definition local_text (i : IpAddr) (p : Z) (suffix : option str) : str :=
  show_socket_addr (socket_addr i p) ++ match suffix with Some s => x2f :: s | None => [] end.

Definition filter_of (suffix : option str) : option ProtocolFilter :=
  match suffix with
  | None => Some Both
  | Some s => if eq_ignore_ascii_case s (B "tcp") then Some Tcp
              else if eq_ignore_ascii_case s (B "udp") then Some Udp else None
  end.

Lemma parse_local_text i p suffix :
  ip_wf i → 0 <= p <= u16_max → match suffix with Some s => x2f ∉ s | None => True end →
  parse_local_addr (local_text i p suffix) =
  match filter_of suffix with
  | Some f => Ok (show_socket_addr (socket_addr i p), f)
  | None => Err (unknown_protocol (default [] suffix) (local_text i p suffix))
  end.
Proof.
  intros Hi Hp Hs. unfold parse_local_addr, local_text, filter_of.
  pose proof (show_socket_addr_no_slash i p Hi Hp) as Hn. destruct suffix as [s|].
  - rewrite rfind_app by done. rewrite take_app_length, drop_past. by repeat case_match.
  - rewrite app_nil_r. by apply rfind_None in Hn as ->.
Qed.

(** ** Listeners of a configuration *)

(** An entry by its parts: the local address, the protocol, and the target. *)
Record Forward := mkForward { f_ip : IpAddr; f_port : Z; f_suffix : option str; f_host : str; f_target_port : Z }.

Definition target_text (host : str) (p : Z) : str :=
  if contains x3a host then B "[" ++ host ++ B "]:" ++ show_dec p else host ++ B ":" ++ show_dec p.

Definition target_ok (host : str) (p : Z) : Prop :=
  x5d ∉ host ∧ x5b ∉ host ∧ host ≠ [] ∧ 0 <= p <= u16_max.

Definition forward_ok (f : Forward) : Prop :=
  ip_wf (f_ip f) ∧ 0 <= f_port f <= u16_max ∧ target_ok (f_host f) (f_target_port f) ∧
  match f_suffix f with Some s => x2f ∉ s | None => True end.

Definition forward_text (f : Forward) : str * str :=
  (local_text (f_ip f) (f_port f) (f_suffix f), target_text (f_host f) (f_target_port f)).

Definition forward_entry (f : Forward) (filter : ProtocolFilter) : ForwardEntry :=
  mkForwardEntry (socket_addr (f_ip f) (f_port f)) (forward_text f).2 filter.

Lemma parse_target_text host p : target_ok host p → parse_target (target_text host p) = Ok (host, p).
Proof.
  intros (Hc & Ho & Hn & Hp). unfold parse_target, target_text. destruct (contains x3a host).
  - by apply parse_host_port_bracketed.
  - apply parse_host_port_plain; try done. destruct host as [|c host]; [done|].
    apply not_elem_of_cons in Ho as [Ho _]. unfold starts_with; simpl. by rewrite decide_False by congruence.
Qed.

Lemma Forwarder_new_cons raw target m :
  Forwarder_new ((raw, target) :: m) =
  (entry ← ('(addr_str, protocol) ← parse_local_addr raw;
            local_addr ← ok_or (parse_socket_addr addr_str) (EMsg (B "invalid forward local address '" ++ addr_str ++ B "'"));
            mret (mkForwardEntry local_addr target protocol));
   entries ← Forwarder_new m; mret (entry :: entries)).
Proof. done. Qed.

Lemma Forwarder_new_entry f filter m :
  forward_ok f → filter_of (f_suffix f) = Some filter →
  Forwarder_new (forward_text f :: m) = (entries ← Forwarder_new m; mret (forward_entry f filter :: entries)).
Proof.
  intros (Hi & Hp & _ & Hs) Hf. unfold forward_text. rewrite Forwarder_new_cons, parse_local_text, Hf by done.
  result_cbn. by rewrite parse_show_socket_addr.
Qed.

(** What the tasks of an entry do when nothing fails. *)
Definition listeners (f : Forward) (filter : ProtocolFilter) : list (list ListenOp * result unit) :=
  let a := socket_addr (f_ip f) (f_port f) in
  (if decide (filter = Udp) then [] else [([OBindTcp a; OAcceptLoop (forward_text f).2], Ok tt)])
  ++ (if decide (filter = Tcp) then [] else [([OBindUdp a; OUdpLoop (f_host f) (f_target_port f)], Ok tt)]).

Lemma entry_listeners try_op f filter :
  (∀ o, try_op o = Ok tt) → forward_ok f →
  (λ task : effect ListenOp unit, task try_op) <$> Forwarder_start [forward_entry f filter] = listeners f filter.
Proof.
  intros Hop (_ & _ & Ht & _).
  assert (start_tcp_forward (forward_entry f filter) try_op =
          ([OBindTcp (socket_addr (f_ip f) (f_port f)); OAcceptLoop (forward_text f).2], Ok tt)) as Et.
  { unfold start_tcp_forward. rewrite op_bind, Hop. unfold op. by rewrite Hop. }
  assert (start_udp_forward (forward_entry f filter) try_op =
          ([OBindUdp (socket_addr (f_ip f) (f_port f)); OUdpLoop (f_host f) (f_target_port f)], Ok tt)) as Eu.
  { unfold start_udp_forward. rewrite op_bind, Hop. cbn [target forward_entry forward_text snd].
    rewrite parse_target_text, pure_bind by done. unfold op. by rewrite Hop. }
  unfold listeners. rewrite <-Et, <-Eu. by destruct filter.
Qed.

(** A forward whose key is the text of a socket address, alone or followed by
    a slash and [tcp] or [udp] in any case, and whose value is the text of a host
    and a port, is listened for at that address: by TCP and UDP, or by
    the one named, each forwarding to that host and port; and the first key with
    another protocol makes the whole forwarder fail, naming it. *)
Theorem forwards_listened (l : list (Forward * ProtocolFilter)) try_op :
  Forall (λ x, forward_ok x.1 ∧ filter_of (f_suffix x.1) = Some x.2) l → (∀ o, try_op o = Ok tt) →
  Forwarder_new ((λ x, forward_text x.1) <$> l) = Ok ((λ x, forward_entry x.1 x.2) <$> l) ∧
  (λ task : effect ListenOp unit, task try_op) <$> Forwarder_start ((λ x, forward_entry x.1 x.2) <$> l)
    = l ≫= (λ x, listeners x.1 x.2) ∧
  ∀ f m, forward_ok f → filter_of (f_suffix f) = None →
    Forwarder_new (((λ x, forward_text x.1) <$> l) ++ forward_text f :: m) =
    Err (unknown_protocol (default [] (f_suffix f)) (forward_text f).1).
Proof.
  intros Hl Hop. split_and!.
  - induction Hl as [|[f g] l [Hf Hg] _ IH]; [done|]. rewrite fmap_cons. cbn [fst].
    by rewrite (Forwarder_new_entry f g), IH.
  - induction Hl as [|[f g] l [Hf Hg] _ IH]; [done|]. rewrite fmap_cons. cbn [fst snd] in *.
    unfold Forwarder_start in *. rewrite !bind_cons, fmap_app, IH. f_equal.
    etrans; [|by apply (entry_listeners try_op f g)]. unfold Forwarder_start. cbn [mbind list_bind]. by rewrite app_nil_r.
  - intros f m (Hi & Hp & _ & Hs) Hnone. induction Hl as [|[f' g] l [Hf Hg] _ IH].
    + cbn [fmap list_fmap app]. unfold forward_text at 1. by rewrite Forwarder_new_cons, parse_local_text, Hnone.
    + rewrite fmap_cons, <-app_comm_cons. cbn [fst]. by rewrite (Forwarder_new_entry f' g), IH.
Qed.

(** ** The accept loop keeps its permits *)

Definition holds (pc : AcceptPc) : nat := match pc with AAccept => 1 | _ => 0 end.

Record acceptor_ok (n : nat) (a : Acceptor) : Prop := {
  ok_permits : (permits a + holds (apc a) + length (connections a) = n)%nat;
  ok_distinct : NoDup (connections a);
  ok_fresh : Forall (λ id, id < next_conn a)%nat (connections a);
  ok_sleep : ∀ until, apc a = ASleep until → until ≤ clock a + ACCEPT_BACKOFF;
}.

Lemma filter_out_length (id : nat) l : NoDup l → id ∈ l → S (length (filter (.≠ id) l)) = length l.
Proof.
  induction 1 as [|x l Hx Hl IH]; [set_solver|]. rewrite filter_cons. intros [->|Hin]%elem_of_cons.
  - rewrite decide_False by auto. simpl. f_equal. clear -Hx. induction l as [|y l IH]; [done|]. apply not_elem_of_cons in Hx as [Hy Hx].
    rewrite filter_cons_True by done. simpl. by rewrite IH.
  - rewrite decide_True by set_solver. simpl. by rewrite IH.
Qed.

Lemma accept_step_ok n a l : acceptor_ok n a → acceptor_ok n (accept_step a l).
Proof.
  intros I. pose proof I as [P D F W]. destruct l as [d| | | | |id]; simpl.
  - split; simpl; try done. intros u E. specialize (W u E). lia.
  - destruct (apc a) eqn:E; try exact I. destruct (permits a) as [|k] eqn:Ek; [exact I|].
    split; simpl in *; try done; lia.
  - destruct (apc a) eqn:E; try exact I. split; simpl in *; try done; [lia| |].
    + apply NoDup_cons. split; [|done]. intros Hin. rewrite Forall_forall in F. specialize (F _ Hin). lia.
    + constructor; [lia|]. eapply Forall_impl; [done|]. simpl. lia.
  - destruct (apc a) eqn:E; try exact I. split; simpl in *; try done; [lia|]. intros u [= <-]. lia.
  - destruct (apc a) as [| |until] eqn:E; try exact I. destruct (until <=? clock a); [|exact I].
    by split.
  - case_bool_decide as Hin; [|exact I]. split; simpl; try done.
    + rewrite <-(filter_out_length id _ D Hin) in P. lia.
    + by apply NoDup_filter.
    + apply Forall_forall. intros i [_ Hi]%list_elem_of_filter. by apply (proj1 (Forall_forall _ _) F).
Qed.

Lemma accept_loop_ok n ls : acceptor_ok n (accept_loop n ls).
Proof.
  apply (foldl_invariant accept_step (acceptor_ok n)); [intros; by apply accept_step_ok|].
  split; simpl; [lia|constructor|constructor|done].
Qed.

(** Whatever the order of connections, accept errors, pauses and ends of
    connections, an accept loop with [n] permits never serves more than [n]
    connections, every permit is free, with the loop or with one connection, and
    as long as fewer than [n] connections are served the next one is accepted within
    the pause after an error: no error ends the loop or loses a permit. *)
Theorem accept_loop_bounded n ls :
  let a := accept_loop n ls in
  (length (connections a) ≤ n)%nat ∧
  (permits a + holds (apc a) + length (connections a) = n)%nat ∧
  ((length (connections a) < n)%nat →
   let a' := accept_loop n (ls ++ [ATick (Z.to_N ACCEPT_BACKOFF); AAwake; AGranted; AAccepted]) in
   connections a' = next_conn a :: connections a).
Proof.
  intros a. destruct (accept_loop_ok n ls) as [P D F W]. fold a in P, D, F, W. split_and!; [lia|done|].
  intros Hn. unfold accept_loop. rewrite foldl_app. fold (accept_loop n ls). fold a. clearbody a.
  destruct a as [c k [| |until] cs i]; simpl in *.
  - destruct k; [lia|done].
  - done.
  - specialize (W until eq_refl). destruct (Z.leb_spec until (c + ACCEPT_BACKOFF)) as [H|]; [|lia].
    unfold ACCEPT_BACKOFF in H. replace (until <=? c + 100) with true by (symmetry; apply Z.leb_le; lia).
    destruct k; [lia|done].
Qed.

(** ** The two directions of a relay *)

Definition quic_events (ls : list LocalRelayLabel) : list IoEvent :=
  omap (λ l, match l with JQuic ev => Some ev | JLocal _ => None end) ls.
Definition local_events (ls : list LocalRelayLabel) : list IoEvent :=
  omap (λ l, match l with JLocal ev => Some ev | JQuic _ => None end) ls.

Lemma copy_direction_ok d ev : dir_ok d → dir_ok (copy_direction_step d ev).
Proof.
  intros Hd. unfold copy_direction_step. destruct ev as [bs| | | |]; try by apply copy_step_ok.
  destruct (_ <=? _)%nat; [by apply copy_step_ok|done].
Qed.

Lemma copy_direction_done d ev : is_done d = true → copy_direction_step d ev = d.
Proof.
  unfold is_done. intros Hd. destruct (dir_state d) as [| | |r] eqn:E; try done.
  unfold copy_direction_step. rewrite (copy_step_done d ev r E). destruct ev; try done. by destruct (_ <=? _)%nat.
Qed.

Lemma copy_direction_foldl d evs : dir_ok d → dir_ok (foldl copy_direction_step d evs).
Proof. apply (foldl_invariant copy_direction_step dir_ok). intros; by apply copy_direction_ok. Qed.

(** The relay of a local connection is two independent copies: each
    direction does what it would do with its own events alone, so the end or the
    failure of one never cuts the other; each has written an initial part of
    what it read, and all of it if it ended well, its end passed on; and the
    relay ends exactly when both have ended. *)
Theorem local_relay_independent ls :
  let r := local_relay ls in
  to_quic r = foldl copy_direction_step Dir_new (quic_events ls) ∧
  to_local r = foldl copy_direction_step Dir_new (local_events ls) ∧
  (∀ d, d = to_quic r ∨ d = to_local r →
     TcpRelay.written d `prefix_of` received d ∧
     (dir_state d = DDone (Ok tt) → TcpRelay.written d = received d)) ∧
  (relay_ended r = true ↔ is_done (to_quic r) = true ∧ is_done (to_local r) = true).
Proof.
  intros r.
  assert (∀ u d, foldl local_relay_step (mkLocalRelay u d) ls =
     mkLocalRelay (foldl copy_direction_step u (quic_events ls)) (foldl copy_direction_step d (local_events ls))) as Hind.
  { clear r. induction ls as [|l ls IH]; intros u d; [done|]. cbn [foldl].
    assert (∀ d evs, is_done d = true → foldl copy_direction_step d evs = d) as Hdone.
    { intros d0 evs Hd0. induction evs as [|ev evs IHe]; [done|]. cbn [foldl]. by rewrite copy_direction_done. }
    unfold local_relay_step at 2, relay_ended. cbn [to_quic to_local].
    destruct (is_done u && is_done d) eqn:E.
    - apply andb_true_iff in E as [Eu Ed]. rewrite IH. by rewrite !Hdone.
    - destruct l; by rewrite IH. }
  assert (Er : r = mkLocalRelay (foldl copy_direction_step Dir_new (quic_events ls)) (foldl copy_direction_step Dir_new (local_events ls)))
    by apply Hind.
  split_and!; [by rewrite Er|by rewrite Er| |unfold relay_ended; by rewrite andb_true_iff].
  assert (∀ d, d = to_quic r ∨ d = to_local r → dir_ok d) as Hok.
  { rewrite Er. intros d [->| ->]; by apply copy_direction_foldl. }
  intros d [Hd Hs]%Hok%dir_written_prefix. done.
Qed.

(** ** What reaches the target *)

(** A connection accepted for a target "host:port" opens a stream for exactly
    that host and port, over which the server dials them and gets every byte the
    client sends from the first on; if no stream can be opened, or the target
    does not parse, the connection ends with that error and nothing else. *)
Theorem forwarded_connection_served {A} (tcp : str → str → result A) (udp : str → result A)
    host p payload try_local try_op :
  target_ok host p → utf8_valid host = true → is_Some (address_of host) → (∀ o, try_op o = Ok tt) →
  forward_tcp_connection (target_text host p) try_local =
    (match try_local (LOpenTcpStream host p) with
     | Ok _ => ([LOpenTcpStream host p], Ok (SRelay []))
     | Err e => ([LOpenTcpStream host p], Err e)
     end) ∧
  handle_stream tcp udp (Client.written (open_tcp_stream host p try_op).1 ++ payload) =
    tcp (canonical_host host ++ B ":" ++ show_dec p) payload ∧
  ∀ bad e, parse_target bad = Err e → forward_tcp_connection bad try_local = ([], Err e).
Proof.
  intros Ht Hv Ha Hop. split_and!.
  - unfold forward_tcp_connection. rewrite parse_target_text, pure_bind, op_bind by done.
    by destruct (try_local (LOpenTcpStream host p)).
  - destruct Ht as (_ & _ & _ & Hp). by apply tcp_stream_served.
  - intros bad e He. unfold forward_tcp_connection. by rewrite He.
Qed.

Lemma read_one_udp_response_frame s :
  read_one_udp_response s = match UdpPool.read_frame s with Ok ((_, _, d), r) => Ok (d, r) | Err e => Err e end.
Proof.
  unfold read_one_udp_response, UdpPool.read_frame, mbind, reader_bind.
  destruct (read_trojanc_addr_async s) as [[hp s1]|]; [|done].
  destruct (read_u16 s1) as [[n s2]|]; [|done]. by destruct (read_exact (Z.to_nat n) s2) as [[d r]|].
Qed.

(** What the server gets on the stream of such a session. *)
Definition session_frames (host : str) (p : Z) (payloads : list str) : list Frame :=
  (λ payload, mkFrame host p payload) <$> payloads.

(** A forward of datagrams end to end.  In every interleaving of the forward's
    receive loop, its sessions and their supervisors, what a session has written
    to its stream makes the server send exactly the datagrams the session took, all
    to the one target and in order; these are some of the datagrams that came
    from that session's source, in their order of arrival.  Of what comes back,
    the session hands its source the payload, without the address. *)
Theorem forwarded_datagrams_delivered (ls : list (Label (Src := SocketAddr) (D := str))) id t host p payload payloads resolve send address disable_443 is_ipv6 try_op :
  (∀ src d, LDatagram src d ∈ ls → Z.of_nat (length d) ≤ MAX_UDP_PAYLOAD) →
  tasks (run ls) !! id = Some t → sent_items (run ls) t = payload :: payloads →
  utf8_valid host = true → is_Some (address_of host) → 0 <= p <= u16_max → disable_443 && (p =? 443) = false →
  (∀ n h q, resolve n h q = Ok (address h q)) → (∀ d, send d = Ok tt) → (∀ o, try_op o = Ok tt) →
  handle_stream (λ _ _, Err EUnexpectedEof)
    (λ recv, Ok (handle_udp_relay resolve send disable_443 (Ok is_ipv6) (length recv) recv))
    (Client.written (udp_session (mkFrame host p payload) (session_frames host p payloads) try_op).1) =
    Ok ((λ d, (d, send_to_addr (address (canonical_host host) p) is_ipv6)) <$> payload :: payloads, Ok tt) ∧
  payload :: payloads `sublist_of` (snd <$> filter (λ a, a.1 = task_src t) (arrivals (run ls))) ∧
  ∀ d frame r, UdpPool.datagram_ok d → response_frame d.2 d.1 = Ok frame → read_one_udp_response (frame ++ r) = Ok (d.1, r).
Proof.
  intros Hls Ht Hp Hv Ha Hport Hd Hres Hsend Hop.
  pose proof (sent_items_sublist ls id t Ht) as Hsub. rewrite Hp in Hsub. split_and!; [|done|].
  - assert (Forall (λ a, Z.of_nat (length a.2) ≤ MAX_UDP_PAYLOAD) (arrivals (run ls))) as Harr
      by (apply (run_arrivals (λ _ d, Z.of_nat (length d) ≤ MAX_UDP_PAYLOAD)); eauto).
    assert (Forall frame_ok (mkFrame host p payload :: session_frames host p payloads)) as Hfr.
    { change (Forall frame_ok ((λ d, mkFrame host p d) <$> payload :: payloads)). apply Forall_fmap, Forall_forall.
      intros d Hin. pose proof (elem_of_sublist _ _ _ Hin Hsub) as Hin2; apply list_elem_of_fmap in Hin2 as (a & -> & [_ Hina]%list_elem_of_filter).
      rewrite Forall_forall in Harr. specialize (Harr a Hina). unfold frame_ok; cbn [fhost fport fpayload]. split_and!; simpl; try done; lia. }
    rewrite (udp_session_served try_op Hop resolve send address disable_443 is_ipv6) by done. do 2 f_equal.
    change (mkFrame host p payload :: session_frames host p payloads) with ((λ d, mkFrame host p d) <$> payload :: payloads).
    by rewrite <-list_fmap_compose.
  - intros d frame r Hok Hf. by rewrite read_one_udp_response_frame, (read_response_frame d frame r Hok Hf).
Qed.

(** ** Witnesses *)
Definition forward_example : Forward :=
  mkForward (V4 [x7f; x00; x00; x01]) 5353 (Some (B "UDP")) (B "::1") 53.

Lemma forwards_listened_witness :
  Forwarder_new [(B "127.0.0.1:5353/UDP", B "[::1]:53")] = Ok [forward_entry forward_example Udp].
Proof.
  apply (forwards_listened [(forward_example, Udp)] (λ _, Ok tt)); [|done].
  apply Forall_singleton. split; [|reflexivity]. unfold forward_ok, target_ok. simpl.
  split_and!; try (by apply contains_false); try done; unfold u16_max; lia.
Defined.

Lemma forwarded_connection_served_witness :
  forward_tcp_connection (B "a.b:443") (λ _, Ok tt) = ([LOpenTcpStream (B "a.b") 443], Ok (SRelay [])).
Proof.
  apply (forwarded_connection_served (λ _ _, Ok tt) (λ _, Ok tt) (B "a.b") 443 [] (λ _, Ok tt) (λ _, Ok tt));
    [|done|by eexists|done].
  unfold target_ok. split_and!; try (by apply contains_false); try done; unfold u16_max; lia.
Defined.

Definition forward_session_example : list (Label (Src := SocketAddr) (D := str)) :=
  let d := LDatagram peer_example in
  [d (B "one"); LRecv; LOpened 0 true; LGuard 0; d (B "two"); d (B "three"); LWriterTake 0 true].

Lemma forwarded_datagrams_delivered_witness :
  ∃ t, tasks (run forward_session_example) !! 0%nat = Some t ∧
       B "one" :: [B "two"] `sublist_of`
         (snd <$> filter (λ a, a.1 = task_src t) (arrivals (run forward_session_example))).
Proof.
  eexists. split; [vm_compute; reflexivity|].
  apply (forwarded_datagrams_delivered forward_session_example 0 _ (B "a.b") 53 (B "one") [B "two"]
           (λ _ h q, Ok (sample_address h q)) (λ _, Ok tt) sample_address false false (λ _, Ok tt)); try done.
  - intros src d Hl. unfold forward_session_example in Hl.
    repeat (apply elem_of_cons in Hl as [Hl|Hl]; [try discriminate Hl; injection Hl as -> ->; vm_compute; discriminate|]).
    by apply elem_of_nil in Hl.
Defined.
