(* ===== verification/Export.v ===== *)
(** * [server/src/main.rs]: the exports of the server's command line

    The addresses and the name for share links, the certificate pins, and the
    [export] command with everything it prints.  The interface list, the
    answers of the user, the PEM and X.509 readers, the trust check and the
    encoders are parameters; the command itself is an effect whose operations are
    its outputs. *)
From S2P Require Import Prelude Std Net Text Crypto Link Client Config.
#[local] Open Scope Z_scope.

(** The [base64] and [hex] encoders. *)
Class Base64Encode := encode_url_safe : str → str.
Class Base64EncodeLaws `{Base64, Base64Encode} : Prop := {
  decode_encode_url_safe s : decode_url_safe (encode_url_safe s) = Some s;
  encode_url_safe_empty s : encode_url_safe s = [] → s = [];
}.
Class HexEncode := hex_encode : str → str.
Class HexEncodeLaws `{HexEncode} : Prop := {
  hex_encode_digits s : forallb hex_digit (hex_encode s) = true ∧ length (hex_encode s) = (2 * length s)%nat;
}.

(** What a panic is in the model: an index out of bounds, [unwrap] of a [None]. *)
Definition EPanic : error := EMsg (B "panic").

(** ** Hosts *)
Record Interface := mkInterface { if_name : str; if_ip : IpAddr; is_loopback : bool }.

Definition url_ip (a : IpAddr) : str :=
  match a with V4 _ => show_ip a | V6 _ => B "[" ++ show_ip a ++ B "]" end.

Definition get_interface_ips (get_if_addrs : result (list Interface)) (interface_name : str) : result (list str) :=
  addrs ← get_if_addrs;
  let named := filter (λ a, if_name a = interface_name) addrs in
  let ips := (λ a, url_ip (if_ip a)) <$> named in
  match named, ips with
  | [], _ => Err (EMsg (B "Interface '" ++ interface_name ++ B "' not found"))
  | _, [] => Err (EMsg (B "Interface '" ++ interface_name ++ B "' has no IP address"))
  | _, _ => Ok ips
  end.

(** The label shown and the host of every address that is not loopback. *)
Definition candidates (addrs : list Interface) : list (str * str) :=
  (λ a, (if_name a ++ B " (" ++ url_ip (if_ip a) ++ B ")", url_ip (if_ip a)))
    <$> filter (λ a, is_loopback a = false) addrs.

(** [select] shows the labels and returns the indices chosen. *)
Definition interactive_select_interfaces (get_if_addrs : result (list Interface))
    (select : list str → result (list nat)) : result (list str) :=
  addrs ← get_if_addrs;
  match candidates addrs with
  | [] => Err (EMsg (B "No network interfaces with IP addresses found"))
  | _ =>
      selections ← select (fst <$> candidates addrs);
      match selections with
      | [] => Err (EMsg (B "No address selected"))
      | _ => mapM (λ i, ok_or (snd <$> candidates addrs !! i) EPanic) selections
      end
  end.

Definition resolve_export_hosts get_if_addrs select (interface : option str) : result (list str) :=
  match interface with
  | Some iface => get_interface_ips get_if_addrs iface
  | None => interactive_select_interfaces get_if_addrs select
  end.

(** ** The name of the server *)
Definition config_sni (c : Config) : option str := if is_empty (sni c) then None else Some (sni c).

(** [input] asks for a name, given the pattern; [choose] for one of a list. *)
Definition interactive_input_domain (input : str → result str) (wildcard_pattern : str) : result str :=
  domain ← input wildcard_pattern;
  if is_empty domain then Err (EMsg (B "Domain cannot be empty")) else Ok domain.

Definition interactive_select_domain (choose : list str → result nat) (domains : list str) : result str :=
  selection ← choose domains; ok_or (domains !! selection) EPanic.

Definition resolve_export_sni (parse_cert : str → result CertDomains) (input : str → result str)
    (choose : list str → result nat) (c : Config) (domain : option str) : result (option str) :=
  match domain with
  | Some d => Ok (Some d)
  | None =>
      if is_empty (certificate c) then Ok (config_sni c)
      else
        match parse_cert (certificate c) with
        | Ok domains =>
            match pick_preferred_domain domains None with
            | Some preferred => Ok (Some preferred)
            | None =>
                if is_wildcard domains && (length (sans domains) <=? 1)%nat then
                  pattern ← ok_or (match head (sans domains) with Some s => Some s | None => cn domains end) EPanic;
                  Some <$> interactive_input_domain input pattern
                else if negb (bool_decide (sans domains = [])) then
                  Some <$> interactive_select_domain choose (sans domains)
                else Ok (cn domains)
            end
        | Err _ => Ok (config_sni c)
        end
  end.

(** ** Pins *)
Inductive PemItem := X509Certificate (der : str) | OtherItem.

Definition compute_cert_sha256 `{Sha256, HexEncode} (read : str → result str) (read_one : str → result (option PemItem))
    (cert_path : str) : result str :=
  pem_data ← read cert_path;
  item ← read_one pem_data;
  item ← ok_or item (EMsg (B "No PEM data found in " ++ cert_path));
  match item with
  | X509Certificate cert_der => Ok (hex_encode (sha256_digest cert_der))
  | OtherItem => Err (EMsg (B "Expected X509 certificate in " ++ cert_path))
  end.

Definition compute_cert_chain_hash `{Sha256, Base64Encode} (read : str → result str) (certs : str → result (list str))
    (cert_path : str) : result str :=
  data ← read cert_path;
  raw_certs ← certs data;
  match raw_certs with
  | [] => Err (EMsg (B "No certificates found in " ++ cert_path))
  | _ => Ok (encode_url_safe (generate_cert_chain_hash raw_certs))
  end.

(** ** The command *)
Record ExportFlags := mkExportFlags {
  link : bool;
  qrcode : bool;
  qrcode_png : option str;
  json_server : bool;
  json_client : bool;
  socks_port : Z;
  interface : option str;
  domain : option str;
  with_cert_sha256 : bool;
  with_certchain_sha256 : bool;
}.

Definition do_link (f : ExportFlags) : bool :=
  link f || (negb (link f) && negb (qrcode f) && negb (bool_decide (is_Some (qrcode_png f)))
             && negb (json_server f) && negb (json_client f)).

Inductive ExportOp :=
  | EPrintln (s : str)
  | EPrintQrcode (link : str)
  | ESaveQrcodePng (link path : str).

(** [replace(['[', ']', ':'], "_")] and [rsplit_once('.')]. *)
Definition safe_host (host : str) : str :=
  (λ c, if bool_decide (c = x5b) || bool_decide (c = x5d) || bool_decide (c = x3a) then x5f else c) <$> host.

Definition rsplit_once (c : byte) (s : str) : option (str * str) :=
  match rfind c s with Some i => Some (take i s, drop (i + 1) s) | None => None end.

Definition png_path (hosts : list str) (base_path host : str) : str :=
  if (1 <? length hosts)%nat then
    match rsplit_once x2e base_path with
    | Some (stem, ext) => stem ++ B "-" ++ safe_host host ++ B "." ++ ext
    | None => base_path ++ B "-" ++ safe_host host
    end
  else base_path.

Section export.
Context `{HashOrder, JsonText, FormSerializer, Sha256, HexEncode, Base64Encode}.
Context (read : str → result str) (read_one : str → result (option PemItem)) (certs : str → result (list str)).
Context (parse_cert : str → result CertDomains) (is_cert_trusted : str → result bool).
Context (get_if_addrs : result (list Interface)).
Context (confirm : result bool) (select : list str → result (list nat)) (input : str → result str)
  (choose : list str → result nat).

(** A failed computation is a warning. *)
Definition requested_pin (f : ExportFlags) (c : Config) : option str :=
  if with_cert_sha256 f && negb (is_empty (certificate c)) then ok (compute_cert_sha256 read read_one (certificate c))
  else if with_certchain_sha256 f && negb (is_empty (certificate c)) then ok (compute_cert_chain_hash read certs (certificate c))
  else None.

Definition auto_pinned (f : ExportFlags) (c : Config) : result (option str) :=
  if negb (with_cert_sha256 f) && negb (with_certchain_sha256 f) && do_link f && negb (is_empty (certificate c)) then
    match is_cert_trusted (certificate c) with
    | Ok true => Ok None
    | Ok false =>
        pin ← confirm;
        Ok (if pin : bool then ok (compute_cert_chain_hash read certs (certificate c)) else None)
    | Err _ => Ok None
    end
  else Ok None.

Definition export_host (f : ExportFlags) (c : Config) (hosts : list str) (sni_override pin : option str) (host : str)
    : effect ExportOp unit :=
  share_link ← pure (generate_share_link c (Some host) sni_override pin);
  _ ← (if do_link f then op (EPrintln share_link) else mret tt);
  _ ← (if qrcode f then op (EPrintQrcode share_link) else mret tt);
  match qrcode_png f with
  | Some base_path => op (ESaveQrcodePng share_link (png_path hosts base_path host))
  | None => mret tt
  end.

Fixpoint export_hosts (f : ExportFlags) (c : Config) (hosts : list str) (sni_override pin : option str) (rest : list str)
    : effect ExportOp unit :=
  match rest with
  | [] => mret tt
  | host :: rest => _ ← export_host f c hosts sni_override pin host; export_hosts f c hosts sni_override pin rest
  end.

Definition export (f : ExportFlags) (c : Config) : effect ExportOp unit :=
  auto ← pure (auto_pinned f c);
  let cert_sha256_override := match requested_pin f c with Some pin => Some pin | None => auto end in
  _ ← (if do_link f || qrcode f || bool_decide (is_Some (qrcode_png f)) then
         hosts ← pure (resolve_export_hosts get_if_addrs select (interface f));
         sni_override ← pure (resolve_export_sni parse_cert input choose c (domain f));
         export_hosts f c hosts sni_override cert_sha256_override hosts
       else mret tt);
  _ ← (if json_server f then json ← pure (to_server_json c); op (EPrintln json) else mret tt);
  if json_client f then json ← pure (to_client_json_from_server c (socks_port f)); op (EPrintln json) else mret tt.
End export.

(** ** Files of several addresses *)

Lemma safe_host_id s : x5b ∉ s → x5d ∉ s → x3a ∉ s → safe_host s = s.
Proof.
  intros H1 H2 H3. unfold safe_host. etrans; [|apply list_fmap_id]. apply list_fmap_ext. intros i c Hc%list_elem_of_lookup_2.
  rewrite (bool_decide_false (c = x5b)), (bool_decide_false (c = x5d)), (bool_decide_false (c = x3a)) by (by intros ->). done.
Qed.

(** Underscores back to colons. *)
Definition unsafe_host (s : str) : str := (λ c, if bool_decide (c = x5f) then x3a else c) <$> s.

Lemma unsafe_safe_host s : x5b ∉ s → x5d ∉ s → x5f ∉ s → unsafe_host (safe_host s) = s.
Proof.
  intros H1 H2 H3. unfold unsafe_host, safe_host. rewrite <-list_fmap_compose.
  etrans; [|apply list_fmap_id]. apply list_fmap_ext. intros i c Hc%list_elem_of_lookup_2. cbn [compose].
  rewrite (bool_decide_false (c = x5b)), (bool_decide_false (c = x5d)) by (by intros ->). cbn [orb].
  destruct (decide (c = x3a)) as [->|H]; [done|].
  rewrite (bool_decide_false (c = x3a)), (bool_decide_false (c = x5f)) by (by try intros ->). done.
Qed.

Lemma safe_url_ip a : ip_wf a →
  safe_host (url_ip a) = match a with V4 _ => show_ip a | V6 _ => B "_" ++ safe_host (show_ip a) ++ B "_" end.
Proof.
  intros Ha. destruct a as [o|o].
  - apply safe_host_id; [by apply show_ip_not_elem..|]. apply show_ipv4_no_colon.
  - unfold url_ip, safe_host. by rewrite !fmap_app.
Qed.

Lemma safe_url_ip_inj a b : ip_wf a → ip_wf b → safe_host (url_ip a) = safe_host (url_ip b) → a = b.
Proof.
  intros Ha Hb. rewrite !safe_url_ip by done.
  assert (∀ i, ip_wf i → x5f ∉ show_ip i ∧ x5b ∉ show_ip i ∧ x5d ∉ show_ip i) as Hn
    by (intros i Hi; split_and!; by apply show_ip_not_elem).
  assert (∀ o o', ip_wf (V4 o) → show_ip (V4 o) = B "_" ++ safe_host (show_ip (V6 o')) ++ B "_" → False) as Hno.
  { intros o o' Ho E. destruct (Hn _ Ho) as [Hu _]. apply Hu. rewrite E. by left. }
  destruct a as [o|o], b as [o'|o'].
  - by apply show_ip_inj.
  - intros E. by apply Hno in E.
  - intros E. symmetry in E. by apply Hno in E.
  - intros [E _]%app_inv_head%app_inj_2; [|done]. apply show_ip_inj; [done..|].
    destruct (Hn _ Ha) as (? & ? & ?), (Hn _ Hb) as (? & ? & ?).
    by rewrite <-(unsafe_safe_host (show_ip (V6 o))), E, unsafe_safe_host.
Qed.

(** The share links of several addresses are written to different files: for
    distinct addresses the paths made from one path are distinct, with and
    without an extension. *)
Theorem png_paths_distinct addresses base_path :
  NoDup addresses → Forall ip_wf addresses →
  let hosts := url_ip <$> addresses in
  NoDup (png_path hosts base_path <$> hosts).
Proof.
  intros Hd Hw hosts. unfold hosts. rewrite <-list_fmap_compose.
  destruct (Nat.ltb_spec 1 (length (url_ip <$> addresses))) as [Hl|Hl].
  - assert (∀ a b, ip_wf a → ip_wf b →
      png_path (url_ip <$> addresses) base_path (url_ip a) = png_path (url_ip <$> addresses) base_path (url_ip b) → a = b) as Hinj.
    { intros a b Ha Hb. unfold png_path. rewrite (proj2 (Nat.ltb_lt _ _)) by done.
      destruct (rsplit_once x2e base_path) as [[stem ext]|]; intros E%app_inv_head%app_inv_head; apply safe_url_ip_inj; try done.
      by apply app_inv_tail in E. }
    clear Hl. generalize (url_ip <$> addresses) as hs, Hinj. intros hs Hinj'. clear Hinj. induction Hd as [|a l Ha Hd IH]; [constructor|].
    apply Forall_cons in Hw as [Hwa Hw]. rewrite fmap_cons. constructor; [|by apply IH].
    intros (b & E & Hb)%list_elem_of_fmap. apply Ha. rewrite (Hinj' a b); [done|done| |done].
    by apply (proj1 (Forall_forall _ _) Hw).
  - rewrite length_fmap in Hl. destruct addresses as [|a [|]]; simpl in Hl; [constructor| |lia].
    apply NoDup_singleton.
Qed.

(** The address goes in front of the last dot of the whole path, also when
    that dot is in the name of a directory: for a file without an extension in
    such a directory, as in [./qr], the address becomes part of the directory's
    name, so with several addresses the files go to directories that nobody made. *)
Theorem png_path_in_other_directory h1 h2 hosts dir ext file host :
  x2e ∉ ext → x2e ∉ file →
  png_path (h1 :: h2 :: hosts) (dir ++ B "." ++ ext ++ B "/" ++ file) host =
  dir ++ B "-" ++ safe_host host ++ B "." ++ ext ++ B "/" ++ file.
Proof.
  intros He Hf. unfold png_path, rsplit_once. cbn [length]. rewrite (proj2 (Nat.ltb_lt _ _)) by lia.
  change (B "." ++ ext ++ B "/" ++ file) with (x2e :: (ext ++ B "/" ++ file)).
  rewrite rfind_app; [by rewrite take_app_length, drop_past|].
  rewrite !not_elem_of_app. split_and!; [done|by apply contains_false|done].
Qed.

(** ** Hosts of a link *)

Lemma mapM_ok {A C} (f : A → result C) l k : mapM f l = Ok k → Forall2 (λ a c, f a = Ok c) l k.
Proof.
  revert k. induction l as [|a l IH]; intros k; simpl; [by intros [= <-]|].
  destruct (f a) as [c|] eqn:E; [|done]. result_cbn. destruct (mapM f l) as [k'|]; [|done]. result_cbn.
  intros [= <-]. constructor; [done|]. by apply IH.
Qed.

Lemma url_ip_port a p : ip_wf a → 0 <= p <= u16_max → parse_host_port (url_ip a ++ B ":" ++ show_dec p) = Ok (show_ip a, p).
Proof.
  intros Ha Hp. destruct a as [o|o].
  - apply parse_host_port_plain; [|by apply show_ipv4_not_nil|done].
    unfold url_ip. pose proof (show_ip_not_elem x5b (V4 o) eq_refl ltac:(done) ltac:(done) Ha) as Hb.
    destruct (show_ip (V4 o)) as [|c s]; [done|]. apply not_elem_of_cons in Hb as [Hb _].
    unfold starts_with; simpl. by rewrite decide_False by congruence.
  - unfold url_ip. rewrite <-!app_assoc. change (B "]" ++ B ":" ++ show_dec p) with (B "]:" ++ show_dec p).
    apply parse_host_port_bracketed; [|done]. by apply show_ip_not_elem.
Qed.

(** The hosts of an export are addresses of the machine: of the interface
    asked for, all of them, or, when the user chooses, the ones at the chosen
    places of the list of those that are not loopback; there is at least one; and
    each, put before a port, is read back as that address and that port. *)
Theorem export_hosts_addresses addrs select interface hosts p :
  Forall (λ a, ip_wf (if_ip a)) addrs → 0 <= p <= u16_max →
  resolve_export_hosts (Ok addrs) select interface = Ok hosts →
  ∃ chosen, hosts = (λ a, url_ip (if_ip a)) <$> chosen ∧ chosen ≠ [] ∧ chosen ⊆ addrs ∧
    (∀ name, interface = Some name → chosen = filter (λ a, if_name a = name) addrs) ∧
    (interface = None → Forall (λ a, is_loopback a = false) chosen) ∧
    Forall (λ a, parse_host_port (url_ip (if_ip a) ++ B ":" ++ show_dec p) = Ok (show_ip (if_ip a), p)) chosen.
Proof.
  intros Hw Hp Hr.
  assert (Hback : ∀ chosen, chosen ⊆ addrs →
    Forall (λ a, parse_host_port (url_ip (if_ip a) ++ B ":" ++ show_dec p) = Ok (show_ip (if_ip a), p)) chosen).
  { intros chosen Hc. apply Forall_forall. intros a Ha%Hc. apply url_ip_port; [|done].
    by apply (proj1 (Forall_forall _ _) Hw). }
  destruct interface as [name|]; simpl in Hr.
  - unfold get_interface_ips in Hr. result_cbn. exists (filter (λ a, if_name a = name) addrs).
    assert (filter (λ a, if_name a = name) addrs ⊆ addrs) as Hsub by (intros a [_ Ha]%list_elem_of_filter; done).
    destruct (filter (λ a, if_name a = name) addrs) as [|a l] eqn:Ef; [done|]. simpl in Hr. injection Hr as <-.
    split_and!; try done; [intros ? [= <-]; by rewrite Ef|by apply Hback].
  - unfold interactive_select_interfaces in Hr. result_cbn.
    set (shown := filter (λ a, is_loopback a = false) addrs).
    assert (shown ⊆ addrs) as Hsub by (intros a [_ Ha]%list_elem_of_filter; done).
    assert (Forall (λ a, is_loopback a = false) shown) as Hlo by (apply Forall_forall; intros a [Ha _]%list_elem_of_filter; done).
    destruct (candidates addrs) as [|c cs] eqn:Ec; [done|]. rewrite <-Ec in Hr. destruct (select _) as [sel|]; [|done]. result_cbn. destruct sel as [|i sel]; [done|].
    apply mapM_ok in Hr.
    assert (∃ chosen, hosts = (λ a, url_ip (if_ip a)) <$> chosen ∧ Forall (λ a, a ∈ shown) chosen ∧ length chosen = length (i :: sel))
      as (chosen & -> & Hin & Hlen).
    { revert Hr. generalize (i :: sel) as idx. intros idx. revert hosts. induction idx as [|j idx IH]; intros hosts Hr.
      - apply Forall2_nil_inv_l in Hr as ->. by exists [].
      - apply Forall2_cons_inv_l in Hr as (h & hosts' & Hj & Hr & ->). destruct (IH hosts' Hr) as (chosen & -> & Hin & Hl).
        unfold candidates in Hj. rewrite list_lookup_fmap in Hj. fold shown in Hj. destruct (shown !! j) as [a|] eqn:Ej; [|done]. injection Hj as <-.
        exists (a :: chosen). split_and!; [done|constructor; [by eapply list_elem_of_lookup_2|done]|simpl; by rewrite Hl]. }
    exists chosen. rewrite Forall_forall in Hin, Hlo. assert (chosen ⊆ addrs) as Hca by (intros a Ha; auto).
    split_and!; [done|by destruct chosen|done|done| |by apply Hback]. intros _. apply Forall_forall. auto.
Qed.

(** ** The name in a link *)

Definition all_names (d : CertDomains) : list str := match cn d with Some c => c :: sans d | None => sans d end.

Lemma preferred_spec d :
  match pick_preferred_domain d None with
  | Some s => is_wildcard_name s = false ∧ s ∈ all_names d
  | None => Forall (λ s, is_wildcard_name s = true) (all_names d)
  end.
Proof.
  unfold pick_preferred_domain, all_names.
  destruct (list_find (λ s, is_wildcard_name s = false) (sans d)) as [[i x]|] eqn:E.
  - apply list_find_Some in E as (Hx & HP & _). apply list_elem_of_lookup_2 in Hx.
    destruct (cn d) as [c|]; [destruct (is_wildcard_name c) eqn:Ec|]; simpl; split; rewrite ?elem_of_cons; auto.
  - apply list_find_None in E. assert (Forall (λ s, is_wildcard_name s = true) (sans d)) as Hs
      by (eapply Forall_impl; [exact E|]; intros s Hs; simpl in Hs; by destruct (is_wildcard_name s)).
    destruct (cn d) as [c|]; [destruct (is_wildcard_name c) eqn:Ec|]; simpl; [by constructor|split; [done|by left]|done].
Qed.

(** The name in a share link, for a certificate that is read.  If any of
    its names is not a wildcard, such a name is taken and the user is never asked,
    however many names there are; one wildcard name is shown and the user's answer
    taken; of several wildcard names one is chosen and taken as it is, so the
    link's server name is then a wildcard; without names there is none.  No
    certificate makes the command panic as long as the choice is from the list. *)
Theorem export_sni_of_certificate read certs from_der input choose c d :
  certificate c ≠ [] → (∀ l i, choose l = Ok i → (i < length l)%nat) →
  parse_cert_domains read certs from_der (certificate c) = Ok d →
  let sni := resolve_export_sni (parse_cert_domains read certs from_der) input choose c None in
  (Exists (λ s, is_wildcard_name s = false) (all_names d) →
     ∃ s, sni = Ok (Some s) ∧ is_wildcard_name s = false ∧ s ∈ all_names d ∧
          ∀ input' choose', resolve_export_sni (parse_cert_domains read certs from_der) input' choose' c None = sni) ∧
  (Forall (λ s, is_wildcard_name s = true) (all_names d) →
     match all_names d, sans d with
     | [], _ => sni = Ok None
     | _, _ :: _ :: _ => ∀ i s, choose (sans d) = Ok i → sans d !! i = Some s → sni = Ok (Some s) ∧ is_wildcard_name s = true
     | _, _ => ∀ s, input (default [] (match sans d with s :: _ => Some s | [] => cn d end)) = Ok s → s ≠ [] → sni = Ok (Some s)
     end) ∧
  ((∀ s, input s ≠ Err EPanic) → (∀ l, choose l ≠ Err EPanic) → sni ≠ Err EPanic).
Proof.
  intros Hc Hch Hd sni. pose proof (preferred_spec d) as Hp.
  assert (Hw : is_wildcard d = existsb is_wildcard_name (all_names d)).
  { unfold parse_cert_domains in Hd.
    repeat match type of Hd with (?m ≫= _) = Ok _ => destruct m; [|done]; cbn [mbind result_bind] in Hd end.
    injection Hd as <-.
    unfold all_names; simpl. by destruct (extract_cn _). }
  assert (Hsni : ∀ input choose, resolve_export_sni (parse_cert_domains read certs from_der) input choose c None =
    match pick_preferred_domain d None with
    | Some preferred => Ok (Some preferred)
    | None =>
        if is_wildcard d && (length (sans d) <=? 1)%nat then
          pattern ← ok_or (match head (sans d) with Some s => Some s | None => cn d end) EPanic;
          Some <$> interactive_input_domain input pattern
        else if negb (bool_decide (sans d = [])) then Some <$> interactive_select_domain choose (sans d)
        else Ok (cn d)
    end).
  { intros. unfold resolve_export_sni. rewrite Hd. by destruct (certificate c). }
  unfold sni. rewrite Hsni. split_and!.
  - intros (s & Hs & Hns)%Exists_exists. destruct (pick_preferred_domain d None) as [s'|] eqn:Ep.
    + exists s'. destruct Hp. split_and!; try done; intros; by rewrite Hsni.
    + rewrite Forall_forall in Hp. by rewrite (Hp s Hs) in Hns.
  - intros Hall. destruct (pick_preferred_domain d None) as [s'|] eqn:Ep.
    { destruct Hp as [Hf Hin]. rewrite Forall_forall in Hall. by rewrite (Hall s' Hin) in Hf. }
    rewrite Hw. unfold all_names in *. destruct (cn d) as [n|], (sans d) as [|s1 [|s2 l]]; simpl in Hall |- *.
    + inv Hall. rewrite H1. intros s Hi Hn. unfold interactive_input_domain. rewrite Hi. by destruct s.
    + inv Hall. rewrite H1. intros s Hi Hn. unfold interactive_input_domain. result_cbn. rewrite Hi. by destruct s.
    + rewrite andb_false_r. intros i s Hi Hs. unfold interactive_select_domain. rewrite Hi. result_cbn. rewrite Hs. simpl.
      split; [done|]. inv Hall. rewrite Forall_forall in H2. apply H2. by eapply list_elem_of_lookup_2.
    + done.
    + inv Hall. rewrite H1. intros s Hi Hn. unfold interactive_input_domain. result_cbn. rewrite Hi. by destruct s.
    + rewrite andb_false_r. intros i s Hi Hs. unfold interactive_select_domain. rewrite Hi. result_cbn. rewrite Hs. simpl.
      split; [done|]. rewrite Forall_forall in Hall. apply Hall. by eapply list_elem_of_lookup_2.
  - intros Hi Hcc. destruct (pick_preferred_domain d None) as [s'|] eqn:Ep; [done|].
    assert (Hin : ∀ s, Some <$> interactive_input_domain input s ≠ Err EPanic).
    { intros s. unfold interactive_input_domain. specialize (Hi s). destruct (input s) as [x|e]; [by destruct x|]. simpl. congruence. }
    assert (Hsel : Some <$> interactive_select_domain choose (sans d) ≠ Err EPanic).
    { unfold interactive_select_domain. specialize (Hcc (sans d)). specialize (Hch (sans d)).
      destruct (choose (sans d)) as [i|e]; [|simpl; congruence]. result_cbn.
      destruct (lookup_lt_is_Some_2 (sans d) i (Hch i eq_refl)) as [s ->]. done. }
    rewrite Hw. unfold all_names in *. destruct (cn d) as [n|], (sans d) as [|s1 [|s2 l]]; simpl in Hp |- *;
      rewrite ?andb_false_r, ?orb_false_r; repeat case_match; try done; apply Hin.
Qed.

(** ** Pins and clients *)
Section pins.
Context `{UuidParse, Base64, HexDecode, Sha256, Base64Encode, HexEncode} (web_pki : list str → result unit).

(** C31: a client configured with the chain pin of an export accepts the
    chain of the certificate file it was computed from, whatever the public roots
    say of it, and of all other chains only those with the same chain hash. *)
Theorem chain_pin_accepts_server `{!Base64EncodeLaws, !Sha256Laws} read certs path data leaf issuers pin
    linux c try_op client end_entity intermediates :
  read path = Ok data → certs data = Ok (leaf :: issuers) →
  compute_cert_chain_hash read certs path = Ok pin →
  pinned_certchain_sha256 c = pin → allow_insecure c = false → (JuicityClient_new linux c try_op).2 = Ok client →
  verify_server_cert web_pki (verifier (tls (quic_config client))) leaf issuers = Ok tt ∧
  (verify_server_cert web_pki (verifier (tls (quic_config client))) end_entity intermediates = Ok tt ↔
   generate_cert_chain_hash (end_entity :: intermediates) = generate_cert_chain_hash (leaf :: issuers)).
Proof.
  intros Hr Hc Hp Hpin Hi (_ & _ & _ & h & Hh & ->)%JuicityClient_new_ok.
  unfold compute_cert_chain_hash in Hp. rewrite Hr in Hp. cbn [mbind result_bind] in Hp. rewrite Hc in Hp.
  cbn [mbind result_bind] in Hp. injection Hp as <-. rewrite Hpin in Hh. unfold decode_pin in Hh.
  pose proof (chain_hash_length leaf issuers) as Hlen. set (hash := generate_cert_chain_hash (leaf :: issuers)) in *.
  destruct (is_empty (encode_url_safe hash)) eqn:E.
  { apply is_empty_true, encode_url_safe_empty in E. by rewrite E in Hlen. }
  rewrite decode_encode_url_safe in Hh. injection Hh as <-. rewrite Hi.
  destruct (is_empty hash) eqn:E2; [apply is_empty_true in E2; by rewrite E2 in Hlen|]. cbn [negb].
  unfold verify_server_cert. fold hash. rewrite decide_True by done. split; [done|]. by case_decide.
Qed.

(** C32: a client configured with the certificate hash of an export, which is in
    hexadecimal, accepts no chain at all, not even the one of the certificate file it was
    computed from. *)
Theorem leaf_pin_refuses_server `{!HexEncodeLaws, !Base64Laws, !Sha256Laws} read read_one path pin
    linux c try_op client end_entity intermediates :
  compute_cert_sha256 read read_one path = Ok pin →
  pinned_certchain_sha256 c = pin → allow_insecure c = false → (JuicityClient_new linux c try_op).2 = Ok client →
  verify_server_cert web_pki (verifier (tls (quic_config client))) end_entity intermediates =
  Err (EMsg (B "pinned cert chain hash mismatch")).
Proof.
  intros Hp Hpin Hi Hn.
  assert (∃ der, pin = hex_encode (sha256_digest der)) as [der Eder].
  { unfold compute_cert_sha256 in Hp.
    repeat match type of Hp with (?m ≫= _) = Ok _ => destruct m; [|done]; cbn [mbind result_bind] in Hp end.
    match type of Hp with match ?i with _ => _ end = _ => destruct i as [der|]; [|done] end. injection Hp as <-. by exists der. }
  destruct (hex_encode_digits (sha256_digest der)) as [Hd Hl]. rewrite (sha256_length der) in Hl. rewrite <-Eder, <-Hpin in Hd. rewrite <-Eder, <-Hpin in Hl.
  by apply (hex_pin_refused web_pki linux c try_op client).
Qed.
End pins.

(** ** The command *)
Section outputs.
Context `{HashOrder, JsonText, FormSerializer, Sha256, HexEncode, Base64Encode}.

(** What is printed and saved for one host. *)
Definition host_outputs (f : ExportFlags) (hosts : list str) (share_link host : str) : list ExportOp :=
  (if do_link f then [EPrintln share_link] else []) ++ (if qrcode f then [EPrintQrcode share_link] else [])
  ++ match qrcode_png f with Some base_path => [ESaveQrcodePng share_link (png_path hosts base_path host)] | None => [] end.

Lemma export_host_ops f c hosts sni pin host share_link try_op :
  (∀ o, try_op o = Ok tt) → generate_share_link c (Some host) sni pin = Ok share_link →
  export_host f c hosts sni pin host try_op = (host_outputs f hosts share_link host, Ok tt).
Proof.
  intros Hop Hl. unfold export_host, host_outputs. rewrite Hl, pure_bind.
  unfold mbind, effect_bind, mret, effect_ret, op.
  destruct (do_link f), (qrcode f), (qrcode_png f); cbn; rewrite ?Hop; cbn; rewrite ?Hop; cbn; rewrite ?Hop; done.
Qed.

Lemma export_hosts_ops f c hosts sni pin rest (l : str → str) try_op :
  (∀ o, try_op o = Ok tt) → Forall (λ h, generate_share_link c (Some h) sni pin = Ok (l h)) rest →
  export_hosts f c hosts sni pin rest try_op = (rest ≫= (λ h, host_outputs f hosts (l h) h), Ok tt).
Proof.
  intros Hop. induction 1 as [|h rest Hh _ IH]; [done|]. cbn [export_hosts].
  pose proof (export_host_ops f c hosts sni pin h (l h) try_op Hop Hh) as E.
  unfold mbind at 1, effect_bind. rewrite E. cbn. rewrite IH. done.
Qed.

(** What an export prints.  Without an output flag it is a share link; for every
    host in order come its link, its QR code and its file, as asked for, all with
    the same name and pin; then the server's and the client's JSON.  The pin is the
    hash of the certificate or, failing that flag, of its chain, when the flag is set and
    it can be computed; without the flags it is the chain's if the certificate is
    not trusted and the user agrees. *)
Theorem export_prints read read_one certs parse_cert trusted get_if_addrs confirm select input choose
    f c auto hosts sni_override js jc (l : str → str) try_op :
  (∀ o, try_op o = Ok tt) →
  auto_pinned read certs trusted confirm f c = Ok auto →
  resolve_export_hosts get_if_addrs select (interface f) = Ok hosts →
  resolve_export_sni parse_cert input choose c (domain f) = Ok sni_override →
  to_server_json c = Ok js → to_client_json_from_server c (socks_port f) = Ok jc →
  let pin := match requested_pin read read_one certs f c with Some pin => Some pin | None => auto end in
  Forall (λ h, generate_share_link c (Some h) sni_override pin = Ok (l h)) hosts →
  export read read_one certs parse_cert trusted get_if_addrs confirm select input choose f c try_op =
    ((if do_link f || qrcode f || bool_decide (is_Some (qrcode_png f)) then hosts ≫= (λ h, host_outputs f hosts (l h) h) else [])
     ++ (if json_server f then [EPrintln js] else []) ++ (if json_client f then [EPrintln jc] else []), Ok tt) ∧
  (link f = false → qrcode f = false → qrcode_png f = None → json_server f = false → json_client f = false → do_link f = true) ∧
  (certificate c ≠ [] →
     (∀ h, with_cert_sha256 f = true → compute_cert_sha256 read read_one (certificate c) = Ok h → pin = Some h) ∧
     (∀ h, with_cert_sha256 f = false → compute_cert_chain_hash read certs (certificate c) = Ok h →
        (with_certchain_sha256 f = true → pin = Some h) ∧
        (with_certchain_sha256 f = false → do_link f = true → trusted (certificate c) = Ok false →
           confirm = Ok true → pin = Some h) ∧
        (with_certchain_sha256 f = false → trusted (certificate c) = Ok true → pin = None))).
Proof.
  intros Hop Hauto Hhosts Hsni Hjs Hjc pin Hl. split_and!.
  - unfold export. rewrite Hauto, pure_bind. fold pin.
    pose proof (export_hosts_ops f c hosts sni_override pin hosts l try_op Hop Hl) as Eh.
    rewrite Hhosts, Hsni, Hjs, Hjc. unfold mbind, effect_bind, pure, mret, effect_ret, op.
    destruct (do_link f || qrcode f || bool_decide (is_Some (qrcode_png f))); rewrite ?Eh; cbn;
      destruct (json_server f), (json_client f); rewrite ?Hop; cbn; rewrite ?app_nil_r; done.
  - intros E1 E2 E3 E4 E5. unfold do_link. by rewrite E1, E2, E3, E4, E5.
  - intros Hc. assert (is_empty (certificate c) = false) as Ec by by destruct (certificate c).
    unfold auto_pinned in Hauto. unfold pin, requested_pin. rewrite Ec in *. cbn [negb] in *.
    split.
    + intros h E Hh. rewrite E. cbn [andb]. by rewrite Hh.
    + intros h E Hh. rewrite E in *. cbn [andb negb] in *. split_and!.
      * intros E2. rewrite E2. cbn [andb]. by rewrite Hh.
      * intros E2 Ed Et Ey. rewrite E2, Ed, Et, Ey in *. cbn in Hauto |- *. rewrite Hh in Hauto. by injection Hauto as <-.
      * intros E2 Et. rewrite E2, Et in *. cbn in Hauto |- *. destruct (do_link f); by injection Hauto as <-.
Qed.
End outputs.

(** ** Witnesses *)
Module Toy.
Definition encode_nibbles (c : byte) : str := [digit_char (u8 c / 16); digit_char (u8 c mod 16)].
#[export] Instance hex_encode : HexEncode := λ s, concat (encode_nibbles <$> s).
#[export] Instance hex_encode_laws : HexEncodeLaws.
Proof.
  constructor. intros s. unfold Export.hex_encode, hex_encode. induction s as [|c s [IH1 IH2]]; [done|].
  rewrite fmap_cons. cbn [concat]. rewrite List.forallb_app, IH1, length_app, IH2. split; [|simpl; lia].
  rewrite andb_true_r. apply (byte_forall (λ c, forallb hex_digit (encode_nibbles c))). by vm_compute.
Qed.
#[export] Instance base64 : Base64 := {| decode_url_safe := Some; decode_standard _ := None |}.
#[export] Instance base64_encode : Base64Encode := λ s, s.
#[export] Instance base64_encode_laws : Base64EncodeLaws.
Proof. by constructor. Qed.

#[export] Instance json : JsonText := {| to_string_pretty _ := Ok (B "{}"); from_str _ := Err EUtf8 |}.

Definition certificate_domains (names : list str) : CertDomains := mkCertDomains None names (existsb is_wildcard_name names).
Definition server_config : Config :=
  mkConfig [] [] [] (B "a.b") false [] [] ∅ None ∅ (B "cert.pem") (B "key.pem") [] [] false (B "[::]:443")
    (B "bbr") (B "info") None None None None.
Definition x509 (names : list str) : X509 := mkX509 [] [SubjectAlternativeName (DNSName <$> names)].
Definition wildcards : list str := [B "*.a.b"; B "*.c.d"].
Definition addresses : list IpAddr := [V4 [x0a; x00; x00; x01]; V4 [x0a; x00; x00; x02]].
Definition interfaces : list Interface := (λ a, mkInterface (B "eth0") a false) <$> addresses.
End Toy.

Lemma png_paths_distinct_witness : NoDup (png_path (url_ip <$> Toy.addresses) (B "qr.png") <$> (url_ip <$> Toy.addresses)).
Proof.
  apply (png_paths_distinct Toy.addresses); [apply (bool_decide_unpack _); vm_compute; exact I|by repeat constructor].
Defined.

Lemma png_path_in_other_directory_witness :
  png_path [B "10.0.0.1"; B "10.0.0.2"] (B "./qr") (B "10.0.0.2") = B "-10.0.0.2./qr".
Proof. apply (png_path_in_other_directory (B "10.0.0.1") (B "10.0.0.2") [] [] [] (B "qr") (B "10.0.0.2")); by apply contains_false. Defined.

Lemma export_hosts_addresses_witness :
  ∃ chosen, [B "10.0.0.1"; B "10.0.0.2"] = (λ a, url_ip (if_ip a)) <$> chosen ∧ chosen ≠ [].
Proof.
  destruct (export_hosts_addresses Toy.interfaces (λ _, Ok []) (Some (B "eth0")) [B "10.0.0.1"; B "10.0.0.2"] 443)
    as (chosen & H1 & H2 & _); [by repeat constructor|unfold u16_max; lia|by vm_compute|by exists chosen].
Defined.

Definition choose_last (l : list str) : result nat := match l with [] => Err EUtf8 | _ => Ok (length l - 1)%nat end.

(** Two wildcard names: the second is chosen and becomes the server name. *)
Lemma export_sni_of_certificate_witness :
  resolve_export_sni (parse_cert_domains Ok (λ d, Ok [d]) (λ _, Ok (Toy.x509 Toy.wildcards))) Ok choose_last Toy.server_config None
  = Ok (Some (B "*.c.d")).
Proof.
  edestruct (export_sni_of_certificate Ok (λ d, Ok [d]) (λ _, Ok (Toy.x509 Toy.wildcards)) Ok choose_last
    Toy.server_config (Toy.certificate_domains Toy.wildcards)) as (_ & H & _); [done| |by vm_compute|].
  - intros [|s l] i; [done|]. intros [= <-]. simpl. lia.
  - specialize (H ltac:(apply Forall_cons; split; [by vm_compute|apply Forall_singleton; by vm_compute])).
    by apply (H 1%nat).
Defined.

#[local] Existing Instances Client.Toy.uuid_parse Client.Toy.hex Client.Toy.sha256 Client.Toy.sha256_laws.

Lemma chain_pin_accepts_server_witness :
  let pin := generate_cert_chain_hash [B "leaf"; B "issuer"] in
  match (@JuicityClient_new _ Toy.base64 _ true (Client.Toy.config pin) Client.Toy.all_ok).2 with
  | Ok client => verify_server_cert (λ _, Err EUtf8) (verifier (tls (quic_config client))) (B "leaf") [B "issuer"] = Ok tt
  | Err _ => False
  end.
Proof.
  intros pin. destruct (@JuicityClient_new _ Toy.base64 _ true (Client.Toy.config pin) Client.Toy.all_ok).2 as [cl|e] eqn:E;
    [|by vm_compute in E].
  apply (proj1 (@chain_pin_accepts_server _ Toy.base64 _ _ Toy.base64_encode (λ _, Err EUtf8) Toy.base64_encode_laws _
    Ok (λ _, Ok [B "leaf"; B "issuer"]) [] [] (B "leaf") [B "issuer"] pin true
    (Client.Toy.config pin) Client.Toy.all_ok cl [] [] eq_refl eq_refl eq_refl eq_refl eq_refl E)).
Defined.

Lemma leaf_pin_refuses_server_witness :
  let pin := Toy.hex_encode (sha256_digest (B "leaf")) in
  match (@JuicityClient_new _ Client.Toy.base64 _ true (Client.Toy.config pin) Client.Toy.all_ok).2 with
  | Ok client => verify_server_cert (λ _, Ok tt) (verifier (tls (quic_config client))) (B "leaf") []
                 = Err (EMsg (B "pinned cert chain hash mismatch"))
  | Err _ => False
  end.
Proof.
  intros pin. destruct (@JuicityClient_new _ Client.Toy.base64 _ true (Client.Toy.config pin) Client.Toy.all_ok).2 as [cl|e] eqn:E;
    [|by vm_compute in E].
  by apply (@leaf_pin_refuses_server _ Client.Toy.base64 _ _ Toy.hex_encode (λ _, Ok tt) Toy.hex_encode_laws Client.Toy.base64_laws _
     Ok (λ _, Ok (Some (X509Certificate (B "leaf")))) [] pin true (Client.Toy.config pin) Client.Toy.all_ok cl (B "leaf") []).
Defined.

#[local] Existing Instances Toy.json Link.PlainForm.serializer Link.PlainForm.order Toy.hex_encode Toy.base64_encode.

(** Two addresses, each with a link and a file, the chain pinned, and the client's JSON. *)
Definition export_flags_example : ExportFlags :=
  mkExportFlags true false (Some (B "qr.png")) false true 1080 (Some (B "eth0")) (Some (B "a.b")) false true.
Definition export_config_example : Config :=
  mkConfig [] [] [] (B "a.b") false [] [] ∅ None {[B "user" := B "secret"]} (B "cert.pem") (B "key.pem") [] [] false (B "[::]:443")
    (B "bbr") (B "info") None None None None.
Definition export_link_example (host : str) : str :=
  match generate_share_link export_config_example (Some host) (Some (B "a.b")) (Some (generate_cert_chain_hash [B "leaf"])) with
  | Ok l => l
  | Err _ => []
  end.

Lemma export_prints_witness :
  let l := export_link_example in
  match to_client_json_from_server export_config_example 1080 with
  | Ok jc =>
      export Ok (λ _, Ok None) (λ _, Ok [B "leaf"]) (λ _, Err EUtf8) (λ _, Ok true) (Ok Toy.interfaces) (Ok true)
        (λ _, Ok []) Ok choose_last export_flags_example export_config_example (λ _, Ok tt)
      = ([EPrintln (l (B "10.0.0.1")); ESaveQrcodePng (l (B "10.0.0.1")) (B "qr-10.0.0.1.png");
          EPrintln (l (B "10.0.0.2")); ESaveQrcodePng (l (B "10.0.0.2")) (B "qr-10.0.0.2.png"); EPrintln jc], Ok tt)
  | Err _ => False
  end.
Proof.
  intros l. destruct (to_client_json_from_server export_config_example 1080) as [jc|e] eqn:E; [|by vm_compute in E].
  destruct (to_server_json export_config_example) as [js|e] eqn:Es; [|by vm_compute in Es].
  etrans; [refine (proj1 (export_prints Ok (λ _, Ok None) (λ _, Ok [B "leaf"]) (λ _, Err EUtf8) (λ _, Ok true) (Ok Toy.interfaces)
    (Ok true) (λ _, Ok []) Ok choose_last export_flags_example export_config_example None [B "10.0.0.1"; B "10.0.0.2"]
    (Some (B "a.b")) js jc l _ _ _ _ _ _ _ _))|]; [done|by vm_compute..|exact Es|exact E| |by vm_compute].
  repeat (apply Forall_cons; split; [by vm_compute|]). apply Forall_nil_2.
Defined.
