(* ===== verification/Profile.v ===== *)
(** * [gui/src/config.rs], [util.rs], [validate.rs] and the configuration of [core.rs]

    A server profile of the graphical client, splitting and joining of host and
    port, the fields a profile must have, and the client configuration that is
    made from a profile. *)
From S2P Require Import Prelude Std Net Text Link Client Config.
#[local] Open Scope Z_scope.

(** ** Profiles *)
Inductive ProxyProtocol := Juicity | Shadowsocks.
#[export] Instance ProxyProtocol_eq_dec : EqDecision ProxyProtocol.
Proof. solve_decision. Defined.

Record ProxyProfile := mkProfile {
  name : str;
  protocol : ProxyProtocol;
  server : str;
  server_port : Z;
  password : str;
  uuid : str;
  sni : option str;
  allow_insecure : bool;
  pinned_certchain_sha256 : option str;
  congestion_control : option str;
  method : str;
  plugin : option str;
  plugin_opts : option str;
  plugin_args : option str;
  timeout : Z;
  group : option str;
  config_path : option str;
  link : option str;
}.

Definition NEW_SERVER : str := B "New Server".

Definition ProxyProfile_default : ProxyProfile :=
  mkProfile NEW_SERVER Juicity [] 443 [] [] None false None None (B "chacha20-ietf-poly1305") None None None 5 None None None.

Definition normalize_congestion_control (value : str) : option str :=
  let v := ascii_lowercase (trim value) in
  if decide (v = B "bbr") then Some (B "bbr")
  else if decide (v = B "cubic") then Some (B "cubic")
  else if decide (v = B "newreno" ∨ v = B "new_reno") then Some (B "new_reno")
  else None.

Definition named (name : str) : bool := negb (is_empty name) && negb (bool_decide (name = NEW_SERVER)).

Definition display_name (p : ProxyProfile) : str :=
  if named (name p) then name p
  else if negb (is_empty (server p)) then server p ++ B ":" ++ show_dec (server_port p)
  else NEW_SERVER.

(** ** Host and port *)

(** [str::find] of a two-byte pattern. *)
Fixpoint find2 (c d : byte) (s : str) : option nat :=
  match s with
  | a :: ((b :: _) as s') => if decide (a = c ∧ b = d) then Some O else S <$> find2 c d s'
  | _ => None
  end.

(** [None] where slicing panics: past the end, or inside a character. *)
Definition split_host_port (addr : str) : option (str * Z) :=
  match strip_prefix (B "[") addr with
  | Some rest =>
      match find2 x5d x3a rest with
      | Some pos => Some (take pos (drop 1 addr), default 0 (parse_u16 (drop (pos + 2) rest)))
      | None =>
          let last := (length addr - 1)%nat in
          if (last <? 1)%nat || match addr !! last with Some c => is_cont c | None => false end then None
          else Some (take (last - 1) (drop 1 addr), 0)
      end
  | None =>
      match rfind x3a addr with
      | Some pos => Some (take pos addr, default 0 (parse_u16 (drop (pos + 1) addr)))
      | None => Some (addr, 0)
      end
  end.

Definition format_host_port (host : str) (port : Z) : str :=
  if contains x3a host then B "[" ++ host ++ B "]:" ++ show_dec port else host ++ B ":" ++ show_dec port.

(** ** Mandatory fields *)
Inductive RequiredField := FServer | FUuid | FPassword.

Definition missing_fields (p : ProxyProfile) : list RequiredField :=
  (if is_empty (trim (server p)) then [FServer] else []) ++
  match protocol p with
  | Juicity => (if is_empty (trim (uuid p)) then [FUuid] else []) ++ (if is_empty (password p) then [FPassword] else [])
  | Shadowsocks =>
      if is_empty (password p) && negb (bool_decide (method p = B "none") || bool_decide (method p = B "plain"))
      then [FPassword] else []
  end.

(** ** The client configuration of a profile *)
Definition non_empty (value : option str) : option str :=
  v ← trim <$> value; if is_empty v then None else Some v.

Section juicity_config.
Context `{HashOrder, UuidParse} (path_exists : str → bool) (from_file : str → result Config).

Definition profile_config (mixed_listen : str) (p : ProxyProfile) : Config :=
  let sni := match sni p with Some s => if is_empty s then server p else s | None => server p end in
  let d := Config_default in
  mkConfig (format_host_port (server p) (server_port p)) (uuid p) (password p) sni (allow_insecure p)
    (default [] (non_empty (pinned_certchain_sha256 p))) (protect_path d) (forward d) (fwmark d) (users d)
    (certificate d) (private_key d) (send_through d) (dialer_link d) (disable_outbound_udp443 d) mixed_listen
    (default (B "bbr") (non_empty (congestion_control p))) (B "info") (initial_rtt d) (keep_alive_interval d)
    (underlay_evict_timeout d) (enable_0rtt d).

Definition build_juicity_config (mixed_listen : str) (p : ProxyProfile) : result Config :=
  let built :=
    let c := profile_config mixed_listen p in
    _ ← validate_for_client c; Ok c in
  match config_path p with
  | Some path =>
      if path_exists path then
        loaded ← from_file path; _ ← validate_for_client loaded; Ok loaded
      else built
  | None => built
  end.
End juicity_config.

(** ** Host and port are split again *)
Lemma find2_cons c d a b s : find2 c d (a :: b :: s) = if decide (a = c ∧ b = d) then Some O else S <$> find2 c d (b :: s).
Proof. done. Qed.

Lemma find2_skip c d a s : c ∉ a → find2 c d (a ++ c :: d :: s) = Some (length a).
Proof.
  induction a as [|e a IH]; intros Ha; [cbn [app]; by rewrite find2_cons, decide_True|]. apply not_elem_of_cons in Ha as [He Ha].
  specialize (IH Ha). destruct a as [|e' a]; cbn [app] in *; rewrite find2_cons, decide_False by (intros [-> _]; done); by rewrite IH.
Qed.

Lemma format_host_port_colon h p : x3a ∈ format_host_port h p.
Proof. unfold format_host_port. case_match; rewrite !elem_of_app; [right; right; left|right; left]; by apply contains_true. Qed.

(** Host and port are joined and split again: a name or an IPv4 address that does not begin with a bracket, and an
    address with colons and no closing bracket. *)
Theorem host_port_roundtrip h p :
  0 <= p <= u16_max → (if contains x3a h then x5d ∉ h else starts_with (B "[") h = false) →
  split_host_port (format_host_port h p) = Some (h, p).
Proof.
  intros Hp Hh. unfold format_host_port. destruct (contains x3a h) eqn:E; unfold split_host_port.
  - rewrite strip_prefix_app. change (h ++ B "]:" ++ show_dec p) with (h ++ x5d :: x3a :: show_dec p). rewrite find2_skip by done.
    change (drop 1 (B "[" ++ ?s)) with s. rewrite take_app_length, <-drop_drop, drop_app_length.
    change (drop 2 (x5d :: x3a :: show_dec p)) with (show_dec p). by rewrite parse_u16_dec.
  - destruct (strip_prefix (B "[") (h ++ B ":" ++ show_dec p)) as [r|] eqn:Er.
    + exfalso. apply strip_prefix_Some in Er. destruct h as [|c h]; [done|]. injection Er as -> _.
      change (x5b :: h) with (B "[" ++ h) in Hh. by rewrite starts_with_app in Hh.
    + change (B ":" ++ show_dec p) with (x3a :: show_dec p). rewrite rfind_app by by apply show_dec_not_colon.
      by rewrite take_app_length, drop_past, parse_u16_dec.
Qed.

Lemma host_port_roundtrip_witness :
  split_host_port (format_host_port (B "::1") 1080) = Some (B "::1", 1080) ∧
  split_host_port (format_host_port (B "proxy.example") 443) = Some (B "proxy.example", 443).
Proof.
  split; apply host_port_roundtrip; unfold u16_max; try lia; [|done]. change (x5d ∉ B "::1"). by apply contains_false.
Defined.

(** Splitting panics exactly for a text that begins with a bracket, has no bracket with a colon later, and is
    either the bracket alone or ends in a character of several bytes. *)
Theorem split_host_port_panics addr :
  split_host_port addr = None ↔
  ∃ rest, addr = B "[" ++ rest ∧ find2 x5d x3a rest = None ∧
    (rest = [] ∨ ∃ r c, rest = r ++ [c] ∧ is_cont c = true).
Proof.
  unfold split_host_port. destruct (strip_prefix (B "[") addr) as [rest|] eqn:E.
  - apply strip_prefix_Some in E as ->. change (B "[" ++ rest) with (x5b :: rest).
    assert (find2 x5d x3a rest = None ∧ (rest = [] ∨ ∃ r c, rest = r ++ [c] ∧ is_cont c = true) ↔
      ∃ rest', x5b :: rest = B "[" ++ rest' ∧ find2 x5d x3a rest' = None ∧ (rest' = [] ∨ ∃ r c, rest' = r ++ [c] ∧ is_cont c = true)) as <-.
    { split; [eauto|]. by intros (? & [= ->] & ?). }
    destruct (find2 x5d x3a rest) as [pos|]; [split; [done|by intros []]|].
    destruct rest as [|c r _] using rev_ind; [split; [auto|done]|].
    assert ((length (x5b :: r ++ [c]) - 1)%nat = S (length r)) as -> by (simpl; rewrite length_app; simpl; lia).
    assert ((x5b :: r ++ [c]) !! S (length r) = Some c) as ->.
    { change ((r ++ [c]) !! length r = Some c). by rewrite lookup_app_r, Nat.sub_diag by lia. }
    cbn [Nat.ltb Nat.leb orb]. destruct (is_cont c) eqn:Ec.
    + split; [|done]. intros _. split; [done|]. right. eauto.
    + split; [done|]. intros [_ [Hn|(r' & c' & [_ [= ->]]%app_inj_2 & Hc)]]; [by destruct r|congruence|done].
  - split; [by case_match|]. intros (rest & -> & _). by rewrite strip_prefix_app in E.
Qed.

(** ** Configurations reach the server of the profile *)

(** Names and IPv4 addresses, and IPv6 addresses as they are printed. *)
Definition usable_host (h : str) : Prop :=
  (h ≠ [] ∧ x3a ∉ h ∧ starts_with (B "[") h = false) ∨ ∃ o, length o = 16%nat ∧ h = show_ipv6 o.

Lemma usable_host_server h p sni :
  usable_host h → 0 <= p <= u16_max → parse_server (format_host_port h p) sni = Ok (h, p, if is_empty sni then h else sni).
Proof.
  intros Hh Hp. unfold format_host_port. destruct Hh as [(Hn & Hc & Hb)|(o & Ho & ->)].
  - rewrite (proj2 (contains_false _ _)) by done. by apply parse_server_correct.
  - assert (contains x3a (show_ipv6 o) = true) as ->.
    { apply contains_true. eapply parse_ipv6_colon. by apply parse_show_ipv6. }
    by apply parse_server_correct.
Qed.

Definition profile_name (p : ProxyProfile) : str :=
  match sni p with Some s => if is_empty s then server p else s | None => server p end.

(** A juicity profile without a configuration file of its own gives a client configuration exactly when its user is a
    UUID and it has a password; the configuration has the user, password, pin and flag of the profile, and the client
    reads its server as the host, port and server name of the profile. *)
Theorem profile_reaches_server `{HashOrder, UuidParse} path_exists from_file listen p :
  config_path p = None → x3a ∈ listen → usable_host (server p) → 0 <= server_port p <= u16_max →
  let built := build_juicity_config path_exists from_file listen p in
  ((∃ c, built = Ok c) ↔ is_Some (parse_uuid (uuid p)) ∧ uuid p ≠ [] ∧ password p ≠ []) ∧
  ∀ c, built = Ok c →
    Config.uuid c = uuid p ∧ Config.password c = password p ∧ Config.allow_insecure c = allow_insecure p ∧
    Config.pinned_certchain_sha256 c = default [] (non_empty (pinned_certchain_sha256 p)) ∧ Config.listen c = listen ∧
    parse_server (Config.server c) (Config.sni c) = Ok (server p, server_port p, profile_name p).
Proof.
  intros Hc Hl Hh Hp built. unfold built, build_juicity_config. rewrite Hc.
  destruct (validate_for_client (profile_config listen p)) as [[]|e] eqn:Ev; result_cbn.
  - split.
    + split; [|eauto]. intros _. apply validate_for_client_iff in Ev as (_ & Hu & Hn & Hw & _). done.
    + intros c <-%Ok_inj. split_and!; [done..|]. cbn [profile_config Config.server Config.sni]. rewrite usable_host_server by done.
      do 2 f_equal. fold (profile_name p). unfold profile_name. destruct (sni p) as [[|d s]|]; cbn [is_empty]; [by case_match|done|by case_match].
  - split; [|done]. split; [by intros []|]. intros (Hu & Hn & Hw). exfalso.
    assert (validate_for_client (profile_config listen p) = Ok tt) as Hok; [|congruence].
    apply validate_for_client_iff. split_and!; [apply format_host_port_colon|done..| |done].
    left. cbn. intros ->. by apply elem_of_nil in Hl.
Qed.

Lemma profile_reaches_server_witness :
  ∃ c : Config,
    parse_server (Config.server c) (Config.sni c) = Ok (B "proxy.example", 443, B "front.example") ∧ Config.password c = B "pw".
Proof.
  pose (p := mkProfile (B "P") Juicity (B "proxy.example") 443 (B "pw") (B "0123456789abcdef") (Some (B "front.example")) false None
    (Some (B " cubic ")) [] None None None 5 None None None).
  pose (u := (λ s, if decide (length s = 16%nat) then Some s else None) : UuidParse).
  edestruct (profile_reaches_server (H := Link.PlainForm.order) (H0 := u) (λ _, false) (λ _, Err (EMsg [])) (B "127.0.0.1:1080") p) as [E1 E2].
  - done.
  - by apply contains_true.
  - left. split_and!; [done|by apply contains_false|done].
  - unfold u16_max. cbn. lia.
  - destruct (proj2 E1) as [c Hc]; [split_and!; [by eexists|done|done]|].
    exists c. apply E2 in Hc as (_ & -> & _ & _ & _ & ->). done.
Defined.
