(* ===== verification/Traffic.v ===== *)
(** * [gui/src/traffic.rs]: sampling of the byte counters

    The monitor with its two operations, [record_at] and [reset], the snapshot that
    the interface draws, and the formatting of sizes.  An [f64] is a [spec_float] of
    53 bits; times are nanoseconds. *)
From Stdlib Require Import SpecFloat.
From S2P Require Import Prelude Std Text.
#[local] Open Scope Z_scope.

(** ** [f64] *)
Definition f64 : Type := spec_float.
Definition f64_of (z : Z) : f64 := binary_normalize 53 1024 z 0 false.
Definition f64_zero : f64 := S754_zero false.
Definition f64_div : f64 → f64 → f64 := SFdiv 53 1024.
Definition f64_add : f64 → f64 → f64 := SFadd 53 1024.

(** [f64::max]: a NaN gives way to the other operand. *)
Definition f64_max (a b : f64) : f64 :=
  match a, b with
  | S754_nan, _ => b
  | _, S754_nan => a
  | _, _ => if SFltb a b then b else a
  end.

(** [Duration::as_secs_f64]. *)
Definition as_secs_f64 (nanos : Z) : f64 :=
  f64_add (f64_of (nanos / 1000000000)) (f64_div (f64_of (nanos mod 1000000000)) (f64_of 1000000000)).

(** ** The monitor *)
Definition HISTORY : nat := 60.
Definition SAMPLE_INTERVAL : Z := 1000 * 1000000.

Record Speed := mkSpeed { up : f64; down : f64 }.
Definition Speed_default : Speed := mkSpeed f64_zero f64_zero.
Definition speed_eqb (a b : Speed) : bool := SFeqb (up a) (up b) && SFeqb (down a) (down b).

Record Data := mkData {
  samples : list Speed;
  total_up : Z;
  total_down : Z;
  previous : option (Z * Z);
  pending : Z * Z;
  last_sample : option Z;
  current : Speed;
  active : bool;
}.

Record TrafficMonitor := mkMonitor { data : Data; version : Z }.

Definition TrafficMonitor_new : TrafficMonitor := mkMonitor (mkData [] 0 0 None (0, 0) None Speed_default false) 0.

Definition push_sample (samples : list Speed) (speed : Speed) : list Speed :=
  (if decide (length samples = HISTORY) then drop 1 samples else samples) ++ [speed].

Definition bump (changed : bool) (v : Z) : Z := if changed then (v + 1) mod 2 ^ 64 else v.

(** [+=] of a release build. *)
Definition wrapping_add (a b : Z) : Z := (a + b) mod 2 ^ 64.

Definition speed_of (pending : Z * Z) (since : Z) : Speed :=
  let secs := f64_max (as_secs_f64 since) (f64_div (f64_of 1) (f64_of 1000)) in
  mkSpeed (f64_div (f64_of pending.1) secs) (f64_div (f64_of pending.2) secs).

Definition record_at (cumulative : option (Z * Z)) (now : Z) (m : TrafficMonitor) : TrafficMonitor :=
  let d := data m in
  match cumulative with
  | None =>
      let changed := bool_decide (is_Some (previous d)) || negb (speed_eqb (current d) Speed_default) || active d in
      mkMonitor
        (mkData (if changed then push_sample (samples d) Speed_default else samples d) (total_up d) (total_down d) None (0, 0) None
           (if changed then Speed_default else current d) (if changed then false else active d))
        (bump changed (version m))
  | Some (u, w) =>
      let pending := match previous d with
                     | Some (prev_up, prev_down) =>
                         (wrapping_add (pending d).1 (saturating_sub u prev_up), wrapping_add (pending d).2 (saturating_sub w prev_down))
                     | None => pending d
                     end in
      let since := match last_sample d with Some last => saturating_sub now last | None => 0 end in
      let last := default now (last_sample d) in
      if SAMPLE_INTERVAL <=? since then
        let speed := speed_of pending since in
        mkMonitor
          (mkData (push_sample (samples d) speed) (u64_saturating_add (total_up d) pending.1) (u64_saturating_add (total_down d) pending.2)
             (Some (u, w)) (0, 0) (Some now) speed true)
          (bump true (version m))
      else
        mkMonitor (mkData (samples d) (total_up d) (total_down d) (Some (u, w)) pending (Some last) (current d) true) (version m)
  end.

Definition reset (m : TrafficMonitor) : TrafficMonitor :=
  let d := data m in
  let changed := negb (speed_eqb (current d) Speed_default) in
  mkMonitor (mkData (samples d) (total_up d) (total_down d) None (0, 0) None Speed_default false) (bump changed (version m)).

Record TrafficSnapshot := mkSnapshot {
  snap_samples : list Speed;
  snap_total_up : Z;
  snap_total_down : Z;
  snap_current : Speed;
  peak_up : f64;
  peak_down : f64;
}.

Definition snapshot (m : TrafficMonitor) : TrafficSnapshot :=
  let d := data m in
  mkSnapshot (samples d) (total_up d) (total_down d) (current d)
    (foldl f64_max f64_zero (up <$> samples d)) (foldl f64_max f64_zero (down <$> samples d)).

(** ** Formatting *)

(** [{:.n}] of a float that is not negative: the exact value, halves to even. *)
Definition fixed_int (decimals : Z) (v : f64) : Z :=
  match v with
  | S754_finite _ m e =>
      let n := Z.pos m * 10 ^ decimals in
      if 0 <=? e then n * 2 ^ e
      else
        let q := n / 2 ^ (- e) in
        let r := n mod 2 ^ (- e) in
        if (2 ^ (- e) <? 2 * r) || ((2 * r =? 2 ^ (- e)) && Z.odd q) then q + 1 else q
  | _ => 0
  end.

Definition format_f64_0 (v : f64) : str := show_dec (fixed_int 0 v).
Definition format_f64_1 (v : f64) : str := show_dec (fixed_int 1 v / 10) ++ B "." ++ show_dec (fixed_int 1 v mod 10).

Definition UNITS : list str := [B "B"; B "KB"; B "MB"; B "GB"; B "TB"].

(** Passes through the loop for the units that are left. *)
Fixpoint scale (steps : nat) (value : f64) (unit : nat) : f64 * nat :=
  match steps with
  | O => (value, unit)
  | S steps => if SFleb (f64_of 1024) value then scale steps (f64_div value (f64_of 1024)) (S unit) else (value, unit)
  end.

Definition format_size (value : f64) : str :=
  let '(value, unit) := scale (length UNITS - 1) (f64_max value f64_zero) 0 in
  let name := UNITS !!! unit in
  if decide (unit = O) then format_f64_0 value ++ B " " ++ name else format_f64_1 value ++ B " " ++ name.

Definition format_bytes (bytes : Z) : str := format_size (f64_of bytes).
Definition format_speed (bytes_per_sec : f64) : str := format_size bytes_per_sec ++ B "/s".

Example format_ex :
  format_bytes <$> [0; 512; 1536; 1048576; 1048575; u64_max] =
    [B "0 B"; B "512 B"; B "1.5 KB"; B "1.0 MB"; B "1024.0 KB"; B "16777216.0 TB"].
Proof. vm_compute. reflexivity. Qed.
Example format_speed_ex : format_speed (f64_of 2048) = B "2.0 KB/s".
Proof. vm_compute. reflexivity. Qed.

(** ** Floats are ordered *)

(** Sign, exponent and mantissa, in the order of the values. *)
Definition rank (x : f64) : Z * Z * Z :=
  match x with
  | S754_infinity true => (-2, 0, 0)
  | S754_finite true m e => (-1, - e, - Z.pos m)
  | S754_finite false m e => (1, e, Z.pos m)
  | S754_infinity false => (2, 0, 0)
  | _ => (0, 0, 0)
  end.

Definition rank_compare (a b : Z * Z * Z) : comparison :=
  let '(a1, a2, a3) := a in
  let '(b1, b2, b3) := b in
  match a1 ?= b1 with Eq => match a2 ?= b2 with Eq => a3 ?= b3 | c => c end | c => c end.

Lemma SFcompare_rank x y :
  x ≠ S754_nan → y ≠ S754_nan → SFcompare x y = Some (rank_compare (rank x) (rank y)).
Proof.
  intros Hx Hy. destruct x as [[]|[]| |[] m e], y as [[]|[]| |[] m' e']; try done; cbn -[Z.compare].
  change (-1 ?= -1) with Eq. cbn iota. change (IntDef.Z.compare e e') with (e ?= e'). rewrite !Z.compare_opp, (Z.compare_antisym e e').
  destruct (e ?= e'); [|done..]. cbn [CompOpp]. by rewrite (Z.compare_antisym (Z.pos m)).
Qed.

Definition rank_le (a b : Z * Z * Z) : Prop := rank_compare a b ≠ Gt.

Lemma rank_le_trans a b c : rank_le a b → rank_le b c → rank_le a c.
Proof.
  unfold rank_le. destruct a as [[a1 a2] a3], b as [[b1 b2] b3], c as [[c1 c2] c3]. cbn.
  destruct (Z.compare_spec a1 b1), (Z.compare_spec b1 c1), (Z.compare_spec a1 c1); try done; try lia;
    destruct (Z.compare_spec a2 b2), (Z.compare_spec b2 c2), (Z.compare_spec a2 c2); try done; try lia;
    destruct (Z.compare_spec a3 b3), (Z.compare_spec b3 c3), (Z.compare_spec a3 c3); try done; lia.
Qed.

Lemma rank_compare_antisym a b : rank_compare b a = CompOpp (rank_compare a b).
Proof.
  destruct a as [[a1 a2] a3], b as [[b1 b2] b3]. cbn. rewrite (Z.compare_antisym a1), (Z.compare_antisym a2), (Z.compare_antisym a3).
  by destruct (a1 ?= b1), (a2 ?= b2), (a3 ?= b3).
Qed.

Definition f64_le (x y : f64) : Prop := x ≠ S754_nan ∧ y ≠ S754_nan ∧ rank_le (rank x) (rank y).

Lemma f64_le_SFleb x y : f64_le x y ↔ SFleb x y = true.
Proof.
  unfold f64_le, rank_le, SFleb. split.
  - intros (Hx & Hy & Hr). rewrite SFcompare_rank by done. by destruct (rank_compare _ _).
  - intros H. assert (x ≠ S754_nan ∧ y ≠ S754_nan) as [Hx Hy].
    { split; intros ->; [by destruct y|by destruct x as [[]|[]| |[]]]. }
    rewrite SFcompare_rank in H by done. split_and!; [done..|]. intros E. by rewrite E in H.
Qed.

Lemma f64_max_ge a b : a ≠ S754_nan → f64_le a (f64_max a b) ∧ (b ≠ S754_nan → f64_le b (f64_max a b)).
Proof.
  intros Ha. unfold f64_le, rank_le. assert (∀ x, rank_compare (rank x) (rank x) ≠ Gt) as Hrefl.
  { intros x. pose proof (rank_compare_antisym (rank x) (rank x)) as E. by destruct (rank_compare _ _). }
  assert (b = S754_nan ∨ b ≠ S754_nan) as [->|Hb] by (destruct b; auto); [destruct a; done|].
  assert (f64_max a b = if SFltb a b then b else a) as -> by by destruct a, b.
  unfold SFltb. rewrite SFcompare_rank by done. pose proof (rank_compare_antisym (rank a) (rank b)) as E.
  destruct (rank_compare (rank a) (rank b)) eqn:Ec; (split; [|intros _]; split_and!; try done; try apply Hrefl); congruence || (rewrite E; done).
Qed.

Lemma f64_le_trans a b c : f64_le a b → f64_le b c → f64_le a c.
Proof. intros (Ha & _ & H1) (_ & Hc & H2). split_and!; [done..|]. by eapply rank_le_trans. Qed.

Lemma f64_le_refl a : a ≠ S754_nan → f64_le a a.
Proof.
  intros Ha. split_and!; [done..|]. unfold rank_le. pose proof (rank_compare_antisym (rank a) (rank a)) as E. by destruct (rank_compare _ _).
Qed.

Lemma peak_ge l acc :
  acc ≠ S754_nan →
  f64_le acc (foldl f64_max acc l) ∧ ∀ x, x ∈ l → x ≠ S754_nan → f64_le x (foldl f64_max acc l).
Proof.
  revert acc. induction l as [|y l IH]; intros acc Ha; cbn [foldl].
  - split; [by apply f64_le_refl|]. by intros x Hx%elem_of_nil.
  - destruct (f64_max_ge acc y Ha) as [H1 H2]. destruct (IH (f64_max acc y)) as [H3 H4]; [by destruct H1 as (_ & ? & _)|].
    split; [by eapply f64_le_trans|]. intros x [->|Hx]%elem_of_cons Hn; [|by apply H4]. eapply f64_le_trans; [by apply H2|done].
Qed.

Lemma peak_elem l acc : foldl f64_max acc l = acc ∨ foldl f64_max acc l ∈ l.
Proof.
  revert acc. induction l as [|y l IH]; intros acc; [by left|]. cbn [foldl]. destruct (IH (f64_max acc y)) as [->|Hin]; [|right; by right].
  assert (f64_max acc y = acc ∨ f64_max acc y = y) as [->| ->]; [|by left|right; by left].
  unfold f64_max. destruct acc, y; auto; case_match; auto.
Qed.

(** The peak of a snapshot is zero or a speed of the window, and no speed of the window is above it. *)
Theorem snapshot_peaks m :
  (∀ s, s ∈ samples (data m) → up s ≠ S754_nan → SFleb (up s) (peak_up (snapshot m)) = true) ∧
  (∀ s, s ∈ samples (data m) → down s ≠ S754_nan → SFleb (down s) (peak_down (snapshot m)) = true) ∧
  (peak_up (snapshot m) = f64_zero ∨ peak_up (snapshot m) ∈ up <$> samples (data m)) ∧
  (peak_down (snapshot m) = f64_zero ∨ peak_down (snapshot m) ∈ down <$> samples (data m)).
Proof.
  split_and!; [| |apply peak_elem|apply peak_elem]; intros s Hs Hn; apply f64_le_SFleb, peak_ge; try done; by apply list_elem_of_fmap_2.
Qed.

(** ** Sequences of operations *)
Inductive Op := Record_ (cumulative : option (Z * Z)) (now : Z) | Reset_.

Definition step (m : TrafficMonitor) (o : Op) : TrafficMonitor :=
  match o with Record_ c now => record_at c now m | Reset_ => reset m end.

Definition run (m : TrafficMonitor) (ops : list Op) : TrafficMonitor := foldl step m ops.

(** The increases of the counters that are read; a reading after a stop has none. *)
Fixpoint gained (prev : option (Z * Z)) (ops : list Op) : Z * Z :=
  match ops with
  | [] => (0, 0)
  | Record_ (Some (u, w)) _ :: ops =>
      let '(gu, gw) := gained (Some (u, w)) ops in
      match prev with
      | Some (pu, pw) => (saturating_sub u pu + gu, saturating_sub w pw + gw)
      | None => (gu, gw)
      end
  | _ :: ops => gained None ops
  end.

Definition is_reading (o : Op) : Prop := match o with Record_ (Some _) _ => True | _ => False end.

(** What is counted, shown or not yet shown. *)
Definition counted (d : Data) : Z * Z := (total_up d + (pending d).1, total_down d + (pending d).2).

Definition amounts_ok (d : Data) : Prop :=
  0 <= total_up d ∧ 0 <= total_down d ∧ 0 <= (pending d).1 ∧ 0 <= (pending d).2.

Lemma gained_nonneg prev ops : 0 <= (gained prev ops).1 ∧ 0 <= (gained prev ops).2.
Proof.
  revert prev. induction ops as [|[[[u w]|] now|] ops IH]; intros prev; cbn [gained]; [done| |apply IH..].
  destruct (IH (Some (u, w))) as [H1 H2]. destruct (gained (Some (u, w)) ops) as [gu gw]. unfold saturating_sub.
  destruct prev as [[pu pw]|]; cbn [fst snd] in *; lia.
Qed.

Lemma wrapping_add_small a b : 0 <= a → 0 <= b → a + b <= u64_max → wrapping_add a b = a + b.
Proof. intros. unfold wrapping_add. apply Z.mod_small. unfold u64_max in *. lia. Qed.

Lemma reading_counted m u w now :
  amounts_ok (data m) →
  let g := gained (previous (data m)) [Record_ (Some (u, w)) now] in
  (counted (data m)).1 + g.1 <= u64_max → (counted (data m)).2 + g.2 <= u64_max →
  let d := data (record_at (Some (u, w)) now m) in
  amounts_ok d ∧ previous d = Some (u, w) ∧ counted d = ((counted (data m)).1 + g.1, (counted (data m)).2 + g.2).
Proof.
  destruct m as [[ss tu tw prev [pu pw] last cur act] v]. unfold amounts_ok, counted. cbn [data previous pending total_up total_down fst snd gained].
  intros (H1 & H2 & H3 & H4) Hu Hw. unfold record_at. cbn [data previous pending total_up total_down last_sample fst snd].
  assert (∀ a b, 0 <= saturating_sub a b) as Hs by (intros; unfold saturating_sub; lia).
  destruct prev as [[pru prw]|]; cbn [fst snd] in *.
  - rewrite Z.add_0_r in Hu, Hw. pose proof (Hs u pru). pose proof (Hs w prw). rewrite !wrapping_add_small by lia.
    case_match; cbn [data previous pending total_up total_down fst snd]; unfold u64_saturating_add; rewrite ?Z.min_r by lia;
      split_and!; try done; try lia; f_equal; lia.
  - case_match; cbn [data previous pending total_up total_down fst snd]; unfold u64_saturating_add; rewrite ?Z.min_r by lia;
      split_and!; try done; try lia; f_equal; lia.
Qed.

Lemma other_counted m o :
  amounts_ok (data m) → ¬ is_reading o →
  let d := data (step m o) in
  amounts_ok d ∧ previous d = None ∧ (counted d).1 <= (counted (data m)).1 ∧ (counted d).2 <= (counted (data m)).2.
Proof.
  destruct m as [[ss tu tw prev [pu pw] last cur act] v]. unfold amounts_ok, counted.
  cbn [data previous pending total_up total_down fst snd]. intros (H1 & H2 & H3 & H4) Ho.
  destruct o as [[c|] now|]; [by destruct Ho| |]; cbn [step record_at reset data previous pending total_up total_down fst snd];
    split_and!; done || lia.
Qed.

Lemma run_counted m ops :
  amounts_ok (data m) →
  (counted (data m)).1 + (gained (previous (data m)) ops).1 <= u64_max →
  (counted (data m)).2 + (gained (previous (data m)) ops).2 <= u64_max →
  let d := data (run m ops) in
  amounts_ok d ∧ (counted d).1 <= (counted (data m)).1 + (gained (previous (data m)) ops).1 ∧
  (counted d).2 <= (counted (data m)).2 + (gained (previous (data m)) ops).2 ∧
  (Forall is_reading ops → counted d =
     ((counted (data m)).1 + (gained (previous (data m)) ops).1, (counted (data m)).2 + (gained (previous (data m)) ops).2)).
Proof.
  revert m. induction ops as [|o ops IH]; intros m Hm Hu Hw.
  - change (run m []) with m. cbn [gained fst snd] in *. split_and!; [done|lia..|]. intros _. rewrite !Z.add_0_r. by destruct (counted (data m)).
  - change (run m (o :: ops)) with (run (step m o) ops). destruct o as [[[u w]|] now|].
    + assert (gained (previous (data m)) (Record_ (Some (u, w)) now :: ops) =
        ((gained (previous (data m)) [Record_ (Some (u, w)) now]).1 + (gained (Some (u, w)) ops).1,
         (gained (previous (data m)) [Record_ (Some (u, w)) now]).2 + (gained (Some (u, w)) ops).2)) as Eg.
      { cbn [gained]. destruct (gained (Some (u, w)) ops) as [gu gw]. destruct (previous (data m)) as [[pu pw]|]; cbn [fst snd]; f_equal; lia. }
      rewrite Eg in *. cbn [fst snd] in *. destruct (gained_nonneg (Some (u, w)) ops).
      destruct (reading_counted m u w now Hm) as (H1 & H2 & H3); [lia..|]. cbn [step].
      destruct (IH _ H1) as (Ha & Hb & Hc & Hd); rewrite ?H2, ?H3; cbn [fst snd]; [lia..|]. rewrite H2, H3 in *. cbn [fst snd] in *.
      split_and!; [done|lia..|]. intros [_ Hall]%Forall_cons. rewrite Hd by done. f_equal; lia.
    + destruct (other_counted m (Record_ None now) Hm) as (H1 & H2 & H3 & H4); [auto|]. cbn [gained] in *.
      destruct (IH _ H1) as (Ha & Hb & Hc & _); rewrite ?H2; [lia..|]. rewrite H2 in *.
      split_and!; [done|lia..|]. by intros [? _]%Forall_cons.
    + destruct (other_counted m Reset_ Hm) as (H1 & H2 & H3 & H4); [auto|]. cbn [gained] in *.
      destruct (IH _ H1) as (Ha & Hb & Hc & _); rewrite ?H2; [lia..|]. rewrite H2 in *.
      split_and!; [done|lia..|]. by intros [? _]%Forall_cons.
Qed.

(** Counters that do not decrease, with the times of the readings. *)
Fixpoint growing (c : Z * Z) (rs : list (Z * Z * Z)) : Prop :=
  match rs with
  | [] => True
  | (u, w, _) :: rs => c.1 <= u ∧ c.2 <= w ∧ growing (u, w) rs
  end.

Definition readings (rs : list (Z * Z * Z)) : list Op := (λ '(u, w, t), Record_ (Some (u, w)) t) <$> rs.

Lemma gained_growing c rs :
  growing c rs →
  gained (Some c) (readings rs) = ((foldl (λ _ r, r.1) c rs).1 - c.1, (foldl (λ _ r, r.1) c rs).2 - c.2).
Proof.
  revert c. induction rs as [|[[u w] t] rs IH]; intros [cu cw] Hg; cbn [foldl fst snd readings fmap list_fmap gained].
  - f_equal; lia.
  - destruct Hg as (H1 & H2 & Hg). cbn [fst snd] in *. fold (readings rs). rewrite (IH _ Hg). unfold saturating_sub. cbn [fst snd].
    f_equal; lia.
Qed.

(** What is counted never exceeds the increases of the counters that were read, a decrease counting as none; without a
    stop or reset it is exactly them, and for counters that only grow it is the last reading less the first. *)
Theorem traffic_accounted ops :
  (gained None ops).1 <= u64_max → (gained None ops).2 <= u64_max →
  let c := counted (data (run TrafficMonitor_new ops)) in
  c.1 <= (gained None ops).1 ∧ c.2 <= (gained None ops).2 ∧
  (Forall is_reading ops → c = gained None ops) ∧
  (∀ u w t rs, ops = readings ((u, w, t) :: rs) → growing (u, w) rs →
     c = ((foldl (λ _ r, r.1) (u, w) rs).1 - u, (foldl (λ _ r, r.1) (u, w) rs).2 - w)).
Proof.
  intros Hu Hw c. destruct (run_counted TrafficMonitor_new ops) as (_ & H1 & H2 & H3); [done..|]. fold c in H1, H2, H3. cbn [TrafficMonitor_new data previous] in *.
  assert (Forall is_reading ops → c = gained None ops) as Hr.
  { intros Hall. rewrite H3 by done. by destruct (gained None ops). }
  split_and!; [done..|]. intros u w t rs -> Hg. rewrite Hr.
  { cbn [readings fmap list_fmap gained]. fold (readings rs). by rewrite (gained_growing (u, w)). }
  apply Forall_fmap. apply Forall_forall. by intros [[? ?] ?] _.
Qed.

Lemma traffic_accounted_witness :
  let m := run TrafficMonitor_new (readings [(100, 200, 0); (1100, 2248, 1000000000); (1200, 2250, 1500000000)]) in
  counted (data m) = (1100, 2050) ∧ (total_up (data m), total_down (data m)) = (1000, 2048) ∧ current (data m) = mkSpeed (f64_of 1000) (f64_of 2048).
Proof.
  split; [|by vm_compute].
  apply (proj2 (proj2 (proj2 (traffic_accounted (readings [(100, 200, 0); (1100, 2248, 1000000000); (1200, 2250, 1500000000)])
    ltac:(by vm_compute) ltac:(by vm_compute)))) 100 200 0 [(1100, 2248, 1000000000); (1200, 2250, 1500000000)]); [done|].
  by vm_compute.
Defined.

(** ** What readers see *)

(** Floats without a negative sign. *)
Definition unsigned (x : f64) : bool :=
  match x with S754_zero s | S754_infinity s | S754_finite s _ _ => negb s | S754_nan => true end.

Lemma round_aux_unsigned p e m x l : unsigned (binary_round_aux p e false m x l) = true.
Proof. unfold binary_round_aux. do 2 case_match. by repeat case_match. Qed.

Lemma round_unsigned p e m x : unsigned (binary_round p e false m x) = true.
Proof. unfold binary_round. case_match. apply round_aux_unsigned. Qed.

Lemma f64_of_unsigned z : 0 <= z → unsigned (f64_of z) = true.
Proof. intros Hz. destruct z; [done|apply round_unsigned|lia]. Qed.

Lemma f64_div_unsigned a b : unsigned a = true → unsigned b = true → unsigned (f64_div a b) = true.
Proof.
  intros Ha Hb. destruct a as [[]|[]| |[] m e], b as [[]|[]| |[] m' e']; try done. unfold f64_div, SFdiv. case_match. case_match.
  apply round_aux_unsigned.
Qed.

Lemma f64_add_unsigned a b : unsigned a = true → unsigned b = true → unsigned (f64_add a b) = true.
Proof.
  intros Ha Hb. destruct a as [[]|[]| |[] m e], b as [[]|[]| |[] m' e']; try done. unfold f64_add, SFadd. cbv zeta. cbn [cond_Zopp]. apply round_unsigned.
Qed.

Lemma f64_max_unsigned a b : unsigned a = true → unsigned b = true → unsigned (f64_max a b) = true.
Proof. intros Ha Hb. unfold f64_max. destruct a, b; try done; by case_match. Qed.

Lemma speed_of_unsigned p since :
  0 <= p.1 → 0 <= p.2 → 0 <= since → unsigned (up (speed_of p since)) = true ∧ unsigned (down (speed_of p since)) = true.
Proof.
  intros H1 H2 Hs. unfold speed_of. cbn [up down].
  assert (unsigned (f64_max (as_secs_f64 since) (f64_div (f64_of 1) (f64_of 1000))) = true) as Hsec.
  { apply f64_max_unsigned; [|done]. unfold as_secs_f64. apply f64_add_unsigned; [apply f64_of_unsigned; by apply Z.div_pos|].
    apply f64_div_unsigned; [|done]. apply f64_of_unsigned. by apply Z.mod_pos_bound. }
  split; apply f64_div_unsigned; done || by apply f64_of_unsigned.
Qed.

Lemma unsigned_zero_eq x : unsigned x = true → SFeqb x f64_zero = true → x = f64_zero.
Proof. by destruct x as [[]|[]| |[]]. Qed.

Record inv (m : TrafficMonitor) : Prop := {
  inv_length : (length (samples (data m)) ≤ HISTORY)%nat;
  inv_pending : 0 <= (pending (data m)).1 ∧ 0 <= (pending (data m)).2;
  inv_current : unsigned (up (current (data m))) = true ∧ unsigned (down (current (data m))) = true;
}.

Lemma push_sample_length ss s : (length ss ≤ HISTORY)%nat → (length (push_sample ss s) ≤ HISTORY)%nat.
Proof. intros Hl. unfold push_sample, HISTORY in *. case_decide; rewrite length_app, ?length_drop; simpl; lia. Qed.

Lemma step_inv m o : inv m → inv (step m o).
Proof.
  destruct m as [[ss tu tw prev [pu pw] last cur act] v]. intros [Hl [Hp1 Hp2] [Hc1 Hc2]]. cbn [data samples pending current fst snd] in *.
  assert (∀ a b, 0 <= wrapping_add a b) as Hw by (intros; unfold wrapping_add; by apply Z.mod_pos_bound).
  destruct o as [[[u w]|] now|]; cbn [step].
  - unfold record_at. cbn [data samples pending previous last_sample fst snd]. cbv zeta.
    set (p := match prev with Some (pru, prw) => _ | None => _ end).
    assert (0 <= p.1 ∧ 0 <= p.2) as [H1 H2] by (subst p; destruct prev as [[pru prw]|]; split; done || apply Hw).
    case_match; split; cbn [data samples pending current fst snd]; try done.
    + by apply push_sample_length.
    + apply speed_of_unsigned; [done..|]. destruct last; unfold saturating_sub; lia.
  - split; cbn [record_at data samples pending current fst snd]; [|done|].
    + case_match; [by apply push_sample_length|done].
    + case_match; done.
  - by split.
Qed.

Lemma monitor_run_inv m ops : inv m → inv (run m ops).
Proof. revert m. induction ops as [|o ops IH]; intros m Hm; [done|]. by apply IH, step_inv. Qed.

Lemma new_inv : inv TrafficMonitor_new.
Proof. split; [simpl; unfold HISTORY; lia|done|done]. Qed.

Lemma bump_neq v : bump true v ≠ v.
Proof.
  unfold bump. intros E. assert (0 <= v < 2 ^ 64) as Hv by (rewrite <-E; by apply Z.mod_pos_bound).
  destruct (decide (v + 1 < 2 ^ 64)) as [H|H]; [rewrite Z.mod_small in E; lia|]. replace (v + 1) with (2 ^ 64) in E by lia.
  rewrite Z.mod_same in E by done. lia.
Qed.

Lemma speed_eqb_zero s : unsigned (up s) = true → unsigned (down s) = true → speed_eqb s Speed_default = true → s = Speed_default.
Proof.
  destruct s as [a b]. unfold speed_eqb. cbn [up down]. intros Ha Hb [H1 H2]%andb_true_iff.
  by rewrite (unsigned_zero_eq a Ha H1), (unsigned_zero_eq b Hb H2).
Qed.

(** In every run the window holds at most [HISTORY] speeds, and an operation that leaves the version as it is leaves
    what the interface draws as it is. *)
Theorem version_covers_changes ops o :
  let m := run TrafficMonitor_new ops in
  (length (snap_samples (snapshot m)) ≤ HISTORY)%nat ∧ (version (step m o) = version m → snapshot (step m o) = snapshot m).
Proof.
  intros m. pose proof (monitor_run_inv _ ops new_inv) as [Hl _ [Hc1 Hc2]]. fold m in Hl, Hc1, Hc2. split; [done|]. clearbody m.
  destruct m as [[ss tu tw prev [pu pw] last cur act] v]. cbn [data samples pending current fst snd] in *.
  destruct o as [[[u w]|] now|]; cbn [step].
  - unfold record_at. cbv zeta. case_match; cbn [version]; [|done]. by intros E%bump_neq.
  - cbn [record_at version]. destruct (_ || _); [by intros E%bump_neq|done].
  - cbn [reset version data current]. destruct (speed_eqb cur Speed_default) eqn:E; cbn [negb]; [|by intros E'%bump_neq].
    intros _. apply speed_eqb_zero in E as ->; done.
Qed.

Lemma version_covers_changes_witness :
  let m := run TrafficMonitor_new [Record_ (Some (0, 0)) 0; Record_ (Some (10, 20)) 2000000000] in
  version (step m (Record_ (Some (11, 20)) 2500000000)) = version m ∧ snapshot (step m (Record_ (Some (11, 20)) 2500000000)) = snapshot m.
Proof.
  split; [by vm_compute|].
  apply (proj2 (version_covers_changes [Record_ (Some (0, 0)) 0; Record_ (Some (10, 20)) 2000000000] (Record_ (Some (11, 20)) 2500000000))).
  by vm_compute.
Defined.

(** A stop shows a speed of zero and keeps the totals; the bytes of the second that has not been shown are not added. *)
Theorem stop_drops_pending m now :
  let d := data (record_at None now m) in
  total_up d = total_up (data m) ∧ total_down d = total_down (data m) ∧ pending d = (0, 0) ∧ previous d = None ∧
  speed_eqb (current d) Speed_default = true.
Proof.
  cbn [record_at data total_up total_down pending previous current]. split_and!; try done.
  destruct (speed_eqb (current (data m)) Speed_default) eqn:E; cbn [negb]; [|rewrite orb_true_r; done]. by case_match.
Qed.
