(* ===== verification/Pac.v ===== *)
(** * [gui/src/pac.rs]: proxy auto-configuration

    The rule lists, the generated file with the function that it gives to a browser,
    and the small HTTP server that serves it.  Times are milliseconds. *)
From S2P Require Import Prelude Std Net Text Link.
#[local] Open Scope Z_scope.

(** ** Lists of domains *)

(** [str::split(char)] and, in the generated file, [String.split]. *)
Fixpoint split_char (c : byte) (s : str) : list str :=
  match s with
  | [] => [[]]
  | d :: s =>
      if decide (d = c) then [] :: split_char c s
      else match split_char c s with x :: xs => (d :: x) :: xs | [] => [[d]] end
  end.

Definition strip_cr (s : str) : str :=
  match last s with Some c => if decide (c = x0d) then take (length s - 1) s else s | None => s end.

(** [str::lines]: a carriage return is removed before a line feed only. *)
Fixpoint line_pieces (pieces : list str) : list str :=
  match pieces with
  | [] => []
  | [last] => if is_empty last then [] else [last]
  | p :: pieces => strip_cr p :: line_pieces pieces
  end.
Definition lines (s : str) : list str := line_pieces (split_char x0a s).

Definition domain_of_line (l : str) : option str :=
  if starts_with (B "regexp:") l || starts_with (B "keyword:") l then None
  else match strip_prefix (B "full:") l with
       | Some d => Some d
       | None =>
           match strip_prefix (B "domain:") l with
           | Some d => Some d
           | None => if contains x3a l then None else Some l
           end
       end.

Definition parse_domain_list (content : str) : list str :=
  omap domain_of_line (filter (λ l, negb (is_empty l) && negb (starts_with (B "#") l)) (lines content)).

Example parse_domain_list_ex :
  parse_domain_list (join [x0a] [B "# comment"; B "baidu.com" ++ [x0d]; []; B "full:qq.com"; B "domain:taobao.com"; B "regexp:^abc"; B "keyword:vpn"; B "x:y"]) =
    [B "baidu.com"; B "qq.com"; B "taobao.com"].
Proof. vm_compute. reflexivity. Qed.

(** A data directory: the contents of the files that can be read as text. *)
Definition load_rules (read_to_string : str → option str) : list str * list str :=
  let read file := match read_to_string file with Some s => parse_domain_list s | None => [] end in
  (read (B "china-list.txt"), read (B "gfw.txt")).

Definition rules_updated_at (mtime : str → option Z) : option Z :=
  a ← mtime (B "china-list.txt"); b ← mtime (B "gfw.txt"); Some (Z.min a b).

(** ** The generated file *)
Inductive PacRuleMode := BypassChina | ProxyGfw.

Definition quote : str := [x22].
Definition quoted (s : str) : str := quote ++ s ++ quote.
Definition unquote (d : str) : str := filter (λ c, c ≠ x22) d.

Definition domains_to_js_object (domains : list str) : str :=
  B "{" ++ join (B ",") ((λ d, quoted (unquote d) ++ B ":1") <$> domains) ++ B "}".

Definition proxy_answer (mixed_addr : str) : str := B "SOCKS5 " ++ mixed_addr ++ B "; PROXY " ++ mixed_addr ++ B "; DIRECT".

Definition pac_file (title table domains_js hit miss : str) : str :=
  join [x0a] [
    B "/* PAC – " ++ title ++ B " (generated by juicity-gui) */";
    B "var " ++ table ++ B " = " ++ domains_js ++ B ";";
    B "function FindProxyForURL(url, host) {";
    B "    host = host.toLowerCase();";
    B "    var parts = host.split('.');";
    B "    for (var i = 0; i < parts.length - 1; i++) {";
    B "        var d = parts.slice(i).join('.');";
    B "        if (" ++ table ++ B "[d]) return " ++ quoted hit ++ B ";";
    B "    }";
    B "    return " ++ quoted miss ++ B ";";
    B "}"].

Definition generate_bypass_china_pac (mixed_addr : str) (direct_domains : list str) : str :=
  pac_file (B "Bypass China") (B "directDomains") (domains_to_js_object direct_domains) (B "DIRECT") (proxy_answer mixed_addr).

Definition generate_proxy_gfw_pac (mixed_addr : str) (proxy_domains : list str) : str :=
  pac_file (B "GFW List Only") (B "proxyDomains") (domains_to_js_object proxy_domains) (proxy_answer mixed_addr) (B "DIRECT").

Definition generate_pac (mode : PacRuleMode) (mixed_addr : str) (direct proxy : list str) : str :=
  match mode with
  | BypassChina => generate_bypass_china_pac mixed_addr direct
  | ProxyGfw => generate_proxy_gfw_pac mixed_addr proxy
  end.

(** *** Reading the file as a browser does *)

(** Escapes that stand for the character itself; the others are not read here. *)
Definition self_escape (c : byte) : bool := negb (bool_decide (c ∈ B "bfnrtvxu0123456789" ++ [x0a; x0d])).

(** The rest of a string literal after its opening quote. *)
Fixpoint js_string (s : str) : option (str * str) :=
  match s with
  | [] => None
  | c :: r =>
      if decide (c = x22) then Some ([], r)
      else if decide (c = x0a ∨ c = x0d) then None
      else if decide (c = x5c) then
        match r with
        | d :: r => if self_escape d then '(t, r) ← js_string r; Some (d :: t, r) else None
        | [] => None
        end
      else '(t, r) ← js_string r; Some (c :: t, r)
  end.

(** Entries with the value one, after the opening brace. *)
Fixpoint js_entries (fuel : nat) (s : str) : option (list str * str) :=
  match fuel with
  | O => None
  | S fuel =>
      r ← strip_prefix quote s;
      '(key, r) ← js_string r;
      r ← strip_prefix (B ":1") r;
      match r with
      | c :: r =>
          if decide (c = x7d) then Some ([key], r)
          else if decide (c = x2c) then '(keys, r) ← js_entries fuel r; Some (key :: keys, r)
          else None
      | [] => None
      end
  end.

Definition js_object (s : str) : option (list str * str) :=
  r ← strip_prefix (B "{") s;
  match strip_prefix (B "}") r with Some r => Some ([], r) | None => js_entries (length r) r end.

(** The file's table, and what it returns for a name of the table and otherwise; [None] for a text that is not one of
    the two programs with an object and two string literals in their places. *)
Definition read_program (title table s : str) : option (list str * str * str) :=
  r ← strip_prefix (B "/* PAC – " ++ title ++ B " (generated by juicity-gui) */" ++ [x0a] ++ B "var " ++ table ++ B " = ") s;
  '(domains, r) ← js_object r;
  r ← strip_prefix (join [x0a] [
        B ";";
        B "function FindProxyForURL(url, host) {";
        B "    host = host.toLowerCase();";
        B "    var parts = host.split('.');";
        B "    for (var i = 0; i < parts.length - 1; i++) {";
        B "        var d = parts.slice(i).join('.');";
        B "        if (" ++ table ++ B "[d]) return " ++ quote]) r;
  '(hit, r) ← js_string r;
  r ← strip_prefix (join [x0a] [B ";"; B "    }"; B "    return " ++ quote]) r;
  '(miss, r) ← js_string r;
  if decide (r = join [x0a] [B ";"; B "}"]) then Some (domains, hit, miss) else None.

Definition read_pac (file : str) : option (list str * str * str) :=
  match read_program (B "Bypass China") (B "directDomains") file with
  | Some p => Some p
  | None => read_program (B "GFW List Only") (B "proxyDomains") file
  end.

(** The loop of the program.  [d] has a dot, so only the file's own entries are properties of that name. *)
Fixpoint find_from (table : list str) (hit miss : str) (parts : list str) : str :=
  match parts with
  | p :: ((_ :: _) as rest) => if decide (join (B ".") parts ∈ table) then hit else find_from table hit miss rest
  | _ => miss
  end.

(** [FindProxyForURL] of a file; [None] for a host that is not ASCII, whose [toLowerCase] is not [ascii_lowercase]. *)
Definition FindProxyForURL (file host : str) : option str :=
  '(table, hit, miss) ← read_pac file;
  if forallb is_ascii host then Some (find_from table hit miss (split_char x2e (ascii_lowercase host))) else None.

(** ** The server *)
Fixpoint has_sub (pat s : str) : bool :=
  starts_with pat s || match s with [] => false | _ :: s => has_sub pat s end.

Definition complete (head : str) : bool := has_sub [x0a; x0a] head || has_sub [x0a; x0d; x0a] head.

Definition READ_TIMEOUT : Z := 2000.

(** A read and the time that it took; [None] is an error, the timeout for one. *)
Definition Read : Type := Z * option str.

(** The head, and the time spent. *)
Fixpoint read_request_head (head : str) (reads : list Read) : str * Z :=
  if (8192 <=? Z.of_nat (length head)) || complete head then (head, 0)
  else
    match reads with
    | (t, Some ((_ :: _) as buf)) :: reads => let '(h, t') := read_request_head (head ++ buf) reads in (h, t + t')
    | (t, _) :: _ => (head, t)
    | [] => (head, 0)
    end.

Definition crlf : str := [x0d; x0a].

Definition response (pac : str) : str :=
  B "HTTP/1.0 200 OK" ++ crlf ++ B "Content-Type: application/x-ns-proxy-autoconfig" ++ crlf ++
  B "Content-Length: " ++ show_dec (Z.of_nat (length pac)) ++ crlf ++ B "Connection: close" ++ crlf ++ crlf ++ pac.

Record PacServer := mkServer {
  content : str;
  stop : bool;
  thread : bool;
  listening : bool;
  responses : list str;
}.

Definition start (initial_content : str) : PacServer := mkServer initial_content false true true [].

Inductive Event :=
  | EConnection (accepted : bool)
  | EUpdate (new_content : str)
  | EShutdown (wake : bool).

(** One pass of the accept loop. *)
Definition incoming (accepted : bool) (s : PacServer) : PacServer :=
  if listening s then
    if stop s then mkServer (content s) (stop s) (thread s) false (responses s)
    else if accepted then mkServer (content s) (stop s) (thread s) (listening s) (responses s ++ [response (content s)])
    else s
  else s.

(** [wake] tells whether the local connection succeeds. *)
Definition shutdown (wake : bool) (s : PacServer) : PacServer :=
  if thread s then
    let s := mkServer (content s) true false (listening s) (responses s) in
    if wake then incoming true s else s
  else s.

Definition update (new_content : str) (s : PacServer) : PacServer :=
  mkServer new_content (stop s) (thread s) (listening s) (responses s).

Definition step (s : PacServer) (e : Event) : PacServer :=
  match e with
  | EConnection accepted => incoming accepted s
  | EUpdate new_content => update new_content s
  | EShutdown wake => shutdown wake s
  end.

Definition run (s : PacServer) (es : list Event) : PacServer := foldl step s es.

(** ** Which hosts match *)
Lemma split_char_ne c s : split_char c s ≠ [].
Proof. destruct s as [|d s]; [done|]. cbn. case_decide; [done|]. by destruct (split_char c s). Qed.

Lemma join_cons sep p q l : join sep (p :: q :: l) = p ++ sep ++ join sep (q :: l).
Proof. done. Qed.

Lemma join_split_char c s : join [c] (split_char c s) = s.
Proof.
  induction s as [|d s IH]; [done|]. cbn [split_char]. pose proof (split_char_ne c s) as Hn. case_decide as E.
  - subst d. destruct (split_char c s) as [|x xs]; [done|]. rewrite join_cons, IH. done.
  - destruct (split_char c s) as [|x xs]; [done|]. destruct xs as [|y xs]; [cbn in *; by rewrite IH|].
    rewrite join_cons in *. rewrite <-IH. done.
Qed.

Lemma split_char_parts c s : Forall (λ p, c ∉ p) (split_char c s).
Proof.
  induction s as [|d s IH]; cbn [split_char]; [repeat constructor; apply not_elem_of_nil|]. case_decide as E.
  - constructor; [apply not_elem_of_nil|done].
  - destruct (split_char c s) as [|x xs]; [repeat constructor; by intros ->%list_elem_of_singleton|]. apply Forall_cons in IH as [Hx Hxs].
    constructor; [|done]. by apply not_elem_of_cons.
Qed.

(** [d] is [h] or one of the domains above it. *)
Definition domain_of (d h : str) : Prop := h = d ∨ ∃ a, h = a ++ B "." ++ d.

Lemma find_from_spec table hit miss parts :
  hit ≠ miss → parts ≠ [] → Forall (λ p, x2e ∉ p) parts →
  find_from table hit miss parts = hit ↔ ∃ d, d ∈ table ∧ x2e ∈ d ∧ domain_of d (join (B ".") parts).
Proof.
  intros Hhm. induction parts as [|p parts IH]; intros Hn Hp; [done|]. apply Forall_cons in Hp as [Hp Hps].
  destruct parts as [|q parts].
  - cbn [find_from]. split; [by intros E; destruct Hhm|]. intros (d & _ & Hd & [E|[a E]]); cbn [join] in E; subst p; exfalso; apply Hp; [done|].
    rewrite !elem_of_app. by right; right.
  - specialize (IH ltac:(done) Hps). change (find_from table hit miss (p :: q :: parts)) with
      (if decide (join (B ".") (p :: q :: parts) ∈ table) then hit else find_from table hit miss (q :: parts)).
    rewrite join_cons. set (J := join (B ".") (q :: parts)) in *. case_decide as Ed.
    + split; [|done]. intros _. exists (p ++ B "." ++ J). split_and!; [done| |by left]. rewrite !elem_of_app. right; left. by apply contains_true.
    + rewrite IH. split.
      * intros (d & Hd & Hdot & Hdom). exists d. split_and!; [done..|]. right. destruct Hdom as [->|[a ->]]; [by exists p|].
        exists (p ++ B "." ++ a). by rewrite <-!app_assoc.
      * intros (d & Hd & Hdot & [E|[a E]]); [by subst d|]. exists d. split_and!; [done..|].
        apply app_eq_inv in E as [(k & -> & E)|(k & -> & E)].
        -- destruct k as [|c k]; [cbn in E; injection E as E; by left|]. exfalso. injection E as <- _. apply Hp. rewrite elem_of_app. right. by left.
        -- destruct k as [|c k]; [cbn in E; injection E as E; by left|]. injection E as <- E. right. by exists k.
Qed.

Lemma find_from_either table hit miss parts : find_from table hit miss parts = hit ∨ find_from table hit miss parts = miss.
Proof. induction parts as [|p [|q parts] IH]; [by right|by right|]. cbn [find_from]. case_decide; [by left|done]. Qed.

Lemma answers_differ mixed_addr : proxy_answer mixed_addr ≠ B "DIRECT".
Proof. done. Qed.

(** ** What a browser reads *)

Definition clean (d : str) : Prop := x5c ∉ d ∧ x0a ∉ d ∧ x0d ∉ d.

Lemma js_string_skip d s : clean d → x22 ∉ d → js_string (d ++ s) = '(t, r) ← js_string s; Some (d ++ t, r).
Proof.
  unfold clean. induction d as [|c d IH]; intros (H1 & H2 & H3) H4; [cbn [app]; by destruct (js_string s) as [[]|]|].
  apply not_elem_of_cons in H1 as [? H1], H2 as [? H2], H3 as [? H3], H4 as [? H4]. cbn [app js_string].
  rewrite decide_False, decide_False, decide_False by naive_solver. rewrite IH by done. by destruct (js_string s) as [[]|].
Qed.

Lemma js_string_clean d r : clean d → x22 ∉ d → js_string (d ++ quote ++ r) = Some (d, r).
Proof.
  intros Hc Hq. rewrite js_string_skip by done. change (quote ++ r) with (x22 :: r). cbn [js_string]. rewrite decide_True by done.
  cbn [mbind option_bind]. by rewrite app_nil_r.
Qed.

Lemma unquote_clean d : clean d → clean (unquote d) ∧ x22 ∉ unquote d.
Proof. unfold clean, unquote. rewrite !list_elem_of_filter. naive_solver. Qed.

Lemma js_entries_clean ds fuel r :
  ds ≠ [] → Forall clean ds → (length ds ≤ fuel)%nat →
  js_entries fuel (join (B ",") ((λ d, quoted (unquote d) ++ B ":1") <$> ds) ++ B "}" ++ r) = Some (unquote <$> ds, r).
Proof.
  intros Hn Hc. revert fuel Hn. induction Hc as [|d ds [Hd Hq]%unquote_clean Hds IH]; intros fuel Hn Hf; [done|].
  destruct fuel as [|fuel]; [simpl in Hf; lia|]. destruct ds as [|d' ds]; rewrite ?fmap_cons.
  - cbn [fmap list_fmap join js_entries]. unfold quoted. rewrite <-!app_assoc, strip_prefix_app. cbn [mbind option_bind].
    rewrite js_string_clean by done. cbn [mbind option_bind]. by rewrite strip_prefix_app.
  - rewrite join_cons. cbn [js_entries]. unfold quoted at 1. rewrite <-!app_assoc, strip_prefix_app. cbn [mbind option_bind].
    rewrite js_string_clean by done. cbn [mbind option_bind]. rewrite strip_prefix_app. cbn [mbind option_bind].
    change (B "," ++ ?s) with (x2c :: s). cbn iota. rewrite decide_False, decide_True by done.
    rewrite <-fmap_cons, IH; [done|done|simpl in *; lia].
Qed.

Lemma line_pieces_elem pieces l c : l ∈ line_pieces pieces → c ∈ l → ∃ p, p ∈ pieces ∧ c ∈ p.
Proof.
  induction pieces as [|p [|q pieces] IH]; cbn [line_pieces]; [by intros ?%elem_of_nil|..].
  - destruct (is_empty p); [by intros ?%elem_of_nil|]. intros ->%list_elem_of_singleton Hc. exists p. split; [by left|done].
  - intros [->|Hl]%elem_of_cons Hc.
    + exists p. split; [by left|]. unfold strip_cr in Hc. destruct (last p); [case_decide|]; [|done..]. by eapply elem_of_take in Hc as (i & Hi & _); apply list_elem_of_lookup_2 in Hi.
    + destruct (IH Hl Hc) as (p' & Hp' & ?). exists p'. split; [by right|done].
Qed.

Lemma parse_domain_list_line content d : d ∈ parse_domain_list content → x0a ∉ d.
Proof.
  unfold parse_domain_list. intros (l & Hl & E)%list_elem_of_omap Hd. apply list_elem_of_filter in Hl as [_ Hl].
  assert (x0a ∈ l) as Hin.
  { unfold domain_of_line in E. destruct (_ || _); [done|]. destruct (strip_prefix (B "full:") l) as [d1|] eqn:E1.
    - injection E as ->. apply strip_prefix_Some in E1 as ->. rewrite elem_of_app. by right.
    - destruct (strip_prefix (B "domain:") l) as [d2|] eqn:E2; [injection E as ->; apply strip_prefix_Some in E2 as ->; rewrite elem_of_app; by right|].
      destruct (contains x3a l); [done|]. by injection E as ->. }
  destruct (line_pieces_elem _ _ _ Hl Hin) as (p & Hp & Hc). pose proof (split_char_parts x0a content) as Hf. rewrite Forall_forall in Hf. by eapply Hf.
Qed.

Lemma entries_length ds : (length ds ≤ length (join (B ",") ((λ d, quoted (unquote d) ++ B ":1") <$> ds)))%nat.
Proof.
  induction ds as [|d [|d' ds] IH]; [simpl; lia|cbn; lia|]. rewrite !fmap_cons, join_cons, !length_app. rewrite fmap_cons in IH.
  change (length (d :: d' :: ds)) with (S (length (d' :: ds))). change (length (B ",")) with 1%nat. lia.
Qed.

Lemma js_object_clean ds rest : Forall clean ds → js_object (domains_to_js_object ds ++ rest) = Some (unquote <$> ds, rest).
Proof.
  intros Hall. unfold js_object, domains_to_js_object. rewrite <-!app_assoc, strip_prefix_app. cbn [mbind option_bind].
  destruct ds as [|d ds]; [done|]. assert (∀ r, strip_prefix (B "}") (join (B ",") ((λ d, quoted (unquote d) ++ B ":1") <$> d :: ds) ++ r) = None) as ->.
  { intros r. by destruct ds. }
  apply js_entries_clean; [done|done|]. rewrite length_app. pose proof (entries_length (d :: ds)). lia.
Qed.

Lemma read_program_file title table ds hit miss :
  Forall clean ds → clean hit → x22 ∉ hit → clean miss → x22 ∉ miss →
  read_program title table (pac_file title table (domains_to_js_object ds) hit miss) = Some (unquote <$> ds, hit, miss).
Proof.
  intros Hds Hh Hh' Hm Hm'.
  assert (pac_file title table (domains_to_js_object ds) hit miss =
    (B "/* PAC – " ++ title ++ B " (generated by juicity-gui) */" ++ [x0a] ++ B "var " ++ table ++ B " = ") ++
    domains_to_js_object ds ++
    join [x0a] [B ";"; B "function FindProxyForURL(url, host) {"; B "    host = host.toLowerCase();"; B "    var parts = host.split('.');";
      B "    for (var i = 0; i < parts.length - 1; i++) {"; B "        var d = parts.slice(i).join('.');";
      B "        if (" ++ table ++ B "[d]) return " ++ quote] ++
    hit ++ quote ++ join [x0a] [B ";"; B "    }"; B "    return " ++ quote] ++
    miss ++ quote ++ join [x0a] [B ";"; B "}"]) as ->.
  { unfold pac_file, quoted. cbn [join]. rewrite <-!app_assoc. reflexivity. }
  unfold read_program. rewrite strip_prefix_app. cbn [mbind option_bind].
  rewrite js_object_clean by done. cbn [mbind option_bind]. rewrite strip_prefix_app. cbn [mbind option_bind].
  rewrite js_string_clean by done. cbn [mbind option_bind]. rewrite strip_prefix_app. cbn [mbind option_bind].
  rewrite js_string_clean by done. cbn [mbind option_bind]. by rewrite decide_True.
Qed.

(** What a mode lists, and what its file says for a listed domain and for the others. *)
Definition listed (mode : PacRuleMode) (direct proxy : list str) : list str :=
  match mode with BypassChina => direct | ProxyGfw => proxy end.
Definition hit_answer (mode : PacRuleMode) (mixed_addr : str) : str :=
  match mode with BypassChina => B "DIRECT" | ProxyGfw => proxy_answer mixed_addr end.
Definition miss_answer (mode : PacRuleMode) (mixed_addr : str) : str :=
  match mode with BypassChina => proxy_answer mixed_addr | ProxyGfw => B "DIRECT" end.

Lemma proxy_answer_clean m : clean m → x22 ∉ m → clean (proxy_answer m) ∧ x22 ∉ proxy_answer m.
Proof.
  unfold clean, proxy_answer. intros (? & ? & ?) ?. rewrite !not_elem_of_app. split_and!; try done; by apply contains_false.
Qed.

Lemma read_generated mode mixed_addr direct proxy :
  Forall clean (listed mode direct proxy) → clean mixed_addr → x22 ∉ mixed_addr →
  read_pac (generate_pac mode mixed_addr direct proxy) =
    Some (unquote <$> listed mode direct proxy, hit_answer mode mixed_addr, miss_answer mode mixed_addr).
Proof.
  intros Hl Hm Hq. destruct (proxy_answer_clean mixed_addr Hm Hq) as [Hp Hp'].
  assert (clean (B "DIRECT") ∧ x22 ∉ B "DIRECT") as [Hd Hd'] by (unfold clean; split_and!; by apply contains_false).
  unfold read_pac. destruct mode; cbn [listed hit_answer miss_answer generate_pac] in *.
  - unfold generate_bypass_china_pac. by rewrite read_program_file.
  - unfold generate_proxy_gfw_pac. assert (∀ ds a b,
      read_program (B "Bypass China") (B "directDomains") (pac_file (B "GFW List Only") (B "proxyDomains") ds a b) = None) as -> by done.
    by rewrite read_program_file.
Qed.

(** C37: a browser that reads the generated file with a rule list whose entries hold no backslash or line end, and an
    address without them and without a quote, answers every ASCII host: the file is a program, and it gives the answer for
    listed hosts (directly in the mode that spares the direct list, through the proxy in the other mode) exactly
    when a domain of the list that has a dot is the host or a domain above it, and the opposite answer otherwise;
    an entry without a dot never matches, and one marked [full:] in the rule list is a domain like the others. *)
Theorem pac_decides mode mixed_addr direct proxy host :
  Forall clean (listed mode direct proxy) → clean mixed_addr → x22 ∉ mixed_addr → forallb is_ascii host = true →
  ∃ answer, FindProxyForURL (generate_pac mode mixed_addr direct proxy) host = Some answer ∧
    (answer = B "DIRECT" ∨ answer = proxy_answer mixed_addr) ∧
    (answer = match mode with BypassChina => B "DIRECT" | ProxyGfw => proxy_answer mixed_addr end ↔
       ∃ d, d ∈ match mode with BypassChina => direct | ProxyGfw => proxy end ∧
         x2e ∈ unquote d ∧ domain_of (unquote d) (ascii_lowercase host)).
Proof.
  intros Hl Hm Hq Ha. unfold FindProxyForURL. rewrite read_generated by done. cbn [mbind option_bind]. rewrite Ha.
  eexists. split; [done|]. fold (hit_answer mode mixed_addr) (listed mode direct proxy). split.
  - destruct (find_from_either (unquote <$> listed mode direct proxy) (hit_answer mode mixed_addr) (miss_answer mode mixed_addr)
      (split_char x2e (ascii_lowercase host))) as [->| ->]; destruct mode; auto.
  - rewrite find_from_spec; [|by destruct mode|apply split_char_ne|apply split_char_parts].
    change (B ".") with [x2e]. rewrite join_split_char. split.
    + intros (d & (d' & -> & Hd)%list_elem_of_fmap & H). by exists d'.
    + intros (d & Hd & H). exists (unquote d). split; [by apply list_elem_of_fmap_2|done].
Qed.

Lemma pac_decides_witness :
  FindProxyForURL (generate_pac BypassChina (B "127.0.0.1:1080") [B "qq.com"; B "cn"] []) (B "IM.QQ.com") = Some (B "DIRECT") ∧
  FindProxyForURL (generate_pac BypassChina (B "127.0.0.1:1080") [B "qq.com"; B "cn"] []) (B "x.cn") =
    Some (B "SOCKS5 127.0.0.1:1080; PROXY 127.0.0.1:1080; DIRECT").
Proof.
  assert (∀ s, contains x5c s = false → contains x0a s = false → contains x0d s = false → clean s) as Hc
    by (intros s ? ? ?; split_and!; by apply contains_false).
  split; [|by vm_compute].
  destruct (pac_decides BypassChina (B "127.0.0.1:1080") [B "qq.com"; B "cn"] [] (B "IM.QQ.com")) as (a & E & _ & H).
  - repeat constructor; by apply Hc.
  - by apply Hc.
  - by apply contains_false.
  - by vm_compute.
  - rewrite E. f_equal. apply H. exists (B "qq.com"). split_and!; [by left|by apply contains_true|]. right. by exists (B "im").
Defined.

(** The table of the file is read by a JavaScript engine as exactly the domains of the rule list, when no entry has a
    backslash or a carriage return; an entry that ends in a backslash takes the closing quote into its name, and
    the entry after it is read as program text. *)
Theorem pac_table_reads content rest :
  (∀ d, d ∈ parse_domain_list content → x5c ∉ d ∧ x0d ∉ d) →
  js_object (domains_to_js_object (parse_domain_list content) ++ rest) = Some (unquote <$> parse_domain_list content, rest) ∧
  ∀ a p, clean a →
    domains_to_js_object [a ++ [x5c]; p] = B "{" ++ quote ++ (unquote a ++ [x5c]) ++ quote ++ B ":1," ++ quote ++ unquote p ++ quote ++ B ":1}" ∧
    js_string ((unquote a ++ [x5c]) ++ quote ++ B ":1," ++ quote ++ unquote p ++ quote ++ B ":1}") =
      Some (unquote a ++ quote ++ B ":1,", unquote p ++ quote ++ B ":1}").
Proof.
  intros Hc. split.
  - apply js_object_clean, Forall_forall. intros d Hd. destruct (Hc d Hd). split_and!; [done| |done]. by eapply parse_domain_list_line.
  - intros a p Ha. split.
    + unfold domains_to_js_object, quoted. cbn [fmap list_fmap join]. assert (unquote (a ++ [x5c]) = unquote a ++ [x5c]) as -> by (unfold unquote; by rewrite filter_app).
      by rewrite <-!app_assoc.
    + destruct (unquote_clean a Ha) as [Hu Hq]. rewrite <-app_assoc, js_string_skip by done. done.
Qed.

Lemma pac_table_reads_witness :
  js_object (domains_to_js_object (parse_domain_list (join [x0a] [B "full:qq.com"; B "a" ++ [x22] ++ B "b.cn"])) ++ B ";") = Some ([B "qq.com"; B "ab.cn"], B ";").
Proof.
  etrans; [refine (proj1 (pac_table_reads (join [x0a] [B "full:qq.com"; B "a" ++ [x22] ++ B "b.cn"]) (B ";") _))|by vm_compute].
  intros d Hd. assert (parse_domain_list (join [x0a] [B "full:qq.com"; B "a" ++ [x22] ++ B "b.cn"]) = [B "qq.com"; B "a" ++ [x22] ++ B "b.cn"]) as E by (by vm_compute).
  rewrite E in Hd. apply elem_of_cons in Hd as [->|Hd]; [|apply list_elem_of_singleton in Hd as ->]; split; by apply contains_false.
Defined.

(** ** The head of a request *)
Lemma read_request_head_bounds head reads :
  Forall (λ '(t, r), 0 <= t <= READ_TIMEOUT ∧ match r with Some buf => (length buf ≤ 512)%nat | None => True end) reads →
  Z.of_nat (length head) < 8192 + 512 →
  let '(h, t) := read_request_head head reads in
  Z.of_nat (length h) < 8192 + 512 ∧ 0 <= t <= READ_TIMEOUT * (1 + Z.max 0 (8192 - Z.of_nat (length head))).
Proof.
  intros Hr. revert head. unfold READ_TIMEOUT in *. induction Hr as [|[t [[|c buf]|]] reads [Ht Hb] Hr IH]; intros head Hh; cbn [read_request_head].
  - destruct (_ || _); lia.
  - destruct (_ || _); lia.
  - destruct (8192 <=? Z.of_nat (length head)) eqn:E; [cbn [orb]; lia|]. apply Z.leb_gt in E. cbn [orb]. destruct (complete head); [cbn iota beta; lia|].
    specialize (IH (head ++ c :: buf)). rewrite length_app in IH. cbn [length] in IH, Hb. specialize (IH ltac:(lia)).
    destruct (read_request_head (head ++ c :: buf) reads) as [h t'] eqn:Eh. lia.
  - destruct (_ || _); lia.
Qed.

Lemma has_sub_first pat c s : has_sub (c :: pat) s = true → c ∈ s.
Proof.
  induction s as [|d s IH]; cbn [has_sub]; intros H; [done|]. apply orb_true_iff in H as [H|H]; [|right; by apply IH].
  unfold starts_with in H. apply bool_decide_eq_true in H as [r Hr]. apply strip_prefix_Some in Hr. injection Hr as -> _. by left.
Qed.

Lemma slow_head n k t :
  Z.of_nat (n + k) <= 8192 → read_request_head (replicate n x41) (replicate k (t, Some [x41])) = (replicate (n + k) x41, Z.of_nat k * t).
Proof.
  revert n. induction k as [|k IH]; intros n Hn; cbn [replicate read_request_head].
  - rewrite Nat.add_0_r. by case_match.
  - rewrite length_replicate. replace (8192 <=? Z.of_nat n) with false by (symmetry; apply Z.leb_gt; lia). cbn [orb].
    assert (complete (replicate n x41) = false) as ->.
    { apply not_true_iff_false. unfold complete. intros [H|H]%orb_true_iff; apply has_sub_first in H;
        apply elem_of_replicate in H as [H _]; done. }
    change [x41] with (replicate 1 x41). rewrite <-replicate_add, IH by lia. replace (n + 1 + k)%nat with (n + S k)%nat by lia. f_equal. lia.
Qed.

(** The head of a request is read until the blank line, and less than 8704 bytes of it; reading takes at most 2 s for
    every byte up to 8192 and 2 s more, and a client that sends a byte at a time makes it take that long. *)
Theorem request_head_bounds reads :
  Forall (λ '(t, r), 0 <= t <= READ_TIMEOUT ∧ match r with Some buf => (length buf ≤ 512)%nat | None => True end) reads →
  (Z.of_nat (length (read_request_head [] reads).1) < 8192 + 512 ∧ 0 <= (read_request_head [] reads).2 <= READ_TIMEOUT * 8193) ∧
  ∀ t, (read_request_head [] (replicate (Z.to_nat 8192) (t, Some [x41]))).2 = 8192 * t.
Proof.
  intros Hr. split.
  - pose proof (read_request_head_bounds [] reads Hr ltac:(done)) as H. destruct (read_request_head [] reads) as [h t]. cbn in *. lia.
  - intros t. pose proof (slow_head 0 (Z.to_nat 8192) t ltac:(lia)) as E. change (replicate 0 x41) with (@nil byte) in E. rewrite E.
    cbn [snd]. by rewrite Z2Nat.id by done.
Qed.

Lemma request_head_bounds_witness :
  (read_request_head [] [(3, Some (B "GET /pac HTTP/1.1" ++ crlf)); (5, Some crlf); (7, Some (B "x"))]).2 = 8 ∧
  (read_request_head [] (replicate (Z.to_nat 8192) (1999, Some [x41]))).2 = 8192 * 1999.
Proof.
  split; [by vm_compute|]. apply (proj2 (request_head_bounds [(0, None)] ltac:(repeat constructor; unfold READ_TIMEOUT; lia))).
Defined.

(** ** What is served *)

(** The content after a series of events. *)
Definition latest (c : str) (es : list Event) : str := foldl (λ c e, match e with EUpdate new_content => new_content | _ => c end) c es.

Lemma content_latest s es : content (run s es) = latest (content s) es.
Proof.
  revert s. induction es as [|e es IH]; intros s; [done|]. cbn [run foldl latest]. fold (run (step s e) es). rewrite IH.
  unfold latest. f_equal. destruct e as [a|c|w]; [|done|]; cbn [step]; unfold shutdown, incoming; destruct s as [? [] [] [] ?]; destruct a || destruct w; done.
Qed.

Definition no_shutdown (es : list Event) : Prop := Forall (λ e, match e with EShutdown _ => False | _ => True end) es.

Lemma run_open s es : no_shutdown es → stop s = false → thread s = true → listening s = true →
  stop (run s es) = false ∧ thread (run s es) = true ∧ listening (run s es) = true.
Proof.
  intros Hes. revert s. induction Hes as [|e es He Hes IH]; intros s H1 H2 H3; [done|]. cbn [run foldl]. fold (run (step s e) es).
  apply IH; destruct e as [a|c|w]; try done; cbn [step]; unfold incoming; rewrite ?H1, ?H3; by destruct a.
Qed.

Lemma run_closed s es : listening s = false → listening (run s es) = false ∧ responses (run s es) = responses s.
Proof.
  revert s. induction es as [|e es IH]; intros s Hl; [done|]. cbn [run foldl]. fold (run (step s e) es).
  assert (listening (step s e) = false ∧ responses (step s e) = responses s) as [H1 H2].
  { destruct e as [a|c|w]; cbn [step]; [unfold incoming; by rewrite Hl|done|]. unfold shutdown. destruct (thread s); [|done].
    destruct w; [|done]. unfold incoming. cbn [listening]. by rewrite Hl. }
  rewrite <-H2. by apply IH.
Qed.

(** Until it is shut down the server answers every accepted connection with the content of the latest update; a
    shutdown whose own connection succeeds closes the socket, and nothing is answered after it. *)
Theorem pac_server_serves c es :
  no_shutdown es →
  responses (step (run (start c) es) (EConnection true)) = responses (run (start c) es) ++ [response (latest c es)] ∧
  ∀ es', let s := run (step (run (start c) es) (EShutdown true)) es' in
    listening s = false ∧ responses s = responses (run (start c) es).
Proof.
  intros Hes. destruct (run_open (start c) es Hes) as (H1 & H2 & H3); [done..|]. split.
  - cbn [step]. unfold incoming. rewrite H1, H3. cbn [responses]. by rewrite content_latest.
  - intros es'. set (s0 := run (start c) es) in *. cbn [step]. unfold shutdown. rewrite H2. unfold incoming. cbn [listening stop]. rewrite H3.
    cbn [content stop thread responses]. apply (run_closed (mkServer (content s0) true false false (responses s0))). done.
Qed.

Lemma pac_server_serves_witness :
  responses (run (start (B "a")) [EConnection true; EUpdate (B "b"); EConnection true; EShutdown true; EConnection true]) =
    [response (B "a"); response (B "b")].
Proof.
  apply (proj2 (proj2 (pac_server_serves (B "a") [EConnection true; EUpdate (B "b"); EConnection true] ltac:(by repeat constructor)) [EConnection true])).
Defined.
