(* ===== verification/Storage.v ===== *)
(** * [gui/src/config.rs] and [gui/src/state.rs]: the files of the graphical client

    The settings, their three files, the replacement of a file through a temporary
    one, and the state that is loaded at the start.  A disk maps paths to contents;
    which call of the operating system fails is an argument. *)
From S2P Require Import Prelude Std Net Text Link Profile Pac.
#[local] Open Scope Z_scope.

(** ** Settings *)
Inductive SystemProxyMode := PDisable | PPac | PGlobal.
Inductive PacMode := Local | Online.
Inductive StartupConnectionState := SOff | SOn | SLastState.
Inductive LanguagePreference := LFollowSystem | LEn | LZhCn | LZhTw | LRu.
Inductive AppearancePreference := AFollowSystem | ALight | ADark.

Record AppConfig := mkAppConfig {
  mixed_listen : str;
  system_proxy_mode : SystemProxyMode;
  pac_mode : PacMode;
  pac_rule_mode : PacRuleMode;
  pac_listen : str;
  online_pac_url : option str;
  pac_direct_url : str;
  pac_proxy_url : str;
  pac_auto_update_hours : Z;
}.

Definition AppConfig_default : AppConfig :=
  mkAppConfig (B "127.0.0.1:1080") PDisable Local BypassChina (B "127.0.0.1:1090") None
    (B "https://raw.githubusercontent.com/Loyalsoldier/v2ray-rules-dat/release/direct-list.txt")
    (B "https://raw.githubusercontent.com/Loyalsoldier/v2ray-rules-dat/release/proxy-list.txt") 0.

(** [ProfileStore] has the list of profiles as its only field. *)
Definition ProfileStore : Type := list ProxyProfile.

Record RuntimeState := mkRuntime {
  language : LanguagePreference;
  appearance : AppearancePreference;
  auto_start : bool;
  selected_profile : nat;
  close_to_tray : bool;
  hide_window_on_startup : bool;
  startup_connection_state : StartupConnectionState;
  was_running : bool;
}.

Definition RuntimeState_default : RuntimeState := mkRuntime LFollowSystem AFollowSystem false 0 true false SOff false.

Definition with_selected (i : nat) (r : RuntimeState) : RuntimeState :=
  mkRuntime (language r) (appearance r) (auto_start r) i (close_to_tray r) (hide_window_on_startup r) (startup_connection_state r) (was_running r).

(** [serde_json::to_vec_pretty] and [serde_json::from_slice]. *)
Class Codec (A : Type) := { encode : A → result str; decode : str → result A }.
Class CodecLaws (A : Type) `{Codec A} : Prop := { decode_encode a s : encode a = Ok s → decode s = Ok a }.

(** ** Paths *)

(** [Path::with_extension]. *)
Definition with_extension (ext path : str) : str :=
  let start := match rfind x2f path with Some i => (i + 1)%nat | None => O end in
  let name := drop start path in
  let stem := match rfind x2e name with Some (S i) => take (S i) name | _ => name end in
  take start path ++ stem ++ B "." ++ ext.

Inductive ConfigFile := App | Profiles | Runtime.
#[export] Instance ConfigFile_eq_dec : EqDecision ConfigFile.
Proof. solve_decision. Defined.

(** [ConfigFile::ALL]. *)
Definition ALL : list ConfigFile := [App; Profiles; Runtime].

Definition file_name (f : ConfigFile) : str :=
  match f with App => B "app.json" | Profiles => B "profiles.json" | Runtime => B "runtime.json" end.

Definition path (dir : str) (f : ConfigFile) : str := dir ++ B "/" ++ file_name f.

(** ** Replacing a file *)
Definition Disk : Type := gmap str str.

(** The call that fails; a write may leave a part of the payload. *)
Inductive Fault := CreateDirFails | CreateFails | WriteFails (written : nat) | SyncFails | RenameFails.

Definition io_error : error := EMsg (B "failed").

(** The disk after each call, oldest first, and the result.  It is the disk that the system shows to programs, as after a
    crash of the process; [sync_all] changes nothing of it, and a loss of power is not modelled. *)
Definition write_atomic_trace (fault : option Fault) (p payload : str) (d : Disk) : list Disk * result unit :=
  let tmp := with_extension (B "tmp") p in
  match fault with
  | Some CreateDirFails | Some CreateFails => ([d], Err io_error)
  | Some (WriteFails n) => ([d; <[tmp := []]> d; <[tmp := take n payload]> d], Err io_error)
  | Some SyncFails => ([d; <[tmp := []]> d; <[tmp := payload]> d], Err io_error)
  | Some RenameFails => ([d; <[tmp := []]> d; <[tmp := payload]> d; <[tmp := payload]> d], Err io_error)
  | None => ([d; <[tmp := []]> d; <[tmp := payload]> d; <[p := payload]> (delete tmp d)], Ok tt)
  end.

Definition write_atomic (fault : option Fault) (p payload : str) (d : Disk) : Disk * result unit :=
  let '(ds, r) := write_atomic_trace fault p payload d in (default d (last ds), r).

(** ** Loading *)
Section load.
Context `{Codec AppConfig, Codec ProfileStore, Codec RuntimeState}.

Definition load_with_bytes `{Codec A} (dflt : A) (p : str) (d : Disk) : result (A * option str) :=
  match d !! p with
  | None => Ok (dflt, None)
  | Some content => value ← decode content; Ok (value, Some content)
  end.

(** A file that cannot be loaded is moved aside; the move may fail. *)
Definition load_or_recover {A} (dflt : A) (p : str) (rename_ok : bool) (loaded : result (A * option str)) (d : Disk) : A * option str * Disk :=
  match loaded with
  | Ok (value, bytes) => (value, bytes, d)
  | Err _ =>
      let backup := with_extension (B "json.bad") p in
      (dflt, None, match d !! p with Some content => if rename_ok then <[backup := content]> (delete p d) else d | None => d end)
  end.

Record GuiState := mkGui {
  config : AppConfig;
  profiles : ProfileStore;
  runtime : RuntimeState;
  pac_server : option (str * PacServer);
}.

Definition load_tracked (dir : str) (rename_ok : bool) (d : Disk) : GuiState * (option str * option str * option str) * Disk :=
  let '(config, app, d) := load_or_recover AppConfig_default (path dir App) rename_ok (load_with_bytes AppConfig_default (path dir App) d) d in
  let '(profiles, profiles_bytes, d) := load_or_recover [] (path dir Profiles) rename_ok (load_with_bytes [] (path dir Profiles) d) d in
  let '(runtime, runtime_bytes, d) :=
    load_or_recover RuntimeState_default (path dir Runtime) rename_ok (load_with_bytes RuntimeState_default (path dir Runtime) d) d in
  let '(profiles, runtime) :=
    match profiles with [] => ([ProxyProfile_default], with_selected 0 runtime) | _ => (profiles, runtime) end in
  (mkGui config profiles runtime None, (app, profiles_bytes, runtime_bytes), d).

Definition state_profile (g : GuiState) : option ProxyProfile := profiles g !! selected_profile (runtime g).

Definition normalize_selected_index (g : GuiState) : GuiState :=
  let ps := match profiles g with [] => [ProxyProfile_default] | ps => ps end in
  let i := if decide (length ps ≤ selected_profile (runtime g))%nat then (length ps - 1)%nat else selected_profile (runtime g) in
  mkGui (config g) ps (with_selected i (runtime g)) (pac_server g).

(** [bind_ok] tells whether an address can be bound now. *)
Definition restart_pac_server (read_to_string : str → option str) (bind_ok : str → bool) (force_restart : bool) (g : GuiState)
    : GuiState * list PacServer * result unit :=
  let '(direct, proxy) := load_rules read_to_string in
  let content := generate_pac (pac_rule_mode (config g)) (mixed_listen (config g)) direct proxy in
  if force_restart || bool_decide (pac_server g = None) then
    let listen := pac_listen (config g) in
    let '(server, closed) :=
      match pac_server g with
      | Some (l, old) => if decide (l = listen) then (None, [shutdown true old]) else (Some (l, old), [])
      | None => (None, [])
      end in
    if bind_ok listen then
      let closed := closed ++ match server with Some (_, old) => [shutdown true old] | None => [] end in
      (mkGui (config g) (profiles g) (runtime g) (Some (listen, start content)), closed, Ok tt)
    else (mkGui (config g) (profiles g) (runtime g) server, closed, Err io_error)
  else
    (mkGui (config g) (profiles g) (runtime g) ((λ '(l, s), (l, update content s)) <$> pac_server g), [], Ok tt).
End load.

Definition non_empty_text (input : str) : option str :=
  let t := trim input in if is_empty t then None else Some t.

(** ** Paths of the three files *)
Definition stem (f : ConfigFile) : str :=
  match f with App => B "app" | Profiles => B "profiles" | Runtime => B "runtime" end.

Lemma with_extension_path ext dir f : with_extension ext (path dir f) = dir ++ B "/" ++ stem f ++ B "." ++ ext.
Proof.
  unfold with_extension, path. change (B "/" ++ file_name f) with (x2f :: file_name f).
  rewrite rfind_app by (apply contains_false; by destruct f). rewrite drop_past.
  assert (take (length dir + 1) (dir ++ x2f :: file_name f) = dir ++ B "/") as ->.
  { rewrite take_app_add. done. }
  rewrite <-!app_assoc. by destruct f.
Qed.

Lemma path_inj dir f g : path dir f = path dir g → f = g.
Proof. unfold path. intros E%(inj (dir ++.)). by destruct f, g. Qed.

Lemma tmp_not_path dir f g : with_extension (B "tmp") (path dir f) ≠ path dir g.
Proof. rewrite with_extension_path. unfold path. intros E%(inj (dir ++.)). by destruct f, g. Qed.

Lemma bad_not_path dir f g : with_extension (B "json.bad") (path dir f) ≠ path dir g.
Proof. rewrite with_extension_path. unfold path. intros E%(inj (dir ++.)). by destruct f, g. Qed.

Lemma write_atomic_cases fault dir f payload d :
  let p := path dir f in
  let '(ds, r) := write_atomic_trace fault p payload d in
  (∀ d', d' ∈ ds → (d' !! p = d !! p ∨ d' !! p = Some payload) ∧
                   (∀ q, q ≠ p → q ≠ with_extension (B "tmp") p → d' !! q = d !! q)) ∧
  (r = Ok tt ↔ fault = None) ∧
  (write_atomic fault p payload d).1 !! p = (if bool_decide (fault = None) then Some payload else d !! p).
Proof.
  pose proof (tmp_not_path dir f f) as Ht. cbv zeta. unfold write_atomic.
  assert (∀ x, <[with_extension (B "tmp") (path dir f) := x]> d !! path dir f = d !! path dir f) as Hp by (intros; by apply lookup_insert_ne).
  assert (∀ x q, q ≠ with_extension (B "tmp") (path dir f) → <[with_extension (B "tmp") (path dir f) := x]> d !! q = d !! q) as Hq
    by (intros; by apply lookup_insert_ne).
  destruct fault as [[| |n| |]|]; cbn [write_atomic_trace last default fst]; unfold id.
  1-5: split_and!; [|done|by rewrite bool_decide_false, ?Hp by done].
  6: split_and!; [|done|rewrite bool_decide_true by done; apply lookup_insert_eq].
  all: intros d' Hd; repeat (apply elem_of_cons in Hd as [->|Hd]); try (by apply elem_of_nil in Hd);
    (split; [rewrite ?Hp; first [by left|right; apply lookup_insert_eq]|intros q H1 H2; rewrite ?Hq by done; try done]).
  etrans; [by apply lookup_insert_ne|by apply lookup_delete_ne].
Qed.

Lemma write_atomic_final fault dir f payload d :
  let '(d', r) := write_atomic fault (path dir f) payload d in
  (r = Ok tt ↔ fault = None) ∧ d' !! path dir f = (if bool_decide (fault = None) then Some payload else d !! path dir f) ∧
  ∀ g, g ≠ f → d' !! path dir g = d !! path dir g.
Proof.
  pose proof (write_atomic_cases fault dir f payload d) as H. cbv zeta in H. unfold write_atomic in *.
  destruct (write_atomic_trace fault (path dir f) payload d) as [ds r] eqn:E. destruct H as (H1 & H2 & H3). cbn [fst] in H3.
  split_and!; [done|done|]. intros g Hg. destruct (last ds) as [d'|] eqn:El; [|done]. cbn [default].
  apply last_Some in El as [ds' ->]. assert (d' ∈ ds' ++ [d']) as Hin by (rewrite elem_of_app; right; by left).
  apply (H1 d' Hin); [by intros ?%path_inj|]. apply not_eq_sym, tmp_not_path.
Qed.

(** C34: however the replacement of a settings file ends, by success, by an error of any call or by a crash of the process
    after any of them, the file has its old or its new content and every other file but the temporary one is as before; it succeeds
    exactly when no call fails, and then has the new content. *)
Theorem write_atomic_safe fault dir f payload d :
  let p := path dir f in
  let '(ds, r) := write_atomic_trace fault p payload d in
  (∀ d', d' ∈ ds → (d' !! p = d !! p ∨ d' !! p = Some payload) ∧
                   (∀ q, q ≠ p → q ≠ with_extension (B "tmp") p → d' !! q = d !! q)) ∧
  (r = Ok tt ↔ fault = None) ∧
  (write_atomic fault p payload d).1 !! p = (if bool_decide (fault = None) then Some payload else d !! p).
Proof. apply write_atomic_cases. Qed.

(** ** What is loaded *)
Section loading.
Context `{Codec AppConfig, Codec ProfileStore, Codec RuntimeState, !CodecLaws AppConfig, !CodecLaws ProfileStore, !CodecLaws RuntimeState}.

Lemma load_encoded `{Codec A, !CodecLaws A} (dflt a : A) p s d :
  encode a = Ok s → d !! p = Some s → load_with_bytes dflt p d = Ok (a, Some s).
Proof. intros Ha Hd. unfold load_with_bytes. rewrite Hd. by rewrite (decode_encode a s Ha). Qed.

(** The settings, profiles and runtime state that are in the files as they were encoded are loaded again, with the
    very bytes; an empty list of profiles becomes one default profile. *)
Theorem saved_settings_load dir rename_ok d c ps r sc sp sr :
  encode c = Ok sc → encode ps = Ok sp → encode r = Ok sr →
  d !! path dir App = Some sc → d !! path dir Profiles = Some sp → d !! path dir Runtime = Some sr →
  load_tracked dir rename_ok d =
    (mkGui c (if bool_decide (ps = []) then [ProxyProfile_default] else ps)
       (if bool_decide (ps = []) then with_selected 0 r else r) None, (Some sc, Some sp, Some sr), d).
Proof.
  intros Hc Hp Hr Dc Dp Dr. unfold load_tracked, load_or_recover.
  rewrite (load_encoded AppConfig_default c _ sc), (load_encoded (A := ProfileStore) [] ps _ sp), (load_encoded RuntimeState_default r _ sr) by done.
  destruct ps as [|p ps]; [by rewrite bool_decide_true by done|by rewrite !bool_decide_false by done].
Qed.

Lemma load_tracked_profiles dir rename_ok d : profiles (load_tracked dir rename_ok d).1.1 ≠ [].
Proof.
  unfold load_tracked.
  repeat match goal with |- context [load_or_recover ?a ?b ?c ?l ?x] => destruct (load_or_recover a b c l x) as [[? ?] ?] end.
  case_match. case_match; simplify_eq; done.
Qed.

(** A settings file that cannot be decoded gives the default, is kept beside under another name, and leaves the other
    files as they are; after loading there is always a profile. *)
Theorem corrupt_file_kept `{Codec A} (dflt : A) dir f s e d :
  d !! path dir f = Some s → decode s = Err e →
  (let '(value, bytes, d') := load_or_recover dflt (path dir f) true (load_with_bytes dflt (path dir f) d) d in
   value = dflt ∧ bytes = None ∧ d' !! path dir f = None ∧ d' !! with_extension (B "json.bad") (path dir f) = Some s ∧
   ∀ g, g ≠ f → d' !! path dir g = d !! path dir g) ∧
  ∀ rename_ok, profiles (load_tracked dir rename_ok d).1.1 ≠ [].
Proof.
  intros Hd He. split.
  - unfold load_with_bytes, load_or_recover. rewrite Hd, He. cbn [mbind result_bind].
    split_and!; [done|done| |apply lookup_insert_eq|].
    + etrans; [apply lookup_insert_ne, bad_not_path|apply lookup_delete_eq].
    + intros g Hg. etrans; [apply lookup_insert_ne, bad_not_path|]. apply lookup_delete_ne. intros E%path_inj. done.
  - intros rename_ok. apply load_tracked_profiles.
Qed.
End loading.

(** Restarting the server of the proxy file: on success the file is served at the configured address and a server
    that was replaced is shut down; when the address cannot be bound, a server on another address keeps running, one on
    the same address has been shut down and is gone; without a restart the running server gets the new file. *)
Theorem pac_restart `{Codec AppConfig, Codec ProfileStore, Codec RuntimeState} read_to_string bind_ok force_restart g :
  let '(direct, proxy) := load_rules read_to_string in
  let file := generate_pac (pac_rule_mode (config g)) (mixed_listen (config g)) direct proxy in
  let '(g', closed, r) := restart_pac_server read_to_string bind_ok force_restart g in
  let listen := pac_listen (config g) in
  (r = Ok tt → ∃ l s, pac_server g' = Some (l, s) ∧ content s = file) ∧
  (force_restart = true → bind_ok listen = true →
     r = Ok tt ∧ pac_server g' = Some (listen, start file) ∧
     closed = match pac_server g with Some (_, old) => [shutdown true old] | None => [] end) ∧
  (force_restart = true → bind_ok listen = false →
     r ≠ Ok tt ∧ pac_server g' = match pac_server g with Some (l, old) => if decide (l = listen) then None else Some (l, old) | None => None end) ∧
  (∀ l s, force_restart = false → pac_server g = Some (l, s) → r = Ok tt ∧ closed = [] ∧ pac_server g' = Some (l, update file s)).
Proof.
  destruct (load_rules read_to_string) as [direct proxy] eqn:El. cbv zeta. unfold restart_pac_server. rewrite El.
  destruct g as [c ps rt srv]. cbn [config profiles runtime pac_server].
  destruct (bind_ok (pac_listen c)) eqn:Eb, force_restart; destruct srv as [[l s]|];
    rewrite ?bool_decide_true, ?bool_decide_false by done; cbn [orb fmap option_fmap option_map];
    repeat case_decide; cbn [pac_server app]; split_and!; intros; simplify_eq; eauto.
Qed.

#[export] Instance SystemProxyMode_eq_dec : EqDecision SystemProxyMode.
Proof. solve_decision. Defined.
#[export] Instance PacMode_eq_dec : EqDecision PacMode.
Proof. solve_decision. Defined.
#[export] Instance PacRuleMode_eq_dec : EqDecision PacRuleMode.
Proof. solve_decision. Defined.
#[export] Instance StartupConnectionState_eq_dec : EqDecision StartupConnectionState.
Proof. solve_decision. Defined.
#[export] Instance LanguagePreference_eq_dec : EqDecision LanguagePreference.
Proof. solve_decision. Defined.
#[export] Instance AppearancePreference_eq_dec : EqDecision AppearancePreference.
Proof. solve_decision. Defined.
#[export] Instance AppConfig_eq_dec : EqDecision AppConfig.
Proof. solve_decision. Defined.
#[export] Instance ProxyProfile_eq_dec : EqDecision ProxyProfile.
Proof. solve_decision. Defined.
#[export] Instance RuntimeState_eq_dec : EqDecision RuntimeState.
Proof. solve_decision. Defined.

(** A codec of two values, for the examples. *)
Module Sample.
Definition two {A} `{EqDecision A} (a b : A) : Codec A :=
  {| encode x := if decide (x = a) then Ok (B "a") else if decide (x = b) then Ok (B "b") else Err io_error;
     decode s := if decide (s = B "a") then Ok a else if decide (s = B "b") then Ok b else Err io_error |}.

Lemma two_laws {A} `{EqDecision A} (a b : A) : CodecLaws (H := two a b) A.
Proof.
  split. intros x s. cbn. case_decide as Ha; [subst; by intros <-%Ok_inj|]. case_decide as Hb; [subst; by intros <-%Ok_inj|done].
Qed.

Definition other_config : AppConfig :=
  mkAppConfig (B "127.0.0.1:2080") PGlobal Online ProxyGfw (B "127.0.0.1:2090") None [] [] 24.
Definition one_profile : ProfileStore := [mkProfile (B "S") Shadowsocks (B "h") 1 [] [] None false None None [] None None None 5 None None None].
Definition two_profiles : ProfileStore := one_profile ++ one_profile.

#[export] Instance app_codec : Codec AppConfig := two AppConfig_default other_config.
#[export] Instance profiles_codec : Codec ProfileStore := two one_profile two_profiles.
#[export] Instance runtime_codec : Codec RuntimeState := two RuntimeState_default (with_selected 1 RuntimeState_default).
#[export] Instance app_laws : CodecLaws AppConfig := two_laws _ _.
#[export] Instance profiles_laws : CodecLaws ProfileStore := two_laws _ _.
#[export] Instance runtime_laws : CodecLaws RuntimeState := two_laws _ _.
Definition dir : str := B "/home/me/.config/juicity-gui".
Definition disk : Disk := <[path dir App := B "b"]> (<[path dir Profiles := B "b"]> (<[path dir Runtime := B "b"]> ∅)).
End Sample.
#[local] Existing Instances Sample.app_codec Sample.profiles_codec Sample.runtime_codec Sample.app_laws Sample.profiles_laws Sample.runtime_laws.

Lemma saved_settings_load_witness :
  load_tracked Sample.dir true Sample.disk =
    (mkGui Sample.other_config Sample.two_profiles (with_selected 1 RuntimeState_default) None, (Some (B "b"), Some (B "b"), Some (B "b")), Sample.disk).
Proof.
  refine (saved_settings_load Sample.dir true Sample.disk Sample.other_config Sample.two_profiles (with_selected 1 RuntimeState_default)
    (B "b") (B "b") (B "b") _ _ _ _ _ _); by vm_compute.
Defined.

Lemma corrupt_file_kept_witness :
  let d := <[path Sample.dir App := B "{"]> Sample.disk in
  profiles (load_tracked Sample.dir false d).1.1 ≠ [].
Proof.
  refine (proj2 (corrupt_file_kept AppConfig_default Sample.dir App (B "{") io_error (<[path Sample.dir App := B "{"]> Sample.disk) _ _) false); by vm_compute.
Defined.
