(* ===== verification/Persist.v ===== *)
(** * [gui/src/ui/controller/persist.rs]: writing and reloading the settings

    Files marked as changed are written after a delay and retried when a write
    fails; files that another program changed are loaded again unless they have
    changes that are not written yet.  Times are milliseconds. *)
From S2P Require Import Prelude Std Profile Pac Storage.
#[local] Open Scope Z_scope.

Definition DEBOUNCE : Z := 400.
Definition RETRY : Z := 5000.

(** ** The saved list and active node *)
Record Saved := mkSaved { s_profiles : ProfileStore; active : nat }.

Definition clamp_active (s : Saved) : Saved := mkSaved (s_profiles s) (active s `min` (length (s_profiles s) - 1)).

Definition Saved_new (g : GuiState) : Saved := clamp_active (mkSaved (profiles g) (selected_profile (runtime g))).

(** ** Persistence *)
Record Persist := mkPersist {
  dirty : ConfigFile → bool;
  due : option Z;
  known : ConfigFile → option Z;
}.

Definition set_at {A} (f : ConfigFile) (a : A) (m : ConfigFile → A) : ConfigFile → A := λ g, if decide (g = f) then a else m g.

Section persist.
Context `{Codec AppConfig, Codec ProfileStore, Codec RuntimeState} (content_hash : str → Z) (dir : str).

Definition file_bytes (f : ConfigFile) (g : GuiState) (s : Saved) : result str :=
  match f with
  | App => encode (config g)
  | Profiles => encode (s_profiles s)
  | Runtime => encode (with_selected (active s) (runtime g))
  end.

Definition load_file (f : ConfigFile) (g : GuiState) (s : Saved) (bytes : str) : result (GuiState * Saved) :=
  match f with
  | App => c ← decode bytes; Ok (mkGui c (profiles g) (runtime g) (pac_server g), s)
  | Profiles =>
      ps ← decode (A := ProfileStore) bytes;
      let ps := match ps with [] => [ProxyProfile_default] | _ => ps end in
      Ok (g, clamp_active (mkSaved ps (active s)))
  | Runtime =>
      r ← decode bytes;
      Ok (mkGui (config g) (profiles g) r (pac_server g), clamp_active (mkSaved (s_profiles s) (selected_profile r)))
  end.

Definition Persist_new (loaded : option str * option str * option str) : Persist :=
  let '(app, ps, rt) := loaded in
  mkPersist (λ _, false) None (λ f, content_hash <$> match f with App => app | Profiles => ps | Runtime => rt end).

Definition mark (f : ConfigFile) (now : Z) (p : Persist) : Persist := mkPersist (set_at f true (dirty p)) (Some (now + DEBOUNCE)) (known p).

Definition delay (now : Z) (p : Persist) : option Z := (λ due, saturating_sub due now) <$> due p.

Definition write (fault : option Fault) (f : ConfigFile) (g : GuiState) (s : Saved) (d : Disk) (p : Persist) : Persist * Disk * result unit :=
  match file_bytes f g s with
  | Err e => (p, d, Err e)
  | Ok bytes =>
      let '(d, r) := write_atomic fault (path dir f) bytes d in
      match r with
      | Err e => (p, d, Err e)
      | Ok _ => (mkPersist (set_at f false (dirty p)) (due p) (set_at f (Some (content_hash bytes)) (known p)), d, Ok tt)
      end
  end.

(** One file of [flush]; the first error is kept. *)
Definition flush_file (faults : ConfigFile → option Fault) (g : GuiState) (s : Saved) (now : Z)
    (acc : Persist * Disk * result unit) (f : ConfigFile) : Persist * Disk * result unit :=
  let '(p, d, result) := acc in
  if dirty p f then
    let '(p, d, r) := write (faults f) f g s d p in
    match r with
    | Ok _ => (p, d, result)
    | Err e => (mkPersist (dirty p) (Some (now + RETRY)) (known p), d, match result with Ok _ => Err e | Err _ => result end)
    end
  else acc.

Definition flush (faults : ConfigFile → option Fault) (g : GuiState) (s : Saved) (now : Z) (d : Disk) (p : Persist) : Persist * Disk * result unit :=
  foldl (flush_file faults g s now) (mkPersist (dirty p) None (known p), d, Ok tt) ALL.

(** One file of [reload_changed]. *)
Definition reload_file (d : Disk) (now : Z) (acc : Persist * GuiState * Saved * list ConfigFile) (f : ConfigFile)
    : Persist * GuiState * Saved * list ConfigFile :=
  let '(p, g, s, reloaded) := acc in
  match d !! path dir f with
  | None => acc
  | Some bytes =>
      let hash := content_hash bytes in
      if decide (known p f = Some hash) then acc
      else
        let known := set_at f (Some hash) (known p) in
        if dirty p f then (mkPersist (dirty p) (match due p with None => Some (now + DEBOUNCE) | due => due end) known, g, s, reloaded)
        else
          match load_file f g s bytes with
          | Ok (g, s) => (mkPersist (dirty p) (due p) known, g, s, reloaded ++ [f])
          | Err _ => (mkPersist (dirty p) (due p) known, g, s, reloaded)
          end
  end.

Definition reload_changed (d : Disk) (now : Z) (g : GuiState) (s : Saved) (p : Persist) : Persist * GuiState * Saved * list ConfigFile :=
  foldl (reload_file d now) (p, g, s, []) ALL.

(** ** Runs *)
Record Sys := mkSys { gui : GuiState; saved : Saved; persist : Persist; disk : Disk }.

Inductive Label :=
  | LChange (g : GuiState) (f : ConfigFile) (now : Z)
  | LWrite (fault : option Fault) (f : ConfigFile)
  | LTimer (faults : ConfigFile → option Fault) (now : Z)
  | LFlush (faults : ConfigFile → option Fault) (now : Z)
  | LReload (now : Z)
  | LExternal (d : Disk).

Definition flush_all (faults : ConfigFile → option Fault) (now : Z) (y : Sys) : Sys * result unit :=
  let '(p, d, r) := flush faults (gui y) (saved y) now (disk y) (persist y) in (mkSys (gui y) (saved y) p d, r).

(** [Controller::flush_due]. *)
Definition flush_due (faults : ConfigFile → option Fault) (now : Z) (y : Sys) : Sys :=
  match delay now (persist y) with
  | Some delay => if decide (delay = 0) then (flush_all faults now y).1 else y
  | None => y
  end.

Definition step (y : Sys) (l : Label) : Sys :=
  match l with
  | LChange g f now => mkSys g (saved y) (mark f now (persist y)) (disk y)
  | LWrite fault f => let '(p, d, _) := write fault f (gui y) (saved y) (disk y) (persist y) in mkSys (gui y) (saved y) p d
  | LTimer faults now => flush_due faults now y
  | LFlush faults now => (flush_all faults now y).1
  | LReload now => let '(p, g, s, _) := reload_changed (disk y) now (gui y) (saved y) (persist y) in mkSys g s p (disk y)
  | LExternal d => mkSys (gui y) (saved y) (persist y) d
  end.

Definition run (y : Sys) (ls : list Label) : Sys := foldl step y ls.

(** The state at the start. *)
Definition init (rename_ok : bool) (d : Disk) : Sys :=
  let '(g, loaded, d) := load_tracked dir rename_ok d in
  mkSys g (Saved_new g) (Persist_new loaded) d.
End persist.

(** ** Writing *)
Section properties.
Context `{Codec AppConfig, Codec ProfileStore, Codec RuntimeState} (content_hash : str → Z) (dir : str).

(** Whether a file cannot be written now. *)
Definition fails (faults : ConfigFile → option Fault) (g : GuiState) (s : Saved) (f : ConfigFile) : bool :=
  match faults f, file_bytes f g s with None, Ok _ => false | _, _ => true end.

Lemma write_fine fault f g s d p b :
  fault = None → file_bytes f g s = Ok b →
  ∃ d', write content_hash dir fault f g s d p =
          (mkPersist (set_at f false (dirty p)) (due p) (set_at f (Some (content_hash b)) (known p)), d', Ok tt) ∧
        d' !! path dir f = Some b ∧ ∀ f', f' ≠ f → d' !! path dir f' = d !! path dir f'.
Proof.
  intros -> Hb. unfold write. rewrite Hb. pose proof (write_atomic_final None dir f b d) as Hw.
  destruct (write_atomic None (path dir f) b d) as [d' r]. destruct Hw as (Hr & Hp & Ho). destruct r as [[]|e]; [|by destruct Hr as [_ Hr]; specialize (Hr eq_refl)].
  exists d'. by rewrite bool_decide_true in Hp by done.
Qed.

Lemma write_fails faults f g s d p :
  fails faults g s f = true →
  ∃ d' e, write content_hash dir (faults f) f g s d p = (p, d', Err e) ∧ ∀ f', d' !! path dir f' = d !! path dir f'.
Proof.
  unfold fails, write. intros Hf. destruct (file_bytes f g s) as [b|e]; [|by exists d, e].
  destruct (faults f) as [fault|] eqn:Ef; [|done]. pose proof (write_atomic_final (Some fault) dir f b d) as Hw.
  destruct (write_atomic (Some fault) (path dir f) b d) as [d' r]. destruct Hw as (Hr & Hp & Ho).
  destruct r as [[]|e]; [by destruct Hr as [Hr _]; specialize (Hr eq_refl)|]. exists d', e. split; [done|]. intros f'.
  destruct (decide (f' = f)) as [->|Hn]; [by rewrite bool_decide_false in Hp by done|by apply Ho].
Qed.

Lemma set_at_eq {A} f (a : A) m : set_at f a m f = a.
Proof. unfold set_at. by rewrite decide_True. Qed.
Lemma set_at_ne {A} f f' (a : A) m : f' ≠ f → set_at f a m f' = m f'.
Proof. intros. unfold set_at. by rewrite decide_False. Qed.

(** What flushing the files [l] does. *)
Lemma flush_fold faults g s now l p d r :
  NoDup l →
  let '(p', d', r') := foldl (flush_file content_hash dir faults g s now) (p, d, r) l in
  (∀ f b, f ∈ l → dirty p f = true → fails faults g s f = false → file_bytes f g s = Ok b →
     dirty p' f = false ∧ known p' f = Some (content_hash b) ∧ d' !! path dir f = Some b) ∧
  (∀ f, f ∉ l ∨ dirty p f = false ∨ fails faults g s f = true →
     dirty p' f = dirty p f ∧ known p' f = known p f ∧ d' !! path dir f = d !! path dir f) ∧
  (∀ f, f ∈ l → dirty p f = true → fails faults g s f = true → due p' = Some (now + RETRY) ∧ ∃ e, r' = Err e) ∧
  ((∀ f, f ∈ l → dirty p f = true → fails faults g s f = false) → due p' = due p ∧ r' = r) ∧
  (∀ e, r = Err e → r' = r).
Proof.
  intros Hl. revert p d r. induction Hl as [|f l Hf Hl IH]; intros p d r; cbn [foldl].
  - split_and!; [by intros ? ? ?%elem_of_nil|done|by intros ? ?%elem_of_nil|done|done].
  - unfold flush_file at 2. destruct (dirty p f) eqn:Ed; [destruct (fails faults g s f) eqn:Ef|].
    + destruct (write_fails faults f g s d p Ef) as (d1 & e & -> & Hd1).
      specialize (IH (mkPersist (dirty p) (Some (now + RETRY)) (known p)) d1 (match r with Ok _ => Err e | Err _ => r end)).
      destruct (foldl _ _ l) as [[p' d'] r']. destruct IH as (W1 & W2 & W3 & W4 & W5). cbn [dirty due known] in *.
      split_and!.
      * intros f' b [->|Hin]%elem_of_cons; [congruence|by eapply W1].
      * intros f' Hf'. rewrite <-Hd1. apply W2. destruct Hf' as [Hn|?]; [left|by right]. intros ?. apply Hn. by right.
      * intros f' _ _ _. split; [|destruct r as [[]|e']; [exists e; by apply (W5 e)|exists e'; by apply (W5 e')]].
        destruct (decide (Exists (λ f, dirty p f = true ∧ fails faults g s f = true) l)) as [Hex|Hno].
        -- apply Exists_exists in Hex as (f2 & Hin & Hd2 & Hf2). by eapply W3.
        -- apply W4. intros f2 Hin Hd2. apply not_true_iff_false. intros Hf2. apply Hno, Exists_exists. eauto.
      * intros Hall. specialize (Hall f ltac:(by left) Ed). congruence.
      * intros e' ->. by apply (W5 e').
    + unfold fails in Ef. destruct (faults f) as [|] eqn:Efa; [done|]. destruct (file_bytes f g s) as [b|] eqn:Eb; [|done].
      destruct (write_fine None f g s d p b eq_refl Eb) as (d1 & -> & Hd1 & Ho1).
      specialize (IH (mkPersist (set_at f false (dirty p)) (due p) (set_at f (Some (content_hash b)) (known p))) d1 r).
      destruct (foldl _ _ l) as [[p' d'] r']. destruct IH as (W1 & W2 & W3 & W4 & W5). cbn [dirty due known] in *.
      split_and!.
      * intros f' b' [->|Hin]%elem_of_cons Hd' Hf' Hb'.
        -- destruct (W2 f) as (-> & -> & ->); [by left|]. assert (b' = b) as -> by congruence. by rewrite !set_at_eq, Hd1.
        -- eapply W1; try done. rewrite set_at_ne; [done|]. by intros ->.
      * intros f' Hf'. assert (f' ≠ f) as Hne.
        { intros ->. destruct Hf' as [Hn|[?|Hf']]; [apply Hn; by left|congruence|]. unfold fails in Hf'. by rewrite Efa, Eb in Hf'. }
        rewrite <-(Ho1 f' Hne). destruct (W2 f') as (-> & -> & ->); [|by rewrite !set_at_ne].
        rewrite set_at_ne by done. destruct Hf' as [Hn|?]; [left; intros ?; apply Hn; by right|by right].
      * intros f' [->|Hin]%elem_of_cons Hd' Hf'; [unfold fails in Hf'; by rewrite Efa, Eb in Hf'|]. apply (W3 f'); [done| |done].
        rewrite set_at_ne; [done|]. by intros ->.
      * intros Hall. apply W4. intros f' Hin. destruct (decide (f' = f)) as [->|Hne]; [done|]. rewrite set_at_ne by done.
        apply Hall. by right.
      * done.
    + specialize (IH p d r). destruct (foldl _ _ l) as [[p' d'] r']. destruct IH as (W1 & W2 & W3 & W4 & W5).
      split_and!.
      * intros f' b [->|Hin]%elem_of_cons; [congruence|by eapply W1].
      * intros f' Hf'. apply W2. destruct Hf' as [Hn|?]; [left; intros ?; apply Hn; by right|by right].
      * intros f' [->|Hin]%elem_of_cons; [congruence|by apply W3].
      * intros Hall. apply W4. intros f' Hin. apply Hall. by right.
      * done.
Qed.

(** ** Reloading *)
Definition active_ok (s : Saved) : Prop := (active s < length (s_profiles s))%nat.

Lemma clamp_active_ok s : s_profiles s ≠ [] → active_ok (clamp_active s).
Proof. unfold active_ok, clamp_active. destruct s as [[|p ps] i]; [done|]. cbn [s_profiles active length]. intros _. lia. Qed.

Lemma load_file_active f g s b g' s' : load_file f g s b = Ok (g', s') → active_ok s → active_ok s'.
Proof.
  intros E Hs. destruct f; cbn [load_file] in E.
  - destruct (decode b); [|done]. cbn [mbind result_bind] in E. by injection E as <- <-.
  - destruct (decode b) as [ps|]; [|done]. cbn [mbind result_bind] in E. injection E as <- <-. apply clamp_active_ok. by destruct ps.
  - destruct (decode b); [|done]. cbn [mbind result_bind] in E. injection E as <- <-. apply clamp_active_ok. cbn [s_profiles].
    unfold active_ok in Hs. by destruct (s_profiles s); [cbn in Hs; lia|].
Qed.

(** The file on disk is the one that was last read, written or refused. *)
Definition in_sync (d : Disk) (p : Persist) (f : ConfigFile) : Prop :=
  match d !! path dir f with Some b => known p f = Some (content_hash b) | None => True end.

Lemma reload_fold d now l p g s acc :
  NoDup l →
  let '(p', g', s', acc') := foldl (reload_file content_hash dir d now) (p, g, s, acc) l in
  dirty p' = dirty p ∧ (is_Some (due p) → due p' = due p) ∧
  (∀ f, f ∈ l → in_sync d p' f) ∧ (∀ f, f ∉ l → known p' f = known p f) ∧
  (active_ok s → active_ok s') ∧
  (∃ k, acc' = acc ++ k ∧ ∀ f, f ∈ k → f ∈ l ∧ dirty p f = false ∧ ¬ in_sync d p f) ∧
  (∀ f, f ∈ l → dirty p f = true → ¬ in_sync d p f → is_Some (due p')) ∧
  ((∀ f, f ∈ l → in_sync d p f) → (p', g', s', acc') = (p, g, s, acc)).
Proof.
  intros Hl. revert p g s acc. induction Hl as [|f l Hf Hl IH]; intros p g s acc; cbn [foldl].
  - split_and!; try done; [by intros ? ?%elem_of_nil|exists []; rewrite app_nil_r; split; [done|by intros ? ?%elem_of_nil]|by intros ? ?%elem_of_nil].
  - assert (∀ (p1 : Persist) g1 s1 k, reload_file content_hash dir d now (p, g, s, acc) f = (p1, g1, s1, acc ++ k) →
      dirty p1 = dirty p → (is_Some (due p) → due p1 = due p) → in_sync d p1 f → (∀ f', f' ≠ f → known p1 f' = known p f') →
      (active_ok s → active_ok s1) → (∀ f', f' ∈ k → f' = f ∧ dirty p f = false ∧ ¬ in_sync d p f) →
      (dirty p f = true → ¬ in_sync d p f → is_Some (due p1)) → (in_sync d p f → (p1, g1, s1, k) = (p, g, s, [])) →
      let '(p', g', s', acc') := foldl (reload_file content_hash dir d now) (reload_file content_hash dir d now (p, g, s, acc) f) l in
      dirty p' = dirty p ∧ (is_Some (due p) → due p' = due p) ∧
      (∀ f', f' ∈ f :: l → in_sync d p' f') ∧ (∀ f', f' ∉ f :: l → known p' f' = known p f') ∧
      (active_ok s → active_ok s') ∧
      (∃ k, acc' = acc ++ k ∧ ∀ f', f' ∈ k → f' ∈ f :: l ∧ dirty p f' = false ∧ ¬ in_sync d p f') ∧
      (∀ f', f' ∈ f :: l → dirty p f' = true → ¬ in_sync d p f' → is_Some (due p')) ∧
      ((∀ f', f' ∈ f :: l → in_sync d p f') → (p', g', s', acc') = (p, g, s, acc))) as Hstep.
    { intros p1 g1 s1 k -> Hd Hdue Hsync Hk Ha Hacc Hkeep Hid. specialize (IH p1 g1 s1 (acc ++ k)).
      destruct (foldl _ _ l) as [[[p' g'] s'] acc']. destruct IH as (W1 & W2 & W3 & W4 & W5 & (k' & W6 & W7) & W8 & W9).
      assert (∀ f', f' ∈ l → in_sync d p1 f' ↔ in_sync d p f') as Hiff.
      { intros f' Hin. unfold in_sync. rewrite Hk; [done|]. by intros ->. }
      split_and!.
      - by rewrite W1.
      - intros Hsome. rewrite W2, Hdue; [done..|]. by rewrite Hdue.
      - intros f' [->|Hin]%elem_of_cons; [|by apply W3]. unfold in_sync in *. by rewrite W4.
      - intros f' [Hn1 Hn2]%not_elem_of_cons. by rewrite W4, Hk.
      - auto.
      - exists (k ++ k'). rewrite app_assoc. split; [done|]. intros f' [Hin|Hin]%elem_of_app.
        + apply Hacc in Hin as (-> & ? & ?). split_and!; [by left|done..].
        + apply W7 in Hin as (Hin & ? & Hns). rewrite Hiff in Hns by done. rewrite Hd in *. split_and!; [by right|done..].
      - intros f' [->|Hin]%elem_of_cons Hd' Hns.
        + destruct (Hkeep Hd' Hns) as [t Ht]. rewrite W2; [by rewrite Ht|by exists t].
        + apply (W8 f'); [done|by rewrite Hd|by rewrite Hiff].
      - intros Hall. specialize (Hid (Hall f ltac:(by left))). simplify_eq. rewrite app_nil_r in *. apply W9. intros f' Hin. apply Hall. by right. }
    destruct (d !! path dir f) as [b|] eqn:Eb.
    2: { eapply (Hstep p g s []); unfold reload_file; rewrite ?Eb, ?app_nil_r; try done;
           try (intros ? ?%elem_of_nil; done); unfold in_sync; by rewrite Eb. }
    destruct (decide (known p f = Some (content_hash b))) as [Ek|Ek].
    { eapply (Hstep p g s []); unfold reload_file; rewrite ?Eb, ?app_nil_r; try done; [by rewrite decide_True|unfold in_sync; by rewrite Eb|
         by intros ? ?%elem_of_nil|unfold in_sync; rewrite Eb; done]. }
    assert (¬ in_sync d p f) as Hns by (unfold in_sync; by rewrite Eb).
    assert (∀ dt du, in_sync d (mkPersist dt du (set_at f (Some (content_hash b)) (known p))) f) as Hsy.
    { intros. unfold in_sync. rewrite Eb. cbn [known]. by rewrite set_at_eq. }
    destruct (dirty p f) eqn:Ed.
    { eapply (Hstep (mkPersist (dirty p) (match due p with None => Some (now + DEBOUNCE) | due => due end) (set_at f (Some (content_hash b)) (known p))) g s []);
        unfold reload_file; rewrite ?Eb, ?app_nil_r; try done.
      - by rewrite decide_False, Ed by done.
      - cbn [due]. by intros [t ->].
      - intros f' Hne. cbn [known]. by rewrite set_at_ne.
      - by intros ? ?%elem_of_nil.
      - intros _ _. cbn [due]. by destruct (due p). }
    destruct (load_file f g s b) as [[g1 s1]|e] eqn:El.
    { eapply (Hstep (mkPersist (dirty p) (due p) (set_at f (Some (content_hash b)) (known p))) g1 s1 [f]); unfold reload_file; rewrite ?Eb; try done.
      - by rewrite decide_False, Ed, El by done.
      - intros f' Hne. cbn [known]. by rewrite set_at_ne.
      - by eapply load_file_active.
      - by intros ? ->%list_elem_of_singleton. }
    { eapply (Hstep (mkPersist (dirty p) (due p) (set_at f (Some (content_hash b)) (known p))) g s []); unfold reload_file; rewrite ?Eb, ?app_nil_r; try done.
      - by rewrite decide_False, Ed, El by done.
      - intros f' Hne. cbn [known]. by rewrite set_at_ne.
      - by intros ? ?%elem_of_nil. }
Qed.

(** What is in memory of a file with unwritten changes stays. *)
Lemma reload_memory d now p g s :
  let '(p', g', s', acc) := reload_changed content_hash dir d now g s p in
  (dirty p App = true → config g' = config g) ∧ (dirty p Profiles = true → s_profiles s' = s_profiles s) ∧
  (dirty p Runtime = true → runtime g' = runtime g).
Proof.
  assert (∀ l p0 g0 s0 acc0, dirty p0 = dirty p → (dirty p App = true → config g0 = config g) →
    (dirty p Profiles = true → s_profiles s0 = s_profiles s) → (dirty p Runtime = true → runtime g0 = runtime g) →
    let '(p', g', s', acc) := foldl (reload_file content_hash dir d now) (p0, g0, s0, acc0) l in
    (dirty p App = true → config g' = config g) ∧ (dirty p Profiles = true → s_profiles s' = s_profiles s) ∧
    (dirty p Runtime = true → runtime g' = runtime g)) as Hl; [|by apply Hl].
  induction l as [|f l IH]; intros p0 g0 s0 acc0 Hd Ha Hp Hr; cbn [foldl]; [done|]. unfold reload_file at 2.
  destruct (d !! path dir f) as [b|]; [|by apply IH]. case_decide; [by apply IH|]. destruct (dirty p0 f) eqn:Ed; [by apply IH|].
  destruct (load_file f g0 s0 b) as [[g1 s1]|e] eqn:El; [|by apply IH]. rewrite Hd in Ed.
  destruct f; cbn [load_file] in El.
  - destruct (decode b); [|done]. cbn [mbind result_bind] in El. injection El as <- <-. apply IH; try done. by rewrite Ed.
  - destruct (decode b) as [ps|]; [|done]. cbn [mbind result_bind] in El. injection El as <- <-. apply IH; try done. by rewrite Ed.
  - destruct (decode b); [|done]. cbn [mbind result_bind] in El. injection El as <- <-. apply IH; try done. by rewrite Ed.
Qed.

(** ** Runs *)
Lemma ALL_NoDup : NoDup ALL.
Proof. unfold ALL. repeat (apply NoDup_cons; split; [by apply (bool_decide_unpack _)|]). apply NoDup_nil. by split. Qed.
Lemma elem_of_ALL f : f ∈ ALL.
Proof. destruct f; repeat (by left) || right. Qed.

Lemma fails_fine faults g s f : fails faults g s f = false → faults f = None ∧ ∃ b, file_bytes f g s = Ok b.
Proof. unfold fails. destruct (faults f); [done|]. destruct (file_bytes f g s); [eauto|done]. Qed.

Definition pending_due (p : Persist) : Prop := ∀ f, dirty p f = true → is_Some (due p).

Lemma flush_pending faults g s now d p : pending_due (flush content_hash dir faults g s now d p).1.1.
Proof.
  unfold flush. pose proof (flush_fold faults g s now ALL (mkPersist (dirty p) None (known p)) d (Ok tt) ALL_NoDup) as Hfl.
  destruct (foldl _ _ ALL) as [[p' d'] r']. destruct Hfl as (W1 & W2 & W3 & _). cbn [dirty fst] in *. intros f Hd'.
  destruct (dirty p f) eqn:Ed; [|destruct (W2 f) as (E & _); [auto|congruence]].
  destruct (fails faults g s f) eqn:Ef; [destruct (W3 f) as [-> _]; [apply elem_of_ALL|done|done|by eexists]|].
  destruct (fails_fine _ _ _ _ Ef) as (_ & b & Hb). destruct (W1 f b) as (E & _); [apply elem_of_ALL|done|done|done|congruence].
Qed.

Record sys_inv (y : Sys) : Prop := { inv_due : pending_due (persist y); inv_active : active_ok (saved y) }.

Lemma step_sys_inv y l : sys_inv y → sys_inv (step content_hash dir y l).
Proof.
  destruct y as [g s p d]. intros [Hdue Hact]. cbn [persist saved] in *.
  assert (∀ faults now, sys_inv (flush_all content_hash dir faults now (mkSys g s p d)).1) as Hflush.
  { intros faults now. unfold flush_all. cbn [gui saved persist disk]. pose proof (flush_pending faults g s now d p) as Hp.
    destruct (flush _ _ _ _ _ _ _ _) as [[p' d'] r]. by split. }
  destruct l as [g' f now|fault f|faults now|faults now|now|d']; cbn [step].
  - split; [|done]. cbn. by intros ? _.
  - cbn [gui saved persist disk]. unfold write. destruct (file_bytes f g s) as [b|e]; [|done]. destruct (write_atomic _ _ _ _) as [d' [[]|e]]; [|by split].
    split; [|done]. cbn [persist]. intros f' Hf'. cbn [dirty due] in *. destruct (decide (f' = f)) as [->|Hne]; [by rewrite set_at_eq in Hf'|].
    rewrite set_at_ne in Hf' by done. by eapply Hdue.
  - unfold flush_due. cbn [persist]. destruct (delay now p); [|by split]. case_decide; [apply Hflush|by split].
  - apply Hflush.
  - cbn [gui saved persist disk]. unfold reload_changed. pose proof (reload_fold d now ALL p g s [] ALL_NoDup) as Hr.
    destruct (foldl _ _ ALL) as [[[p' g'] s'] acc]. destruct Hr as (W1 & W2 & _ & _ & W5 & _ & W8 & _).
    split; cbn [persist saved]; [|by apply W5]. intros f Hf. rewrite W1 in Hf. rewrite W2; by eapply Hdue.
  - by split.
Qed.

(** In every run of changes, writes, timers, failures, reloads and edits by other programs, a file with changes
    that are not written has a write scheduled, and the saved active node is an index into the saved list. *)
Theorem settings_invariant rename_ok d ls :
  let y := run content_hash dir (init content_hash dir rename_ok d) ls in
  (∀ f, dirty (persist y) f = true → is_Some (due (persist y))) ∧ (active (saved y) < length (s_profiles (saved y)))%nat.
Proof.
  assert (∀ y, sys_inv y → sys_inv (run content_hash dir y ls)) as Hrun.
  { induction ls as [|l ls IH]; intros y Hy; [done|]. by apply IH, step_sys_inv. }
  destruct (Hrun (init content_hash dir rename_ok d)) as [H3 H4]; [|done]. unfold init.
  assert (profiles (load_tracked dir rename_ok d).1.1 ≠ []) as Hn by apply load_tracked_profiles.
  destruct (load_tracked dir rename_ok d) as [[g loaded] d']. cbn [fst] in Hn. split; cbn [persist saved].
  - destruct loaded as [[app ps] rt]. by intros f.
  - by apply clamp_active_ok.
Qed.

(** A flush writes every file with changes that can be written, which is then read back as it is in memory, and
    nothing else; a file that cannot be written keeps its changes and its content, and is tried again after
    [RETRY]; the reload that the writes cause changes nothing when no other program wrote. *)
Theorem flush_writes_changes `{!CodecLaws AppConfig, !CodecLaws ProfileStore, !CodecLaws RuntimeState} faults now y :
  let '(y', r) := flush_all content_hash dir faults now y in
  gui y' = gui y ∧ saved y' = saved y ∧
  (∀ f, dirty (persist y) f = true → fails faults (gui y) (saved y) f = false →
     dirty (persist y') f = false ∧
     match f with
     | App => ∃ b, load_with_bytes AppConfig_default (path dir App) (disk y') = Ok (config (gui y), Some b)
     | Profiles => ∃ b, load_with_bytes (A := ProfileStore) [] (path dir Profiles) (disk y') = Ok (s_profiles (saved y), Some b)
     | Runtime => ∃ b, load_with_bytes RuntimeState_default (path dir Runtime) (disk y') =
         Ok (with_selected (active (saved y)) (runtime (gui y)), Some b)
     end) ∧
  (∀ f, dirty (persist y) f = false ∨ fails faults (gui y) (saved y) f = true →
     dirty (persist y') f = dirty (persist y) f ∧ disk y' !! path dir f = disk y !! path dir f) ∧
  (∀ f, dirty (persist y) f = true → fails faults (gui y) (saved y) f = true → due (persist y') = Some (now + RETRY) ∧ ∃ e, r = Err e) ∧
  ((∀ f, in_sync (disk y) (persist y) f) →
     reload_changed content_hash dir (disk y') now (gui y') (saved y') (persist y') = (persist y', gui y', saved y', [])).
Proof.
  destruct y as [g s p d]. unfold flush_all, flush. cbn [gui saved persist disk].
  pose proof (flush_fold faults g s now ALL (mkPersist (dirty p) None (known p)) d (Ok tt) ALL_NoDup) as Hfl.
  destruct (foldl _ _ ALL) as [[p' d'] r]. destruct Hfl as (W1 & W2 & W3 & _). cbn [dirty known gui saved persist disk] in *.
  assert (∀ f, f ∈ ALL) as Hall by apply elem_of_ALL.
  split_and!; [done|done| | | |].
  - intros f Hd Hf. destruct (fails_fine _ _ _ _ Hf) as (_ & b & Hb). destruct (W1 f b) as (-> & _ & Hp); [done..|]. split; [done|].
    destruct f; exists b; by apply load_encoded.
  - intros f Hf. destruct (W2 f) as (-> & _ & ->); [tauto|done].
  - intros f Hd Hf. by apply (W3 f).
  - intros Hs. unfold reload_changed. pose proof (reload_fold d' now ALL p' g s [] ALL_NoDup) as Hr.
    destruct (foldl _ _ ALL) as [[[p2 g2] s2] acc]. destruct Hr as (_ & _ & _ & _ & _ & _ & _ & W9). apply W9. intros f _.
    unfold in_sync. destruct (dirty p f) eqn:Ed; [destruct (fails faults g s f) eqn:Ef|].
    + destruct (W2 f) as (_ & -> & ->); [tauto|]. apply Hs.
    + destruct (fails_fine _ _ _ _ Ef) as (_ & b & Hb). by destruct (W1 f b) as (_ & -> & ->).
    + destruct (W2 f) as (_ & -> & ->); [tauto|]. apply Hs.
Qed.

(** A reload takes a file only when it has no unwritten changes and its content is not the one last seen; a file with
    unwritten changes that another program edited is scheduled to be written; a second reload finds nothing. *)
Theorem reload_keeps_changes now y :
  let '(p, g, s, reloaded) := reload_changed content_hash dir (disk y) now (gui y) (saved y) (persist y) in
  dirty p = dirty (persist y) ∧
  (∀ f, f ∈ reloaded → dirty (persist y) f = false ∧ ¬ in_sync (disk y) (persist y) f) ∧
  (∀ f, dirty (persist y) f = true → ¬ in_sync (disk y) (persist y) f → is_Some (due p)) ∧
  (dirty (persist y) App = true → config g = config (gui y)) ∧
  (dirty (persist y) Profiles = true → s_profiles s = s_profiles (saved y)) ∧
  (dirty (persist y) Runtime = true → runtime g = runtime (gui y)) ∧
  reload_changed content_hash dir (disk y) now g s p = (p, g, s, []).
Proof.
  destruct y as [g s p d]. cbn [gui saved persist disk]. unfold reload_changed.
  pose proof (reload_fold d now ALL p g s [] ALL_NoDup) as Hr. pose proof (reload_memory d now p g s) as Hm. unfold reload_changed in Hm.
  destruct (foldl _ (p, g, s, []) ALL) as [[[p' g'] s'] acc] eqn:E. destruct Hr as (W1 & _ & W3 & _ & _ & (k & W6 & W7) & W8 & _). cbn [app] in W6. subst acc.
  destruct Hm as (Hm1 & Hm2 & Hm3). split_and!; [done| | |done|done|done|].
  - intros f Hf. by destruct (W7 f Hf).
  - intros f. apply W8, elem_of_ALL.
  - pose proof (reload_fold d now ALL p' g' s' [] ALL_NoDup) as Hr. destruct (foldl _ (p', g', s', []) ALL) as [[[p2 g2] s2] acc].
    by apply Hr.
Qed.
End properties.

#[local] Existing Instances Sample.app_codec Sample.profiles_codec Sample.runtime_codec Sample.app_laws Sample.profiles_laws Sample.runtime_laws.

Lemma flush_writes_changes_witness :
  let hash := λ b, Z.of_nat (length b) in
  let y := run hash Sample.dir (init hash Sample.dir true Sample.disk)
             [LChange (mkGui AppConfig_default Sample.two_profiles RuntimeState_default None) App 1000] in
  dirty (persist y) App = true ∧ dirty (persist (flush_all hash Sample.dir (λ _, None) 1400 y).1) App = false.
Proof.
  set (hash := λ b : str, Z.of_nat (length b)).
  set (y := run hash Sample.dir (init hash Sample.dir true Sample.disk) [LChange (mkGui AppConfig_default Sample.two_profiles RuntimeState_default None) App 1000]).
  split; [by vm_compute|].
  pose proof (flush_writes_changes hash Sample.dir (λ _, None) 1400 y) as H.
  change (dirty (persist (flush_all hash Sample.dir (λ _, None) 1400 y).1) App = false).
  destruct (flush_all hash Sample.dir (λ _, None) 1400 y) as [y' r]. destruct H as (_ & _ & H & _).
  apply (H App); by vm_compute.
Defined.
