(* ===== verification/Nodes.v ===== *)
(** * [gui/src/ui/controller/nodes.rs]: the node editor and the node list

    The text of the editor, its checks and what it writes into a profile, and the
    commands on the list with the indices of the active and of the shown node. *)
From S2P Require Import Prelude Std Net Text Link Pac Storage ShareLink Profile.
#[local] Open Scope Z_scope.

(** ** Drafts *)
Inductive DraftField :=
  | DName | DProtocol | DServer | DPort | DUuid | DPassword | DMethod | DSni | DAllowInsecure | DPinnedCertchainSha256
  | DCongestionControl | DPlugin | DPluginOptions | DPluginArgs | DTimeout | DGroup.
#[export] Instance DraftField_eq_dec : EqDecision DraftField.
Proof. solve_decision. Defined.

Inductive DraftError := ERequired | EPort | ETimeout.

Record DraftData := mkDraft {
  d_name : str;
  d_protocol : ProxyProtocol;
  d_server : str;
  d_port : str;
  d_uuid : str;
  d_password : str;
  d_method : str;
  d_sni : str;
  d_allow_insecure : bool;
  d_pinned_certchain_sha256 : str;
  d_congestion_control : str;
  d_plugin : str;
  d_plugin_options : str;
  d_plugin_args : str;
  d_timeout : str;
  d_group : str;
}.

Definition DraftData_default : DraftData := mkDraft [] Juicity [] [] [] [] [] [] false [] [] [] [] [] [] [].

Definition parse_port (text : str) : option Z :=
  port ← parse_u16 (trim text); if decide (0 < port) then Some port else None.

Definition parse_timeout (text : str) : option Z := parse_uint u32_max (trim text).

Definition text (value : option str) : str := default [] value.

Definition from_profile (p : ProxyProfile) : DraftData :=
  mkDraft (name p) (protocol p) (server p) (show_dec (server_port p)) (uuid p) (password p) (method p) (text (sni p))
    (allow_insecure p) (text (pinned_certchain_sha256 p)) (default (B "bbr") (congestion_control p)) (text (plugin p))
    (text (plugin_opts p)) (text (plugin_args p)) (show_dec (timeout p)) (text (group p)).

Definition set (field : DraftField) (value : str) (d : DraftData) : DraftData :=
  let '(mkDraft nm pr sv po uu pw me sn ai pi cc pl po' pa ti gr) := d in
  match field with
  | DName => mkDraft value pr sv po uu pw me sn ai pi cc pl po' pa ti gr
  | DProtocol => mkDraft nm (if bool_decide (value = B "shadowsocks") then Shadowsocks else Juicity) sv po uu pw me sn ai pi cc pl po' pa ti gr
  | DServer => mkDraft nm pr value po uu pw me sn ai pi cc pl po' pa ti gr
  | DPort => mkDraft nm pr sv value uu pw me sn ai pi cc pl po' pa ti gr
  | DUuid => mkDraft nm pr sv po value pw me sn ai pi cc pl po' pa ti gr
  | DPassword => mkDraft nm pr sv po uu value me sn ai pi cc pl po' pa ti gr
  | DMethod => mkDraft nm pr sv po uu pw value sn ai pi cc pl po' pa ti gr
  | DSni => mkDraft nm pr sv po uu pw me value ai pi cc pl po' pa ti gr
  | DAllowInsecure => mkDraft nm pr sv po uu pw me sn (bool_decide (value = B "true")) pi cc pl po' pa ti gr
  | DPinnedCertchainSha256 => mkDraft nm pr sv po uu pw me sn ai value cc pl po' pa ti gr
  | DCongestionControl => mkDraft nm pr sv po uu pw me sn ai pi value pl po' pa ti gr
  | DPlugin => mkDraft nm pr sv po uu pw me sn ai pi cc value po' pa ti gr
  | DPluginOptions => mkDraft nm pr sv po uu pw me sn ai pi cc pl value pa ti gr
  | DPluginArgs => mkDraft nm pr sv po uu pw me sn ai pi cc pl po' value ti gr
  | DTimeout => mkDraft nm pr sv po uu pw me sn ai pi cc pl po' pa value gr
  | DGroup => mkDraft nm pr sv po uu pw me sn ai pi cc pl po' pa ti value
  end.

Definition take_advanced (sheet d : DraftData) : DraftData :=
  mkDraft (d_name d) (d_protocol d) (d_server d) (d_port d) (d_uuid d) (d_password d) (d_method d) (d_sni sheet) (d_allow_insecure sheet)
    (d_pinned_certchain_sha256 sheet) (d_congestion_control sheet) (d_plugin sheet) (d_plugin_options sheet) (d_plugin_args sheet)
    (d_timeout sheet) (d_group sheet).

Definition required_field (f : RequiredField) : DraftField :=
  match f with FServer => DServer | FUuid => DUuid | FPassword => DPassword end.

Definition missing (d : DraftData) : list DraftField :=
  let probe := mkProfile NEW_SERVER (d_protocol d) (d_server d) 443 (d_password d) (d_uuid d) None false None None (d_method d) None None None 5 None None None in
  required_field <$> missing_fields probe.

Definition errors (d : DraftData) : list (DraftField * DraftError) :=
  ((λ f, (f, ERequired)) <$> missing d) ++
  match parse_port (d_port d) with None => [(DPort, EPort)] | Some _ => [] end ++
  match parse_timeout (d_timeout d) with None => [(DTimeout, ETimeout)] | Some _ => [] end.

Definition checked_text (d : DraftData) (f : DraftField) : str :=
  match f with
  | DServer => d_server d
  | DPort => d_port d
  | DUuid => d_uuid d
  | DPassword => d_password d
  | DTimeout => d_timeout d
  | _ => []
  end.

Definition unapplied (d : DraftData) (p : ProxyProfile) : bool :=
  existsb (λ '(f, _), negb (bool_decide (checked_text d f = checked_text (from_profile p) f))) (errors d).

(** The new value of a text that was changed in the editor. *)
Definition changed {A} (typed current : str) (new old : A) : A := if decide (typed = current) then old else new.

Definition apply_draft (d : DraftData) (p : ProxyProfile) : ProxyProfile :=
  let c := from_profile p in
  let ms := missing d in
  mkProfile (changed (d_name d) (d_name c) (trim (d_name d)) (name p))
    (d_protocol d)
    (if bool_decide (d_server d ≠ d_server c) && negb (bool_decide (DServer ∈ ms)) then trim (d_server d) else server p)
    (default (server_port p) (parse_port (d_port d)))
    (if bool_decide (DPassword ∈ ms) then password p else d_password d)
    (if bool_decide (d_uuid d ≠ d_uuid c) && negb (bool_decide (DUuid ∈ ms)) then trim (d_uuid d) else uuid p)
    (changed (d_sni d) (d_sni c) (non_empty_text (d_sni d)) (sni p))
    (d_allow_insecure d)
    (changed (d_pinned_certchain_sha256 d) (d_pinned_certchain_sha256 c) (non_empty_text (d_pinned_certchain_sha256 d)) (pinned_certchain_sha256 p))
    (changed (d_congestion_control d) (d_congestion_control c) (normalize_congestion_control (d_congestion_control d)) (congestion_control p))
    (d_method d)
    (changed (d_plugin d) (d_plugin c) (non_empty_text (d_plugin d)) (plugin p))
    (changed (d_plugin_options d) (d_plugin_options c) (non_empty_text (d_plugin_options d)) (plugin_opts p))
    (changed (d_plugin_args d) (d_plugin_args c) (non_empty_text (d_plugin_args d)) (plugin_args p))
    (default (timeout p) (parse_timeout (d_timeout d)))
    (changed (d_group d) (d_group c) (non_empty_text (d_group d)) (group p))
    (config_path p) (link p).

(** ** The list *)
Inductive ListCommand := MoveUp | MoveDown | Duplicate | Delete.

(** The working list, the active node and the node in the editor. *)
Record NodeList := mkNodes { n_profiles : list ProxyProfile; n_active : nat; n_selected : nat }.

Definition swap {A} (i j : nat) (l : list A) : list A :=
  match l !! i, l !! j with Some a, Some b => <[i := b]> (<[j := a]> l) | _, _ => l end.

(** The list part of [node_command]: [None] when nothing is done. *)
Definition node_command (index : nat) (command : ListCommand) (n : NodeList) : option NodeList :=
  let ps := n_profiles n in
  let len := length ps in
  if decide (index < len)%nat then
    let moved other :=
      let remap i := if decide (i = index) then other else if decide (i = other) then index else i in
      Some (mkNodes (swap index other ps) (remap (n_active n)) (remap (n_selected n))) in
    match command with
    | MoveUp => if decide (0 < index)%nat then moved (index - 1)%nat else None
    | MoveDown => if decide (index + 1 < len)%nat then moved (index + 1)%nat else None
    | Duplicate =>
        copy ← ps !! index;
        let remap i := if decide (index < i)%nat then (i + 1)%nat else i in
        Some (mkNodes (take (index + 1) ps ++ copy :: drop (index + 1) ps) (remap (n_active n)) (index + 1))
    | Delete =>
        if decide (len = 1)%nat then None
        else
          let remap i := if decide (index < i)%nat then (i - 1)%nat else (i `min` (len - 2))%nat in
          Some (mkNodes (take index ps ++ drop (index + 1) ps) (remap (n_active n)) (remap (n_selected n)))
    end
  else None.

Definition add_node (nm : str) (n : NodeList) : NodeList :=
  let d := ProxyProfile_default in
  let p := mkProfile nm (protocol d) (server d) (server_port d) (password d) (uuid d) (sni d) (allow_insecure d) (pinned_certchain_sha256 d)
             (congestion_control d) (method d) (plugin d) (plugin_opts d) (plugin_args d) (timeout d) (group d) (config_path d) (link d) in
  mkNodes (n_profiles n ++ [p]) (n_active n) (length (n_profiles n)).

Definition select_node (index : nat) (n : NodeList) : NodeList :=
  if decide (index = n_selected n ∨ (length (n_profiles n) ≤ index)%nat) then n else mkNodes (n_profiles n) (n_active n) index.

(** The lines of [import_text] that are links, and the number of the others;
    [None] when an import panics. *)
Fixpoint import_lines `{UrlLib} (ls : list str) : option (list ProxyProfile * nat) :=
  match ls with
  | [] => Some ([], O)
  | l :: ls =>
      r ← import_share_link l;
      '(ps, skipped) ← import_lines ls;
      match r with
      | Ok imported => Some (apply_to imported ProxyProfile_default :: ps, skipped)
      | Err _ => Some (ps, S skipped)
      end
  end.

Definition import_text `{UrlLib} (txt : str) (n : NodeList) : option (NodeList * nat * nat) :=
  '(added, skipped) ← import_lines (filter (λ l, l ≠ []) (trim <$> lines txt));
  Some (match added with
        | [] => n
        | _ => mkNodes (n_profiles n ++ added) (n_active n) (length (n_profiles n))
        end, length added, skipped).

(** ** What a draft writes *)
Definition port_ok (p : ProxyProfile) : Prop := 0 <= server_port p <= u16_max ∧ 0 <= timeout p <= u32_max.

Lemma parse_port_dec z : 0 <= z <= u16_max → parse_port (show_dec z) = if decide (0 < z) then Some z else None.
Proof. intros Hz. unfold parse_port. rewrite show_dec_trim by (unfold u16_max in *; lia). by rewrite parse_u16_dec. Qed.

Lemma parse_timeout_dec z : 0 <= z <= u32_max → parse_timeout (show_dec z) = Some z.
Proof.
  intros Hz. unfold parse_timeout. rewrite show_dec_trim by (unfold u32_max in *; lia). apply parse_uint_show_dec; [done|]. unfold u32_max. lia.
Qed.

Lemma changed_same {A} t (a b : A) : changed t t a b = b.
Proof. unfold changed. by rewrite decide_True. Qed.

(** A draft that was not edited writes nothing: the profile stays as it is, invalid ports and missing fields
    included, and nothing counts as unapplied. *)
Theorem untouched_draft p : port_ok p → apply_draft (from_profile p) p = p ∧ unapplied (from_profile p) p = false.
Proof.
  intros [Hp Ht]. split.
  - unfold apply_draft. cbn [from_profile d_name d_protocol d_server d_port d_uuid d_password d_method d_sni d_allow_insecure
      d_pinned_certchain_sha256 d_congestion_control d_plugin d_plugin_options d_plugin_args d_timeout d_group].
    rewrite !changed_same, (bool_decide_false (server p ≠ server p)), (bool_decide_false (uuid p ≠ uuid p)) by auto. cbn [andb].
    rewrite parse_port_dec, parse_timeout_dec by done. cbn [default].
    assert (default (server_port p) (if decide (0 < server_port p) then Some (server_port p) else None) = server_port p) as -> by by case_decide.
    destruct p. by case_bool_decide.
  - unfold unapplied. apply not_true_iff_false. intros H%List.existsb_exists. destruct H as ([f e] & _ & H). by rewrite bool_decide_true in H.
Qed.

Lemma untouched_draft_witness :
  apply_draft (from_profile ProxyProfile_default) ProxyProfile_default = ProxyProfile_default.
Proof. apply untouched_draft. split; cbn; unfold u16_max, u32_max; lia. Defined.

Lemma missing_elem d f :
  f ∈ missing d ↔
    (f = DServer ∧ is_empty (trim (d_server d)) = true) ∨
    (f = DUuid ∧ d_protocol d = Juicity ∧ is_empty (trim (d_uuid d)) = true) ∨
    (f = DPassword ∧ is_empty (d_password d) = true ∧ (d_protocol d = Shadowsocks → d_method d ≠ B "none" ∧ d_method d ≠ B "plain")).
Proof.
  unfold missing, missing_fields. cbn [server uuid password method protocol].
  assert (∀ (b : bool) x, f ∈ required_field <$> (if b then [x] else []) ↔ f = required_field x ∧ b = true) as Hif.
  { intros [] x; cbn [fmap list_fmap]; rewrite ?list_elem_of_singleton, ?elem_of_nil; by intuition. }
  destruct (d_protocol d); rewrite !fmap_app, !elem_of_app, !Hif; cbn [required_field].
  - split; [intros [?|[[? ?]|[? ?]]]; [by left|right; left; by split_and!|right; right; by split_and!]|].
    intros [?|[(?&_&?)|(?&?&_)]]; auto.
  - rewrite andb_true_iff, negb_true_iff, orb_false_iff, !bool_decide_eq_false. split; [intros [?|(?&?&?)]; [by left|right; right; by split_and!]|].
    intros [?|[(?&?&_)|(?&?&Hm)]]; [auto|done|]. destruct (Hm eq_refl). right. by split_and!.
Qed.

(** A missing password that is not needed. *)
Lemma passwordless d :
  DPassword ∉ missing d → is_empty (d_password d) = true →
  d_protocol d = Shadowsocks ∧ (d_method d = B "none" ∨ d_method d = B "plain").
Proof.
  rewrite missing_elem. intros Hn He.
  destruct (decide (d_method d = B "none" ∨ d_method d = B "plain")) as [Hm|Hm].
  - split; [|done]. destruct (d_protocol d) eqn:Ep; [|done]. destruct Hn. right. right. by split_and!.
  - destruct Hn. right. right. split_and!; [done|done|]. intros _. split; intros E; apply Hm; [by left|by right].
Qed.

Lemma missing_fields_nil p :
  missing_fields p = [] ↔
    is_empty (trim (server p)) = false ∧ (protocol p = Juicity → is_empty (trim (uuid p)) = false) ∧
    (is_empty (password p) = false ∨ protocol p = Shadowsocks ∧ (method p = B "none" ∨ method p = B "plain")).
Proof.
  unfold missing_fields. destruct (is_empty (trim (server p))), (protocol p), (is_empty (trim (uuid p))), (is_empty (password p));
    repeat case_bool_decide; cbn [app orb andb negb]; naive_solver.
Qed.

(** The text that is in the profile after a draft was applied. *)
Lemma applied_text d (typed stored : str) (f : DraftField) (new : str) :
  new = (if bool_decide (typed ≠ stored) && negb (bool_decide (f ∈ missing d)) then trim typed else stored) →
  (f ∈ missing d ∧ (new = stored)) ∨ (f ∉ missing d ∧ is_empty (trim new) = is_empty (trim typed) ∧ trim new = trim typed).
Proof.
  intros ->. destruct (decide (f ∈ missing d)) as [Hin|Hin].
  - left. split; [done|]. rewrite (bool_decide_true (f ∈ missing d)) by done. by rewrite andb_false_r.
  - right. rewrite (bool_decide_false (f ∈ missing d)) by done. rewrite andb_true_r. split; [done|].
    case_bool_decide as E; [by rewrite trim_idem|]. assert (typed = stored) as -> by (destruct (decide (typed = stored)); [done|by destruct E]). done.
Qed.

(** A draft without errors is written completely: the profile lacks no field, has the typed server, user and password
    (without white space around the first two), port and timeout, and its own draft has no errors. *)
Theorem valid_draft_applied d p :
  errors d = [] →
  let p' := apply_draft d p in
  missing_fields p' = [] ∧ protocol p' = d_protocol d ∧ trim (server p') = trim (d_server d) ∧ trim (uuid p') = trim (d_uuid d) ∧
  (is_empty (d_password d) = false → password p' = d_password d) ∧
  parse_port (d_port d) = Some (server_port p') ∧ parse_timeout (d_timeout d) = Some (timeout p').
Proof.
  intros He p'. unfold errors in He. apply app_eq_nil in He as [Hm [Hp Ht]%app_eq_nil]. apply fmap_nil_inv in Hm.
  assert (∀ f, f ∉ missing d) as Hno by (intros f; rewrite Hm; apply not_elem_of_nil).
  destruct (applied_text d (d_server d) (server p) DServer (server p') eq_refl) as [[Hin _]|(_ & Hs & Hs')]; [by destruct (Hno DServer)|].
  destruct (applied_text d (d_uuid d) (uuid p) DUuid (uuid p') eq_refl) as [[Hin _]|(_ & Hu & Hu')]; [by destruct (Hno DUuid)|].
  assert (password p' = d_password d) as Hw by (unfold p', apply_draft; cbn [password]; by rewrite bool_decide_false by apply Hno).
  assert (∀ f, ¬ (f ∈ missing d)) as Hno' by apply Hno.
  split_and!; [|done|done|done|done| |].
  - apply missing_fields_nil. rewrite Hs, Hw. change (protocol p') with (d_protocol d). change (method p') with (d_method d). rewrite Hu.
    pose proof (Hno' DServer) as H1. pose proof (Hno' DUuid) as H2. rewrite missing_elem in H1, H2.
    split_and!.
    + apply not_true_iff_false. intros E. apply H1. auto.
    + intros Ej. apply not_true_iff_false. intros E. apply H2. auto.
    + destruct (is_empty (d_password d)) eqn:E; [|by left]. right. by apply passwordless.
  - unfold p', apply_draft. cbn [server_port]. by destruct (parse_port (d_port d)).
  - unfold p', apply_draft. cbn [timeout]. by destruct (parse_timeout (d_timeout d)).
Qed.

Lemma valid_draft_applied_witness :
  missing_fields (apply_draft (set DServer (B " h ") (set DUuid (B "u") (set DPassword (B "p") (from_profile ProxyProfile_default)))) ProxyProfile_default) = [].
Proof. apply (valid_draft_applied (set DServer (B " h ") (set DUuid (B "u") (set DPassword (B "p") (from_profile ProxyProfile_default))))). by vm_compute. Defined.

Lemma span_digits_digits s ds r : span_digits 10 s = (ds, r) → Forall (λ d, 0 <= d < 10) ds.
Proof.
  revert ds r. induction s as [|c s IH]; intros ds r; cbn [span_digits]; [by intros [= <- <-]|].
  destruct (to_digit 10 c) as [d|] eqn:E; [|by intros [= <- <-]]. destruct (span_digits 10 s) as [ds' r'] eqn:Es. intros [= <- <-].
  constructor; [|by eapply IH]. unfold to_digit in E.
  destruct (_ && _) eqn:E1 in E; [apply andb_true_iff in E1 as [?%Z.leb_le ?%Z.leb_le]; case_match; [|done]; simplify_eq; lia|].
  destruct (_ && _) eqn:E2 in E; [apply andb_true_iff in E2 as [?%Z.leb_le ?%Z.leb_le]; case_match eqn:E4; [|done]; apply Z.ltb_lt in E4; lia|].
  destruct (_ && _) eqn:E3 in E; [apply andb_true_iff in E3 as [?%Z.leb_le ?%Z.leb_le]; case_match eqn:E4; [|done]; apply Z.ltb_lt in E4; lia|].
  done.
Qed.

Lemma parse_uint_range max s z : parse_uint max s = Some z → 0 <= z <= max.
Proof.
  unfold parse_uint. destruct (span_digits 10 _) as [[|d ds] [|c r]] eqn:E; try done.
  cbv zeta. destruct (digits_value 10 (d :: ds) <=? max) eqn:Em; [|done]. intros [= <-].
  apply Z.leb_le in Em. split; [|done]. apply digits_value_nonneg. by eapply span_digits_digits.
Qed.

(** Invalid text never makes a complete profile incomplete: whatever is typed without changing the protocol and the
    method, a profile with all its fields keeps them, and its port and timeout stay in range. *)
Theorem complete_profile_stays d p :
  missing_fields p = [] → port_ok p → d_protocol d = protocol p → d_method d = method p →
  missing_fields (apply_draft d p) = [] ∧ port_ok (apply_draft d p).
Proof.
  intros Hp [Hpo Hti] Epr Eme. apply missing_fields_nil in Hp as (Hs & Hu & Hw). set (p' := apply_draft d p). split.
  - apply missing_fields_nil. change (protocol p') with (d_protocol d). change (method p') with (d_method d). rewrite Epr, Eme.
    destruct (applied_text d (d_server d) (server p) DServer (server p') eq_refl) as [[_ ->]|(Hn & E1 & _)].
    all: destruct (applied_text d (d_uuid d) (uuid p) DUuid (uuid p') eq_refl) as [[_ ->]|(Hn' & E2 & _)].
    all: rewrite ?E1, ?E2; split_and!; try done.
    all: try (rewrite missing_elem in Hn; apply not_true_iff_false; intros E; apply Hn; by auto).
    all: try (intros Ej; rewrite missing_elem in Hn'; apply not_true_iff_false; intros E; apply Hn'; rewrite Epr; by auto).
    all: unfold p', apply_draft; cbn [password]; case_bool_decide as Hm; [done|].
    all: destruct (is_empty (d_password d)) eqn:E; [|by left]; right; rewrite <-Epr, <-Eme; by apply passwordless.
  - split; unfold p', apply_draft; cbn [server_port timeout].
    + unfold parse_port. destruct (parse_u16 (trim (d_port d))) as [z|] eqn:E; cbn [mbind option_bind]; [|done]. case_decide; [|done].
      apply parse_uint_range in E. cbn [default]; unfold id; lia.
    + unfold parse_timeout. destruct (parse_uint u32_max (trim (d_timeout d))) as [z|] eqn:E; [|done]. apply parse_uint_range in E. cbn [default]; unfold id; lia.
Qed.

Lemma complete_profile_stays_witness :
  let p := mkProfile (B "P") Juicity (B "proxy.example") 443 (B "pw") (B "u") None false None None [] None None None 5 None None None in
  missing_fields (apply_draft (set DServer (B "  ") (set DPort (B "70000") (set DPassword [] (from_profile p)))) p) = [].
Proof.
  intros p. apply (complete_profile_stays (set DServer (B "  ") (set DPort (B "70000") (set DPassword [] (from_profile p)))) p);
    [done|split; cbn; unfold u16_max, u32_max; lia|done|done].
Defined.

(** ** Commands keep the nodes that the indices name *)
Definition nodes_ok (n : NodeList) : Prop :=
  (n_active n < length (n_profiles n))%nat ∧ (n_selected n < length (n_profiles n))%nat.

Lemma swap_lookup {A} (i j : nat) (l : list A) a b k :
  l !! i = Some a → l !! j = Some b →
  swap i j l !! k = l !! (if decide (k = i) then j else if decide (k = j) then i else k).
Proof.
  intros Hi Hj. unfold swap. rewrite Hi, Hj. pose proof (lookup_lt_Some _ _ _ Hi). pose proof (lookup_lt_Some _ _ _ Hj).
  destruct (decide (k = i)) as [->|Hki].
  - rewrite list_lookup_insert_eq; [done|by rewrite length_insert].
  - rewrite list_lookup_insert_ne by done. destruct (decide (k = j)) as [->|Hkj]; [by rewrite list_lookup_insert_eq|].
    by rewrite list_lookup_insert_ne.
Qed.

Lemma swap_length {A} (i j : nat) (l : list A) : length (swap i j l) = length l.
Proof. unfold swap. repeat case_match; rewrite ?length_insert; done. Qed.

(** Where a node is after a command; [None] for the deleted one. *)
Definition moved_to (command : ListCommand) (index i : nat) : option nat :=
  match command with
  | MoveUp => Some (if decide (i = index) then (index - 1)%nat else if decide (i = index - 1)%nat then index else i)
  | MoveDown => Some (if decide (i = index) then (index + 1)%nat else if decide (i = index + 1)%nat then index else i)
  | Duplicate => Some (if decide (index < i)%nat then (i + 1)%nat else i)
  | Delete => if decide (i = index) then None else Some (if decide (index < i)%nat then (i - 1)%nat else i)
  end.

Lemma remove_lookup {A} (index i : nat) (l : list A) :
  (index < length l)%nat → i ≠ index →
  (take index l ++ drop (index + 1) l) !! (if decide (index < i)%nat then (i - 1)%nat else i) = l !! i.
Proof.
  intros Hl Hi. case_decide.
  - rewrite lookup_app_r by (rewrite length_take; lia). rewrite lookup_drop, length_take. f_equal. lia.
  - rewrite lookup_app_l by (rewrite length_take; lia). by rewrite lookup_take_lt by lia.
Qed.

Lemma insert_lookup {A} (index i : nat) (l : list A) a :
  (index < length l)%nat →
  (take (index + 1) l ++ a :: drop (index + 1) l) !! (if decide (index < i)%nat then (i + 1)%nat else i) = l !! i.
Proof.
  intros Hl. case_decide.
  - rewrite lookup_app_r by (rewrite length_take; lia). rewrite length_take.
    replace (i + 1 - (index + 1) `min` length l)%nat with (S (i - (index + 1))) by lia. cbn [lookup list_lookup].
    change (drop (index + 1) l !! (i - (index + 1))%nat = l !! i). rewrite lookup_drop. f_equal. lia.
  - rewrite lookup_app_l by (rewrite length_take; lia). by rewrite lookup_take_lt by lia.
Qed.

(** A command on the list moves every node to the place [moved_to] gives, adds the copy behind the original or removes
    the deleted one, and keeps at least one node; the active index follows its node unless that was deleted, the
    editor shows the same node, the copy, or a neighbour of a deleted one, and both indices stay in the list. *)
Theorem node_command_moves index command n n' :
  nodes_ok n → node_command index command n = Some n' →
  nodes_ok n' ∧
  (∀ i j, moved_to command index i = Some j → n_profiles n' !! j = n_profiles n !! i) ∧
  length (n_profiles n') = match command with Duplicate => S (length (n_profiles n)) | Delete => (length (n_profiles n) - 1)%nat | _ => length (n_profiles n) end ∧
  (moved_to command index (n_active n) = Some (n_active n') ∨ (command = Delete ∧ n_active n = index)) ∧
  match command with
  | Duplicate => n_selected n' = S index ∧ n_profiles n' !! S index = n_profiles n !! index
  | _ => moved_to command index (n_selected n) = Some (n_selected n') ∨ (command = Delete ∧ n_selected n = index)
  end.
Proof.
  destruct n as [ps act sel]. intros [Ha Hs]. cbn [n_profiles n_active n_selected] in *. unfold node_command. cbn [n_profiles n_active n_selected].
  destruct (decide (index < length ps)%nat) as [Hi|]; [|done]. destruct (lookup_lt_is_Some_2 ps index Hi) as [a Hia].
  destruct command.
  - case_decide as H0; [|done]. intros [= <-]. cbn [n_profiles n_active n_selected]. destruct (lookup_lt_is_Some_2 ps (index - 1)) as [b Hib]; [lia|].
    split_and!.
    + split; cbn; rewrite swap_length; repeat case_decide; lia.
    + intros i j [= <-]. rewrite (swap_lookup _ _ _ a b) by done. repeat case_decide; subst; try lia; f_equal; lia.
    + apply swap_length.
    + left. cbn. f_equal.
    + left. cbn. f_equal.
  - case_decide as H0; [|done]. intros [= <-]. cbn [n_profiles n_active n_selected]. destruct (lookup_lt_is_Some_2 ps (index + 1)) as [b Hib]; [lia|].
    split_and!.
    + split; cbn; rewrite swap_length; repeat case_decide; lia.
    + intros i j [= <-]. rewrite (swap_lookup _ _ _ a b) by done. repeat case_decide; subst; try lia; f_equal; lia.
    + apply swap_length.
    + left. cbn. f_equal.
    + left. cbn. f_equal.
  - rewrite Hia. cbn [mbind option_bind]. intros [= <-]. cbn [n_profiles n_active n_selected].
    assert (length (take (index + 1) ps ++ a :: drop (index + 1) ps) = S (length ps)) as Hl.
    { rewrite length_app, length_take. cbn [length]. rewrite length_drop. lia. }
    split_and!.
    + split; cbn [n_profiles n_active n_selected]; rewrite Hl; repeat case_decide; lia.
    + intros i j [= <-]. by apply insert_lookup.
    + done.
    + by left.
    + lia.
    + rewrite lookup_app_r by (rewrite length_take; lia). rewrite length_take. by replace (S index - (index + 1) `min` length ps)%nat with O by lia.
  - case_decide as H1; [done|]. intros [= <-]. cbn [n_profiles n_active n_selected].
    assert (length (take index ps ++ drop (index + 1) ps) = (length ps - 1)%nat) as Hl by (rewrite length_app, length_take, length_drop; lia).
    assert (∀ i, (i < length ps)%nat → moved_to Delete index i = Some (if decide (index < i)%nat then (i - 1)%nat else (i `min` (length ps - 2))%nat) ∨ (Delete = Delete ∧ i = index)) as Hm.
    { intros i Hil. cbn [moved_to]. destruct (decide (i = index)); [by right|]. left. f_equal. repeat case_decide; lia. }
    split_and!.
    + split; cbn [n_profiles n_active n_selected]; rewrite Hl; repeat case_decide; lia.
    + intros i j E. cbn [moved_to] in E. destruct (decide (i = index)); [done|]. injection E as <-. by apply remove_lookup.
    + done.
    + by apply Hm.
    + by apply Hm.
Qed.

Lemma node_command_moves_witness :
  let p s := mkProfile s Juicity [] 443 [] [] None false None None [] None None None 5 None None None in
  node_command 0 Delete (mkNodes [p (B "a"); p (B "b"); p (B "c")] 2 0) = Some (mkNodes [p (B "b"); p (B "c")] 1 0) ∧
  nodes_ok (mkNodes [p (B "b"); p (B "c")] 1 0).
Proof.
  intros p. assert (node_command 0 Delete (mkNodes [p (B "a"); p (B "b"); p (B "c")] 2 0) = Some (mkNodes [p (B "b"); p (B "c")] 1 0)) as E by (by vm_compute).
  split; [exact E|].
  refine (proj1 (node_command_moves 0 Delete (mkNodes [p (B "a"); p (B "b"); p (B "c")] 2 0) _ _ E)). split; cbn; lia.
Defined.
