(* ===== verification/Core.v ===== *)
(** * [gui/src/core.rs]: the core manager of the graphical client

    The manager runs at most one proxy core on its own runtime: it starts a core from
    a profile, stops it, polls it for an unexpected end, and reads its traffic, which
    a shadowsocks core reports to a thread.  Tasks and reader threads are numbered in
    the order in which they are created. *)
From S2P Require Import Prelude Std Net Text Config Profile.
#[local] Open Scope Z_scope.

Definition BIND_RETRY_ATTEMPTS : nat := 5.
Definition BIND_RETRY_DELAY : Z := 20.

(** ** Binding again while the address is in use *)
Inductive IoError := AddrInUse (e : error) | OtherKind (e : error).
Definition io_error (e : IoError) : error := match e with AddrInUse e | OtherKind e => e end.

Inductive RetryAct := ACall | ASleep.

(** [retry] is the loop with [left] of the [attempts] to go; [op n] is the outcome of the
    [n]-th call.  [None] is the panic of [expect] when there was no attempt. *)
Fixpoint retry {T} (op : nat → T + IoError) (n left : nat) (last_err : option IoError) : list RetryAct * option (T + IoError) :=
  match left with
  | O => ([], inr <$> last_err)
  | S left' =>
      match op n with
      | inl value => ([ACall], Some (inl value))
      | inr (AddrInUse e) =>
          let '(acts, r) := retry op (S n) left' (Some (AddrInUse e)) in
          (ACall :: (if (0 <? left')%nat then [ASleep] else []) ++ acts, r)
      | inr err => ([ACall], Some (inr err))
      end
  end.

Definition retry_on_addr_in_use {T} (attempts : nat) (op : nat → T + IoError) : list RetryAct * option (T + IoError) :=
  retry op 0 attempts None.

(** ** The configuration of a shadowsocks core *)
Section shadowsocks_config.
Context {SsConfig : Type} (path_exists : str → bool) (load_file : str → result SsConfig)
  (to_string : Json → result str) (load_from_json_str : str → result SsConfig).

Definition object (fields : list (string * Json)) : gmap str Json := list_to_map (prod_map B id <$> fields).

Definition given (value : option str) : option str :=
  v ← value; if is_empty v then None else Some v.

Definition plugin_fields (p : ProxyProfile) (m : gmap str Json) : gmap str Json :=
  match given (plugin p) with
  | None => m
  | Some plugin =>
      let m := <[B "plugin" := JString plugin]> m in
      let m := match given (plugin_opts p) with Some opts => <[B "plugin_opts" := JString opts]> m | None => m end in
      match given (plugin_args p) with
      | Some args => <[B "plugin_args" := JArray (JString <$> split_whitespace args)]> m
      | None => m
      end
  end.

Definition shadowsocks_json (mixed_listen : str) (p : ProxyProfile) : option Json :=
  '(addr, port) ← split_host_port mixed_listen;
  let local := object [("local_address"%string, JString addr); ("local_port"%string, JNumber port); ("protocol"%string, JString (B "socks"))] in
  let json := object [("server"%string, JString (server p)); ("server_port"%string, JNumber (server_port p));
    ("password"%string, JString (password p)); ("method"%string, JString (method p));
    ("locals"%string, JArray [JObject local]); ("timeout"%string, JNumber (timeout p))] in
  Some (JObject (plugin_fields p json)).

(** [None] is the panic of [split_host_port]. *)
Definition build_shadowsocks_config (mixed_listen : str) (p : ProxyProfile) : option (result SsConfig) :=
  let built :=
    json ← shadowsocks_json mixed_listen p;
    Some (text ← to_string json; load_from_json_str text) in
  match config_path p with
  | Some path => if path_exists path then Some (load_file path) else built
  | None => built
  end.
End shadowsocks_config.

(** ** The manager *)
Record FlowCounters := mkFlow { tx : Z; rx : Z; stopped : bool; thread : bool }.
Definition FlowCounters_default : FlowCounters := mkFlow 0 0 false true.
Definition flow_set (a b : Z) (c : FlowCounters) : FlowCounters := mkFlow a b (stopped c) (thread c).
Definition flow_get (c : FlowCounters) : Z * Z := (tx c, rx c).
Definition flow_stop (c : FlowCounters) : FlowCounters := mkFlow (tx c) (rx c) true (thread c).
Definition flow_end (c : FlowCounters) : FlowCounters := mkFlow (tx c) (rx c) (stopped c) false.

(** A task is [Aborting] from [abort] until the runtime has dropped it. *)
Inductive TaskState := Running | Aborting | Returned | Panicked (msg : str) | Cancelled.
#[export] Instance TaskState_eq_dec : EqDecision TaskState.
Proof. solve_decision. Defined.

(** [JoinHandle::is_finished]. *)
Definition is_finished (t : TaskState) : bool := match t with Running | Aborting => false | _ => true end.

(** [client] is whether the core has a QUIC client, which juicity cores have. *)
Record RunningCore := mkRunning {
  protocol : ProxyProtocol;
  task : nat;
  client : bool;
  flow_stat : option nat;
  last_traffic : Z * Z;
}.

Record StartedCore := mkStarted { s_task : nat; s_client : bool; s_flow_stat : option nat }.

Record CoreManager := mkManager {
  runtime : bool;
  running : option RunningCore;
  tasks : list TaskState;
  readers : list FlowCounters;
}.
Definition CoreManager_new : CoreManager := mkManager false None [] [].

Definition with_running (r : option RunningCore) (m : CoreManager) : CoreManager := mkManager (runtime m) r (tasks m) (readers m).
Definition with_tasks (ts : list TaskState) (m : CoreManager) : CoreManager := mkManager (runtime m) (running m) ts (readers m).
Definition with_readers (fs : list FlowCounters) (m : CoreManager) : CoreManager := mkManager (runtime m) (running m) (tasks m) fs.

(** [traffic]: [stats] is what the QUIC client answers. *)
Definition traffic (stats : option (Z * Z)) (m : CoreManager) : CoreManager * option (Z * Z) :=
  match running m with
  | None => (m, None)
  | Some r =>
      let reading := if client r then stats else i ← flow_stat r; flow_get <$> readers m !! i in
      let last := default (last_traffic r) reading in
      (with_running (Some (mkRunning (protocol r) (task r) (client r) (flow_stat r) last)) m, Some last)
  end.

Definition get_runtime (built : result unit) (m : CoreManager) : result CoreManager :=
  if runtime m then Ok m else _ ← built; Ok (mkManager true (running m) (tasks m) (readers m)).

Definition spawn (m : CoreManager) : CoreManager * nat := (with_tasks (tasks m ++ [Running]) m, length (tasks m)).

Definition abort (t : TaskState) : TaskState := match t with Running => Aborting | t => t end.
Definition settle (t : TaskState) : TaskState := match t with Running | Aborting => Cancelled | t => t end.

Definition stop_and_wait (m : CoreManager) : CoreManager :=
  match running m with
  | None => m
  | Some r =>
      let m := with_running None m in
      let m := match flow_stat r with Some i => with_readers (alter flow_stop i (readers m)) m | None => m end in
      let m := with_tasks (alter abort (task r) (tasks m)) m in
      if runtime m then with_tasks (alter settle (task r) (tasks m)) m else m
  end.

Definition protocol_name (p : ProxyProtocol) : str := match p with Juicity => B "Juicity" | Shadowsocks => B "Shadowsocks" end.

(** The reader of a core that ended is dropped here without [FlowCounters::stop]. *)
Definition poll (m : CoreManager) : CoreManager * option str :=
  match running m with
  | None => (m, None)
  | Some r =>
      let state := default Running (tasks m !! task r) in
      if is_finished state then
        let exited := protocol_name (protocol r) ++ B " core exited" in
        let reason :=
          if runtime m then
            match state with
            | Panicked err => protocol_name (protocol r) ++ B " core failed: " ++ err
            | _ => exited
            end
          else exited in
        (with_running None m, Some reason)
      else (m, None)
  end.

(** ** The thread that reads traffic reports *)
Section reader.
Context (little_endian : bool).

(** [u64::from_ne_bytes]. *)
Definition from_ne_bytes (b : str) : Z :=
  foldr (λ c v, u8 c + 256 * v) 0 (if little_endian then b else rev b).

(** One call of [accept]: a connection that delivers [received] until it ends or times out. *)
Inductive Accept := AConn (timeout_set : result unit) (received : str) | AWouldBlock | AFails.

Definition read_flow_report (timeout_set : result unit) (received : str) : result str :=
  _ ← timeout_set; fst <$> read_exact 16 received.

(** One turn of the loop. *)
Definition reader_turn (a : Accept) (c : FlowCounters) : FlowCounters :=
  if negb (thread c) then c
  else if stopped c then flow_end c
  else match a with
       | AConn timeout_set received =>
           match read_flow_report timeout_set received with
           | Ok buf => flow_set (from_ne_bytes (take 8 buf)) (from_ne_bytes (take 8 (drop 8 buf))) c
           | Err _ => c
           end
       | AWouldBlock => c
       | AFails => flow_end c
       end.
End reader.

(** ** Starting a core *)

(** What the system and the libraries answer during a start. *)
Record StartEnv (SsConfig : Type) := mkEnv {
  runtime_built : result unit;
  client_new : Config → result unit;
  bind : str → nat → unit + IoError;
  stat_bound : result str;
  stat_nonblocking : result unit;
  stat_spawned : result unit;
  server_new : SsConfig → nat → unit + IoError;
}.
Arguments mkEnv {SsConfig}. Arguments runtime_built {SsConfig}. Arguments client_new {SsConfig}.
Arguments bind {SsConfig}. Arguments stat_bound {SsConfig}. Arguments stat_nonblocking {SsConfig}.
Arguments stat_spawned {SsConfig}. Arguments server_new {SsConfig}.

Definition start_flow_stat_reader {SsConfig} (env : StartEnv SsConfig) (m : CoreManager) : CoreManager * result (str * nat) :=
  match (addr ← stat_bound env; _ ← stat_nonblocking env; _ ← stat_spawned env; Ok addr) with
  | Ok addr => (with_readers (readers m ++ [FlowCounters_default]) m, Ok (addr, length (readers m)))
  | Err e => (m, Err e)
  end.

Section start.
Context `{UuidParse} {SsConfig : Type} (path_exists : str → bool) (from_file : str → result Config)
  (load_file : str → result SsConfig) (to_string : Json → result str) (load_from_json_str : str → result SsConfig)
  (with_stat_addr : str → SsConfig → SsConfig) (little_endian : bool).

(** [None] is a panic. *)
Definition start_juicity (env : StartEnv SsConfig) (listen : str) (p : ProxyProfile) (m : CoreManager)
  : CoreManager * option (result StartedCore) :=
  match (c ← build_juicity_config path_exists from_file listen p; _ ← client_new env c; Ok c) with
  | Err e => (m, Some (Err e))
  | Ok c =>
      match (retry_on_addr_in_use BIND_RETRY_ATTEMPTS (bind env (Config.listen c))).2 with
      | None => (m, None)
      | Some (inr e) => (m, Some (Err (io_error e)))
      | Some (inl _) => let '(m, t) := spawn m in (m, Some (Ok (mkStarted t true None)))
      end
  end.

Definition start_shadowsocks (env : StartEnv SsConfig) (listen : str) (p : ProxyProfile) (m : CoreManager)
  : CoreManager * option (result StartedCore) :=
  match build_shadowsocks_config path_exists load_file to_string load_from_json_str listen p with
  | None => (m, None)
  | Some (Err e) => (m, Some (Err e))
  | Some (Ok c) =>
      match start_flow_stat_reader env m with
      | (m, Err e) => (m, Some (Err e))
      | (m, Ok (stat_addr, counters)) =>
          match (retry_on_addr_in_use BIND_RETRY_ATTEMPTS (server_new env (with_stat_addr stat_addr c))).2 with
          | None => (m, None)
          | Some (inr e) => (with_readers (alter flow_stop counters (readers m)) m, Some (Err (io_error e)))
          | Some (inl _) => let '(m, t) := spawn m in (m, Some (Ok (mkStarted t false (Some counters))))
          end
      end
  end.

Definition start_profile (env : StartEnv SsConfig) (listen : str) (p : ProxyProfile) (m : CoreManager)
  : CoreManager * option (result unit) :=
  let m := stop_and_wait m in
  match get_runtime (runtime_built env) m with
  | Err e => (m, Some (Err e))
  | Ok m =>
      let '(m, started) :=
        match Profile.protocol p with
        | Juicity => start_juicity env listen p m
        | Shadowsocks => start_shadowsocks env listen p m
        end in
      match started with
      | None => (m, None)
      | Some (Err e) => (m, Some (Err e))
      | Some (Ok s) => (with_running (Some (mkRunning (Profile.protocol p) (s_task s) (s_client s) (s_flow_stat s) (0, 0))) m, Some (Ok tt))
      end
  end.

(** ** The manager with its tasks and threads

    Besides the calls of the interface, a task ends by itself and a reader thread takes a
    turn.  The log has what became of each core. *)
Inductive Label :=
  | LStart (env : StartEnv SsConfig) (listen : str) (p : ProxyProfile)
  | LStop
  | LPoll
  | LTraffic (stats : option (Z * Z))
  | LEnd (t : nat) (how : TaskState)
  | LReader (i : nat) (a : Accept).

Inductive Obs := OStarted (p : ProxyProtocol) | OStartFailed (e : error) | OPanic | OStopped | OExited (reason : str) | OTraffic (t : option (Z * Z)).

Definition stopped_obs (m : CoreManager) : list Obs := match running m with Some _ => [OStopped] | None => [] end.

(** [LEnd] is a task that returns or panics, or that an abort has reached. *)
Definition end_task (how t : TaskState) : TaskState :=
  match how, t with
  | (Returned | Panicked _), (Running | Aborting) => how
  | Cancelled, Aborting => Cancelled
  | _, _ => t
  end.

Definition step (m : CoreManager) (l : Label) : CoreManager * list Obs :=
  match l with
  | LStart env listen p =>
      let '(m', r) := start_profile env listen p m in
      (m', stopped_obs m ++ match r with Some (Ok _) => [OStarted (Profile.protocol p)] | Some (Err e) => [OStartFailed e] | None => [OPanic] end)
  | LStop => (stop_and_wait m, stopped_obs m)
  | LPoll => let '(m', r) := poll m in (m', match r with Some reason => [OExited reason] | None => [] end)
  | LTraffic stats => let '(m', t) := traffic stats m in (m', [OTraffic t])
  | LEnd t how => (with_tasks (alter (end_task how) t (tasks m)) m, [])
  | LReader i a => (with_readers (alter (reader_turn little_endian a) i (readers m)) m, [])
  end.

Definition run_from (s : CoreManager * list Obs) (ls : list Label) : CoreManager * list Obs :=
  foldl (λ '(m, log) l, let '(m', o) := step m l in (m', log ++ o)) s ls.
Definition run (ls : list Label) : CoreManager * list Obs := run_from (CoreManager_new, []) ls.
End start.

(** ** Retrying *)
Lemma retry_spec {T} (op : nat → T + IoError) n left last :
  (∃ e, last = Some (AddrInUse e)) ∨ left ≠ O →
  ∃ k r, let '(acts, res) := retry op n left last in
    res = Some r ∧ (k ≤ left)%nat ∧
    acts = (if decide (k = O) then [] else ACall :: concat (replicate (k - 1) [ASleep; ACall])) ∧
    (∀ j, (j < k - 1)%nat → ∃ e, op (n + j)%nat = inr (AddrInUse e)) ∧
    (k = O → left = O) ∧
    (k ≠ O → r = op (n + (k - 1))%nat ∧ ((k < left)%nat → ∀ e, r ≠ inr (AddrInUse e))).
Proof.
  revert n last. induction left as [|left IH]; intros n last Hl.
  - destruct Hl as [[e ->]|]; [|done]. exists O, (inr (AddrInUse e)). cbn. split_and!; try done. intros j. lia.
  - cbn [retry]. destruct (op n) as [v|[e|e]] eqn:E.
    + exists 1%nat, (inl v). cbn. split_and!; try done; try lia. rewrite Nat.add_0_r. done.
    + destruct (IH (S n) (Some (AddrInUse e))) as (k & r & H); [left; eauto|].
      destruct (retry op (S n) left (Some (AddrInUse e))) as [acts res] eqn:R.
      destruct H as (-> & Hk & -> & Hb & H0 & H1). destruct (decide (k = O)) as [->|Hk0].
      * specialize (H0 eq_refl) as ->. cbn in R. injection R as [= <-]. exists 1%nat, (inr (AddrInUse e)). cbn.
        split_and!; try done; try lia. intros _. rewrite Nat.add_0_r. split; [done|lia].
      * exists (S k), r. split_and!; try done; try lia.
        -- destruct (Nat.ltb_spec 0 left); [|lia]. rewrite decide_False by done. destruct k as [|k]; [done|]. cbn. by rewrite Nat.sub_0_r.
        -- intros j Hj. destruct j as [|j]; [rewrite Nat.add_0_r; eauto|]. replace (n + S j)%nat with (S n + j)%nat by lia. apply Hb. lia.
        -- intros _. destruct (H1 Hk0) as [-> Hlast]. replace (n + (S k - 1))%nat with (S n + (k - 1))%nat by lia.
           split; [done|]. intros ?. apply Hlast. lia.
    + exists 1%nat, (inr (OtherKind e)). cbn. split_and!; try done; try lia. rewrite Nat.add_0_r. done.
Qed.

(** Retrying calls the operation between once and [attempts] times, sleeping exactly between two calls; every call but
    the last failed because the address was in use, the result is that of the last call, and a result of that kind is
    only given after all attempts.  Only zero attempts would panic. *)
Theorem retry_correct {T} attempts (op : nat → T + IoError) :
  (attempts = O → (retry_on_addr_in_use attempts op).2 = None) ∧
  (attempts ≠ O → ∃ k, (k < attempts)%nat ∧
    retry_on_addr_in_use attempts op = (ACall :: concat (replicate k [ASleep; ACall]), Some (op k)) ∧
    (∀ j, (j < k)%nat → ∃ e, op j = inr (AddrInUse e)) ∧
    ((S k < attempts)%nat → ∀ e, op k ≠ inr (AddrInUse e))).
Proof.
  split; [by intros ->|]. intros Ha. destruct (retry_spec op 0 attempts None) as (k & r & H); [auto|]. unfold retry_on_addr_in_use.
  destruct (retry op 0 attempts None) as [acts res]. destruct H as (-> & Hk & -> & Hb & H0 & H1).
  destruct k as [|k]; [by rewrite H0 in Ha|]. destruct (H1 ltac:(done)) as [-> Hl]. cbn [Nat.add decide] in *.
  rewrite decide_False by done. replace (S k - 1)%nat with k in * by lia. exists k. split_and!; [lia|done| |].
  - intros j Hj. by apply Hb.
  - intros ?. apply Hl. lia.
Qed.

Lemma retry_correct_witness :
  ∃ k, (k < 5)%nat ∧ (∀ j, (j < k)%nat → ∃ e, (if decide (j = 2%nat) then inl 7 else inr (AddrInUse (EMsg []))) = inr (AddrInUse e) :> Z + IoError).
Proof.
  destruct (proj2 (retry_correct 5 (λ j, if decide (j = 2%nat) then inl 7 else inr (AddrInUse (EMsg []))))) as (k & H1 & _ & H2 & _); [done|].
  eauto.
Defined.

Lemma retry_result {T} attempts (op : nat → T + IoError) :
  attempts ≠ O → ∃ k, (k < attempts)%nat ∧ (retry_on_addr_in_use attempts op).2 = Some (op k).
Proof.
  intros Ha. destruct (retry_spec op 0 attempts None) as (k & r & H); [auto|]. unfold retry_on_addr_in_use.
  destruct (retry op 0 attempts None) as [acts res]. destruct H as (-> & Hk & _ & _ & H0 & H1).
  destruct (decide (k = O)) as [->|Hn]; [by rewrite H0 in Ha|]. destruct (H1 Hn) as [-> _]. exists (k - 1)%nat. split; [lia|done].
Qed.

(** ** At most one core *)
Definition alive (m : CoreManager) (t : nat) : Prop := ∃ s, tasks m !! t = Some s ∧ is_finished s = false.
Definition idle (m : CoreManager) : Prop := running m = None ∧ ∀ t, ¬ alive m t.

Definition reader_ok (m : CoreManager) (r : RunningCore) : Prop :=
  match flow_stat r with
  | Some i => protocol r = Shadowsocks ∧ client r = false ∧ ∃ c, readers m !! i = Some c ∧ stopped c = false
  | None => protocol r = Juicity ∧ client r = true
  end.

Record core_ok (m : CoreManager) : Prop := {
  ok_alive t : alive m t → ∃ r, running m = Some r ∧ task r = t;
  ok_running r : running m = Some r →
    runtime m = true ∧ (∃ s, tasks m !! task r = Some s ∧ s ≠ Aborting ∧ s ≠ Cancelled) ∧ reader_ok m r;
}.

Lemma idle_ok m : idle m → core_ok m.
Proof. intros [Hr Ha]. split; [intros t Ht; by apply Ha in Ht|congruence]. Qed.

Lemma new_idle : idle CoreManager_new.
Proof. split; [done|]. by intros t (s & Hs & _). Qed.

Definition stopped_readers (r : RunningCore) (fs : list FlowCounters) : list FlowCounters :=
  match flow_stat r with Some i => alter flow_stop i fs | None => fs end.

Lemma stop_running m r :
  running m = Some r → runtime m = true →
  stop_and_wait m = mkManager true None (alter settle (task r) (alter abort (task r) (tasks m))) (stopped_readers r (readers m)).
Proof.
  destruct m as [rt run ts fs]. cbn. intros -> ->. unfold stop_and_wait, stopped_readers. by destruct (flow_stat r) eqn:E; cbn; rewrite E.
Qed.

(** Stopping leaves no core; the only reader it changes is that of the core, which it stops. *)
Lemma stop_idle m : core_ok m →
  let m' := stop_and_wait m in
  idle m' ∧ length (tasks m') = length (tasks m) ∧ length (readers m') = length (readers m) ∧
  ∀ i c, readers m' !! i = Some c → readers m !! i = Some c ∨ (∃ r, running m = Some r ∧ flow_stat r = Some i) ∧ stopped c = true.
Proof.
  intros H m'. unfold m'. destruct (running m) as [r|] eqn:E.
  - destruct (ok_running m H r E) as (Hrt & _ & _). rewrite (stop_running m r) by done. split_and!.
    + split; [done|]. intros t (s & Hs & Hf). cbn in Hs. destruct (decide (t = task r)) as [->|Hne].
      * rewrite !list_lookup_alter_eq in Hs. destruct (tasks m !! task r) as [s0|]; [|done]. injection Hs as <-. by destruct s0.
      * rewrite !list_lookup_alter_ne in Hs by congruence. destruct (ok_alive m H t) as (r' & Hr' & <-); [by exists s|]. congruence.
    + cbn. by rewrite !length_alter.
    + cbn. unfold stopped_readers. destruct (flow_stat r); [apply length_alter|done].
    + cbn. unfold stopped_readers. intros i c. destruct (flow_stat r) as [j|] eqn:Ef; [|auto]. intros Hi.
      destruct (decide (i = j)) as [->|Hne]; [|left; by rewrite list_lookup_alter_ne in Hi].
      right. rewrite list_lookup_alter_eq in Hi. destruct (readers m !! j); [|done]. injection Hi as <-. eauto.
  - unfold stop_and_wait. rewrite E. split_and!; try done; [|auto]. split; [done|]. intros t Ha.
    destruct (ok_alive m H t Ha) as (r & Hr & _). congruence.
Qed.

Section starts.
Context `{UuidParse} {SsConfig : Type} (path_exists : str → bool) (from_file : str → result Config)
  (load_file : str → result SsConfig) (to_string : Json → result str) (load_from_json_str : str → result SsConfig)
  (with_stat_addr : str → SsConfig → SsConfig) (little_endian : bool).
Abbreviation start_profile := (start_profile path_exists from_file load_file to_string load_from_json_str with_stat_addr).
Abbreviation start_juicity := (start_juicity path_exists from_file).
Abbreviation start_shadowsocks := (start_shadowsocks path_exists load_file to_string load_from_json_str with_stat_addr).
Abbreviation step := (step path_exists from_file load_file to_string load_from_json_str with_stat_addr little_endian).

(** What a start needs: the configuration, the libraries, and one of the attempts to listen. *)
Definition listening (env : StartEnv SsConfig) (listen : str) (p : ProxyProfile) : Prop :=
  match Profile.protocol p with
  | Juicity => ∃ c k, build_juicity_config path_exists from_file listen p = Ok c ∧ client_new env c = Ok tt ∧
      (k < BIND_RETRY_ATTEMPTS)%nat ∧ bind env (Config.listen c) k = inl tt
  | Shadowsocks => ∃ c addr k,
      build_shadowsocks_config path_exists load_file to_string load_from_json_str listen p = Some (Ok c) ∧
      stat_bound env = Ok addr ∧ (k < BIND_RETRY_ATTEMPTS)%nat ∧ server_new env (with_stat_addr addr c) k = inl tt
  end.

(** The outcome of a start in a manager that has no core. *)
Definition start_outcome (env : StartEnv SsConfig) (listen : str) (p : ProxyProfile) (m m' : CoreManager) (ok : bool) : Prop :=
  if ok then
    listening env listen p ∧
    let s := bool_decide (Profile.protocol p = Shadowsocks) in
    m' = mkManager true (Some (mkRunning (Profile.protocol p) (length (tasks m)) (negb s) (if s then Some (length (readers m)) else None) (0, 0)))
      (tasks m ++ [Running]) (readers m ++ (if s then [FlowCounters_default] else []))
  else running m' = running m ∧ tasks m' = tasks m ∧ ∃ fs, readers m' = readers m ++ fs ∧ Forall (λ c, stopped c = true) fs.

Definition succeeded {A} (r : option (result A)) : bool := match r with Some (Ok _) => true | _ => false end.

Lemma start_in_idle env listen p m m1 :
  running m = None → get_runtime (runtime_built env) m = Ok m1 →
  let '(m', r) :=
    (let '(m, started) := match Profile.protocol p with Juicity => start_juicity env listen p m1 | Shadowsocks => start_shadowsocks env listen p m1 end in
     match started with
     | None => (m, None)
     | Some (Err e) => (m, Some (Err e))
     | Some (Ok s) => (with_running (Some (mkRunning (Profile.protocol p) (s_task s) (s_client s) (s_flow_stat s) (0, 0))) m, Some (Ok tt))
     end) in
  start_outcome env listen p m m' (succeeded r).
Proof.
  intros Hr Hg. assert (m1 = mkManager true None (tasks m) (readers m)) as ->.
  { unfold get_runtime in Hg. destruct m as [rt run ts fs]. cbn in *. subst run. destruct rt; [by injection Hg as <-|].
    destruct (runtime_built env); [by injection Hg as <-|done]. }
  assert (start_outcome env listen p m (mkManager true None (tasks m) (readers m)) false) as Hfail.
  { unfold start_outcome. rewrite Hr. split_and!; [done..|]. exists []. by rewrite app_nil_r. }
  unfold start_outcome, listening. destruct (Profile.protocol p) eqn:Ep.
  - unfold start_juicity, Core.start_juicity. destruct (build_juicity_config path_exists from_file listen p) as [c|e] eqn:Eb; result_cbn; [|exact Hfail].
    destruct (client_new env c) as [[]|e] eqn:Ec; result_cbn; [|exact Hfail].
    destruct (retry_result BIND_RETRY_ATTEMPTS (bind env (Config.listen c)) ltac:(done)) as (k & Hk & ->).
    destruct (bind env (Config.listen c) k) as [[]|e] eqn:Ek; cbn; [|exact Hfail]. split; [by exists c, k|].
    rewrite app_nil_r. done.
  - unfold start_shadowsocks, Core.start_shadowsocks.
    destruct (build_shadowsocks_config path_exists load_file to_string load_from_json_str listen p) as [[c|e]|] eqn:Eb; [|exact Hfail..].
    unfold start_flow_stat_reader.
    destruct (stat_bound env) as [addr|e] eqn:E1; result_cbn; [|exact Hfail].
    destruct (stat_nonblocking env) as [[]|e]; result_cbn; [|exact Hfail].
    destruct (stat_spawned env) as [[]|e]; result_cbn; [|exact Hfail].
    destruct (retry_result BIND_RETRY_ATTEMPTS (server_new env (with_stat_addr addr c)) ltac:(done)) as (k & Hk & ->).
    destruct (server_new env (with_stat_addr addr c) k) as [[]|e] eqn:Ek; cbn.
    + split; [by exists c, addr, k|]. done.
    + rewrite Hr. split_and!; [done..|]. exists [flow_stop FlowCounters_default]. split; [|by constructor].
      rewrite alter_app_r_alt by lia. by rewrite Nat.sub_diag.
Qed.

Lemma start_profile_outcome env listen p m : core_ok m →
  let '(m', r) := start_profile env listen p m in start_outcome env listen p (stop_and_wait m) m' (succeeded r).
Proof.
  intros Hm. destruct (stop_idle m Hm) as ([Hr _] & _). unfold start_profile, Core.start_profile.
  destruct (get_runtime (runtime_built env) (stop_and_wait m)) as [m1|e] eqn:Eg.
  - by apply start_in_idle.
  - cbn. split_and!; [done..|]. exists []. by rewrite app_nil_r.
Qed.

Lemma start_profile_ok env listen p m m' ok :
  idle m → start_outcome env listen p m m' ok → core_ok m' ∧ (ok = false → idle m').
Proof.
  intros [Hr Ha]. destruct ok; cbn.
  - intros [_ ->]. split; [|done]. split.
    + intros t (s & Hs & Hf). cbn in *. exists (mkRunning (Profile.protocol p) (length (tasks m)) (negb (bool_decide (Profile.protocol p = Shadowsocks)))
        (if bool_decide (Profile.protocol p = Shadowsocks) then Some (length (readers m)) else None) (0, 0)).
      split; [done|]. cbn. apply lookup_app_Some in Hs as [Hs|[Hl Hs]]; [exfalso; apply (Ha t); by exists s|].
      apply list_lookup_singleton_Some in Hs as [Hs _]. lia.
    + intros r [= <-]. cbn. split; [done|]. split.
      * exists Running. split; [|done]. rewrite lookup_app_r by lia. by rewrite Nat.sub_diag.
      * unfold reader_ok. destruct (Profile.protocol p); cbn; [done|]. split_and!; [done..|]. exists FlowCounters_default.
        split; [|done]. cbn. rewrite lookup_app_r by lia. by rewrite Nat.sub_diag.
  - intros (Hr' & Ht & _). assert (idle m') as Hi; [|by split; [apply idle_ok|]].
    split; [congruence|]. intros t (s & Hs & Hf). rewrite Ht in Hs. apply (Ha t). by exists s.
Qed.

Lemma step_frame m m' : core_ok m → runtime m' = runtime m →
  (∀ t s, tasks m' !! t = Some s → ∃ s0, tasks m !! t = Some s0 ∧ (is_finished s = false → is_finished s0 = false)) →
  (∀ r, running m' = Some r → ∃ r0, running m = Some r0 ∧ protocol r0 = protocol r ∧ task r0 = task r ∧ client r0 = client r ∧ flow_stat r0 = flow_stat r ∧
    ∃ s, tasks m' !! task r = Some s ∧ s ≠ Aborting ∧ s ≠ Cancelled) →
  (running m' = None → ∀ t, ¬ alive m' t) →
  (∀ i c, readers m !! i = Some c → ∃ c', readers m' !! i = Some c' ∧ stopped c' = stopped c) →
  core_ok m'.
Proof.
  intros Hm Hrt Ht Hr Hn Hf. split.
  - intros t (s & Hs & Hfin). destruct (Ht t s Hs) as (s0 & Hs0 & Himp).
    destruct (ok_alive m Hm t) as (r0 & Hr0 & <-); [exists s0; auto|].
    destruct (running m') as [r|] eqn:E; [|exfalso; apply (Hn eq_refl (task r0)); by exists s].
    exists r. split; [done|]. destruct (Hr r eq_refl) as (r1 & Hr1 & _ & Htask & _). congruence.
  - intros r Er. destruct (Hr r Er) as (r0 & Hr0 & Hp & Htask & Hc & Hfl & Hs). destruct (ok_running m Hm r0 Hr0) as (? & _ & Hok).
    split; [congruence|]. split; [done|]. unfold reader_ok in *. rewrite <-Hfl, <-Hp, <-Hc.
    destruct (flow_stat r0) as [i|]; [|done]. destruct Hok as (? & ? & c & Hc1 & Hst). split_and!; [done..|].
    destruct (Hf i c Hc1) as (c' & ? & ?). exists c'. split; [done|congruence].
Qed.

Lemma step_ok m l : core_ok m → core_ok (step m l).1.
Proof.
  intros Hm. destruct l as [env listen p| | |stats|t how|i a]; cbn [step Core.step].
  - pose proof (start_profile_outcome env listen p m Hm) as Ho. destruct (start_profile env listen p m) as [m' r]. cbn.
    destruct (stop_idle m Hm) as [Hi _]. by eapply start_profile_ok in Ho as [? _].
  - destruct (stop_idle m Hm) as [Hi _]. by apply idle_ok.
  - unfold poll. destruct (running m) as [r|] eqn:E; [|done].
    destruct (is_finished (default Running (tasks m !! task r))) eqn:Ef; [|done]. cbn. apply idle_ok. split; [done|].
    intros t (s & Hs & Hfin). cbn in Hs. destruct (ok_alive m Hm t) as (r' & Hr' & <-); [by exists s|].
    rewrite E in Hr'. injection Hr' as <-. rewrite Hs in Ef. cbn in Ef. congruence.
  - unfold traffic. destruct (running m) as [r|] eqn:E; [|done]. cbn. apply (step_frame m); [done|done|eauto| |done|eauto].
    intros r' [= <-]. cbn. destruct (ok_running m Hm r E) as (_ & Hs & _). exists r. by split_and!.
  - cbn. apply (step_frame m); [done|done| | | |eauto].
    + intros t' s Hs. cbn in Hs. destruct (decide (t' = t)) as [->|Hne].
      * rewrite list_lookup_alter_eq in Hs. destruct (tasks m !! t) as [s0|]; [|done]. injection Hs as <-. exists s0. split; [done|].
        by destruct how, s0.
      * rewrite list_lookup_alter_ne in Hs by done. eauto.
    + cbn. intros r Er. exists r. split_and!; [done..|]. destruct (ok_running m Hm r Er) as (_ & (s & Hs & Hn1 & Hn2) & _).
      destruct (decide (task r = t)) as [<-|Hne].
      * rewrite list_lookup_alter_eq, Hs. eexists. split; [done|]. by destruct how, s.
      * rewrite list_lookup_alter_ne by done. eauto.
    + cbn. intros Er t' (s & Hs & Hf). cbn in Hs. destruct (decide (t' = t)) as [->|Hne].
      * rewrite list_lookup_alter_eq in Hs. destruct (tasks m !! t) as [s0|] eqn:Es; [|done]. injection Hs as <-.
        destruct (ok_alive m Hm t) as (r & Hr & _); [exists s0; split; [done|by destruct how, s0]|]. congruence.
      * rewrite list_lookup_alter_ne in Hs by done. destruct (ok_alive m Hm t') as (r & Hr & _); [by exists s|]. congruence.
  - cbn. apply (step_frame m); [done|done|eauto| | |].
    + cbn. intros r Er. exists r. split_and!; [done..|]. by apply (ok_running m Hm r).
    + cbn. intros Er t (s & Hs & Hf). destruct (ok_alive m Hm t) as (r & Hr & _); [by exists s|]. congruence.
    + cbn. intros j c Hc. destruct (decide (j = i)) as [->|Hne].
      * rewrite list_lookup_alter_eq, Hc. eexists. split; [done|]. unfold reader_turn.
        destruct (thread c); cbn; [|done]. destruct (stopped c) eqn:Es; cbn; [done|].
        destruct a; cbn; [|done..]. by case_match.
      * rewrite list_lookup_alter_ne by done. eauto.
Qed.

Abbreviation run := (run path_exists from_file load_file to_string load_from_json_str with_stat_addr little_endian).
Abbreviation run_from := (run_from path_exists from_file load_file to_string load_from_json_str with_stat_addr little_endian).

Definition started_obs (o : Obs) : bool := match o with OStarted _ => true | _ => false end.
Definition ended_obs (o : Obs) : bool := match o with OStopped | OExited _ => true | _ => false end.
Definition running_cores (m : CoreManager) : nat := match running m with Some _ => 1 | None => 0 end.

Lemma stopped_obs_counts m : count started_obs (stopped_obs m) = 0%nat ∧ count ended_obs (stopped_obs m) = running_cores m.
Proof. unfold stopped_obs, running_cores. by destruct (running m). Qed.

(** Every core that was started runs, was stopped, or was reported. *)
Lemma step_account m l : core_ok m →
  (running_cores m + count started_obs (step m l).2 = count ended_obs (step m l).2 + running_cores (step m l).1)%nat.
Proof.
  intros Hm. destruct (stopped_obs_counts m) as [Es Ee]. destruct l as [env listen p| | |stats|t how|i a]; cbn [step Core.step].
  - pose proof (start_profile_outcome env listen p m Hm) as Ho. destruct (stop_idle m Hm) as ([Hn _] & _).
    destruct (start_profile env listen p m) as [m' r]. cbn [fst snd]. rewrite !count_app, Es, Ee.
    assert (running_cores m' = if succeeded r then 1 else 0)%nat as ->.
    { unfold running_cores. destruct (succeeded r); cbn in Ho; [by destruct Ho as [_ ->]|]. destruct Ho as (-> & _). by rewrite Hn. }
    destruct r as [[[]|e]|]; rewrite !count_cons; cbn; lia.
  - destruct (stop_idle m Hm) as ([Hn _] & _). cbn [fst snd]. assert (running_cores (stop_and_wait m) = 0%nat) as -> by (unfold running_cores; by rewrite Hn). rewrite Es, Ee. lia.
  - unfold poll, running_cores. destruct (running m) as [r|] eqn:E; [|by cbn; rewrite E].
    destruct (is_finished _); [done|by cbn; rewrite E].
  - unfold traffic, running_cores. destruct (running m) as [r|] eqn:E; cbn [fst snd]; rewrite !count_cons; cbn; [done|by rewrite E].
  - done.
  - done.
Qed.

Lemma run_from_ok m log ls : core_ok m → (count started_obs log = count ended_obs log + running_cores m)%nat →
  let '(m', log') := run_from (m, log) ls in core_ok m' ∧ (count started_obs log' = count ended_obs log' + running_cores m')%nat.
Proof.
  revert m log. induction ls as [|l ls IH]; intros m log Hm Hc; [done|]. cbn [run_from Core.run_from foldl].
  pose proof (step_ok m l Hm) as Hm'. pose proof (step_account m l Hm) as Ha. destruct (step m l) as [m' o]. cbn [fst snd] in *.
  apply IH; [done|]. rewrite !count_app. lia.
Qed.

(** C28: whatever the order of starts, stops, polls, ends of tasks and reports, at most one task runs, it is that of the
    core the manager has, and every core that was started is running, was stopped, or had its end reported once. *)
Theorem one_core ls :
  let '(m, log) := run ls in
  (∀ t, alive m t → ∃ r, running m = Some r ∧ task r = t) ∧
  (count started_obs log = count ended_obs log + running_cores m)%nat ∧
  (∀ r, running m = Some r → runtime m = true ∧ (client r = true ↔ protocol r = Juicity) ∧ (is_Some (flow_stat r) ↔ protocol r = Shadowsocks)).
Proof.
  pose proof (run_from_ok CoreManager_new [] ls (idle_ok _ new_idle) ltac:(done)) as Hr. unfold run, Core.run.
  destruct (run_from (CoreManager_new, []) ls) as [m log]. destruct Hr as [Hm Hc]. split_and!.
  - apply (ok_alive m Hm).
  - done.
  - intros r Er. destruct (ok_running m Hm r Er) as (? & _ & Hok). split; [done|]. unfold reader_ok in Hok.
    destruct (flow_stat r); [destruct Hok as (-> & -> & _)|destruct Hok as [-> ->]]; (split; split; intros; done || by eexists || by destruct H1).
Qed.

(** A start first stops the previous core; it succeeds only when the configuration and the libraries allow it and one of
    the attempts to listen succeeded, and then the new core runs with no traffic yet; a start that fails leaves
    nothing running and has stopped every reader thread it created. *)
Theorem start_profile_correct ls env listen p :
  let m := (run ls).1 in
  let '(m', r) := start_profile env listen p m in
  match r with
  | Some (Ok _) => listening env listen p ∧
      ∃ c, running m' = Some c ∧ protocol c = Profile.protocol p ∧ last_traffic c = (0, 0) ∧ tasks m' !! task c = Some Running ∧
        ∀ t, alive m' t → t = task c
  | _ => idle m' ∧ ∀ i c, (length (readers m) ≤ i)%nat → readers m' !! i = Some c → stopped c = true
  end.
Proof.
  intros m. assert (core_ok m) as Hm.
  { pose proof (run_from_ok CoreManager_new [] ls (idle_ok _ new_idle) ltac:(done)) as Hr. unfold m, run, Core.run.
    destruct (run_from (CoreManager_new, []) ls) as [m0 log]. apply Hr. }
  pose proof (start_profile_outcome env listen p m Hm) as Ho. destruct (stop_idle m Hm) as (Hi & _ & Hlen & _).
  destruct (start_profile env listen p m) as [m' r].
  pose proof (start_profile_ok env listen p _ m' _ Hi Ho) as [Hok Hf].
  assert (succeeded r = false → idle m' ∧ ∀ i c, (length (readers m) ≤ i)%nat → readers m' !! i = Some c → stopped c = true) as Hfail.
  { intros E. split; [auto|]. rewrite E in Ho. destruct Ho as (_ & _ & fs & -> & Hfs). intros i c Hl Hc.
    rewrite lookup_app_r in Hc by lia. by eapply Forall_lookup_1 in Hfs. }
  destruct r as [[[]|e]|]; [|by apply Hfail..]. destruct Ho as [Hl E]. split; [done|].
  assert (running m' = running m') as Hrun by done. rewrite E in Hrun at 2. cbn in Hrun. eexists. split; [exact Hrun|]. split_and!; [done..| |].
  - rewrite E. cbn. rewrite lookup_app_r by lia. by rewrite Nat.sub_diag.
  - intros t Ha. destruct (ok_alive m' Hok t Ha) as (c & Hc & <-). rewrite Hrun in Hc. by injection Hc as <-.
Qed.

(** ** Traffic reports *)

(** A reader thread whose counters nobody can reach any more. *)
Definition orphan (i : nat) (m : CoreManager) : Prop :=
  (∃ c, readers m !! i = Some c ∧ stopped c = false ∧ thread c = true) ∧ ∀ r, running m = Some r → flow_stat r ≠ Some i.

Definition no_accept_failure (i : nat) (l : Label (SsConfig := SsConfig)) : Prop := l ≠ LReader i AFails.

Lemma stop_orphan m i : core_ok m → orphan i m → orphan i (stop_and_wait m).
Proof.
  intros Hm [(c & Hc & Hs & Ht) Hr]. destruct (stop_idle m Hm) as ([Hn _] & _ & Hl & Hrd). split; [|congruence].
  destruct (lookup_lt_is_Some_2 (readers (stop_and_wait m)) i) as [c' Hc']; [rewrite Hl; by eapply lookup_lt_Some|].
  destruct (Hrd i c' Hc') as [E|[(r & Er & Ef) _]]; [|by apply Hr in Er]. exists c. rewrite Hc in E. injection E as <-. done.
Qed.

Lemma orphan_step m l i : core_ok m → no_accept_failure i l → orphan i m → orphan i (step m l).1.
Proof.
  intros Hm Hl Ho. destruct l as [env listen p| | |stats|t how|j a]; cbn [step Core.step].
  - pose proof (start_profile_outcome env listen p m Hm) as Hs. pose proof (stop_orphan m i Hm Ho) as [(c & Hc & Hst & Ht) Hr].
    destruct (start_profile env listen p m) as [m' r]. cbn [fst]. destruct (succeeded r); cbn in Hs.
    + destruct Hs as [_ ->]. split; cbn; [exists c; split; [by apply lookup_app_l_Some|done]|].
      intros r' [= <-]. cbn. apply lookup_lt_Some in Hc. case_match; [|done]. intros [= ?]. lia.
    + destruct Hs as (Hrun & _ & fs & Hf & _). split; [|by rewrite Hrun]. exists c. rewrite Hf. split; [by apply lookup_app_l_Some|done].
  - by apply stop_orphan.
  - unfold poll. destruct (running m); [|done]. destruct (is_finished _); [|done]. destruct Ho as [? _]. by split.
  - unfold traffic. destruct (running m) as [r|] eqn:E; [|done]. destruct Ho as [? Hr]. split; [done|]. cbn. intros r' [= <-]. by apply (Hr r E).
  - done.
  - destruct Ho as [(c & Hc & Hst & Ht) Hr]. split; [|done]. cbn. destruct (decide (i = j)) as [<-|Hne].
    + rewrite list_lookup_alter_eq, Hc. eexists. split; [done|]. unfold reader_turn. rewrite Ht, Hst. cbn.
      destruct a; [by case_match|done|by exfalso; apply Hl].
    + rewrite list_lookup_alter_ne by done. eauto.
Qed.

(** When a shadowsocks core ends by itself and the end is reported, the thread that reads its traffic is not told to stop,
    and no later start, stop, poll or report ends it: it runs until the program does or its listener fails. *)
Theorem ended_core_leaves_reader ls r i c reason ls' :
  let m := (run ls).1 in
  running m = Some r → flow_stat r = Some i → readers m !! i = Some c → thread c = true → (poll m).2 = Some reason →
  Forall (no_accept_failure i) ls' →
  ∃ c', readers (run_from ((poll m).1, []) ls').1 !! i = Some c' ∧ stopped c' = false ∧ thread c' = true.
Proof.
  intros m Er Ef Ec Ht Hp Hls. assert (core_ok m) as Hm.
  { pose proof (run_from_ok CoreManager_new [] ls (idle_ok _ new_idle) ltac:(done)) as Hr. unfold m, run, Core.run.
    destruct (run_from (CoreManager_new, []) ls) as [m0 log]. apply Hr. }
  assert (orphan i (poll m).1) as Ho.
  { unfold poll in *. rewrite Er in *. destruct (is_finished _); [|done]. split; [|done].
    destruct (ok_running m Hm r Er) as (_ & _ & Hok). unfold reader_ok in Hok. rewrite Ef in Hok. destruct Hok as (_ & _ & c' & Hc' & Hst).
    exists c. cbn. rewrite Ec in Hc'. injection Hc' as <-. done. }
  pose proof (step_ok m LPoll Hm) as Hm'. cbn [step Core.step] in Hm'. destruct (poll m) as [m' rs]. cbn [fst] in *. clear Hm Er Hp.
  generalize (@nil Obs) as log. revert m' Hm' Ho. induction Hls as [|l ls' Hl _ IH]; intros m' Hm' Ho log; [apply Ho|].
  cbn [run_from Core.run_from foldl]. pose proof (step_ok m' l Hm') as Hm2. pose proof (orphan_step m' l i Hm' Hl Ho) as Ho2.
  destruct (step m' l) as [m2 o]. by apply IH.
Qed.
End starts.

Section reports.
Context (little_endian : bool).

(** [u64::to_ne_bytes], as shadowsocks writes a counter. *)
Fixpoint le_bytes (n : nat) (z : Z) : str := match n with O => [] | S n => byte_of z :: le_bytes n (z / 256) end.
Definition to_ne_bytes (z : Z) : str := if little_endian then le_bytes 8 z else rev (le_bytes 8 z).

Lemma le_bytes_value n z : 0 <= z < 256 ^ Z.of_nat n → foldr (λ c v, u8 c + 256 * v) 0 (le_bytes n z) = z.
Proof.
  revert z. induction n as [|n IH]; intros z Hz; [cbn in *; lia|]. cbn [le_bytes foldr]. rewrite u8_byte_of, IH.
  - pose proof (Z.div_mod z 256). lia.
  - rewrite Nat2Z.inj_succ, Z.pow_succ_r in Hz by lia. split; [apply Z.div_pos; lia|apply Z.div_lt_upper_bound; lia].
Qed.
Lemma le_bytes_length n z : length (le_bytes n z) = n.
Proof. revert z. induction n; intros z; cbn; [done|by f_equal]. Qed.

Lemma ne_bytes_roundtrip z : 0 <= z <= u64_max → from_ne_bytes little_endian (to_ne_bytes z) = z.
Proof.
  intros Hz. unfold from_ne_bytes, to_ne_bytes, u64_max in *.
  destruct little_endian; rewrite ?rev_involutive; apply le_bytes_value; change (256 ^ Z.of_nat 8) with 18446744073709551616; lia.
Qed.
Lemma ne_bytes_length z : length (to_ne_bytes z) = 8%nat.
Proof. unfold to_ne_bytes. destruct little_endian; rewrite ?length_rev; apply le_bytes_length. Qed.

(** What an accepted connection means: a report, or nothing. *)
Definition turn_means (a : Accept) (report : option (Z * Z)) : Prop :=
  match report with
  | Some (sent, received) => 0 <= sent <= u64_max ∧ 0 <= received <= u64_max ∧
      ∃ more, a = AConn (Ok tt) (to_ne_bytes sent ++ to_ne_bytes received ++ more)
  | None => a = AWouldBlock ∨ ∃ t s, a = AConn t s ∧ (is_err t = true ∨ (length s < 16)%nat)
  end.

Lemma reader_turn_report a report c : thread c = true → stopped c = false → turn_means a report →
  reader_turn little_endian a c = match report with Some (s, r) => flow_set s r c | None => c end.
Proof.
  intros Ht Hs Ha. unfold reader_turn. rewrite Ht, Hs. cbn. destruct report as [[s r]|].
  - destruct Ha as (H1 & H2 & more & ->). unfold read_flow_report. result_cbn. rewrite app_assoc.
    rewrite (read_exact_app 16) by by rewrite length_app, !ne_bytes_length. cbn.
    rewrite take_app_length', drop_app_length', take_ge by (by rewrite ?ne_bytes_length). by rewrite !ne_bytes_roundtrip.
  - destruct Ha as [->|(t & s & -> & H)]; [done|]. unfold read_flow_report. destruct t as [[]|e]; result_cbn; [|done].
    unfold read_exact. rewrite decide_False; [done|]. destruct H as [H|H]; [done|lia].
Qed.

(** The traffic of a shadowsocks core is the last complete report, whatever incomplete or failed connections come before
    and after it, and zero before the first. *)
Theorem traffic_is_last_report m r i c turns reports stats :
  running m = Some r → client r = false → flow_stat r = Some i → readers m !! i = Some c → thread c = true → stopped c = false →
  Forall2 turn_means turns reports →
  (traffic stats (foldl (λ m a, with_readers (alter (reader_turn little_endian a) i (readers m)) m) m turns)).2 =
  Some (default (flow_get c) (last (omap id reports))).
Proof.
  intros Hr Hc Hf Hi Ht Hs H. revert m c Hr Hi Ht Hs. induction H as [|a e turns reports Ha _ IH]; intros m c Hr Hi Ht Hs.
  - cbn. unfold traffic. rewrite Hr, Hc, Hf. cbn [mbind option_bind]. by rewrite Hi.
  - cbn [foldl]. rewrite (IH _ (match e with Some (s, r) => flow_set s r c | None => c end)).
    + f_equal. destruct e as [[x y]|]; cbn; [|done]. change (omap id (Some (x, y) :: reports)) with ((x, y) :: omap id reports).
      rewrite last_cons. by destruct (last (omap id reports)).
    + done.
    + cbn. by rewrite list_lookup_alter_eq, Hi, <-(reader_turn_report a e).
    + by destruct e as [[]|].
    + by destruct e as [[]|].
Qed.
End reports.

(** ** What a shadowsocks core is configured with *)
Lemma insert_B (k k' : string) (v : Json) (m : gmap str Json) : <[B k := v]> m !! B k' = if String.eqb k k' then Some v else m !! B k'.
Proof.
  destruct (String.eqb_spec k k') as [->|Hk]; [by rewrite lookup_insert_eq|].
  rewrite lookup_insert_ne; [done|]. intros E. by apply Hk, B_inj.
Qed.
Ltac eval_key := repeat (rewrite insert_B; cbn [String.eqb Ascii.eqb Bool.eqb]).

(** The configuration of a shadowsocks core has the server, method, password and timeout of the profile, one SOCKS listener
    at the host and port of the mixed address, the plugin with its options and argument words only when a plugin is
    named, and nothing else; making it panics only when the mixed address cannot be split. *)
Theorem shadowsocks_config_fields mixed_listen p host port :
  split_host_port mixed_listen = Some (host, port) →
  ∃ m local, shadowsocks_json mixed_listen p = Some (JObject m) ∧
    m !! B "server" = Some (JString (server p)) ∧ m !! B "server_port" = Some (JNumber (server_port p)) ∧
    m !! B "method" = Some (JString (method p)) ∧ m !! B "password" = Some (JString (password p)) ∧
    m !! B "timeout" = Some (JNumber (timeout p)) ∧ m !! B "locals" = Some (JArray [JObject local]) ∧
    local !! B "local_address" = Some (JString host) ∧ local !! B "local_port" = Some (JNumber port) ∧
    local !! B "protocol" = Some (JString (B "socks")) ∧
    m !! B "plugin" = JString <$> given (plugin p) ∧
    m !! B "plugin_opts" = (_ ← given (plugin p); JString <$> given (plugin_opts p)) ∧
    m !! B "plugin_args" = (_ ← given (plugin p); (λ a, JArray (JString <$> split_whitespace a)) <$> given (plugin_args p)) ∧
    ∀ k, k ∉ (B <$> ["server"; "server_port"; "method"; "password"; "timeout"; "locals"; "plugin"; "plugin_opts"; "plugin_args"]%string) → m !! k = None.
Proof.
  intros E. unfold shadowsocks_json. rewrite E. cbn [mbind option_bind]. do 2 eexists. split; [reflexivity|]. unfold plugin_fields.
  unfold object, fmap. cbn -[B].
  split_and!; [try (destruct (given (plugin p)), (given (plugin_opts p)), (given (plugin_args p)); cbn -[B]; by eval_key)..|].
  intros k Hk. cbn -[B] in Hk. rewrite !not_elem_of_cons in Hk. destruct_and! Hk.
  destruct (given (plugin p)), (given (plugin_opts p)), (given (plugin_args p)); by rewrite !lookup_insert_ne, lookup_empty by done.
Qed.

(** ** Runs *)
Module Sample.
Definition uuid : UuidParse := λ s, if decide (length s = 16%nat) then Some s else None.
Definition env : StartEnv str :=
  mkEnv (Ok tt) (λ _, Ok tt) (λ _ k, if decide (k = 1%nat) then inl tt else inr (AddrInUse (EMsg []))) (Ok (B "127.0.0.1:40000")) (Ok tt) (Ok tt)
    (λ _ k, if decide (k = 2%nat) then inl tt else inr (AddrInUse (EMsg []))).
Definition profile : ProxyProfile :=
  mkProfile (B "S") Shadowsocks (B "h") 8388 (B "pw") [] None false None None (B "aes-256-gcm") (Some (B "v2ray-plugin")) None
    (Some (B " --fast  -v ")) 5 None None None.
Definition run (ls : list Label) : CoreManager * list Obs :=
  @Core.run uuid str (λ _, false) (λ _, Err (EMsg [])) (λ _, Err (EMsg [])) (λ _, Ok (B "{}")) (λ s, Ok s) (λ a c, a ++ c) true ls.
Definition started : list Label := [LStart env (B "127.0.0.1:1080") profile; LReader 0 AWouldBlock; LEnd 0 Returned].
End Sample.

Lemma ended_core_leaves_reader_witness :
  ∃ c', readers (@run_from Sample.uuid str (λ _, false) (λ _, Err (EMsg [])) (λ _, Err (EMsg [])) (λ _, Ok (B "{}")) (λ s, Ok s)
      (λ a c, a ++ c) true ((poll (Sample.run Sample.started).1).1, []) [LStart Sample.env (B "127.0.0.1:1080") Sample.profile; LStop; LReader 0 AWouldBlock]).1 !! 0%nat = Some c' ∧
    stopped c' = false ∧ thread c' = true.
Proof.
  eapply (@ended_core_leaves_reader Sample.uuid str (λ _, false) (λ _, Err (EMsg [])) (λ _, Err (EMsg [])) (λ _, Ok (B "{}")) (λ s, Ok s)
    (λ a c, a ++ c) true Sample.started); [vm_compute; reflexivity..|]. by repeat constructor.
Defined.

Lemma traffic_is_last_report_witness :
  (traffic None (foldl (λ m a, with_readers (alter (reader_turn true a) 0%nat (readers m)) m) (Sample.run (take 2 Sample.started)).1
    [AConn (Ok tt) (to_ne_bytes true 700 ++ to_ne_bytes true 9000 ++ []); AWouldBlock; AConn (Ok tt) (B "short")])).2 = Some (700, 9000).
Proof.
  etrans.
  - eapply (traffic_is_last_report true _ _ 0%nat _ _ [Some (700, 9000); None; None]); [vm_compute; reflexivity..|].
    constructor; [|constructor; [|constructor; [|constructor]]].
    + unfold turn_means, u64_max. split_and!; try lia. by eexists.
    + by left.
    + right. do 2 eexists. split; [done|]. right. cbn. lia.
  - done.
Defined.

Lemma shadowsocks_config_fields_witness :
  ∃ m, shadowsocks_json (B "127.0.0.1:1080") Sample.profile = Some (JObject m) ∧
    m !! B "plugin_args" = Some (JArray [JString (B "--fast"); JString (B "-v")]) ∧ m !! B "plugin_opts" = None.
Proof.
  destruct (shadowsocks_config_fields (B "127.0.0.1:1080") Sample.profile (B "127.0.0.1") 1080) as (m & l & E & _ & _ & _ & _ & _ & _ & _ & _ & _ & _ & E1 & E2 & _); [done|].
  exists m. split; [exact E|]. split; [exact E2|exact E1].
Defined.
