(* ===== verification/Logs.v ===== *)
(** * [gui/src/logging.rs] and [gui/src/ui/controller/logs.rs]: the log page and the traffic chart

    The ring buffer of log lines, which any thread may push to, the rendering of an
    event, the page that follows the buffer by its version, and the curves of the
    traffic chart. *)
From Stdlib Require Import SpecFloat.
From S2P Require Import Prelude Std Text Traffic.
#[local] Open Scope Z_scope.

Definition MAX_LINES : nat := 2000.
Definition MAX_LINE_LEN : nat := 2048.

Inductive Level := TRACE | DEBUG | INFO | WARN | ERROR.

Record LogLine := mkLine { time : str; level : Level; target : str; message : str }.

Record LogBuffer := mkBuffer { lines : list LogLine; dropped : Z; version : Z }.
Definition LogBuffer_new : LogBuffer := mkBuffer [] 0 0.

(** [{:02}]. *)
Definition show_02 (n : Z) : str := let s := show_dec n in if (length s <? 2)%nat then B "0" ++ s else s.
Definition elapsed (secs : Z) : str := show_02 (secs / 3600) ++ B ":" ++ show_02 ((secs / 60) mod 60) ++ B ":" ++ show_02 (secs mod 60).

(** A push and a clearing change the buffer under its lock and then add to the version. *)
Definition push_line (line : LogLine) (b : LogBuffer) : LogBuffer :=
  if decide (length (lines b) = MAX_LINES) then mkBuffer (drop 1 (lines b) ++ [line]) (wrapping_add (dropped b) 1) (version b)
  else mkBuffer (lines b ++ [line]) (dropped b) (version b).
Definition clear_lines (b : LogBuffer) : LogBuffer := mkBuffer [] 0 (version b).
Definition fetch_add (b : LogBuffer) : LogBuffer := mkBuffer (lines b) (dropped b) (bump true (version b)).

Definition push (secs : Z) (lv : Level) (tg msg : str) (b : LogBuffer) : LogBuffer :=
  fetch_add (push_line (mkLine (elapsed secs) lv tg msg) b).
Definition clear (b : LogBuffer) : LogBuffer := fetch_add (clear_lines b).

(** ** Rendering an event *)
Fixpoint boundary_below (text : str) (end_ : nat) : nat :=
  match end_ with
  | O => O
  | S e => match text !! S e with Some c => if is_cont c then boundary_below text e else S e | None => S e end
  end.

Definition ellipsis : str := [xe2; x80; xa6].

Definition append (text msg : str) : str :=
  if (MAX_LINE_LEN <=? length msg)%nat then msg
  else
    let msg := if is_empty msg then msg else msg ++ B " " in
    let room := (MAX_LINE_LEN - length msg)%nat in
    if (length text <=? room)%nat then msg ++ text else msg ++ take (boundary_below text room) text ++ ellipsis.

(** [record_str] and [record_debug], with the value already formatted. *)
Definition record_field (msg : str) (field : str * str) : str :=
  let '(name, value) := field in
  if bool_decide (name = B "message") then append value msg else append (name ++ B "=" ++ value) msg.

(** [on_event]. *)
Definition render (event_name : str) (fields : list (str * str)) : str :=
  let msg := foldl record_field [] fields in if is_empty msg then event_name else msg.

(** ** The page *)
Record LogsState := mkLogs {
  buffer : LogBuffer;
  traffic : TrafficMonitor;
  follow : bool;
  seen_logs : Z;
  seen_traffic : Z;
}.

Definition with_sources (b : LogBuffer) (t : TrafficMonitor) : LogsState := mkLogs b t true (version b) (Traffic.version t).

Record LogsSnapshot := mkLogsSnapshot { ls_version : Z; ls_lines : list LogLine; ls_dropped : Z; ls_follow : bool }.
Definition logs (s : LogsState) : LogsSnapshot := mkLogsSnapshot (version (buffer s)) (lines (buffer s)) (dropped (buffer s)) (follow s).

(** Each operation returns whether the page must be pushed again. *)
Definition refresh_logs (s : LogsState) : LogsState * bool :=
  let seen := version (buffer s) in
  (mkLogs (buffer s) (traffic s) (follow s) seen (seen_traffic s), negb (seen =? seen_logs s)).
Definition refresh_traffic (s : LogsState) : LogsState * bool :=
  let seen := Traffic.version (traffic s) in
  (mkLogs (buffer s) (traffic s) (follow s) (seen_logs s) seen, negb (seen =? seen_traffic s)).
Definition reload_logs (s : LogsState) : LogsState := mkLogs (buffer s) (traffic s) (follow s) (version (buffer s)) (seen_traffic s).
Definition reload_traffic (s : LogsState) : LogsState := mkLogs (buffer s) (traffic s) (follow s) (seen_logs s) (Traffic.version (traffic s)).
Definition set_log_follow (f : bool) (s : LogsState) : LogsState * bool :=
  if Bool.eqb (follow s) f then (s, false) else (mkLogs (buffer s) (traffic s) f (seen_logs s) (seen_traffic s), true).
Definition clear_logs (s : LogsState) : LogsState :=
  let b := clear (buffer s) in mkLogs b (traffic s) (follow s) (version b) (seen_traffic s).
Definition with_traffic (t : TrafficMonitor) (s : LogsState) : LogsState := mkLogs (buffer s) t (follow s) (seen_logs s) (seen_traffic s).

(** ** The page among threads that log

    The interface refreshes, reloads and clears, and reads the lines and then the
    dropped count when one of these asks for it; other threads push.  [owed] counts the
    changes of the buffer that are not added to the version yet. *)
Inductive Phase := Idle | DueLines | DueDropped.

Record Page := mkPage { state : LogsState; owed : nat; phase : Phase; shown_lines : list LogLine; shown_dropped : Z }.

Inductive Label :=
  | LPush (line : LogLine)
  | LClearLines
  | LBump
  | LRefresh
  | LReload
  | LShow.

Definition with_buffer (b : LogBuffer) (s : LogsState) : LogsState := mkLogs b (traffic s) (follow s) (seen_logs s) (seen_traffic s).

Definition step (p : Page) (l : Label) : Page :=
  let '(mkPage s n ph sl sd) := p in
  match l with
  | LPush line => mkPage (with_buffer (push_line line (buffer s)) s) (S n) ph sl sd
  | LClearLines => mkPage (with_buffer (clear_lines (buffer s)) s) (S n) ph sl sd
  | LBump => match n with O => p | S n => mkPage (with_buffer (fetch_add (buffer s)) s) n ph sl sd end
  | LRefresh => let '(s, changed) := refresh_logs s in mkPage s n (if changed then DueLines else ph) sl sd
  | LReload => mkPage (reload_logs s) n DueLines sl sd
  | LShow =>
      match ph with
      | Idle => p
      | DueLines => mkPage s n DueDropped (lines (buffer s)) sd
      | DueDropped => mkPage s n Idle sl (dropped (buffer s))
      end
  end.

Definition init (t : TrafficMonitor) : Page := mkPage (with_sources LogBuffer_new t) 0 DueLines [] 0.
Definition run (t : TrafficMonitor) (ls : list Label) : Page := foldl step (init t) ls.

(** [k] additions to the version since it was last seen. *)
Definition page_inv (n : Z) (p : Page) : Prop :=
  ∃ k, 0 <= k <= n ∧ 0 <= seen_logs (state p) < 2 ^ 64 ∧
    version (buffer (state p)) = (seen_logs (state p) + k) mod 2 ^ 64 ∧
    (shown_lines p = lines (buffer (state p)) ∨ phase p = DueLines ∨ owed p ≠ O ∨ k ≠ 0) ∧
    (shown_dropped p = dropped (buffer (state p)) ∨ phase p ≠ Idle ∨ owed p ≠ O ∨ k ≠ 0).

Lemma page_step p l n : page_inv n p → n + 1 < 2 ^ 64 → page_inv (n + 1) (step p l).
Proof.
  destruct p as [[b t f sn st] ow ph sl sd]. intros (k & Hk & Hs & Hv & Hl & Hd) Hn. cbn in *.
  destruct l; cbn.
  - exists k; cbn; split_and!; try lia; [|by right; right; left..]. unfold push_line. by case_decide.
  - exists k; cbn; split_and!; try lia; try done; by right; right; left.
  - destruct ow as [|ow]; cbn; [exists k; cbn; split_and!; (lia || done)|].
    exists (k + 1); cbn; split_and!; try lia; [|right; right; right; lia..]. unfold bump. rewrite Hv, Zplus_mod_idemp_l. f_equal. lia.
  - exists 0. pose proof (Z.mod_pos_bound (sn + k) (2 ^ 64) ltac:(lia)).
    destruct (Z.eqb_spec (version b) sn) as [E|E]; cbn.
    + assert (k = 0) as ->.
      { rewrite Hv in E. destruct (Z_lt_dec (sn + k) (2 ^ 64)); [rewrite Z.mod_small in E by lia; lia|].
        replace (sn + k) with ((sn + k - 2 ^ 64) + 1 * 2 ^ 64) in E by lia. rewrite Z.mod_add, Z.mod_small in E by lia. lia. }
      split_and!; try lia; [|tauto..]. rewrite Z.add_0_r, Z.mod_small by lia. done.
    + split_and!; try lia; [|auto|right; by left]. rewrite Z.add_0_r, Z.mod_small by lia. done.
  - exists 0. cbn. pose proof (Z.mod_pos_bound (sn + k) (2 ^ 64) ltac:(lia)). split_and!; try lia; [|by right; left|by right; left].
    rewrite Z.add_0_r, Z.mod_small by lia. done.
  - exists k. destruct ph; cbn; split_and!; try lia; try done; auto. destruct Hl as [?|[?|?]]; [by left|done|auto].
Qed.

Lemma page_run t ls : Z.of_nat (length ls) < 2 ^ 64 → page_inv (Z.of_nat (length ls)) (run t ls).
Proof.
  induction ls as [|l ls IH] using rev_ind; intros Hn.
  - exists 0. cbn. split_and!; try lia; auto.
  - unfold run. rewrite foldl_snoc, length_app in *. cbn in Hn |- *. rewrite Nat2Z.inj_add in *. apply page_step; [apply IH; lia|lia].
Qed.

(** However pushes by other threads interleave with the page, it is never left stale: once no push is halfway, nothing is
    to be shown and a refresh reports no change, the lines and the dropped count that are shown are those of the
    buffer. *)
Theorem page_never_stale t ls :
  Z.of_nat (length ls) < 2 ^ 64 →
  let p := run t ls in
  owed p = O → phase p = Idle → (refresh_logs (state p)).2 = false →
  shown_lines p = lines (buffer (state p)) ∧ shown_dropped p = dropped (buffer (state p)).
Proof.
  intros Hn p Ho Hp Hr. pose proof (page_run t ls Hn) as (k & Hk & Hs & Hv & Hl & Hd). fold p in Hk, Hs, Hv, Hl, Hd.
  cbn in Hr. apply negb_false_iff, Z.eqb_eq in Hr.
  assert (k = 0) as ->.
  { rewrite Hr in Hv. symmetry in Hv. destruct (Z_lt_dec (seen_logs (state p) + k) (2 ^ 64)); [rewrite Z.mod_small in Hv by lia; lia|].
    replace (seen_logs (state p) + k) with ((seen_logs (state p) + k - 2 ^ 64) + 1 * 2 ^ 64) in Hv by lia.
    rewrite Z.mod_add, Z.mod_small in Hv by lia. lia. }
  split; [destruct Hl as [?|[?|[?|?]]]; congruence|destruct Hd as [?|[?|[?|?]]]; congruence].
Qed.

(** The buffer has the latest 2000 lines in order and counts the others. *)
Theorem ring_buffer ls :
  let b := foldl (λ b l, fetch_add (push_line l b)) LogBuffer_new ls in
  lines b = drop (length ls - MAX_LINES) ls ∧ dropped b = Z.of_nat (length ls - MAX_LINES) mod 2 ^ 64 ∧
  version b = Z.of_nat (length ls) mod 2 ^ 64.
Proof.
  induction ls as [|l ls IH] using rev_ind; [done|]. rewrite foldl_snoc, length_app. change (length [l]) with 1%nat.
  cbv zeta in IH |- *. revert IH. generalize (foldl (λ b l, fetch_add (push_line l b)) LogBuffer_new ls) as b.
  intros b (E1 & E2 & E3). assert (1 ≤ MAX_LINES)%nat by (unfold MAX_LINES; lia). unfold push_line. rewrite E1, length_drop.
  destruct (decide (length ls - (length ls - MAX_LINES) = MAX_LINES)%nat) as [Hd|Hd]; cbn [lines dropped version fetch_add].
  - rewrite E2, E3, drop_drop. split_and!.
    + rewrite drop_app_le by lia. f_equal. f_equal. lia.
    + unfold wrapping_add. rewrite Zplus_mod_idemp_l. f_equal. lia.
    + unfold bump. rewrite Zplus_mod_idemp_l. f_equal. lia.
  - assert (length ls < MAX_LINES)%nat by lia. rewrite E2, E3. replace (length ls - MAX_LINES)%nat with O by lia.
    replace (length ls + 1 - MAX_LINES)%nat with O by lia. split_and!; [by rewrite !drop_0|done|].
    unfold bump. rewrite Zplus_mod_idemp_l. f_equal. lia.
Qed.

Lemma page_never_stale_witness :
  let p := run TrafficMonitor_new [LPush (mkLine (B "00:00:01") INFO (B "core") (B "up")); LShow; LRefresh; LBump; LShow; LRefresh; LShow; LShow] in
  shown_lines p = lines (buffer (state p)) ∧ shown_dropped p = dropped (buffer (state p)).
Proof. apply (page_never_stale TrafficMonitor_new); [cbn; lia|done..]. Defined.

(** ** Rendered messages *)
Lemma utf8_valid_take s e : utf8_valid s = true → (e = O ∨ ∀ c, s !! e = Some c → is_cont c = false) → utf8_valid (take e s) = true.
Proof.
  revert e. induction s as [s IH] using str_strong_ind. intros e Hs He. destruct s as [|c s]; [by rewrite take_nil|].
  destruct e as [|e]; [done|]. destruct He as [He|He]; [done|]. rewrite utf8_valid_unfold in Hs. cbn [take]. rewrite utf8_valid_unfold.
  assert (∀ d, is_cont d = true → s !! e = Some d → False) as Hc by (intros d ? Hd; specialize (He d Hd); congruence).
  assert (∀ t e', (length t < length (c :: s))%nat → utf8_valid t = true → (∀ d, t !! e' = Some d → is_cont d = false) → utf8_valid (take e' t) = true) as IH'.
  { intros t e' Ht Hv Hd. apply IH; auto. }
  destruct (utf8_width c) as [|[|[|[|[|w]]]]] eqn:Ew; try done.
  - apply IH'; [simpl; lia|done|]. apply He.
  - destruct s as [|d s2]; [done|]. apply andb_prop in Hs as [Hd Hs]. destruct e as [|e]; [exfalso; by apply (Hc d)|].
    cbn [take]. rewrite Hd. apply IH'; [simpl; lia|done|]. apply He.
  - destruct s as [|d [|f s3]]; [done..|]. apply andb_prop in Hs as [[Hd Hf]%andb_prop Hs].
    assert (is_cont d = true) as Hdc.
    { revert Hd. unfold second3_ok, is_cont, between. repeat case_match; intros; lia. }
    destruct e as [|[|e]]; [exfalso; by apply (Hc d)|exfalso; by apply (Hc f)|].
    cbn [take]. rewrite Hd, Hf. apply IH'; [simpl; lia|done|]. apply He.
  - destruct s as [|d [|f [|g s4]]]; [done..|]. apply andb_prop in Hs as [[[Hd Hf]%andb_prop Hg]%andb_prop Hs].
    assert (is_cont d = true) as Hdc.
    { revert Hd. unfold second4_ok, is_cont, between. repeat case_match; intros; lia. }
    destruct e as [|[|[|e]]]; [exfalso; by apply (Hc d)|exfalso; by apply (Hc f)|exfalso; by apply (Hc g)|].
    cbn [take]. rewrite Hd, Hf, Hg. apply IH'; [simpl; lia|done|]. apply He.
Qed.

Lemma boundary_below_spec text e :
  (boundary_below text e ≤ e)%nat ∧ (boundary_below text e = O ∨ ∀ c, text !! boundary_below text e = Some c → is_cont c = false).
Proof.
  induction e as [|e IH]; [auto|]. cbn [boundary_below]. destruct (text !! S e) as [c|] eqn:E.
  - destruct (is_cont c) eqn:Ec; [split; [lia|apply IH]|]. split; [done|]. right. intros c' Hc'. congruence.
  - split; [done|]. right. intros c' Hc'. congruence.
Qed.

Lemma append_prefix text msg : ∃ a, append text msg = msg ++ a.
Proof.
  unfold append. case_match; [exists []; by rewrite app_nil_r|]. destruct (is_empty msg); case_match; rewrite <-?(assoc_L (++)); eauto.
Qed.

Lemma append_length text msg : (length msg ≤ MAX_LINE_LEN + 3 → length (append text msg) ≤ MAX_LINE_LEN + 3)%nat.
Proof.
  intros Hm. unfold append. destruct (Nat.leb_spec MAX_LINE_LEN (length msg)); [done|]. set (m := if is_empty msg then msg else msg ++ B " ").
  assert (length m ≤ MAX_LINE_LEN)%nat by (unfold m; destruct (is_empty msg); rewrite ?length_app; change (length (B " ")) with 1%nat; lia).
  destruct (Nat.leb_spec (length text) (MAX_LINE_LEN - length m)); rewrite !length_app; [lia|].
  pose proof (boundary_below_spec text (MAX_LINE_LEN - length m)) as [? _]. rewrite length_take. change (length ellipsis) with 3%nat. lia.
Qed.

Lemma append_valid text msg : utf8_valid text = true → utf8_valid msg = true → utf8_valid (append text msg) = true.
Proof.
  intros Ht Hm. unfold append. case_match; [done|]. set (m := if is_empty msg then msg else msg ++ B " ").
  assert (utf8_valid m = true) as Hm' by (unfold m; destruct (is_empty msg); [done|by apply utf8_valid_app]).
  case_match; apply utf8_valid_app; try done. apply utf8_valid_app; [|done]. apply utf8_valid_take; [done|]. apply boundary_below_spec.
Qed.

(** A rendered event is valid UTF-8 whatever is cut off, has at most 2051 bytes (a cut adds an ellipsis of three bytes to
    the 2048), begins with what the fields recorded first gave, and takes no more text once it is full. *)
Theorem rendered_message fields more :
  let msg := foldl record_field [] fields in
  (Forall (λ f, utf8_valid f.1 = true ∧ utf8_valid f.2 = true) fields → utf8_valid msg = true) ∧
  (length msg ≤ MAX_LINE_LEN + 3)%nat ∧
  (∃ a, foldl record_field [] (fields ++ more) = msg ++ a) ∧
  ((MAX_LINE_LEN ≤ length msg)%nat → foldl record_field [] (fields ++ more) = msg).
Proof.
  intros msg. split_and!.
  - unfold msg. assert (utf8_valid [] = true) as H0 by done. revert H0. generalize (@nil byte) as m.
    induction fields as [|[name value] fields IH]; intros m Hm; [done|]. intros [[Hn Hv] Hf]%Forall_cons. cbn [foldl].
    apply IH; [|done]. unfold record_field. case_match; apply append_valid; try done. apply utf8_valid_app; [done|by apply utf8_valid_app].
  - unfold msg. assert (length (@nil byte) ≤ MAX_LINE_LEN + 3)%nat as H0 by (cbn; lia). revert H0. generalize (@nil byte) as m.
    induction fields as [|[name value] fields IH]; intros m Hm; [done|]. cbn [foldl]. apply IH. unfold record_field. case_match; by apply append_length.
  - rewrite foldl_app. fold msg. generalize msg as m. induction more as [|[name value] more IH]; intros m; [exists []; by rewrite app_nil_r|].
    cbn [foldl]. destruct (IH (record_field m (name, value))) as [a ->]. unfold record_field.
    case_match; [destruct (append_prefix value m) as [b ->]|destruct (append_prefix (name ++ B "=" ++ value) m) as [b ->]]; rewrite <-(assoc_L (++)); eauto.
  - intros Hl. rewrite foldl_app. fold msg. induction more as [|[name value] more IH]; [done|]. cbn [foldl].
    assert (record_field msg (name, value) = msg) as ->; [|done]. unfold record_field, append. destruct (Nat.leb_spec MAX_LINE_LEN (length msg)); [|lia]. by case_match.
Qed.

Lemma rendered_message_witness :
  foldl record_field [] ([(B "message", replicate 2047 x61); (B "k", B "v")] ++ [(B "more", B "text")]) =
  foldl record_field [] [(B "message", replicate 2047 x61); (B "k", B "v")] ∧
  length (foldl record_field [] [(B "message", replicate 2047 x61); (B "k", B "v")]) = 2051%nat.
Proof.
  split; [|by vm_compute]. apply (rendered_message [(B "message", replicate 2047 x61); (B "k", B "v")]). apply Nat.leb_le. by vm_compute.
Defined.

(** ** The traffic chart *)
Definition f64_mul : f64 → f64 → f64 := SFmul 53 1024.
Definition f64_sub : f64 → f64 → f64 := SFsub 53 1024.
Definition f64_one : f64 := f64_of 1.
Definition f64_third (n : Z) : f64 := f64_div (f64_of n) (f64_of 3).

(** [f64::clamp]. *)
Definition f64_clamp (v lo hi : f64) : f64 :=
  let v := if SFltb v lo then lo else v in if SFltb hi v then hi else v.

(** [f64::abs]. *)
Definition f64_abs (v : f64) : f64 :=
  match v with S754_zero _ => S754_zero false | S754_infinity _ => S754_infinity false | S754_finite _ m e => S754_finite false m e | S754_nan => S754_nan end.
Definition f64_neg (v : f64) : f64 :=
  match v with S754_zero s => S754_zero (negb s) | S754_infinity s => S754_infinity (negb s) | S754_finite s m e => S754_finite (negb s) m e | S754_nan => S754_nan end.

Definition SCALE_FLOOR : f64 := f64_of 1024.
Definition DONUT_GAP : f64 := f64_div (f64_of 12) (f64_of 100).
Definition DONUT_MIN_SWEEP : f64 := f64_div (f64_of 6) (f64_of 100).
(** [std::f64::consts]. *)
Definition PI : f64 := S754_finite false 7074237752028440 (-51).
Definition TAU : f64 := S754_finite false 7074237752028440 (-50).

Definition Point : Type := f64 * f64.
Record Segment := mkSegment { seg_start : Point; control1 : Point; control2 : Point; seg_end : Point }.

Definition slopes (values : list f64) : list f64 := zip_with (λ a b, f64_sub b a) values (drop 1 values).

Definition tangent (ss : list f64) (index : nat) : f64 :=
  match (match index with O => None | S i => ss !! i end), ss !! index with
  | Some before, Some after =>
      if SFltb f64_zero (f64_mul before after) then f64_div (f64_mul (f64_mul (f64_of 2) before) after) (f64_add before after) else f64_zero
  | None, Some only | Some only, None => only
  | None, None => f64_zero
  end.

Definition segment (values : list f64) (index : nat) : Segment :=
  let ss := slopes values in
  let x := f64_of (Z.of_nat index) in
  let start := default f64_zero (values !! index) in
  let end_ := default f64_zero (values !! S index) in
  mkSegment (x, start)
    (f64_add x (f64_third 1), f64_add start (f64_div (tangent ss index) (f64_of 3)))
    (f64_add x (f64_third 2), f64_sub end_ (f64_div (tangent ss (S index)) (f64_of 3)))
    (f64_add x f64_one, end_).

Definition monotone_segments (values : list f64) : list Segment := segment values <$> seq 0 (length (slopes values)).

Definition chart_series (pick : Speed → f64) (scale : f64) (samples : list Speed) : list f64 :=
  replicate (HISTORY - length samples) f64_zero ++ ((λ s, f64_clamp (f64_div (pick s) scale) f64_zero f64_one) <$> samples).

Definition chart_curves (s : TrafficSnapshot) : list Segment * list Segment :=
  let scale := f64_max (f64_max (peak_down s) (peak_up s)) SCALE_FLOOR in
  let samples := drop (length (snap_samples s) - HISTORY) (snap_samples s) in
  if (length samples <? 2)%nat then ([], [])
  else (monotone_segments (chart_series down scale samples), monotone_segments (chart_series up scale samples)).

(** [{:.n}] of any float. *)
Definition sign_text (s : bool) : str := if s then B "-" else [].
Definition pad_left (n : nat) (s : str) : str := replicate (n - length s) x30 ++ s.
Definition format_fixed (decimals : nat) (v : f64) : str :=
  let n := Z.of_nat decimals in
  let digits s := sign_text s ++ show_dec (fixed_int n v / 10 ^ n) ++ B "." ++ pad_left decimals (show_dec (fixed_int n v mod 10 ^ n)) in
  match v with
  | S754_nan => B "NaN"
  | S754_infinity s => sign_text s ++ B "inf"
  | S754_zero s | S754_finite s _ _ => digits s
  end.

Definition point (p : Point) : str := format_fixed 3 p.1 ++ B " " ++ format_fixed 4 (f64_sub f64_one p.2).

Definition line_commands (segments : list Segment) : str :=
  match segments with
  | [] => []
  | first :: _ =>
      foldl (λ commands s, commands ++ B " C " ++ point (control1 s) ++ B " " ++ point (control2 s) ++ B " " ++ point (seg_end s))
        (B "M " ++ point (seg_start first)) segments
  end.

Definition area_commands (segments : list Segment) : str :=
  match head segments, last segments with
  | Some first, Some last_ =>
      line_commands segments ++ B " L " ++ point ((seg_end last_).1, f64_zero) ++ B " L " ++ point ((seg_start first).1, f64_zero) ++ B " Z"
  | _, _ => []
  end.

Record ChartPaths := mkChart { down_line : str; down_area : str; up_line : str }.
Definition chart_paths (s : TrafficSnapshot) : ChartPaths :=
  let '(down, up) := chart_curves s in mkChart (line_commands down) (area_commands down) (line_commands up).

(** ** The donut *)
Definition donut_sweeps (down up : Z) : option (f64 * f64) * option (f64 * f64) :=
  if decide (down = 0 ∧ up = 0) then (None, None)
  else if decide (up = 0) then (Some (f64_zero, TAU), None)
  else if decide (down = 0) then (None, Some (f64_zero, TAU))
  else
    let reserve := f64_add DONUT_GAP DONUT_MIN_SWEEP in
    let share := f64_div (f64_of down) (f64_add (f64_of down) (f64_of up)) in
    let split := f64_clamp (f64_mul TAU share) reserve (f64_sub TAU reserve) in
    let half := f64_div DONUT_GAP (f64_of 2) in
    (Some (half, f64_sub split half), Some (f64_add split half, f64_sub TAU half)).

Record DonutPaths := mkDonut { donut_down : str; donut_up : str; donut_empty : str }.

Record TrafficView := mkView {
  chart : ChartPaths;
  donut : DonutPaths;
  has_samples : bool;
  down_speed : str;
  up_speed : str;
  down_total : str;
  up_total : str;
  total : str;
}.

Section donut.
Context (sin cos : f64 → f64).

Definition circle_point (angle : f64) : str :=
  let clean v := if SFltb (f64_abs v) (f64_div (f64_of 5) (f64_of 100000)) then f64_zero else v in
  format_fixed 4 (clean (sin angle)) ++ B " " ++ format_fixed 4 (clean (f64_neg (cos angle))).

Definition arc_commands (sweep : f64 * f64) : str :=
  let '(start, end_) := sweep in
  if SFleb TAU (f64_sub end_ start) then
    B "M " ++ circle_point start ++ B " A 1 1 0 0 1 " ++ circle_point (f64_add start PI) ++ B " A 1 1 0 0 1 " ++ circle_point start
  else
    let large := if SFltb PI (f64_sub end_ start) then B "1" else B "0" in
    B "M " ++ circle_point start ++ B " A 1 1 0 " ++ large ++ B " 1 " ++ circle_point end_.

Definition donut_paths (down up : Z) : DonutPaths :=
  let '(down_sweep, up_sweep) := donut_sweeps down up in
  let empty := negb (bool_decide (is_Some down_sweep)) && negb (bool_decide (is_Some up_sweep)) in
  mkDonut (default [] (arc_commands <$> down_sweep)) (default [] (arc_commands <$> up_sweep)) (if empty then arc_commands (f64_zero, TAU) else []).

Definition traffic_view (s : TrafficSnapshot) : TrafficView :=
  mkView (chart_paths s) (donut_paths (snap_total_down s) (snap_total_up s)) (0 <? length (snap_samples s))%nat
    (format_speed (down (snap_current s))) (format_speed (up (snap_current s))) (format_bytes (snap_total_down s)) (format_bytes (snap_total_up s))
    (format_bytes (u64_saturating_add (snap_total_down s) (snap_total_up s))).
End donut.

Example donut_ex : donut_sweeps 0 7 = (None, Some (f64_zero, TAU)) ∧ (donut_sweeps 1 1).1 ≠ None.
Proof. by vm_compute. Qed.
Example fixed_ex : format_fixed 4 (f64_div (f64_of (-1)) (f64_of 3)) = B "-0.3333" ∧ format_fixed 3 (f64_of 59) = B "59.000".
Proof. by vm_compute. Qed.

(** ** The curves *)
Lemma slopes_length values : length (slopes values) = (length values - 1)%nat.
Proof. unfold slopes. rewrite length_zip_with, length_drop. lia. Qed.

Lemma segments_lookup values i s :
  monotone_segments values !! i = Some s ↔ s = segment values i ∧ (S i < length values)%nat.
Proof.
  unfold monotone_segments. rewrite list_lookup_fmap, slopes_length. destruct (decide (i < length values - 1)%nat).
  - rewrite lookup_seq_lt by lia. cbn. split; [intros [= <-]; split; [done|lia]|by intros [-> _]].
  - rewrite lookup_seq_ge by lia. cbn. split; [done|]. intros [_ ?]. lia.
Qed.

(** The value of a sample is not changed by a flat tangent. *)
Lemma f64_add_zero v : v ≠ S754_zero true → f64_add v (f64_div f64_zero (f64_of 3)) = v.
Proof. change (f64_div f64_zero (f64_of 3)) with f64_zero. by destruct v as [[]| | |]. Qed.
Lemma f64_sub_zero v : f64_sub v (f64_div f64_zero (f64_of 3)) = v.
Proof. change (f64_div f64_zero (f64_of 3)) with f64_zero. by destruct v as [[]| | |]. Qed.

(** The curve through [n] values has [n - 1] pieces; piece [i] goes from value [i] to value [i + 1], each piece begins where
    the one before it ends, and at a value whose two slopes do not have the same sign both control points have the
    height of the value, so that the curve does not leave a local extreme. *)
Theorem curve_interpolates values :
  length (monotone_segments values) = (length values - 1)%nat ∧
  ∀ i s, monotone_segments values !! i = Some s →
    seg_start s = (f64_of (Z.of_nat i), default f64_zero (values !! i)) ∧ (seg_end s).2 = default f64_zero (values !! S i) ∧
    ∀ s', monotone_segments values !! S i = Some s' →
      (seg_end s).2 = (seg_start s').2 ∧
      ∀ before after, slopes values !! i = Some before → slopes values !! S i = Some after →
        SFltb f64_zero (f64_mul before after) = false → values !! S i ≠ Some (S754_zero true) →
        (control2 s).2 = (seg_end s).2 ∧ (control1 s').2 = (seg_end s).2.
Proof.
  split; [unfold monotone_segments; by rewrite length_fmap, length_seq, slopes_length|].
  intros i s [-> Hi]%segments_lookup. split_and!; [done..|]. intros s' [-> Hi']%segments_lookup. split; [done|].
  intros before after Hb Ha Hs Hz. cbn [segment control1 control2 seg_end snd]. unfold tangent. rewrite Hb, Ha, Hs. split; [apply f64_sub_zero|].
  apply f64_add_zero. intros E. apply Hz. destruct (values !! S i); [cbn in E; by f_equal|done].
Qed.

Lemma curve_interpolates_witness :
  let vs := [f64_zero; f64_one; f64_zero] in
  (control2 (segment vs 0)).2 = f64_one ∧ (control1 (segment vs 1)).2 = f64_one.
Proof.
  eapply (curve_interpolates [f64_zero; f64_one; f64_zero]); [apply (segments_lookup _ 0%nat); by split; [|cbn; lia]|apply (segments_lookup _ 1%nat); by split; [|cbn; lia]|reflexivity..| |done].
  by vm_compute.
Defined.

Lemma SFltb_false a b : a ≠ S754_nan → b ≠ S754_nan → SFltb a b = false → SFleb b a = true.
Proof.
  intros Ha Hb. unfold SFltb, SFleb. rewrite !SFcompare_rank, (rank_compare_antisym (rank a)) by done. by destruct (rank_compare _ _).
Qed.

Lemma f64_clamp_bounds v lo hi :
  v ≠ S754_nan → lo ≠ S754_nan → hi ≠ S754_nan → SFleb lo hi = true →
  SFleb lo (f64_clamp v lo hi) = true ∧ SFleb (f64_clamp v lo hi) hi = true.
Proof.
  intros Hv Hlo Hhi Hle. unfold f64_clamp. assert (∀ x, x ≠ S754_nan → SFleb x x = true) as Hrefl by (intros x Hx; by apply f64_le_SFleb, f64_le_refl).
  destruct (SFltb v lo) eqn:E1.
  - destruct (SFltb hi lo) eqn:E2; [|by rewrite Hrefl]. exfalso. apply f64_le_SFleb in Hle as (_ & _ & Hr). revert E2 Hr. unfold SFltb, rank_le.
    rewrite SFcompare_rank, (rank_compare_antisym (rank lo)) by done. by destruct (rank_compare _ _).
  - destruct (SFltb hi v) eqn:E2; [by rewrite Hrefl|]. split; by apply SFltb_false.
Qed.

(** The chart has as many slots as the history, the samples at its right end and a baseline before them, and every height
    that is a number lies between the baseline and the top. *)
Theorem chart_heights pick sc samples :
  (length samples ≤ HISTORY)%nat →
  let vs := chart_series pick sc samples in
  length vs = HISTORY ∧
  (∀ i, (i < HISTORY - length samples)%nat → vs !! i = Some f64_zero) ∧
  (∀ i s, samples !! i = Some s → vs !! (HISTORY - length samples + i)%nat = Some (f64_clamp (f64_div (pick s) sc) f64_zero f64_one)) ∧
  ∀ s, s ∈ samples → f64_div (pick s) sc ≠ S754_nan →
    let v := f64_clamp (f64_div (pick s) sc) f64_zero f64_one in SFleb f64_zero v = true ∧ SFleb v f64_one = true.
Proof.
  intros Hl vs. unfold vs, chart_series. split_and!.
  - rewrite length_app, length_replicate, length_fmap. lia.
  - intros i Hi. rewrite lookup_app_l by by rewrite length_replicate. by apply lookup_replicate_2.
  - intros i s Hs. rewrite lookup_app_r by (rewrite length_replicate; lia). rewrite length_replicate, list_lookup_fmap.
    replace (HISTORY - length samples + i - (HISTORY - length samples))%nat with i by lia. by rewrite Hs.
  - intros s Hs Hn. by apply f64_clamp_bounds.
Qed.

Lemma chart_heights_witness :
  let ss := [mkSpeed (f64_of 10) (f64_of 4096); mkSpeed (f64_of 20) (f64_of 512)] in
  length (chart_series down (f64_of 2048) ss) = HISTORY ∧
  chart_series down (f64_of 2048) ss !! 58%nat = Some f64_one ∧ chart_series down (f64_of 2048) ss !! 59%nat = Some (f64_div (f64_of 1) (f64_of 4)).
Proof.
  destruct (chart_heights down (f64_of 2048) [mkSpeed (f64_of 10) (f64_of 4096); mkSpeed (f64_of 20) (f64_of 512)]) as (H1 & _ & H2 & _); [apply Nat.leb_le; by vm_compute|].
  split_and!; [exact H1|exact (H2 0%nat _ eq_refl)|exact (H2 1%nat _ eq_refl)].
Defined.
