(* ===== verification/SystemProxy.v ===== *)
(** * [gui/src/system_proxy.rs]: the proxy settings of the desktop

    The commands that set the proxy on GNOME, KDE, macOS and Windows.  The commands run
    in a shell whose state is arbitrary; what the theorems need of [gsettings] and
    [reg] is stated by classes. *)
From S2P Require Import Prelude Std Text Profile Pac Storage.
#[local] Open Scope Z_scope.

(** [pac::pac_url]. *)
Definition pac_url (listen_addr : str) : str := B "http://" ++ listen_addr ++ B "/pac".

(** A program with its arguments. *)
Definition Cmd : Type := str * list str.
Definition cmd (program : string) (args : list str) : Cmd := (B program, args).

(** Why a program could not be run: [NotFound], or another error. *)
Inductive SpawnError := NotFound | OtherSpawn (e : error).

(** [Command::status] gives whether the program succeeded, [Command::output] what it wrote as well. *)
Class Shell (M : Type) := {
  status : Cmd → M → M * (bool + SpawnError);
  output : Cmd → M → M * ((bool * str) + SpawnError);
}.

Definition not_run : error := EMsg (B "failed to run").
Definition exited : error := EMsg (B "exited with").

Section shell.
Context `{Shell M}.

(** Stateful code that may fail. *)
Definition Sh (A : Type) : Type := M → M * result A.
#[local] Instance sh_ret : MRet Sh := λ A a m, (m, Ok a).
#[local] Instance sh_bind : MBind Sh := λ A C f x m, let '(m, r) := x m in match r with Ok a => f a m | Err e => (m, Err e) end.
Definition sh_fail {A} (e : error) : Sh A := λ m, (m, Err e).
Definition sh_try {A} (x : Sh A) : Sh (result A) := λ m, let '(m, r) := x m in (m, Ok r).

Definition run_required (c : Cmd) : Sh unit := λ m,
  let '(m, r) := status c m in
  (m, match r with inl true => Ok tt | inl false => Err exited | inr _ => Err not_run end).

Definition run_if_available (c : Cmd) : Sh bool := λ m,
  let '(m, r) := status c m in
  (m, match r with inl true => Ok true | inl false => Err exited | inr NotFound => Ok false | inr (OtherSpawn _) => Err not_run end).

(** [ok |= f(c)?] for each command. *)
Fixpoint run_each {A} (f : A → Sh bool) (ok : bool) (cs : list A) : Sh bool :=
  match cs with
  | [] => mret ok
  | c :: cs => b ← f c; run_each f (ok || b) cs
  end.

(** ** GNOME *)
Definition PROXY : str := B "org.gnome.system.proxy".
Definition set_key (schema key value : str) : list str := [B "set"; schema; key; value].

(** Schema, key and value of each call; [None] is the panic of [split_host_port]. *)
Definition gnome_writes (mode : SystemProxyMode) (pac_url listen : str) : option (list (str * str * str)) :=
  match mode with
  | PDisable => Some [(PROXY, B "mode", B "none")]
  | PPac => Some [(PROXY, B "mode", B "auto"); (PROXY, B "autoconfig-url", pac_url)]
  | PGlobal =>
      '(host, port) ← split_host_port listen;
      let port := show_dec port in
      Some [(PROXY, B "mode", B "manual"); (PROXY, B "use-same-proxy", B "true");
            (PROXY ++ B ".http", B "host", host); (PROXY ++ B ".http", B "port", port);
            (PROXY ++ B ".https", B "host", host); (PROXY ++ B ".https", B "port", port);
            (PROXY ++ B ".socks", B "host", host); (PROXY ++ B ".socks", B "port", port)]
  end.

Definition gsettings (w : str * str * str) : Sh bool := run_if_available (cmd "gsettings" (set_key w.1.1 w.1.2 w.2)).

Definition apply_linux_gnome (mode : SystemProxyMode) (pac_url listen : str) : option (Sh bool) :=
  run_each gsettings false <$> gnome_writes mode pac_url listen.

(** ** KDE *)
Definition kwriteconfig (args : list str) : Sh bool :=
  b ← run_if_available (cmd "kwriteconfig6" args);
  if b : bool then mret true else run_if_available (cmd "kwriteconfig5" args).

Definition kde_key (key value : str) : list str := [B "--file"; B "kioslaverc"; B "--group"; B "Proxy Settings"; B "--key"; key; value].

Definition kde_commands (mode : SystemProxyMode) (pac_url listen : str) : option (list (list str)) :=
  match mode with
  | PDisable => Some [kde_key (B "ProxyType") (B "0")]
  | PPac => Some [kde_key (B "ProxyType") (B "2"); kde_key (B "Proxy Config Script") pac_url]
  | PGlobal =>
      '(host, port) ← split_host_port listen;
      let port := show_dec port in
      let host := if contains x3a host then B "[" ++ host ++ B "]" else host in
      Some [kde_key (B "ProxyType") (B "1"); kde_key (B "httpProxy") (B "http://" ++ host ++ B " " ++ port);
            kde_key (B "httpsProxy") (B "http://" ++ host ++ B " " ++ port); kde_key (B "socksProxy") (B "socks://" ++ host ++ B " " ++ port)]
  end.

Definition reparse : list str := [B "org.kde.KIO"; B "/KIO/Scheduler"; B "reparseSlaveConfiguration"].

Definition apply_linux_kde (mode : SystemProxyMode) (pac_url listen : str) : option (Sh bool) :=
  cs ← kde_commands mode pac_url listen;
  Some (ok ← run_each kwriteconfig false cs;
        r ← sh_try (run_if_available (cmd "qdbus6" reparse));
        _ ← (match r with Ok true => mret (Ok true) | _ => sh_try (run_if_available (cmd "qdbus" reparse)) end : Sh (result bool));
        mret ok).

(** [desktop_lower] is the lower-case XDG_CURRENT_DESKTOP. *)
Definition backend_failed : error := EMsg (B "proxy apply failed").
Definition only (x : Sh bool) : Sh unit := ok ← x; if ok : bool then mret tt else sh_fail backend_failed.

Definition apply_linux (desktop_lower : str) (mode : SystemProxyMode) (pac_url listen : str) : option (Sh unit) :=
  if has_sub (B "gnome") desktop_lower then only <$> apply_linux_gnome mode pac_url listen
  else if has_sub (B "kde") desktop_lower then only <$> apply_linux_kde mode pac_url listen
  else
    gnome ← apply_linux_gnome mode pac_url listen;
    kde ← apply_linux_kde mode pac_url listen;
    Some (g ← sh_try gnome;
          k ← sh_try kde;
          if default false (ok g) || default false (ok k) then mret tt else sh_fail backend_failed).

(** ** macOS *)
Fixpoint each {A} (f : A → Sh unit) (l : list A) : Sh unit :=
  match l with
  | [] => mret tt
  | a :: l => _ ← f a; each f l
  end.

(** The services named in the lines after the first; a star marks a disabled one. *)
Definition network_services (stdout : str) : list str :=
  filter (λ line, is_empty line = false ∧ starts_with (B "*") line = false) (trim <$> drop 1 (lines (from_utf8_lossy stdout))).

Definition list_macos_network_services : Sh (list str) := λ m,
  let '(m, r) := output (cmd "networksetup" [B "-listallnetworkservices"]) m in
  (m, match r with
      | inl (true, stdout) => Ok (network_services stdout)
      | inl (false, _) => Err exited
      | inr _ => Err not_run
      end).

Definition macos_commands (mode : SystemProxyMode) (pac_url listen service : str) : option (list (list str)) :=
  let turn what state := [B what; service; B state] in
  match mode with
  | PDisable => Some [turn "-setwebproxystate"%string "off"%string; turn "-setsecurewebproxystate"%string "off"%string;
                      turn "-setsocksfirewallproxystate"%string "off"%string; turn "-setautoproxystate"%string "off"%string]
  | PPac => Some [[B "-setautoproxyurl"; service; pac_url]; turn "-setautoproxystate"%string "on"%string;
                  turn "-setwebproxystate"%string "off"%string; turn "-setsecurewebproxystate"%string "off"%string;
                  turn "-setsocksfirewallproxystate"%string "off"%string]
  | PGlobal =>
      '(host, port) ← split_host_port listen;
      let port := show_dec port in
      Some [[B "-setwebproxy"; service; host; port]; [B "-setsecurewebproxy"; service; host; port];
            [B "-setsocksfirewallproxy"; service; host; port]; turn "-setwebproxystate"%string "on"%string;
            turn "-setsecurewebproxystate"%string "on"%string; turn "-setsocksfirewallproxystate"%string "on"%string;
            turn "-setautoproxystate"%string "off"%string]
  end.

(** The inner [None] is a panic while the services are set. *)
Fixpoint set_services (mode : SystemProxyMode) (pac_url listen : str) (services : list str) : option (Sh unit) :=
  match services with
  | [] => Some (mret tt)
  | s :: services =>
      cs ← macos_commands mode pac_url listen s;
      rest ← set_services mode pac_url listen services;
      Some (_ ← each (λ args, run_required (cmd "networksetup" args)) cs; rest)
  end.

Definition apply_macos (mode : SystemProxyMode) (pac_url listen : str) (m : M) : M * option (result unit) :=
  match list_macos_network_services m with
  | (m, Err e) => (m, Some (Err e))
  | (m, Ok []) => (m, Some (Err (EMsg (B "no active macOS network services found"))))
  | (m, Ok services) =>
      match set_services mode pac_url listen services with
      | None => (m, None)
      | Some x => let '(m, r) := x m in (m, Some r)
      end
  end.

(** ** Windows *)
Definition INTERNET_SETTINGS : str := B "HKCU\Software\Microsoft\Windows\CurrentVersion\Internet Settings".

Definition join_with (sep : str) (l : list str) : str :=
  match l with [] => [] | s :: l => foldl (λ acc x, acc ++ sep ++ x) s l end.

Definition windows_bypass : str :=
  join_with (B ";") ([B "localhost"; B "127.*"; B "10.*"] ++ ((λ n, B "172." ++ show_dec (Z.of_nat n) ++ B ".*") <$> seq 16 16) ++ [B "192.168.*"; B "<local>"]).

Definition reg_add_cmd (name kind data : str) : Cmd :=
  cmd "reg" [B "add"; INTERNET_SETTINGS; B "/v"; name; B "/t"; kind; B "/d"; data; B "/f"].
Definition reg_delete_cmd (name : str) : Cmd := cmd "reg" [B "delete"; INTERNET_SETTINGS; B "/v"; name; B "/f"].
Definition reg_query_cmd (name : str) : Cmd := cmd "reg" [B "query"; INTERNET_SETTINGS; B "/v"; name].

Definition reg_add (name kind data : str) : Sh unit := run_required (reg_add_cmd name kind data).
Definition reg_delete (name : str) : Sh unit := λ m, let '(m, _) := status (reg_delete_cmd name) m in (m, Ok tt).

Definition reg_sz_of_line (name line : str) : option str :=
  rest ← strip_prefix name (trim_start line);
  data ← strip_prefix (B "REG_SZ") (trim_start rest);
  Some (trim data).

Fixpoint find_map {A C} (f : A → option C) (l : list A) : option C :=
  match l with [] => None | a :: l => match f a with Some c => Some c | None => find_map f l end end.

Definition parse_reg_sz (output name : str) : option str := find_map (reg_sz_of_line name) (lines output).

Definition reg_query (name : str) : Sh (option str) := λ m,
  let '(m, r) := output (reg_query_cmd name) m in
  (m, Ok (match r with inl (_, stdout) => parse_reg_sz (from_utf8_lossy stdout) name | inr _ => None end)).

Definition delete_if (name value : str) : Sh unit :=
  v ← reg_query name;
  if bool_decide (v = Some value) then reg_delete name else mret tt.

Definition apply_windows (mode : SystemProxyMode) (pac_url listen : str) : Sh unit :=
  match mode with
  | PDisable =>
      _ ← reg_add (B "ProxyEnable") (B "REG_DWORD") (B "0");
      _ ← reg_delete (B "AutoConfigURL");
      _ ← delete_if (B "ProxyServer") listen;
      delete_if (B "ProxyOverride") windows_bypass
  | PPac =>
      _ ← reg_add (B "ProxyEnable") (B "REG_DWORD") (B "0");
      reg_add (B "AutoConfigURL") (B "REG_SZ") pac_url
  | PGlobal =>
      _ ← reg_add (B "ProxyEnable") (B "REG_DWORD") (B "1");
      _ ← reg_add (B "ProxyServer") (B "REG_SZ") listen;
      _ ← reg_add (B "ProxyOverride") (B "REG_SZ") windows_bypass;
      reg_delete (B "AutoConfigURL")
  end.

(** ** The entry point *)
Inductive Os := Linux (desktop_lower : str) | MacOs | Windows | OtherOs.

Definition proxy_pac_url (c : AppConfig) : str :=
  match pac_mode c with
  | Online => default (pac_url (pac_listen c)) (online_pac_url c)
  | Local => pac_url (pac_listen c)
  end.

(** A panic is [None]. *)
Definition apply_system_proxy (os : Os) (c : AppConfig) (m : M) : M * option (result unit) :=
  let run (x : option (Sh unit)) := match x with None => (m, None) | Some x => let '(m, r) := x m in (m, Some r) end in
  match os with
  | Linux desktop => run (apply_linux desktop (system_proxy_mode c) (proxy_pac_url c) (mixed_listen c))
  | MacOs => apply_macos (system_proxy_mode c) (proxy_pac_url c) (mixed_listen c) m
  | Windows => run (Some (apply_windows (system_proxy_mode c) (proxy_pac_url c) (mixed_listen c)))
  | OtherOs => (m, Some (Ok tt))
  end.
End shell.

Example windows_bypass_ex : (length (filter (λ c, c = x3b) windows_bypass), has_sub (B ";172.31.*;192.168.*;<local>") windows_bypass) = (20%nat, true).
Proof. by vm_compute. Qed.
Example parse_reg_sz_ex :
  parse_reg_sz (crlf ++ B "HKEY_CURRENT_USER\Software" ++ crlf ++ B "    ProxyServer    REG_SZ    127.0.0.1:1080" ++ crlf ++ crlf) (B "ProxyServer") = Some (B "127.0.0.1:1080").
Proof. by vm_compute. Qed.

(** ** GNOME settings

    What [gsettings set] does: a successful call gives one key its value. *)
Class GSettings (M : Type) `{Shell M} := {
  gs : M → str * str → option str;
  gs_set m m' s k v : status (cmd "gsettings" (set_key s k v)) m = (m', inl true) →
    ∀ key, gs m' key = if decide (key = (s, k)) then Some v else gs m key;
  gs_installed m args : (status (cmd "gsettings" args) m).2 ≠ inr NotFound;
}.

Inductive Effective := Direct | Auto (url : option str) | Manual (servers : list (option str * option str)).

Section gnome.
Context `{GSettings M}.

(** The proxy that the desktop uses. *)
Definition gnome_proxy (m : M) : option Effective :=
  mode ← gs m (PROXY, B "mode");
  let server kind := (gs m (PROXY ++ kind, B "host"), gs m (PROXY ++ kind, B "port")) in
  if decide (mode = B "none") then Some Direct
  else if decide (mode = B "auto") then Some (Auto (gs m (PROXY, B "autoconfig-url")))
  else if decide (mode = B "manual") then Some (Manual [server (B ".http"); server (B ".https"); server (B ".socks")])
  else None.

Lemma gsettings_inv w m m' b : gsettings w m = (m', Ok b) → status (cmd "gsettings" (set_key w.1.1 w.1.2 w.2)) m = (m', inl true).
Proof.
  unfold gsettings, run_if_available. generalize (set_key w.1.1 w.1.2 w.2) as args. intros args.
  pose proof (gs_installed m args) as Hi. destruct (status (cmd "gsettings" args) m) as [m1 [[]|[|e]]]; cbn in Hi; try done. by intros [= <- <-].
Qed.

(** The keys after a sequence of writes. *)
Definition write_key (f : str * str → option str) (w : str * str * str) : str * str → option str :=
  λ key, if decide (key = (w.1.1, w.1.2)) then Some w.2 else f key.

Lemma write_keys_ext ws f g : (∀ key, f key = g key) → ∀ key, foldl write_key f ws key = foldl write_key g ws key.
Proof.
  revert f g. induction ws as [|w ws IH]; intros f g Hfg key; [done|]. cbn [foldl]. apply IH. intros k. unfold write_key. case_decide; [done|apply Hfg].
Qed.

Lemma run_each_gsettings ws ok m m' b :
  run_each gsettings ok ws m = (m', Ok b) → ∀ key, gs m' key = foldl write_key (gs m) ws key.
Proof.
  revert ok m. induction ws as [|w ws IH]; intros ok m; cbn [run_each].
  - by intros [= -> _].
  - unfold mbind, sh_bind. destruct (gsettings w m) as [m1 [b1|e]] eqn:E; [|done].
    apply gsettings_inv in E. intros Hr key. rewrite (IH _ _ Hr). cbn [foldl]. apply write_keys_ext. intros k. apply (gs_set m m1 _ _ _ E).
Qed.

(** Whatever the settings of the desktop were, once the commands for a mode succeed GNOME uses no proxy, the PAC address, or
    the host and port of the mixed address for HTTP, HTTPS and SOCKS. *)
Theorem gnome_mode_applied mode url listen host port x m m' b :
  split_host_port listen = Some (host, port) → apply_linux_gnome mode url listen = Some x → x m = (m', Ok b) →
  let server := (Some host, Some (show_dec port)) in
  gnome_proxy m' = Some (match mode with PDisable => Direct | PPac => Auto (Some url) | PGlobal => Manual [server; server; server] end).
Proof.
  intros Hs. unfold apply_linux_gnome. destruct (gnome_writes mode url listen) as [ws|] eqn:Ec; [|done]. intros [= <-] Hx.
  pose proof (run_each_gsettings ws false m m' b Hx) as Hg. unfold gnome_proxy. rewrite !Hg. clear Hg Hx.
  destruct mode; unfold gnome_writes in Ec; rewrite ?Hs in Ec; cbn [mbind option_bind] in Ec; apply (inj Some) in Ec as <-; generalize (show_dec port) as p; intros p;
    cbv -[gs]; reflexivity.
Qed.
End gnome.

(** ** The registry

    What [reg] does, for the values of one key: it adds, deletes (an absent value stays
    absent), and prints a value in the line after the name of the key. *)
Definition query_text (name kind data : str) : str :=
  crlf ++ B "HKEY_CURRENT_USER\Software\Microsoft\Windows\CurrentVersion\Internet Settings" ++ crlf ++
  B "    " ++ name ++ B "    " ++ kind ++ B "    " ++ data ++ crlf ++ crlf.

Class Registry (M : Type) `{Shell M} := {
  reg : M → str → option (str * str);
  reg_added m m' name kind data : status (reg_add_cmd name kind data) m = (m', inl true) →
    ∀ n, reg m' n = if decide (n = name) then Some (kind, data) else reg m n;
  reg_deleted m m' name r : status (reg_delete_cmd name) m = (m', r) →
    ∀ n, reg m' n = if decide (n = name) then None else reg m n;
  reg_queried m m' name r : output (reg_query_cmd name) m = (m', r) →
    m' = m ∧ ∃ found, r = inl (found, match reg m name with Some (kind, data) => query_text name kind data | None => [] end);
}.

Lemma lines_cons l s : x0a ∉ l → s ≠ [] → lines (l ++ x0a :: s) = strip_cr l :: lines s.
Proof.
  intros Hl Hs. unfold lines. assert (split_char x0a (l ++ x0a :: s) = l :: split_char x0a s) as ->.
  { induction l as [|c l IH]; [cbn; by rewrite decide_True|]. apply not_elem_of_cons in Hl as [Hc Hl]. cbn [app split_char].
    rewrite decide_False by congruence. by rewrite IH. }
  pose proof (split_char_ne x0a s). by destruct (split_char x0a s).
Qed.

Lemma strip_cr_snoc l : strip_cr (l ++ [x0d]) = l.
Proof. unfold strip_cr. rewrite last_snoc, decide_True by done. rewrite length_app. cbn [length]. by rewrite Nat.add_sub, take_app_length. Qed.

Lemma lines_crlf l s : x0a ∉ l → s ≠ [] → lines (l ++ crlf ++ s) = l :: lines s.
Proof.
  intros Hl Hs. change (crlf ++ s) with ([x0d] ++ x0a :: s). rewrite (assoc_L (++)), lines_cons, strip_cr_snoc; [done| |done].
  rewrite elem_of_app, list_elem_of_singleton. by intros [?|?].
Qed.

Lemma visible_no_lf s : forallb visible s = true → x0a ∉ s.
Proof. intros Hs Hin. rewrite List.forallb_forall in Hs. by pose proof (Hs x0a (proj1 (list_elem_of_In _ _) Hin)). Qed.

Lemma visible_valid s : forallb visible s = true → forallb is_ascii s = true.
Proof.
  rewrite !List.forallb_forall. intros Hs c Hc. specialize (Hs c Hc).
  pose proof (byte_forall (λ d, negb (visible d) || is_ascii d) ltac:(by vm_compute) c) as Hb. cbn beta in Hb. by rewrite Hs in Hb.
Qed.

Lemma trim_start_visible s : forallb visible s = true → trim_start s = s.
Proof.
  intros Hs. unfold trim_start. apply strip_width_stop. destruct s as [|c s]; [done|]. cbn [forallb] in Hs. apply andb_prop in Hs as [Hc _]. by apply visible_width.
Qed.

Lemma trim_start_spaces s : trim_start (B "    " ++ s) = trim_start s.
Proof. done. Qed.

Definition value_name (name : str) : Prop := name = B "ProxyServer" ∨ name = B "ProxyOverride".

(** What [reg query] prints is read back. *)
Lemma parse_query_text name data :
  value_name name → forallb visible data = true → data ≠ [] → parse_reg_sz (query_text name (B "REG_SZ") data) name = Some data.
Proof.
  intros Hn Hv Hd. unfold parse_reg_sz, query_text.
  change (crlf ++ ?s) with ([] ++ crlf ++ s). rewrite lines_crlf; [|by apply not_elem_of_nil|done].
  set (key := B "HKEY_CURRENT_USER\Software\Microsoft\Windows\CurrentVersion\Internet Settings").
  cbn [app]. rewrite lines_crlf; [|by apply contains_false|done].
  set (line := B "    " ++ name ++ B "    " ++ B "REG_SZ" ++ B "    " ++ data).
  assert (B "    " ++ name ++ B "    " ++ B "REG_SZ" ++ B "    " ++ data ++ crlf ++ crlf = line ++ crlf ++ crlf) as -> by (unfold line; by rewrite <-!(assoc_L (++))).
  assert (x0a ∉ line) as Hlf.
  { unfold line. rewrite !elem_of_app. intros [H|[H|[H|[H|[H|H]]]]]; [|destruct Hn as [->| ->]| | | |by apply visible_no_lf in Hv];
      by apply contains_true in H. }
  rewrite lines_crlf by done. cbn [find_map].
  assert (reg_sz_of_line name [] = None ∧ reg_sz_of_line name key = None) as [-> ->].
  { destruct Hn as [->| ->]; by vm_compute. }
  assert (reg_sz_of_line name line = Some data) as ->; [|done].
  unfold reg_sz_of_line, line. rewrite trim_start_spaces.
  assert (∀ n s c, n = B c → forallb visible (B c) = true → B c ≠ [] → trim_start (n ++ s) = n ++ s) as Hts.
  { intros n s c -> Hc Hne. unfold trim_start. apply strip_width_stop. destruct (B c) as [|d l]; [done|]. cbn [forallb] in Hc.
    apply andb_prop in Hc as [Hc _]. by apply visible_width. }
  assert (trim_start (name ++ B "    " ++ B "REG_SZ" ++ B "    " ++ data) = name ++ B "    " ++ B "REG_SZ" ++ B "    " ++ data) as ->.
  { destruct Hn as [Hn|Hn]; by apply (Hts _ _ _ Hn). }
  rewrite strip_prefix_app. cbn [mbind option_bind]. rewrite trim_start_spaces, (Hts _ _ "REG_SZ"%string), strip_prefix_app by done. cbn [mbind option_bind].
  f_equal. change (trim (B "    " ++ data)) with (trim data). by apply trim_all_visible.
Qed.

Section windows.
Context `{Registry M}.

Definition windows_proxy (m : M) : Effective :=
  match reg m (B "AutoConfigURL") with
  | Some (_, url) => Auto (Some url)
  | None =>
      match reg m (B "ProxyEnable") with
      | Some (_, enabled) => if bool_decide (enabled = B "1") then Manual [(snd <$> reg m (B "ProxyServer"), None)] else Direct
      | None => Direct
      end
  end.

Lemma reg_add_inv name kind data m m' u :
  reg_add name kind data m = (m', Ok u) → ∀ n, reg m' n = if decide (n = name) then Some (kind, data) else reg m n.
Proof.
  unfold reg_add, run_required. destruct (status (reg_add_cmd name kind data) m) as [m1 [[]|e]] eqn:E; try done. intros [= <-]. by apply (reg_added m).
Qed.

Lemma reg_delete_inv name m m' r : reg_delete name m = (m', r) → r = Ok tt ∧ ∀ n, reg m' n = if decide (n = name) then None else reg m n.
Proof. unfold reg_delete. destruct (status (reg_delete_cmd name) m) as [m1 r1] eqn:E. intros [= <- <-]. split; [done|]. by eapply reg_deleted. Qed.

Lemma delete_if_inv name value m m' r : delete_if name value m = (m', r) →
  r = Ok tt ∧ (∀ n, n ≠ name → reg m' n = reg m n) ∧
  (value_name name → ∀ d, reg m name = Some (B "REG_SZ", d) → forallb visible d = true → d ≠ [] →
    reg m' name = if decide (d = value) then None else Some (B "REG_SZ", d)).
Proof.
  unfold delete_if, mbind, sh_bind, reg_query. destruct (output (reg_query_cmd name) m) as [m1 q] eqn:E.
  destruct (reg_queried m m1 name q E) as [-> [found ->]].
  set (v := parse_reg_sz _ name). intros Hr. assert (r = Ok tt ∧ ∀ n, reg m' n = if decide (n = name ∧ v = Some value) then None else reg m n) as [Hrr Hreg].
  { destruct (bool_decide (v = Some value)) eqn:Eb.
    - apply bool_decide_eq_true in Eb. apply reg_delete_inv in Hr as [-> Hr]. split; [done|]. intros n. rewrite Hr. by repeat case_decide; naive_solver.
    - apply bool_decide_eq_false in Eb. cbn in Hr. injection Hr as <- <-. split; [done|]. intros n. by rewrite decide_False by naive_solver. }
  split; [done|]. split.
  - intros n Hn. rewrite Hreg, decide_False; [done|by intros [? _]].
  - intros Hname d Hd Hv Hne. rewrite Hreg, Hd. assert (v = Some d) as Ev.
    { unfold v. rewrite Hd, from_utf8_lossy_valid; [by apply parse_query_text|]. apply utf8_valid_ascii. unfold query_text. rewrite !forallb_app.
      rewrite (visible_valid d) by done. destruct Hname as [->| ->]; by vm_compute. }
    rewrite Ev. by repeat case_decide; naive_solver.
Qed.

(** Whatever the registry had, once a mode is applied Windows uses no proxy, the PAC address, or the mixed address, and
    nothing of another mode takes precedence; disabling removes the server that the global mode wrote and leaves any
    other one. *)
Theorem windows_mode_applied mode url listen m m' :
  apply_windows mode url listen m = (m', Ok tt) →
  windows_proxy m' = (match mode with PDisable => Direct | PPac => Auto (Some url) | PGlobal => Manual [(Some listen, None)] end) ∧
  (mode = PDisable → ∀ d, reg m (B "ProxyServer") = Some (B "REG_SZ", d) → forallb visible d = true → d ≠ [] →
    reg m' (B "ProxyServer") = if decide (d = listen) then None else Some (B "REG_SZ", d)).
Proof.
  unfold windows_proxy. destruct mode; cbn [apply_windows]; unfold mbind, sh_bind.
  - destruct (reg_add (B "ProxyEnable") (B "REG_DWORD") (B "0") m) as [m1 [u|e]] eqn:E1; [|done].
    destruct (reg_delete (B "AutoConfigURL") m1) as [m2 r2] eqn:E2. apply reg_delete_inv in E2 as [-> H2].
    destruct (delete_if (B "ProxyServer") listen m2) as [m3 r3] eqn:E3. apply delete_if_inv in E3 as (-> & H3 & H3').
    intros E4. apply delete_if_inv in E4 as (_ & H4 & _). pose proof (reg_add_inv _ _ _ _ _ _ E1) as H1.
    split.
    + rewrite !H4, !H3, !H2, !H1 by done. by vm_compute.
    + intros _ d Hd Hv Hne. rewrite H4 by done. apply H3'; [by left| |done|done]. rewrite H2, H1. by vm_compute.
  - destruct (reg_add (B "ProxyEnable") (B "REG_DWORD") (B "0") m) as [m1 [u|e]] eqn:E1; [|done]. intros E2.
    pose proof (reg_add_inv _ _ _ _ _ _ E2) as H2. split; [|done]. rewrite !H2. by vm_compute.
  - destruct (reg_add (B "ProxyEnable") (B "REG_DWORD") (B "1") m) as [m1 [u|e]] eqn:E1; [|done].
    destruct (reg_add (B "ProxyServer") (B "REG_SZ") listen m1) as [m2 [u2|e]] eqn:E2; [|done].
    destruct (reg_add (B "ProxyOverride") (B "REG_SZ") windows_bypass m2) as [m3 [u3|e]] eqn:E3; [|done].
    intros E4. apply reg_delete_inv in E4 as [_ H4]. pose proof (reg_add_inv _ _ _ _ _ _ E1) as H1.
    pose proof (reg_add_inv _ _ _ _ _ _ E2) as H2. pose proof (reg_add_inv _ _ _ _ _ _ E3) as H3.
    split; [|done]. rewrite !H4, !H3, !H2, !H1. by vm_compute.
Qed.
End windows.

(** ** A desktop *)
Module ToyOs.
Record Toy := mkToy { keys : str * str → option str; values : str → option (str * str) }.
Definition put {K V} `{EqDecision K} (k : K) (v : V) (m : K → V) : K → V := λ k', if decide (k' = k) then v else m k'.

Definition toy_status (c : Cmd) (m : Toy) : Toy * (bool + SpawnError) :=
  let '(p, args) := c in
  if decide (p = B "gsettings") then
    match args with
    | [_; s; k; v] => (mkToy (put (s, k) (Some v) (keys m)) (values m), inl true)
    | _ => (m, inl false)
    end
  else if decide (p = B "reg") then
    match args with
    | [_; _; _; name; _; kind; _; data; _] => (mkToy (keys m) (put name (Some (kind, data)) (values m)), inl true)
    | [_; _; _; name; _] => (mkToy (keys m) (put name None (values m)), inl (bool_decide (is_Some (values m name))))
    | _ => (m, inl false)
    end
  else (m, inr NotFound).

Definition toy_output (c : Cmd) (m : Toy) : Toy * ((bool * str) + SpawnError) :=
  match c.2 with
  | [_; _; _; name] => (m, inl (true, match values m name with Some (kind, data) => query_text name kind data | None => [] end))
  | _ => (m, inl (false, []))
  end.

#[export] Instance shell : Shell Toy := {| status := toy_status; output := toy_output |}.

#[export] Program Instance gsettings : GSettings Toy := {| gs m key := keys m key |}.
Next Obligation. intros m m' s k v E key. cbn in E. injection E as <-. done. Qed.
Next Obligation. intros m args. cbn. by repeat case_match. Qed.

#[export] Program Instance registry : Registry Toy := {| reg m name := values m name |}.
Next Obligation. intros m m' name kind data E n. cbn in E. injection E as <-. done. Qed.
Next Obligation. intros m m' name r E n. cbn in E. injection E as <- <-. done. Qed.
Next Obligation. intros m m' name r E. cbn in E. injection E as <- <-. split; [done|]. by exists true. Qed.

Definition fresh : Toy := mkToy (λ _, None) (λ _, None).
End ToyOs.
#[local] Existing Instances ToyOs.shell ToyOs.gsettings ToyOs.registry.

Definition sample_writes : list (str * str * str) := default [] (gnome_writes PGlobal (B "http://p/pac") (B "127.0.0.1:1080")).

Lemma gnome_mode_applied_witness :
  ∃ m' : ToyOs.Toy, gnome_proxy m' = Some (Manual (replicate 3 (Some (B "127.0.0.1"), Some (B "1080")))).
Proof.
  exists (run_each gsettings false sample_writes ToyOs.fresh).1.
  eapply (gnome_mode_applied PGlobal (B "http://p/pac") (B "127.0.0.1:1080") (B "127.0.0.1") 1080 (run_each gsettings false sample_writes) ToyOs.fresh _ true).
  - by vm_compute.
  - unfold apply_linux_gnome. assert (gnome_writes PGlobal (B "http://p/pac") (B "127.0.0.1:1080") = Some sample_writes) as ->; [|reflexivity].
    vm_compute. reflexivity.
  - vm_compute. reflexivity.
Defined.

Definition global_then_disabled : ToyOs.Toy :=
  let m := (apply_windows PGlobal (B "http://127.0.0.1:1090/pac") (B "127.0.0.1:1080") ToyOs.fresh).1 in
  (apply_windows PDisable (B "http://127.0.0.1:1090/pac") (B "127.0.0.1:1080") m).1.

Lemma windows_mode_applied_witness :
  windows_proxy global_then_disabled = Direct ∧ reg global_then_disabled (B "ProxyServer") = None.
Proof.
  destruct (windows_mode_applied PDisable (B "http://127.0.0.1:1090/pac") (B "127.0.0.1:1080")
    (apply_windows PGlobal (B "http://127.0.0.1:1090/pac") (B "127.0.0.1:1080") ToyOs.fresh).1 global_then_disabled) as [H1 H2]; [by vm_compute|].
  split; [exact H1|]. etrans; [apply (H2 eq_refl (B "127.0.0.1:1080")); by vm_compute|by vm_compute].
Defined.

(** When the mixed address changes while another mode is on, disabling does not find the server that the global mode wrote. *)
Theorem windows_stale_server :
  let m1 := (apply_windows PGlobal (B "http://p/pac") (B "127.0.0.1:1080") ToyOs.fresh).1 in
  let m2 := (apply_windows PPac (B "http://p/pac") (B "127.0.0.1:2080") m1).1 in
  let m3 := (apply_windows PDisable (B "http://p/pac") (B "127.0.0.1:2080") m2).1 in
  reg m3 (B "ProxyServer") = Some (B "REG_SZ", B "127.0.0.1:1080").
Proof. by vm_compute. Qed.
