(* ===== verification/Qr.v ===== *)
(** * [gui/src/qr.rs]: the QR code of a share link

    The modules come from the library; a quiet zone is added around them. *)
From S2P Require Import Prelude Std.

Definition QUIET_ZONE : nat := 4.

Record QrMask := mkMask { width : nat; dark : list bool }.

(** The [qrcode] library: the width of a code and its dark modules by column and row. *)
Class QrLib := { qr_new : str → result (nat * (nat → nat → bool)) }.

Section mask.
Context `{QrLib}.

Definition paint_row (w y : nat) (code : nat → nat → bool) (modules : nat) (d : list bool) : list bool :=
  foldl (λ d x, <[((y + QUIET_ZONE) * w + x + QUIET_ZONE)%nat := code x y]> d) d (seq 0 modules).

Definition mask (link : str) : result QrMask :=
  '(modules, code) ← qr_new link;
  let w := (modules + 2 * QUIET_ZONE)%nat in
  Ok (mkMask w (foldl (λ d y, paint_row w y code modules d) (replicate (w * w) false) (seq 0 modules))).
End mask.

(** ** The picture *)
Lemma paint_row_length w y code modules d : length (paint_row w y code modules d) = length d.
Proof. unfold paint_row. revert d. induction (seq 0 modules) as [|x xs IH]; intros d; [done|]. cbn [foldl]. by rewrite IH, length_insert. Qed.

(** Writes of a list of indices: the last write to an index counts; here no index is written twice with different values. *)
Lemma paint_row_lookup w y code modules d i :
  (i < length d)%nat →
  paint_row w y code modules d !! i =
  if decide ((y + QUIET_ZONE) * w + QUIET_ZONE ≤ i < (y + QUIET_ZONE) * w + QUIET_ZONE + modules)%nat
  then Some (code (i - ((y + QUIET_ZONE) * w + QUIET_ZONE)) y) else d !! i.
Proof.
  intros Hi. unfold paint_row. induction modules as [|n IH].
  - cbn. by rewrite decide_False by lia.
  - rewrite seq_S, foldl_snoc. cbn [Nat.add]. set (d' := foldl _ d (seq 0 n)) in *.
    assert (length d' = length d) as Hd.
    { pose proof (paint_row_length w y code n d) as E. unfold paint_row in E. exact E. }
    destruct (decide (i = (y + QUIET_ZONE) * w + n + QUIET_ZONE)%nat) as [->|Hne].
    + rewrite list_lookup_insert_eq by lia. rewrite decide_True by lia. do 2 f_equal. lia.
    + rewrite list_lookup_insert_ne by done. rewrite IH. by repeat case_decide; try lia.
Qed.

(** The mask is a square with a border of four light modules; inside it the module at column [x] and row [y] is the one of
    the code. *)
Theorem mask_frames_code `{QrLib} link modules code :
  qr_new link = Ok (modules, code) →
  ∃ m, mask link = Ok m ∧ width m = (modules + 8)%nat ∧ length (dark m) = (width m * width m)%nat ∧
  ∀ x y, (x < width m)%nat → (y < width m)%nat →
    dark m !! (y * width m + x)%nat =
    Some (if decide (4 ≤ x < modules + 4 ∧ 4 ≤ y < modules + 4)%nat then code (x - 4)%nat (y - 4)%nat else false).
Proof.
  intros E. unfold mask. rewrite E. cbn [mbind result_bind]. eexists. split; [done|]. cbn [width dark].
  set (w := (modules + 2 * QUIET_ZONE)%nat). assert (w = modules + 8)%nat as Hw by (unfold w, QUIET_ZONE; lia). split; [done|].
  assert (∀ n, (n ≤ modules)%nat → let d := foldl (λ d y, paint_row w y code modules d) (replicate (w * w) false) (seq 0 n) in
    length d = (w * w)%nat ∧ ∀ x y, (x < w)%nat → (y < w)%nat →
      d !! (y * w + x)%nat = Some (if decide (4 ≤ x < modules + 4 ∧ 4 ≤ y < n + 4)%nat then code (x - 4)%nat (y - 4)%nat else false)) as Hgen.
  { induction n as [|n IH]; intros Hn.
    - cbn [seq foldl]. split; [apply length_replicate|]. intros x y Hx Hy. rewrite decide_False by lia. apply lookup_replicate_2. nia.
    - rewrite seq_S, foldl_snoc. cbn [Nat.add]. destruct (IH ltac:(lia)) as [Hl Hd]. split; [by rewrite paint_row_length|].
      intros x y Hx Hy. rewrite paint_row_lookup by (rewrite Hl; nia). rewrite Hd by done. unfold QUIET_ZONE.
      destruct (decide (y = n + 4)%nat) as [->|Hny].
      + destruct (decide (4 ≤ x < modules + 4)%nat).
        * rewrite !decide_True by lia. do 2 f_equal; lia.
        * rewrite !decide_False by lia. done.
      + rewrite (decide_False (P := (_ ≤ _ < _)%nat)) by nia.
        destruct (decide (4 ≤ x < modules + 4 ∧ 4 ≤ y < n + 4)%nat); [rewrite decide_True by lia|rewrite decide_False by lia]; done. }
  destruct (Hgen modules ltac:(lia)) as [Hl Hd]. split; [exact Hl|]. exact Hd.
Qed.

Lemma mask_frames_code_witness :
  ∃ m, mask (H := {| qr_new _ := Ok (2%nat, λ x y, (x =? y)%nat) |}) (B "juicity://") = Ok m ∧ dark m !! 44%nat = Some true ∧ dark m !! 45%nat = Some false.
Proof.
  destruct (mask_frames_code (H := {| qr_new _ := Ok (2%nat, λ x y, (x =? y)%nat) |}) (B "juicity://") 2 (λ x y, (x =? y)%nat)) as (m & E & Hw & _ & Hd); [done|].
  exists m. split; [exact E|]. rewrite Hw in Hd. split; [apply (Hd 4%nat 4%nat); lia|apply (Hd 5%nat 4%nat); lia].
Defined.
