(* ===== verification/Tray.v ===== *)
(** * [gui/src/desktop/tray/mod.rs]: the tray's state, menu ids and labels

    The menu itself is drawn by the desktop's libraries; what they give back is the id
    of an item. *)
From S2P Require Import Prelude Std Pac Storage.
#[local] Open Scope Z_scope.

Definition usize_max : Z := 2 ^ 64 - 1.

Record TrayModel := mkTray {
  t_connected : bool;
  t_active_name : str;
  t_proxy_mode : SystemProxyMode;
  t_pac_rule : PacRuleMode;
  t_nodes : list str;
  t_active : option nat;
}.

(** ** Translated labels, and one complete state *)
Record TrayLabels := mkLabels {
  status : str;
  proxy_status : str;
  l_connect : str;
  l_system_proxy : str;
  l_off : str;
  l_pac : str;
  l_global : str;
  l_bypass_china : str;
  l_gfw_list : str;
  l_update_rules : str;
  l_nodes : str;
  l_import_clipboard : str;
  l_open : str;
  l_edit_nodes : str;
  l_logs : str;
  l_settings : str;
  l_about : str;
  l_quit : str;
}.
Record TrayMenu := mkMenu { model : TrayModel; labels : TrayLabels }.

#[export] Instance TrayMenu_eq_dec : EqDecision TrayMenu.
Proof.
  assert (EqDecision TrayModel) by solve_decision. assert (EqDecision TrayLabels) by solve_decision. solve_decision.
Defined.

Inductive TrayEvent :=
  | ToggleWindow
  | ToggleConnection
  | SetProxyMode (mode : SystemProxyMode)
  | SetPacRule (rule : PacRuleMode)
  | UpdateRules
  | SelectNode (index : nat)
  | ImportClipboard
  | Open
  | ShowNodes
  | ShowLogs
  | ShowSettings
  | ShowAbout
  | TQuit.

Definition PROXY_MODES : list SystemProxyMode := [PDisable; PPac; PGlobal].
Definition PAC_RULES : list PacRuleMode := [BypassChina; ProxyGfw].

(** [Iterator::position]. *)
Fixpoint position {A} `{EqDecision A} (x : A) (l : list A) : option nat :=
  match l with [] => None | a :: l => if decide (a = x) then Some O else S <$> position x l end.

Definition proxy_index (mode : SystemProxyMode) : nat := default O (position mode PROXY_MODES).
Definition pac_index (rule : PacRuleMode) : nat := default O (position rule PAC_RULES).

Definition menu_id (e : TrayEvent) : str :=
  match e with
  | ToggleWindow => B "window"
  | ToggleConnection => B "connection"
  | SetProxyMode mode => B "proxy:" ++ show_dec (Z.of_nat (proxy_index mode))
  | SetPacRule rule => B "pac:" ++ show_dec (Z.of_nat (pac_index rule))
  | UpdateRules => B "rules"
  | SelectNode index => B "node:" ++ show_dec (Z.of_nat index)
  | ImportClipboard => B "import"
  | Open => B "open"
  | ShowNodes => B "nodes"
  | ShowLogs => B "logs"
  | ShowSettings => B "settings"
  | ShowAbout => B "about"
  | TQuit => B "quit"
  end.

Definition indexed (prefix id : str) : option nat := rest ← strip_prefix prefix id; Z.to_nat <$> parse_uint usize_max rest.

(** The ids that have no index. *)
Definition PLAIN : list (string * TrayEvent) :=
  [("window"%string, ToggleWindow); ("connection"%string, ToggleConnection); ("rules"%string, UpdateRules); ("import"%string, ImportClipboard);
   ("open"%string, Open); ("nodes"%string, ShowNodes); ("logs"%string, ShowLogs); ("settings"%string, ShowSettings); ("about"%string, ShowAbout);
   ("quit"%string, TQuit)].

Fixpoint plain_event (id : str) (l : list (string * TrayEvent)) : option TrayEvent :=
  match l with [] => None | (name, e) :: l => if decide (id = B name) then Some e else plain_event id l end.

Definition from_menu_id (id : str) : option TrayEvent :=
  match plain_event id PLAIN with
  | Some e => Some e
  | None =>
      match indexed (B "proxy:") id, indexed (B "pac:") id with
      | Some i, _ => SetProxyMode <$> PROXY_MODES !! i
      | None, Some i => SetPacRule <$> PAC_RULES !! i
      | None, None => SelectNode <$> indexed (B "node:") id
      end
  end.

Definition escape_mnemonic (label : str) (marker : byte) : str := concat ((λ c, if decide (c = marker) then [c; marker] else [c]) <$> label).

(** [TrayMenu::tooltip]. *)
Definition tooltip (m : TrayMenu) : str := status (labels m) ++ x0a :: proxy_status (labels m).

(** ** Ids and labels are read again *)
Lemma indexed_spec prefix i : Z.of_nat i <= usize_max → indexed prefix (prefix ++ show_dec (Z.of_nat i)) = Some i.
Proof.
  intros Hi. unfold indexed. rewrite strip_prefix_app. cbn [mbind option_bind]. rewrite parse_uint_show_dec by (unfold usize_max in *; lia).
  cbn. by rewrite Nat2Z.id.
Qed.

(** The id of every menu item is read as the event of the item. *)
Theorem menu_id_roundtrip e : match e with SelectNode index => Z.of_nat index <= usize_max | _ => True end → from_menu_id (menu_id e) = Some e.
Proof.
  destruct e as [| |mode|rule| |index| | | | | | |]; intros Hi; [done|done| | |done| |done..].
  - by destruct mode; vm_compute.
  - by destruct rule; vm_compute.
  - unfold from_menu_id, menu_id. pose proof (indexed_spec (B "node:") index Hi) as Hn. revert Hn. generalize (show_dec (Z.of_nat index)). intros s Hn.
    change (plain_event (B "node:" ++ s) PLAIN) with (@None TrayEvent). change (indexed (B "proxy:") (B "node:" ++ s)) with (@None nat).
    change (indexed (B "pac:") (B "node:" ++ s)) with (@None nat). by rewrite Hn.
Qed.

Lemma menu_id_roundtrip_witness : from_menu_id (B "node:12") = Some (SelectNode 12).
Proof. apply (menu_id_roundtrip (SelectNode 12)). done. Defined.

(** What a menu shows of a label: two markers are one character, a single one is the mark of the next character. *)
Fixpoint shown (marker : byte) (label : str) : str :=
  match label with
  | c :: rest =>
      if decide (c = marker) then match rest with d :: rest' => d :: shown marker rest' | [] => [] end else c :: shown marker rest
  | [] => []
  end.

Theorem escape_mnemonic_shown marker label : shown marker (escape_mnemonic label marker) = label.
Proof.
  unfold escape_mnemonic. induction label as [|c label IH]; [done|]. cbn [fmap list_fmap concat]. case_decide as E; cbn [app shown].
  - subst c. rewrite decide_True by done. by rewrite IH.
  - rewrite decide_False by done. by rewrite IH.
Qed.
