(* ===== verification/Desktop.v ===== *)
(** * [gui/src/desktop/]: starting at login, the application's icon, one instance

    The desktop files are written by [Autostart] and [Integration]; [SessionBus] narrows
    the list of D-Bus addresses and [SingleInstance] decides whether to run.  The file
    system is a map from normalized paths with a switch for each call that may fail. *)
From S2P Require Import Prelude Std Text Pac Storage Profile.
#[local] Open Scope Z_scope.

(** ** Paths of POSIX systems *)
Definition is_absolute (p : str) : bool := starts_with (B "/") p.

(** [Path::join]. *)
Definition join_path (dir name : str) : str :=
  if is_absolute name || is_empty dir then name else if bool_decide (last dir = Some x2f) then dir ++ name else dir ++ B "/" ++ name.

(** The components by which paths are compared: no empty ones, and a dot only at the front of a relative path. *)
Definition components (p : str) : bool * list str :=
  let parts := split_char x2f p in
  let keep := filter (λ c, c ≠ [] ∧ c ≠ B ".") in
  if is_absolute p then (true, keep parts)
  else (false, match parts with c :: rest => if decide (c = B ".") then c :: keep rest else keep parts | [] => [] end).

Abbreviation FileSystem := (gmap (bool * list str) str).

(** The calls that fail, and what a failed write leaves. *)
Class FsFaults := {
  remove_fails : str → option error;
  create_dir_fails : str → option error;
  write_fails : str → option (error * option str);
  rename_fails : str → option error;
}.

(** [None] is [NotFound]. *)
Definition remove_file `{FsFaults} (p : str) (d : FileSystem) : FileSystem * option (result unit) :=
  match d !! components p, remove_fails p with
  | None, _ => (d, None)
  | Some _, Some e => (d, Some (Err e))
  | Some _, None => (delete (components p) d, Some (Ok tt))
  end.
Definition create_dir_all `{FsFaults} (p : str) : result unit := match create_dir_fails p with Some e => Err e | None => Ok tt end.
Definition write_file `{FsFaults} (p content : str) (d : FileSystem) : FileSystem * result unit :=
  match write_fails p with
  | Some (e, written) => (match written with Some c => <[components p := c]> d | None => d end, Err e)
  | None => (<[components p := content]> d, Ok tt)
  end.
Definition rename `{FsFaults} (p q : str) (d : FileSystem) : FileSystem * result unit :=
  match rename_fails q, d !! components p with
  | Some e, _ => (d, Err e)
  | None, Some c => (<[components q := c]> (delete (components p) d), Ok tt)
  | None, None => (d, Err io_error)
  end.

Definition lf : str := [x0a].
Definition text_lines (ls : list str) : str := concat ((λ l, l ++ lf) <$> ls).

(** ** [autostart.rs] *)
Module Autostart.
Definition RUN_KEY : str := B "Software\Microsoft\Windows\CurrentVersion\Run".
Definition RUN_VALUE : str := B "juicity".
Definition LAUNCH_AGENT : str := B "io.juicity.gui.plist".
Definition ENTRY : str := B "io.juicity.gui.desktop".

Definition RESERVED : list byte :=
  [x20; x09; x0a; x22; x27; x5c; x3e; x3c; x7e; x7c; x26; x3b; x24; x2a; x3f; x23; x28; x29; x60].

Definition needs_backslash (c : byte) : bool := bool_decide (c ∈ [x22; x60; x24; x5c]).
Definition quote_char (c : byte) : str := if needs_backslash c then [x5c; c] else [c].
Definition quoted (arg : str) : str :=
  if existsb (λ c, bool_decide (c ∈ RESERVED)) arg then x22 :: concat (quote_char <$> arg) ++ [x22] else arg.

Definition escape_char (c : byte) : str :=
  if decide (c = x25) then B "%%" else if decide (c = x5c) then B "\\" else if decide (c = x0a) then B "\n"
  else if decide (c = x09) then B "\t" else if decide (c = x0d) then B "\r" else [c].
Definition exec_argument (arg : str) : str := concat (escape_char <$> quoted arg).

Definition desktop_entry (exe : str) : str :=
  text_lines [B "[Desktop Entry]"; B "Type=Application"; B "Name=Juicity GUI"; B "Comment=Juicity GUI Client"; B "Exec=" ++ exec_argument exe;
    B "Icon=io.juicity.gui"; B "Terminal=false"; B "Categories=Network;"; B "X-GNOME-Autostart-enabled=true"].

(** [str::replace] of one character. *)
Definition replace_char (c : byte) (by_ : str) (s : str) : str := concat ((λ d, if decide (d = c) then by_ else [d]) <$> s).
Definition xml_escape (s : str) : str := replace_char x3e (B "&gt;") (replace_char x3c (B "&lt;") (replace_char x26 (B "&amp;") s)).

Definition attr (name value : string) : str := B name ++ [x3d; x22] ++ B value ++ [x22].

Definition launch_agent (exe : str) : str :=
  text_lines [B "<?xml " ++ attr "version" "1.0" ++ B " " ++ attr "encoding" "UTF-8" ++ B "?>";
    B "<!DOCTYPE plist PUBLIC " ++ [x22] ++ B "-//Apple//DTD PLIST 1.0//EN" ++ [x22; x20; x22] ++ B "http://www.apple.com/DTDs/PropertyList-1.0.dtd" ++ [x22] ++ B ">";
    B "<plist " ++ attr "version" "1.0" ++ B ">"; B "<dict>";
    [x09] ++ B "<key>Label</key>"; [x09] ++ B "<string>io.juicity.gui</string>"; [x09] ++ B "<key>ProgramArguments</key>"; [x09] ++ B "<array>";
    [x09; x09] ++ B "<string>" ++ xml_escape exe ++ B "</string>"; [x09] ++ B "</array>"; [x09] ++ B "<key>RunAtLoad</key>"; [x09] ++ B "<true/>";
    B "</dict>"; B "</plist>"].

Definition run_command (exe : str) : str := [x22] ++ exe ++ [x22].

(** [XDG_CONFIG_HOME] when it is absolute, or below [HOME]. *)
Definition autostart_dir (xdg_config home : option str) : result str :=
  let config := match xdg_config with Some p => if is_absolute p then Some p else None | None => None end in
  match config, home with
  | Some c, _ => Ok (join_path c (B "autostart"))
  | None, Some h => Ok (join_path (join_path h (B ".config")) (B "autostart"))
  | None, None => Err (EMsg (B "neither XDG_CONFIG_HOME nor HOME is set"))
  end.

Section files.
Context `{FsFaults}.

(** Writing or removing one file of a directory. *)
Definition apply_file (name content : str) (dir : str) (enabled : bool) (d : FileSystem) : FileSystem * result unit :=
  let file := join_path dir name in
  if enabled then match create_dir_all dir with Err e => (d, Err e) | Ok _ => write_file file content d end
  else
    match remove_file file d with
    | (d, None) => (d, Ok tt)
    | (d, Some r) => (d, r)
    end.

Definition apply_in (dir : str) (enabled : bool) (exe : str) : FileSystem → FileSystem * result unit := apply_file ENTRY (desktop_entry exe) dir enabled.
Definition apply_launch_agent (dir : str) (enabled : bool) (exe : str) : FileSystem → FileSystem * result unit :=
  apply_file LAUNCH_AGENT (launch_agent exe) dir enabled.

Definition apply_with (xdg_config home : option str) (enabled : bool) (exe : str) (d : FileSystem) : FileSystem * result unit :=
  let legacy := (λ h, join_path h (B ".config/autostart")) <$> home in
  match autostart_dir xdg_config home with
  | Err e => (d, Err e)
  | Ok dir =>
      match apply_in dir enabled exe d with
      | (d, Err e) => (d, Err e)
      | (d, Ok _) =>
          match legacy with
          | Some legacy => if negb enabled && negb (bool_decide (components legacy = components dir)) then apply_in legacy false exe d else (d, Ok tt)
          | None => (d, Ok tt)
          end
      end
  end.

(** The values of the key [RUN_KEY]; [created] is the answer of [create], and [fails] what setting or removing answers. *)
Definition apply_windows (enabled : bool) (exe : result str) (created : result unit) (fails : option error) (values : gmap str str) : gmap str str * result unit :=
  match exe, created with
  | Err e, _ | Ok _, Err e => (values, Err e)
  | Ok exe, Ok _ =>
      if enabled then match fails with Some e => (values, Err e) | None => (<[RUN_VALUE := run_command exe]> values, Ok tt) end
      else
        match values !! RUN_VALUE, fails with
        | None, _ => (values, Ok tt)
        | Some _, Some e => (values, Err e)
        | Some _, None => (delete RUN_VALUE values, Ok tt)
        end
  end.

(** The systems with files; [exe] is [current_exe]. *)
Inductive System := Linux (xdg_config home : option str) | MacOs (home : option str) | OtherSystem.

Definition apply (sys : System) (enabled : bool) (exe : result str) (d : FileSystem) : FileSystem * result unit :=
  match sys with
  | Linux xdg home => apply_with xdg home enabled (match exe with Ok p => p | Err _ => B "juicity-gui" end) d
  | MacOs home =>
      match exe, home with
      | Err e, _ => (d, Err e)
      | Ok _, None => (d, Err (EMsg (B "HOME is not set")))
      | Ok exe, Some home => apply_launch_agent (join_path home (B "Library/LaunchAgents")) enabled exe d
      end
  | OtherSystem => (d, Ok tt)
  end.
End files.
End Autostart.

(** ** [integration.rs] *)
Module Integration.
Definition APP_ID : str := B "io.juicity.gui".
Definition SYSTEM_DIRS : list str := [B "/usr/share/applications"; B "/usr/local/share/applications"].

(** [XDG_DATA_HOME] when it is absolute, or below a [HOME] that is not empty. *)
Definition data_home (xdg_data home : option str) : result str :=
  let data := match xdg_data with Some p => if is_absolute p then Some p else None | None => None end in
  match data, home with
  | Some p, _ => Ok p
  | None, Some h => if is_empty h then Err (EMsg (B "neither XDG_DATA_HOME nor HOME is set")) else Ok (join_path h (B ".local/share"))
  | None, None => Err (EMsg (B "neither XDG_DATA_HOME nor HOME is set"))
  end.

(** Lines of the packaged file, its [Exec] line replaced. *)
Definition desktop_entry (template : str) (exe : str) : str :=
  let exec := B "Exec=" ++ Autostart.exec_argument exe in
  text_lines ((λ line, if starts_with (B "Exec=") line then exec else line) <$> lines template).

Section install.
Context `{FsFaults} (pid : Z) (template svg : str) (pngs : list (Z * str)).

(** The name of the file that is written first. *)
Definition tmp_name (name : str) : str := B "." ++ name ++ B ".tmp" ++ show_dec pid.

(** [dir] and [name] are the parent and the file name of the path. *)
Definition write_if_changed (dir name content : str) (d : FileSystem) : FileSystem * result bool :=
  let path := join_path dir name in
  if decide (d !! components path = Some content) then (d, Ok false)
  else
    match create_dir_all dir with
    | Err e => (d, Err e)
    | Ok _ =>
        let tmp := join_path dir (tmp_name name) in
        let '(d, r) := match write_file tmp content d with (d, Ok _) => rename tmp path d | (d, Err e) => (d, Err e) end in
        match r with
        | Ok _ => (d, Ok true)
        | Err e => ((remove_file tmp d).1, Err e)
        end
    end.

Definition desktop_name : str := APP_ID ++ B ".desktop".

(** Directory, name and content of everything that is installed. *)
Definition installed (data : str) (exe : str) : list (str * str * str) :=
  let icons := join_path data (B "icons/hicolor") in
  ((λ '(size, png), (join_path icons (show_dec size ++ B "x" ++ show_dec size ++ B "/apps"), APP_ID ++ B ".png", png)) <$> pngs) ++
  [(join_path icons (B "scalable/apps"), APP_ID ++ B ".svg", svg); (join_path data (B "applications"), desktop_name, desktop_entry template exe)].

Fixpoint write_all (files : list (str * str * str)) (wrote : bool) (d : FileSystem) : FileSystem * result bool :=
  match files with
  | [] => (d, Ok wrote)
  | (dir, name, content) :: files =>
      match write_if_changed dir name content d with
      | (d, Ok b) => write_all files (wrote || b) d
      | (d, Err e) => (d, Err e)
      end
  end.

Definition install_in (data : str) (system_dirs : list str) (exe : str) (d : FileSystem) : FileSystem * result bool :=
  if existsb (λ dir, bool_decide (is_Some (d !! components (join_path dir desktop_name)))) system_dirs then (d, Ok false)
  else write_all (installed data exe) false d.

(** [install_linux]. *)
Definition install_linux (xdg_data home : option str) (exe : result str) (d : FileSystem) : FileSystem * result unit :=
  match data_home xdg_data home, exe with
  | Err e, _ | Ok _, Err e => (d, Err e)
  | Ok data, Ok exe => match install_in data SYSTEM_DIRS exe d with (d, Ok _) => (d, Ok tt) | (d, Err e) => (d, Err e) end
  end.
End install.
End Integration.

(** ** [session_bus.rs] *)
Module SessionBus.
Definition unix_path (address : str) : option str :=
  rest ← strip_prefix (B "unix:") address;
  head (omap (strip_prefix (B "path=")) (split_char x2c rest)).

Definition qualifies (exists_ : str → bool) (entry : str) : bool := match unix_path entry with None => true | Some path => exists_ path end.

Definition first_usable (list : str) (exists_ : str → bool) : option str :=
  let entries := filter (λ e, is_empty e = false) (trim <$> split_char x3b list) in
  match filter (λ e, qualifies exists_ e = true) entries with
  | e :: _ => Some e
  | [] => head entries
  end.

(** The variable after [select], and the entry that was chosen. *)
Definition select (exists_ : str → bool) (var : option str) : option str * option str :=
  match current ← var; first_usable current exists_ with
  | Some chosen => if decide (var = Some chosen) then (var, None) else (Some chosen, Some chosen)
  | None => (var, None)
  end.
End SessionBus.

(** ** [single_instance.rs] *)
Module SingleInstance.
Definition NAME : str := B "io.juicity.gui".
Definition ACTIVATE_MESSAGE : str := B "activate".

Inductive Claim := Acquired | Taken | Unavailable.
Inductive Decision := Primary | ActivateExisting | Unguarded.
Definition decide_ (c : Claim) : Decision := match c with Acquired => Primary | Taken => ActivateExisting | Unavailable => Unguarded end.

(** [u8::is_ascii_whitespace], [trim_ascii]. *)
Definition is_ascii_ws (c : byte) : bool := bool_decide (c ∈ [x20; x09; x0a; x0c; x0d]).
Fixpoint trim_ascii_start (s : str) : str := match s with c :: r => if is_ascii_ws c then trim_ascii_start r else s | [] => [] end.
Definition trim_ascii (s : str) : str := rev (trim_ascii_start (rev (trim_ascii_start s))).
Definition is_activate (message : str) : bool := bool_decide (trim_ascii message = ACTIVATE_MESSAGE).

Record Activation := mkActivation { ready : bool; pending : bool }.
Definition Activation_default : Activation := mkActivation false false.
Definition request (a : Activation) : Activation * bool := (mkActivation (ready a) (if ready a then pending a else true), ready a).
Definition window_ready (a : Activation) : Activation * bool := (mkActivation true false, pending a).

(** What the bus answers to a request for the name. *)
Inductive NameReply := PrimaryOwner | AlreadyOwner | Exists_ | InQueue | NameTaken | OtherError (e : str).

(** [linux::claim]: the claim, and whether there is a connection. *)
Definition claim (bus : unit + str) (reply : NameReply) : (Claim + str) * bool :=
  match bus with
  | inr err => (inr (B "no D-Bus session bus: " ++ err), false)
  | inl _ =>
      (match reply with
       | PrimaryOwner | AlreadyOwner => inl Acquired
       | Exists_ | InQueue | NameTaken => inl Taken
       | OtherError err => inr (B "could not request " ++ NAME ++ B ": " ++ err)
       end, true)
  end.

(** [Primary] keeps the connection when there is one; [Secondary] has asked the other instance over it. *)
Inductive Startup := SPrimary (guarded : bool) | SSecondary (asked : bool).

Definition acquire (claimed : (Claim + str) * bool) : Startup :=
  let '(c, guard) := claimed in
  match decide_ (match c with inl c => c | inr _ => Unavailable end) with
  | ActivateExisting => SSecondary guard
  | Primary | Unguarded => SPrimary guard
  end.
End SingleInstance.

(** ** The [Exec] line is read again

    The reader follows the Desktop Entry Specification: the escapes of a string, the
    field codes, and the quoting of arguments. *)
Fixpoint unescape (s : str) : option str :=
  match s with
  | [] => Some []
  | c :: r =>
      if decide (c = x5c) then
        match r with
        | d :: r =>
            e ← (if decide (d = x73) then Some x20 else if decide (d = x6e) then Some x0a else if decide (d = x74) then Some x09
                 else if decide (d = x72) then Some x0d else if decide (d = x5c) then Some x5c else None);
            cons e <$> unescape r
        | [] => None
        end
      else cons c <$> unescape r
  end.

(** Only the code for a percent sign. *)
Fixpoint field_codes (s : str) : option str :=
  match s with
  | [] => Some []
  | c :: r =>
      if decide (c = x25) then match r with d :: r => if decide (d = x25) then cons x25 <$> field_codes r else None | [] => None end
      else cons c <$> field_codes r
  end.

(** The rest of a quoted argument, and what follows it. *)
Fixpoint quoted_rest (s : str) : option (str * str) :=
  match s with
  | [] => None
  | c :: r =>
      if decide (c = x22) then Some ([], r)
      else if decide (c = x5c) then
        match r with d :: r => if Autostart.needs_backslash d then '(a, rest) ← quoted_rest r; Some (d :: a, rest) else None | [] => None end
      else if Autostart.needs_backslash c then None else '(a, rest) ← quoted_rest r; Some (c :: a, rest)
  end.

(** An argument without quotes. *)
Fixpoint bare (s : str) : option (str * str) :=
  match s with
  | [] => Some ([], [])
  | c :: r => if decide (c = x20) then Some ([], s) else if bool_decide (c ∈ Autostart.RESERVED) then None else '(a, rest) ← bare r; Some (c :: a, rest)
  end.

Fixpoint arguments (fuel : nat) (s : str) : option (list str) :=
  match fuel with
  | O => None
  | S fuel =>
      match s with
      | [] => Some []
      | c :: r =>
          if decide (c = x20) then arguments fuel r
          else '(a, rest) ← (if decide (c = x22) then quoted_rest r else bare s); cons a <$> arguments fuel rest
      end
  end.

Definition exec_line (s : str) : option (list str) := s ← unescape s; s ← field_codes s; arguments (S (length s)) s.

Module ExecProofs.
Import Autostart.

Definition doubled (s : str) : str := concat ((λ c, if decide (c = x25) then [x25; x25] else [c]) <$> s).

Lemma unescape_escaped s : unescape (concat (escape_char <$> s)) = Some (doubled s).
Proof.
  induction s as [|c s IH]; [done|]. unfold doubled. cbn [fmap list_fmap concat]. fold (doubled s). unfold escape_char at 1.
  repeat (destruct (decide (c = _)); [subst c; cbn; rewrite IH; repeat case_decide; done|]).
  cbn [app unescape]. rewrite (decide_False (P := c = x5c)) by done. by rewrite IH.
Qed.

Lemma field_codes_doubled s : field_codes (doubled s) = Some s.
Proof.
  induction s as [|c s IH]; [done|]. unfold doubled. cbn [fmap list_fmap concat]. fold (doubled s). case_decide as E; cbn [app field_codes].
  - subst c. cbn. by rewrite IH.
  - rewrite (decide_False (P := c = x25)) by done. by rewrite IH.
Qed.

Lemma quoted_rest_spec s r : quoted_rest (concat (quote_char <$> s) ++ x22 :: r) = Some (s, r).
Proof.
  induction s as [|c s IH]; [done|]. cbn [fmap list_fmap concat]. unfold quote_char at 1. destruct (needs_backslash c) eqn:E; cbn [app quoted_rest].
  - rewrite (decide_False (P := x5c = x22)), (decide_True (P := x5c = x5c)), E by done. rewrite IH. done.
  - assert (c ≠ x22 ∧ c ≠ x5c) as [H1 H2] by (split; intros ->; by vm_compute in E).
    rewrite (decide_False (P := c = x22)), (decide_False (P := c = x5c)), E by done. rewrite IH. done.
Qed.

Lemma bare_spec s : existsb (λ c, bool_decide (c ∈ RESERVED)) s = false → bare s = Some (s, []).
Proof.
  induction s as [|c s IH]; [done|]. cbn [existsb bare]. intros [Hc Hs]%orb_false_iff. rewrite Hc.
  rewrite decide_False by (intros ->; by vm_compute in Hc). by rewrite IH.
Qed.
End ExecProofs.

(** The path of the program in an autostart entry is read as one argument, which is the path, whatever characters it
    has. *)
Theorem exec_argument_roundtrip arg : arg ≠ [] → exec_line (Autostart.exec_argument arg) = Some [arg].
Proof.
  intros Hn. unfold exec_line, Autostart.exec_argument. rewrite ExecProofs.unescape_escaped. cbn [mbind option_bind].
  rewrite ExecProofs.field_codes_doubled. cbn [mbind option_bind]. unfold Autostart.quoted. destruct (existsb _ arg) eqn:E.
  - cbn [arguments]. rewrite (decide_False (P := x22 = x20)), (decide_True (P := x22 = x22)) by done.
    rewrite ExecProofs.quoted_rest_spec. done.
  - destruct arg as [|c s]; [done|]. pose proof (ExecProofs.bare_spec _ E) as Hb. cbn [existsb] in E. apply orb_false_iff in E as [Hc _]. cbn [arguments].
    rewrite (decide_False (P := c = x20)), (decide_False (P := c = x22)) by (intros ->; by vm_compute in Hc). rewrite Hb. done.
Qed.

Lemma exec_argument_roundtrip_witness : exec_line (Autostart.exec_argument (B "/opt/My Apps/100%/$x\y")) = Some [B "/opt/My Apps/100%/$x\y"].
Proof. by apply exec_argument_roundtrip. Defined.

(** ** The entry is there or gone *)
Section entries.
Context `{FsFaults}.

Definition only_at (ks : list (bool * list str)) (d d' : FileSystem) : Prop := ∀ k, k ∉ ks → d' !! k = d !! k.

Lemma apply_file_ok name content dir enabled d d' : Autostart.apply_file name content dir enabled d = (d', Ok tt) →
  d' !! components (join_path dir name) = (if enabled then Some content else None) ∧ only_at [components (join_path dir name)] d d'.
Proof.
  unfold Autostart.apply_file, write_file, remove_file. set (p := components _). destruct enabled.
  - destruct (create_dir_all dir) as [[]|]; [|done]. destruct (Desktop.write_fails _) as [[]|]; [done|]. intros [= <-].
    split; [by rewrite lookup_insert_eq|]. intros k [Hk _]%not_elem_of_cons. by rewrite lookup_insert_ne.
  - destruct (d !! p) eqn:Ep; [destruct (remove_fails _)|]; intros [= <-]; [|done].
    split; [by rewrite lookup_delete_eq|]. intros k [Hk _]%not_elem_of_cons. by rewrite lookup_delete_ne.
Qed.

(** Starting at login on Linux: when a call succeeds, the entry is in the directory for the session with the path of the
    program, or it is gone from there and from the directory below the home; no other file is touched. *)
Theorem autostart_entry xdg home enabled exe d d' :
  Autostart.apply_with xdg home enabled exe d = (d', Ok tt) →
  ∃ dir, Autostart.autostart_dir xdg home = Ok dir ∧
    let at_ dir := components (join_path dir Autostart.ENTRY) in
    let legacy := (λ h, join_path h (B ".config/autostart")) <$> home in
    d' !! at_ dir = (if enabled then Some (Autostart.desktop_entry exe) else None) ∧
    (enabled = false → ∀ l, legacy = Some l → components l ≠ components dir → d' !! at_ l = None) ∧
    only_at (at_ dir :: match legacy with Some l => if enabled then [] else [at_ l] | None => [] end) d d'.
Proof.
  unfold Autostart.apply_with. destruct (Autostart.autostart_dir xdg home) as [dir|e]; [|done]. intros E. exists dir. split; [done|]. cbv zeta. revert E.
  set (legacy := _ <$> home). destruct (Autostart.apply_in dir enabled exe d) as [d1 [[]|e]] eqn:E1; [|done].
  apply apply_file_ok in E1 as [Hin Hout]. destruct legacy as [l|].
  - destruct enabled; cbn [negb andb]; [intros [= <-]; by split_and!|]. case_bool_decide as Hc; cbn [negb].
    + intros [= <-]. split_and!; [done|congruence|]. intros k [Hk _]%not_elem_of_cons. apply Hout. by apply not_elem_of_cons; split; [|apply not_elem_of_nil].
    + unfold Autostart.apply_in. intros [Hin2 Hout2]%apply_file_ok. split_and!.
      * destruct (decide (components (join_path dir Autostart.ENTRY) = components (join_path l Autostart.ENTRY))) as [Heq|Hne]; [by rewrite Heq|].
        rewrite Hout2; [done|]. by apply not_elem_of_cons; split; [|apply not_elem_of_nil].
      * intros _ l' [= <-] _. done.
      * intros k [Hk1 Hk2]%not_elem_of_cons. rewrite Hout2, Hout; [done| |done]. by apply not_elem_of_cons; split; [|apply not_elem_of_nil].
  - destruct enabled; intros [= <-]; by split_and!.
Qed.

(** The value of the registry is there or gone, and no other value is touched. *)
Lemma apply_windows_ok enabled exe created fails values values' :
  Autostart.apply_windows enabled exe created fails values = (values', Ok tt) →
  values' !! Autostart.RUN_VALUE = (if enabled then match exe with Ok p => Some (Autostart.run_command p) | Err _ => None end else None) ∧
  ∀ k, k ≠ Autostart.RUN_VALUE → values' !! k = values !! k.
Proof.
  unfold Autostart.apply_windows. destruct exe as [p|], created, enabled; try done.
  - destruct fails; [done|]. intros [= <-]. split; [by rewrite lookup_insert_eq|]. intros k Hk. by rewrite lookup_insert_ne.
  - destruct (values !! Autostart.RUN_VALUE) eqn:E; [destruct fails; [done|]|]; intros [= <-]; [|done].
    split; [by rewrite lookup_delete_eq|]. intros k Hk. by rewrite lookup_delete_ne.
Qed.

(** ** Installing *)
Section install.
Context (pid : Z).
Abbreviation write_if_changed := (Integration.write_if_changed pid).
Abbreviation write_all := (Integration.write_all pid).

Definition dest (f : str * str * str) : bool * list str := components (join_path f.1.1 f.1.2).
Definition temp (f : str * str * str) : bool * list str := components (join_path f.1.1 (Integration.tmp_name pid f.1.2)).

Lemma write_if_changed_spec dir name content d : let f := (dir, name, content) in
  temp f ≠ dest f →
  match write_if_changed dir name content d with
  | (d', Ok b) => d' !! dest f = Some content ∧ only_at [dest f; temp f] d d' ∧ (b = false ↔ d !! dest f = Some content) ∧ (b = false → d' = d)
  | (d', Err _) => d' !! dest f = d !! dest f ∧ only_at [temp f] d d' ∧ ((∀ p, remove_fails p = None) → create_dir_fails dir = None → d' !! temp f = None)
  end.
Proof.
  cbv zeta. unfold Integration.write_if_changed, dest, temp. cbn [fst snd]. set (p := components (join_path dir name)).
  set (t := components (join_path dir (Integration.tmp_name pid name))). intros Hne. case_decide as Hd.
  - by split_and!.
  - unfold create_dir_all. destruct (create_dir_fails dir) as [e|] eqn:Ec; [by split_and!|].
    assert (∀ d1 : FileSystem, d1 !! p = d !! p → only_at [t] d d1 →
      let d' := (remove_file (join_path dir (Integration.tmp_name pid name)) d1).1 in
      d' !! p = d !! p ∧ only_at [t] d d' ∧ ((∀ p, remove_fails p = None) → @None error = None → d' !! t = None)) as Hfail.
    { intros d1 Hp Ho. unfold remove_file. fold t. destruct (d1 !! t) as [c|] eqn:Et; [|by split_and!].
      destruct (remove_fails _) eqn:Er; cbn; [split_and!; try done; intros Hr; by rewrite Hr in Er|].
      split_and!; [by rewrite lookup_delete_ne| |by rewrite lookup_delete_eq]. intros k Hk. rewrite lookup_delete_ne; [by apply Ho|].
      intros ->. apply Hk. by left. }
    assert (∀ c : str, only_at [t] d (<[t := c]> d)) as Hot.
    { intros c k Hk. apply lookup_insert_ne. intros ->. apply Hk. by left. }
    unfold write_file. fold t. destruct (Desktop.write_fails _) as [[e left_]|].
    + apply Hfail; destruct left_; try done; by rewrite lookup_insert_ne.
    + unfold rename. fold p t. destruct (rename_fails _) as [e|]; [apply Hfail; [by rewrite lookup_insert_ne|apply Hot]|].
      rewrite lookup_insert_eq. split_and!; [by rewrite lookup_insert_eq| |split; [done|congruence]|done].
      intros k [Hk1 [Hk2 _]%not_elem_of_cons]%not_elem_of_cons. by rewrite lookup_insert_ne, lookup_delete_ne, lookup_insert_ne.
Qed.

Definition apart (files : list (str * str * str)) : Prop :=
  (∀ f g, f ∈ files → g ∈ files → dest f = dest g → f = g) ∧ (∀ f g, f ∈ files → g ∈ files → temp f ≠ dest g).

Lemma apart_check files : bool_decide (Forall (λ f, Forall (λ g, (dest f = dest g → f = g) ∧ temp f ≠ dest g) files) files) = true → apart files.
Proof.
  intros Hc%bool_decide_eq_true. split; intros f g Hf Hg; rewrite Forall_forall in Hc; specialize (Hc f Hf); rewrite Forall_forall in Hc; by apply Hc.
Qed.

(** Every file is as it was or as it is to be. *)
Definition old_or_new (files : list (str * str * str)) (d d' : FileSystem) : Prop :=
  ∀ f, f ∈ files → d' !! dest f = d !! dest f ∨ d' !! dest f = Some f.2.

Lemma write_all_present files d b : (∀ f, f ∈ files → d !! dest f = Some f.2) → write_all files b d = (d, Ok b).
Proof.
  revert b. induction files as [|[[dir name] content] files IH]; intros b Hf; [done|]. cbn [Integration.write_all]. unfold Integration.write_if_changed at 1.
  rewrite decide_True by (apply (Hf (dir, name, content)); left). rewrite IH by (intros f Hin; apply Hf; by right). by rewrite orb_false_r.
Qed.

Lemma write_all_spec files all b d : apart all → (∀ f, f ∈ files → f ∈ all) →
  let '(d', r) := write_all files b d in
  only_at ((dest <$> all) ++ (temp <$> all)) d d' ∧ old_or_new all d d' ∧
  match r with Ok w => (∀ f, f ∈ files → d' !! dest f = Some f.2) ∧ (w = false → d' = d ∧ b = false) | Err _ => True end.
Proof.
  intros [Hd Ht]. revert b d. induction files as [|[[dir name] content] files IH]; intros b d Hin; cbn [Integration.write_all].
  { split_and!; [done|intros f _; by left|intros f []%not_elem_of_nil|done]. }
  pose proof (Hin (dir, name, content) ltac:(left)) as Hf. pose proof (write_if_changed_spec dir name content d (Ht _ _ Hf Hf)) as Hs.
  set (f := (dir, name, content)) in *. destruct (write_if_changed dir name content d) as [d1 [w|e]].
  - destruct Hs as (H1 & H2 & H3 & H4). specialize (IH (b || w) d1 (λ g Hg, Hin g (list_elem_of_further _ _ _ Hg))).
    assert (∀ k, k ∉ (dest <$> all) ++ (temp <$> all) → d1 !! k = d !! k) as Ho.
    { intros k Hk. apply H2. intros [->|[->|[]%not_elem_of_nil]%elem_of_cons]%elem_of_cons; apply Hk, elem_of_app; [left|right]; by apply list_elem_of_fmap_2. }
    assert (∀ g, g ∈ all → d1 !! dest g = d !! dest g ∨ d1 !! dest g = Some g.2) as Hg.
    { intros g Hg. destruct (decide (dest g = dest f)) as [E|E]; [right; apply Hd in E as ->; done|left]. apply H2.
      intros [?|[?|[]%not_elem_of_nil]%elem_of_cons]%elem_of_cons; [done|]. by eapply (Ht f g). }
    destruct (write_all files (b || w) d1) as [d2 r]. destruct IH as (I1 & I2 & I3). split_and!.
    + intros k Hk. by rewrite I1, Ho.
    + intros g Hga. destruct (I2 g Hga) as [->|]; [by apply Hg|by right].
    + destruct r as [w'|]; [|done]. destruct I3 as [I3 I4]. split.
      * intros g [->|Hgf]%elem_of_cons; [|by apply I3]. destruct (I2 f Hf) as [->|]; done.
      * intros Hw. apply I4 in Hw as [-> [-> Hw]%orb_false_iff]. split; [by apply H4|done].
  - destruct Hs as (H1 & H2 & _). assert (∀ g, g ∈ all → d1 !! dest g = d !! dest g) as Hg.
    { intros g Hg. apply H2. intros [?|[]%not_elem_of_nil]%elem_of_cons. by eapply (Ht f g). }
    split_and!; [|intros g Hga; left; by apply Hg|done]. intros k Hk. apply H2. intros [->|[]%not_elem_of_nil]%elem_of_cons. apply Hk, elem_of_app. right. by apply list_elem_of_fmap_2.
Qed.

(** Installing the application's icon and desktop file: no file but those and their temporary names is touched; every one
    is as before or complete, also when a call fails; when the operation succeeds all of them are there (or a package has
    installed the application), and doing it again writes nothing. *)
Theorem install_idempotent template svg pngs data dirs exe d (files := Integration.installed template svg pngs data exe) : apart files →
  ∀ d' r, Integration.install_in pid template svg pngs data dirs exe d = (d', r) →
  only_at ((dest <$> files) ++ (temp <$> files)) d d' ∧ old_or_new files d d' ∧
  ∀ wrote, r = Ok wrote →
    Integration.install_in pid template svg pngs data dirs exe d' = (d', Ok false) ∧ (wrote = false → d' = d) ∧
    ((∀ f, f ∈ files → d' !! dest f = Some f.2) ∨
     ∃ dir, dir ∈ dirs ∧ is_Some (d !! components (join_path dir Integration.desktop_name))).
Proof.
  intros Ha d' r. unfold Integration.install_in at 1. fold files. destruct (existsb _ dirs) eqn:Ed.
  - intros [= <- <-]. split_and!; [done|intros f _; by left|]. intros w <-%Ok_inj. unfold Integration.install_in. rewrite Ed. split_and!; [done..|right].
    apply existsb_exists in Ed as (dir & Hdir & ?%bool_decide_eq_true). exists dir. split; [by apply list_elem_of_In|done].
  - pose proof (write_all_spec files files false d Ha (λ f Hf, Hf)) as Hs. intros E. rewrite E in Hs. destruct Hs as (H1 & H2 & H3).
    split_and!; [done..|]. intros w ->. destruct H3 as [H3 H4]. split_and!; [|by intros [-> _]%H4|by left].
    unfold Integration.install_in. fold files. case_match; [done|]. by apply write_all_present.
Qed.
End install.
End entries.

(** No call fails. *)
Definition sound_disk : FsFaults := {| remove_fails _ := None; create_dir_fails _ := None; write_fails _ := None; rename_fails _ := None |}.

Lemma autostart_entry_witness (H := sound_disk) (d : FileSystem := {[ components (B "/home/a/.config/autostart/io.juicity.gui.desktop") := B "old" ]}) :
  ∃ (d' : FileSystem) dir, Autostart.autostart_dir (Some (B "/home/a/cfg/")) (Some (B "/home/a")) = Ok dir ∧
    d' !! components (join_path dir Autostart.ENTRY) = None ∧ d' !! components (B "/home/a/.config/autostart/io.juicity.gui.desktop") = None.
Proof.
  set (r := Autostart.apply_with (Some (B "/home/a/cfg/")) (Some (B "/home/a")) false (B "/usr/bin/juicity-gui") d).
  assert (r.2 = Ok tt) as E2 by (by vm_compute).
  destruct (autostart_entry (Some (B "/home/a/cfg/")) (Some (B "/home/a")) false (B "/usr/bin/juicity-gui") d r.1) as (dir & E & H1 & H2 & _).
  { rewrite <-E2. apply surjective_pairing. }
  exists r.1, dir. split_and!; [done..|]. injection E as <-. apply (H2 eq_refl _ eq_refl). intros Hc. by vm_compute in Hc.
Defined.

Lemma install_idempotent_witness (H := sound_disk) :
  let install := Integration.install_in 77 (B "[Desktop Entry]") (B "<svg/>") [(16, B "p16"); (32, B "p32")] (B "/home/a/.local/share") Integration.SYSTEM_DIRS (B "/usr/bin/juicity-gui") in
  ∃ d', install ∅ = (d', Ok true) ∧ install d' = (d', Ok false).
Proof.
  intros install. exists (install ∅).1. assert ((install ∅).2 = Ok true) as E by (by vm_compute). split; [by rewrite <-E, <-surjective_pairing|].
  assert (apart 77 (Integration.installed (B "[Desktop Entry]") (B "<svg/>") [(16, B "p16"); (32, B "p32")] (B "/home/a/.local/share") (B "/usr/bin/juicity-gui"))) as Ha
    by (apply apart_check; by vm_compute).
  destruct (install_idempotent 77 (B "[Desktop Entry]") (B "<svg/>") [(16, B "p16"); (32, B "p32")] (B "/home/a/.local/share") Integration.SYSTEM_DIRS (B "/usr/bin/juicity-gui")
    ∅ Ha (install ∅).1 (install ∅).2 (surjective_pairing (install ∅))) as (_ & _ & Hk).
  exact (proj1 (Hk true E)).
Defined.

(** ** A request to show the window *)
Section activation.
Import SingleInstance.

Inductive Event := Request | WindowReady.
#[export] Instance Event_eq_dec : EqDecision Event.
Proof. solve_decision. Defined.
Definition react (a : Activation) (e : Event) : Activation * bool := match e with Request => request a | WindowReady => window_ready a end.

(** Whether the window is shown at each event. *)
Fixpoint shows (a : Activation) (es : list Event) : Activation * list bool :=
  match es with
  | [] => (a, [])
  | e :: es => let '(a, b) := react a e in let '(a, bs) := shows a es in (a, b :: bs)
  end.

Lemma shows_ready a es : ready (shows a es).1 = ready a || bool_decide (WindowReady ∈ es).
Proof.
  revert a. induction es as [|e es IH]; intros a; cbn [shows]; [by rewrite orb_false_r|]. destruct (react a e) as [a' b] eqn:E. specialize (IH a').
  destruct (shows a' es) as [a'' bs]. cbn [fst] in *. rewrite IH. destruct e; injection E as <- <-; cbn [ready].
  - f_equal. apply bool_decide_ext. by rewrite elem_of_cons; naive_solver.
  - rewrite (bool_decide_true (WindowReady ∈ WindowReady :: es)) by left. by rewrite orb_true_r.
Qed.

Lemma pending_shown a es : pending a = true → WindowReady ∈ es → true ∈ (shows a es).2.
Proof.
  revert a. induction es as [|e es IH]; intros a Hp; [by intros ?%not_elem_of_nil|]. cbn [shows]. destruct (react a e) as [a' b] eqn:E.
  intros Hin. specialize (IH a'). destruct (shows a' es) as [a'' bs]. cbn [snd] in *. destruct e; injection E as <- <-.
  - right. apply IH; [cbn; by destruct (ready a)|]. by apply elem_of_cons in Hin as [|].
  - rewrite Hp. left.
Qed.

Lemma not_ready_silent a es : ready a = false → WindowReady ∉ es → true ∉ (shows a es).2.
Proof.
  revert a. induction es as [|e es IH]; intros a Hr Hw; cbn [shows]; [by intros ?%not_elem_of_nil|]. apply not_elem_of_cons in Hw as [Hne Hw].
  destruct e; [|done]. cbn [react]. unfold request. specialize (IH (mkActivation (ready a) (if ready a then pending a else true)) Hr Hw).
  destruct (shows _ es) as [a'' bs]. cbn [snd] in *. rewrite Hr. by intros [|]%elem_of_cons.
Qed.

Lemma silent_without_request a es : pending a = false → Request ∉ es → true ∉ (shows a es).2.
Proof.
  revert a. induction es as [|e es IH]; intros a Hp Hr; cbn [shows]; [by intros ?%not_elem_of_nil|]. destruct (react a e) as [a' b] eqn:E.
  apply not_elem_of_cons in Hr as [Hne Hr]. specialize (IH a'). destruct (shows a' es) as [a'' bs]. cbn [snd] in *. destruct e; [done|].
  injection E as <- <-. rewrite Hp. intros [|]%elem_of_cons; [done|]. by apply IH.
Qed.

(** No request to show the window is lost, and none is made up: when a request arrives, the window is shown then or later
    exactly if it exists already or is made later; without a request it is not shown. *)
Theorem activation_served before after : let '(a, _) := shows Activation_default before in
  (true ∈ (shows a (Request :: after)).2 ↔ WindowReady ∈ before ++ after) ∧
  (Request ∉ before ++ after → true ∉ (shows Activation_default (before ++ after)).2).
Proof.
  pose proof (shows_ready Activation_default before) as Hr. destruct (shows Activation_default before) as [a bs] eqn:Ea. cbn [fst Activation_default ready orb] in Hr.
  split; [|by apply silent_without_request]. cbn [shows react]. unfold request. destruct (shows _ after) as [a' bs'] eqn:Es. cbn [snd].
  change bs' with (a', bs').2. rewrite <-Es, elem_of_app. clear Es a' bs'. rewrite Hr. case_bool_decide as Hb.
  - split; intros _; [by left|left].
  - split.
    + intros [|Hs]%elem_of_cons; [done|]. right. apply dec_stable. intros Hn. by eapply not_ready_silent, Hs.
    + intros [|Ha]; [done|]. right. by apply pending_shown.
Qed.
End activation.
