(* ===== verification/Controller.v ===== *)
(** * [gui/src/ui/controller/mod.rs], [overview.rs] and [tray.rs]: the controller

    The state of the graphical client with what a call changed for the interface, and
    the operations of the overview page and of the tray.  What leaves the process is
    behind the interface [Effects]; files and sockets are behind [Files]. *)
From S2P Require Import Prelude Std Net Text Link Traffic Logs Qr Pac Storage Persist Nodes ShareLink SystemProxy Profile Tray.
#[local] Open Scope Z_scope.

(** ** Side effects *)

(** The trait [Effects]; [S] is everything outside the controller. *)
Class Effects (S : Type) := {
  start_core : AppConfig → ProxyProfile → S → S * result unit;
  stop_core : S → S;
  poll_core_effect : S → S * option str;
  apply_proxy : AppConfig → S → S * result unit;
  copy_text : str → S → S * result unit;
  paste_text : S → S * result str;
  apply_autostart : bool → S → S * result unit;
  install_icon : S → S * result unit;
  core_traffic : S → S * option (Z * Z);
}.

(** Files, sockets and the clock: which call of a write fails, the rule lists with their times, and the addresses that can
    be bound. *)
Class Files (S : Type) := {
  file_fault : S → ConfigFile → option Fault;
  read_rules : S → str → option str;
  rule_mtime : S → str → option Z;
  can_bind : S → str → bool;
}.

(** The directory of the settings, and the hash of a file. *)
Class Place := { config_dir : str; content_hash : str → Z }.

(** What the interface promises: a core runs exactly from a successful start to a stop, a failed start, or a reported end.
    [others] is what happens outside between two calls. *)
Class EffectsLaws (S : Type) `{Effects S} := {
  core_runs : S → option ProxyProfile;
  others : S → S → Prop;
  others_runs s s' : others s s' → core_runs s' = core_runs s;
  start_core_runs c p s : let '(s', r) := start_core c p s in core_runs s' = if is_ok r then Some p else None;
  stop_core_runs s : core_runs (stop_core s) = None;
  poll_core_runs s : let '(s', r) := poll_core_effect s in core_runs s' = match r with Some _ => None | None => core_runs s end;
  apply_proxy_runs c s : core_runs (apply_proxy c s).1 = core_runs s;
  copy_text_runs t s : core_runs (copy_text t s).1 = core_runs s;
  paste_text_runs s : core_runs (paste_text s).1 = core_runs s;
  apply_autostart_runs b s : core_runs (apply_autostart b s).1 = core_runs s;
  install_icon_runs s : core_runs (install_icon s).1 = core_runs s;
  core_traffic_runs s : core_runs (core_traffic s).1 = core_runs s;
}.

(** ** Notices *)
Inductive Notice :=
  | NNone
  | Imported
  | ImportFailed (e : error)
  | ImportPartial (added skipped : nat)
  | ExportFailed (e : error)
  | ExportInvalid
  | LinkCopied
  | StartFailed (e : error)
  | RulesUpdated
  | RulesFailed (e : error)
  | ProxyFailed (e : error)
  | SaveFailed (e : error)
  | CoreExited (reason : str)
  | NoNode
  | MissingFields (fields : list RequiredField)
  | NodesSaveFailed (e : error)
  | SaveInvalid
  | NodeIncomplete (name : str) (fields : list RequiredField)
  | ProfilesChanged
  | AppIconInstalled
  | AppIconFailed (e : error).

Definition is_error (n : Notice) : bool :=
  match n with
  | StartFailed _ | RulesFailed _ | ProxyFailed _ | SaveFailed _ | CoreExited _ | NoNode | MissingFields _ | ImportFailed _ | ExportFailed _
  | ExportInvalid | NodesSaveFailed _ | SaveInvalid | NodeIncomplete _ _ | ProfilesChanged | AppIconFailed _ => true
  | _ => false
  end.

(** ** What a call changed *)
Record Changes := mkChanges {
  ch_overview : bool;
  ch_notice : bool;
  ch_persist : bool;
  ch_nodes : bool;
  ch_editor : bool;
  ch_settings : bool;
  ch_logs : bool;
  ch_traffic : bool;
}.

Definition NONE : Changes := mkChanges false false false false false false false false.
Definition OVERVIEW : Changes := mkChanges true false false false false false false false.
Definition NOTICE : Changes := mkChanges false true false false false false false false.
Definition PERSIST : Changes := mkChanges false false true false false false false false.
Definition NODES : Changes := mkChanges false false false true false false false false.
Definition EDITOR : Changes := mkChanges false false false true true false false false.
Definition SETTINGS : Changes := mkChanges false false false false false true false false.
Definition LOGS : Changes := mkChanges false false false false false false true false.
Definition TRAFFIC : Changes := mkChanges false false false false false false false true.

(** [BitOr]. *)
#[export] Instance changes_union : Union Changes := λ a b,
  mkChanges (ch_overview a || ch_overview b) (ch_notice a || ch_notice b) (ch_persist a || ch_persist b) (ch_nodes a || ch_nodes b)
    (ch_editor a || ch_editor b) (ch_settings a || ch_settings b) (ch_logs a || ch_logs b) (ch_traffic a || ch_traffic b).

(** ** The state *)
Inductive Leave := Hide | Quit.
Inductive Answer := Save | Discard | Cancel.

Inductive SettingKey := MixedPort | DirectUrl | ProxyUrl | UpdateHours | PacListen | OnlinePacUrl.
Inductive SettingError := SPort | SListenAddress | SUrl | SHours.
Record SettingSheet := mkSheet { key : SettingKey; sheet_draft : str; error_ : option SettingError }.

Record NodesState := mkNodesState {
  selected : nat;
  draft : DraftData;
  errors : list (DraftField * DraftError);
  advanced : option DraftData;
  advanced_errors : list (DraftField * DraftError);
  qr : option (str * QrMask);
  started_with : option ProxyProfile;
}.

Definition with_selected (x : nat) (s : NodesState) : NodesState := mkNodesState x (draft s) (errors s) (advanced s) (advanced_errors s) (qr s) (started_with s).
Definition with_draft (x : DraftData) (s : NodesState) : NodesState := mkNodesState (selected s) x (errors s) (advanced s) (advanced_errors s) (qr s) (started_with s).
Definition with_errors (x : list (DraftField * DraftError)) (s : NodesState) : NodesState := mkNodesState (selected s) (draft s) x (advanced s) (advanced_errors s) (qr s) (started_with s).
Definition with_advanced (x : option DraftData) (s : NodesState) : NodesState := mkNodesState (selected s) (draft s) (errors s) x (advanced_errors s) (qr s) (started_with s).
Definition with_advanced_errors (x : list (DraftField * DraftError)) (s : NodesState) : NodesState := mkNodesState (selected s) (draft s) (errors s) (advanced s) x (qr s) (started_with s).
Definition with_qr (x : option (str * QrMask)) (s : NodesState) : NodesState := mkNodesState (selected s) (draft s) (errors s) (advanced s) (advanced_errors s) x (started_with s).
Definition with_started_with (x : option ProxyProfile) (s : NodesState) : NodesState := mkNodesState (selected s) (draft s) (errors s) (advanced s) (advanced_errors s) (qr s) x.

Record Controller := mkController {
  gui : GuiState;
  persist : Persist;
  connected : bool;
  rules_updating : bool;
  notice : Notice;
  notice_seq : Z;
  nodes : NodesState;
  saved : Saved;
  leave : option Leave;
  sheet : option SettingSheet;
  logs : LogsState;
}.

Definition with_gui (x : GuiState) (c : Controller) : Controller :=
  mkController x (persist c) (connected c) (rules_updating c) (notice c) (notice_seq c) (nodes c) (saved c) (leave c) (sheet c) (logs c).
Definition with_persist (x : Persist) (c : Controller) : Controller :=
  mkController (gui c) x (connected c) (rules_updating c) (notice c) (notice_seq c) (nodes c) (saved c) (leave c) (sheet c) (logs c).
Definition with_connected (x : bool) (c : Controller) : Controller :=
  mkController (gui c) (persist c) x (rules_updating c) (notice c) (notice_seq c) (nodes c) (saved c) (leave c) (sheet c) (logs c).
Definition with_rules_updating (x : bool) (c : Controller) : Controller :=
  mkController (gui c) (persist c) (connected c) x (notice c) (notice_seq c) (nodes c) (saved c) (leave c) (sheet c) (logs c).
Definition with_notice (x : Notice) (c : Controller) : Controller :=
  mkController (gui c) (persist c) (connected c) (rules_updating c) x (notice_seq c) (nodes c) (saved c) (leave c) (sheet c) (logs c).
Definition with_notice_seq (x : Z) (c : Controller) : Controller :=
  mkController (gui c) (persist c) (connected c) (rules_updating c) (notice c) x (nodes c) (saved c) (leave c) (sheet c) (logs c).
Definition with_nodes (x : NodesState) (c : Controller) : Controller :=
  mkController (gui c) (persist c) (connected c) (rules_updating c) (notice c) (notice_seq c) x (saved c) (leave c) (sheet c) (logs c).
Definition with_saved (x : Saved) (c : Controller) : Controller :=
  mkController (gui c) (persist c) (connected c) (rules_updating c) (notice c) (notice_seq c) (nodes c) x (leave c) (sheet c) (logs c).
Definition with_leave (x : option Leave) (c : Controller) : Controller :=
  mkController (gui c) (persist c) (connected c) (rules_updating c) (notice c) (notice_seq c) (nodes c) (saved c) x (sheet c) (logs c).
Definition with_sheet (x : option SettingSheet) (c : Controller) : Controller :=
  mkController (gui c) (persist c) (connected c) (rules_updating c) (notice c) (notice_seq c) (nodes c) (saved c) (leave c) x (logs c).
Definition with_logs (x : LogsState) (c : Controller) : Controller :=
  mkController (gui c) (persist c) (connected c) (rules_updating c) (notice c) (notice_seq c) (nodes c) (saved c) (leave c) (sheet c) x.

Record World (S : Type) := mkWorld { ctl : Controller; outside : S; disk : Disk }.
Arguments mkWorld {S}. Arguments ctl {S}. Arguments outside {S}. Arguments disk {S}.

(** ** Parts of the state *)
Definition with_config (x : AppConfig) (g : GuiState) : GuiState := mkGui x (profiles g) (runtime g) (pac_server g).
Definition with_profiles (x : ProfileStore) (g : GuiState) : GuiState := mkGui (config g) x (runtime g) (pac_server g).
Definition with_runtime (x : RuntimeState) (g : GuiState) : GuiState := mkGui (config g) (profiles g) x (pac_server g).

Definition with_was_running (x : bool) (r : RuntimeState) : RuntimeState :=
  mkRuntime (language r) (appearance r) (auto_start r) (selected_profile r) (close_to_tray r) (hide_window_on_startup r) (startup_connection_state r) x.
Definition with_proxy_mode (x : SystemProxyMode) (c : AppConfig) : AppConfig :=
  mkAppConfig (mixed_listen c) x (pac_mode c) (pac_rule_mode c) (pac_listen c) (online_pac_url c) (pac_direct_url c) (pac_proxy_url c) (pac_auto_update_hours c).
Definition with_rule_mode (x : PacRuleMode) (c : AppConfig) : AppConfig :=
  mkAppConfig (mixed_listen c) (system_proxy_mode c) (pac_mode c) x (pac_listen c) (online_pac_url c) (pac_direct_url c) (pac_proxy_url c) (pac_auto_update_hours c).

Definition NodesState_new (g : GuiState) : NodesState :=
  let sel := (selected_profile (runtime g) `min` (length (profiles g) - 1))%nat in
  mkNodesState sel (default DraftData_default (from_profile <$> profiles g !! sel)) [] None [] None None.

(** A rule download that runs on another thread. *)
Record RuleJob := mkJob { direct_url : str; proxy_url : str }.

(** [pac::rules_age_hours]; the age has whole seconds. *)
Definition rules_age_hours (mtime : str → option Z) (now : Z) : option Z :=
  t ← mtime (B "china-list.txt"); if decide (t ≤ now) then Some ((now - t) / 1000 / 3600) else None.

Section controller.
Context `{Codec AppConfig, Codec ProfileStore, Codec RuntimeState} {S : Type} `{Effects S, Files S, Place}.
Implicit Types w : World S.

Definition upd (f : Controller → Controller) w : World S := mkWorld (f (ctl w)) (outside w) (disk w).
Definition with_outside (s : S) w : World S := mkWorld (ctl w) s (disk w).
Definition on_gui (f : GuiState → GuiState) (c : Controller) : Controller := with_gui (f (gui c)) c.
Definition on_config (f : AppConfig → AppConfig) : Controller → Controller := on_gui (λ g, with_config (f (config g)) g).
Definition on_runtime (f : RuntimeState → RuntimeState) : Controller → Controller := on_gui (λ g, with_runtime (f (runtime g)) g).
Definition on_nodes (f : NodesState → NodesState) (c : Controller) : Controller := with_nodes (f (nodes c)) c.

(** [Controller::new] after loading. *)
Definition Controller_new (g : GuiState) (loaded : option str * option str * option str) (ls : LogsState) : Controller :=
  mkController g (Persist_new content_hash loaded) false false NNone 0 (NodesState_new g) (Saved_new g) None None ls.

Definition set_notice (n : Notice) w : World S * Changes :=
  (upd (λ c, with_notice_seq (wrapping_add (notice_seq c) 1) (with_notice n c)) w, NOTICE).
Definition dismiss_notice : World S → World S * Changes := set_notice NNone.
Definition expire_notice (seq : Z) w : World S * Changes :=
  if (seq =? notice_seq (ctl w)) && negb (is_error (notice (ctl w))) then dismiss_notice w else (w, NONE).

Definition mark_dirty (f : ConfigFile) (now : Z) w : World S * Changes := (upd (λ c, with_persist (mark f now (persist c)) c) w, PERSIST).
Definition save_delay (now : Z) w : option Z := delay now (persist (ctl w)).

Definition flush_all (now : Z) w : World S * result unit :=
  let c := ctl w in
  let '(p, d, r) := flush content_hash config_dir (file_fault (outside w)) (gui c) (saved c) now (disk w) (persist c) in
  (mkWorld (with_persist p c) (outside w) d, r).

Definition flush_due (now : Z) w : World S * Changes :=
  match save_delay now w with
  | None => (w, NONE)
  | Some d =>
      if decide (d = 0) then
        match flush_all now w with
        | (w, Ok _) => (w, NONE)
        | (w, Err e) => let '(w, ch) := set_notice (SaveFailed e) w in (w, ch ∪ PERSIST)
        end
      else (w, PERSIST)
  end.

Definition restart_pac (force_restart : bool) w : World S * result unit :=
  let '(g, _, r) := restart_pac_server (read_rules (outside w)) (can_bind (outside w)) force_restart (gui (ctl w)) in
  (upd (with_gui g) w, r).

(** Applying the proxy mode of the settings; a failure is a notice. *)
Definition apply_system_proxy_now w : World S * Changes :=
  let '(s, r) := apply_proxy (config (gui (ctl w))) (outside w) in
  let w := with_outside s w in
  match r with Ok _ => (w, NONE) | Err e => set_notice (ProxyFailed e) w end.

(** ** [overview.rs] *)
Definition start_notice (n : Notice) : bool := match n with StartFailed _ | CoreExited _ | NoNode | MissingFields _ => true | _ => false end.
Definition reset_traffic (c : Controller) : Controller := with_logs (with_traffic (reset (traffic (logs c))) (logs c)) c.

Definition disconnect (c : Controller) : Controller :=
  on_runtime (with_was_running false) (on_nodes (with_started_with None) (with_connected false c)).

Definition start_active (now : Z) w : World S * Changes :=
  let g := gui (ctl w) in
  match state_profile g with
  | None => set_notice NoNode w
  | Some p =>
      match missing_fields p with
      | (_ :: _) as ms => set_notice (MissingFields ms) w
      | [] =>
          let w := upd reset_traffic w in
          let '(s, r) := start_core (config g) p (outside w) in
          let w := with_outside s w in
          match r with
          | Ok _ =>
              let w := upd (λ c, on_runtime (with_was_running true) (on_nodes (with_started_with (Some p)) (with_connected true c))) w in
              let '(w, ch) := mark_dirty Runtime now w in
              let changes := OVERVIEW ∪ NODES ∪ ch in
              if start_notice (notice (ctl w)) then let '(w, ch) := dismiss_notice w in (w, changes ∪ ch) else (w, changes)
          | Err e =>
              let '(w, changes) :=
                if connected (ctl w) then let '(w, ch) := mark_dirty Runtime now (upd disconnect w) in (w, OVERVIEW ∪ NODES ∪ ch)
                else (w, OVERVIEW ∪ NODES) in
              let '(w, ch) := set_notice (StartFailed e) w in (w, changes ∪ ch)
          end
      end
  end.

Definition toggle_connection (now : Z) w : World S * Changes :=
  if connected (ctl w) then
    let w := upd reset_traffic w in
    let w := upd disconnect (with_outside (stop_core (outside w)) w) in
    let '(w, ch) := mark_dirty Runtime now w in (w, OVERVIEW ∪ NODES ∪ ch)
  else start_active now w.

Definition set_proxy_mode (mode : SystemProxyMode) (now : Z) w : World S * Changes :=
  if decide (system_proxy_mode (config (gui (ctl w))) = mode) then (w, NONE)
  else
    let '(w, ch) := mark_dirty App now (upd (on_config (with_proxy_mode mode)) w) in
    let '(w, ch') := apply_system_proxy_now w in (w, OVERVIEW ∪ ch ∪ ch').

Definition set_pac_rule (rule : PacRuleMode) (now : Z) w : World S * Changes :=
  if decide (pac_rule_mode (config (gui (ctl w))) = rule) then (w, NONE)
  else
    let '(w, _) := restart_pac false (upd (on_config (with_rule_mode rule)) w) in
    let '(w, ch) := mark_dirty App now w in (w, OVERVIEW ∪ ch).

Definition rules_overdue (now : Z) w : bool :=
  let hours := pac_auto_update_hours (config (gui (ctl w))) in
  (0 <? hours) && match rules_age_hours (rule_mtime (outside w)) now with Some age => hours <=? age | None => true end.

Definition begin_rules w : World S * option RuleJob :=
  if rules_updating (ctl w) then (w, None)
  else
    let c := config (gui (ctl w)) in
    (upd (with_rules_updating true) w, Some (mkJob (pac_direct_url c) (pac_proxy_url c))).

Definition update_rules w : World S * Changes * option RuleJob :=
  let '(w, job) := begin_rules w in
  (w, match job with Some _ => OVERVIEW | None => NONE end, job).

Definition finish_rules (result : result unit) w : World S * Changes :=
  let w := upd (with_rules_updating false) w in
  let '(w, n) :=
    match result with
    | Ok _ => let '(w, _) := restart_pac false w in (w, RulesUpdated)
    | Err e => (w, RulesFailed e)
    end in
  let '(w, ch) := set_notice n w in (w, OVERVIEW ∪ ch).

Definition effective_pac_url (c : AppConfig) : str :=
  match pac_mode c, online_pac_url c with
  | Online, Some url => url
  | _, _ => pac_url (pac_listen c)
  end.

Definition copy_pac_url w : World S * Changes :=
  let '(s, r) := copy_text (effective_pac_url (config (gui (ctl w)))) (outside w) in
  let w := with_outside s w in
  match r with Ok _ => set_notice LinkCopied w | Err _ => (w, NONE) end.

Definition sample_traffic (now : Z) w : World S :=
  let '(s, counters) := core_traffic (outside w) in
  upd (λ c, with_logs (with_traffic (record_at counters (now * 1000000) (traffic (logs c))) (logs c)) c) (with_outside s w).

Definition poll_core (now : Z) w : World S * Changes :=
  let w := sample_traffic now w in
  if connected (ctl w) then
    let '(s, r) := poll_core_effect (outside w) in
    let w := with_outside s w in
    match r with
    | Some reason =>
        let w := upd (λ c, on_nodes (with_started_with None) (with_connected false c)) w in
        let '(w, ch) := set_notice (CoreExited reason) w in (w, OVERVIEW ∪ NODES ∪ ch)
    | None => (w, NONE)
    end
  else (w, NONE).

(** ** Startup and shutdown *)
Definition startup_connection (now : Z) w : World S * Changes :=
  let r := runtime (gui (ctl w)) in
  let start := match startup_connection_state r with SOff => false | SOn => true | SLastState => was_running r end in
  if start then start_active now w else (w, NONE).

Definition startup (now : Z) w : World S * Changes * option RuleJob :=
  let '(w, _) := restart_pac true w in
  let '(w, ch) := startup_connection now w in
  let changes := OVERVIEW ∪ ch in
  let '(w, ch) := if decide (system_proxy_mode (config (gui (ctl w))) = PDisable) then (w, NONE) else apply_system_proxy_now w in
  let changes := changes ∪ ch in
  let '(w, job) := if rules_overdue now w then begin_rules w else (w, None) in
  (w, changes, job).

Definition shutdown (now : Z) w : World S :=
  let w := upd (with_connected false) (with_outside (stop_core (outside w)) w) in
  let c := config (gui (ctl w)) in
  let w := if decide (system_proxy_mode c = PDisable) then w else with_outside (apply_proxy (with_proxy_mode PDisable c) (outside w)).1 w in
  (flush_all now w).1.

(** ** [tray.rs] *)
Definition tray_model (c : Controller) : TrayModel :=
  let ps := profiles (gui c) in
  let sel := selected_profile (runtime (gui c)) in
  let active := if decide (sel < length ps)%nat then Some sel else None in
  mkTray (connected c) (default [] (i ← active; display_name <$> ps !! i)) (system_proxy_mode (config (gui c))) (pac_rule_mode (config (gui c)))
    (display_name <$> ps) active.

(** [Controller::set_working_active]. *)
Definition set_working_active (i : nat) : Controller → Controller := on_runtime (Storage.with_selected i).

Definition activate_node (index : nat) (now : Z) w : World S * Changes :=
  match profiles (gui (ctl w)) !! index with
  | None => (w, NONE)
  | Some target =>
      match missing_fields target with
      | (_ :: _) as ms => set_notice (MissingFields ms) w
      | [] =>
          if decide (selected_profile (runtime (gui (ctl w))) = index) then (w, NONE)
          else
            let w := upd (set_working_active index) w in
            if connected (ctl w) then let '(w, ch) := start_active now w in (w, OVERVIEW ∪ NODES ∪ ch) else (w, OVERVIEW ∪ NODES)
      end
  end.
End controller.
