(* ===== verification/Editor.v ===== *)
(** * [gui/src/ui/controller/nodes.rs]: the controller's part of the node editor

    The list, the editor with its draft, the advanced sheet and the share sheet, on the
    state of [Controller]; what a draft writes and where indices move is in [Nodes]. *)
From S2P Require Import Prelude Std Net Text Link Traffic Logs Qr Pac Storage Persist Nodes ShareLink SystemProxy Profile Controller.
#[local] Open Scope Z_scope.

Section editor.
Context `{Codec AppConfig, Codec ProfileStore, Codec RuntimeState} {S : Type} `{Effects S, Files S, Place, UrlLib, QrLib}.
Implicit Types w : World S.

Definition node_list (c : Controller) : NodeList := mkNodes (profiles (gui c)) (selected_profile (runtime (gui c))) (selected (nodes c)).

Definition on_profiles (f : ProfileStore → ProfileStore) : Controller → Controller := on_gui (λ g, with_profiles (f (profiles g)) g).

(** The profile that the editor shows. *)
Definition edited_profile (c : Controller) : option ProxyProfile := profiles (gui c) !! selected (nodes c).

Definition load_selected w : World S * Changes :=
  (upd (λ c,
     let s := nodes c in
     let i := (selected s `min` (length (profiles (gui c)) - 1))%nat in
     with_nodes (mkNodesState i (default DraftData_default (from_profile <$> profiles (gui c) !! i)) [] (advanced s) (advanced_errors s) None (started_with s)) c) w,
   EDITOR).

Definition draft_unapplied (c : Controller) : bool :=
  match edited_profile c with Some p => unapplied (draft (nodes c)) p | None => false end.

Definition select_node (index : nat) w : World S * Changes :=
  if decide (index = selected (nodes (ctl w)) ∨ (length (profiles (gui (ctl w))) ≤ index)%nat) then (w, NONE)
  else load_selected (upd (on_nodes (with_selected index)) w).

Definition add_node (nm : str) w : World S * Changes :=
  let n := Nodes.add_node nm (node_list (ctl w)) in
  load_selected (upd (λ c, on_nodes (with_selected (n_selected n)) (on_profiles (λ _, n_profiles n) c)) w).

(** After a deletion of the active node the core must not go on with it. *)
Definition replace_active (now : Z) w : World S * Changes :=
  let incomplete := match state_profile (gui (ctl w)) with Some p => match missing_fields p with [] => false | _ => true end | None => true end in
  let '(w, ch) := if incomplete then toggle_connection now w else (w, NONE) in
  let '(w, ch') := start_active now w in (w, ch ∪ ch').

Definition node_command (index : nat) (command : ListCommand) (now : Z) w : World S * Changes :=
  let c := ctl w in
  match Nodes.node_command index command (node_list c) with
  | None => (w, NONE)
  | Some n =>
      let deletes_active := match command with Delete => bool_decide (index = selected_profile (runtime (gui c))) | _ => false end in
      let reload := match command with Duplicate => true | Delete => bool_decide (selected (nodes c) = index) | _ => false end in
      let w := upd (λ c, on_nodes (with_selected (n_selected n)) (on_runtime (Storage.with_selected (n_active n)) (on_profiles (λ _, n_profiles n) c))) w in
      let '(w, ch) := if reload then load_selected w else (w, NODES) in
      let changes := OVERVIEW ∪ NODES ∪ ch in
      if deletes_active && connected (ctl w) then let '(w, ch) := replace_active now w in (w, changes ∪ ch) else (w, changes)
  end.

Definition commit_draft w : World S * Changes :=
  let w := upd (on_nodes (λ s, with_errors (Nodes.errors (draft s)) s)) w in
  let c := ctl w in
  let index := selected (nodes c) in
  match profiles (gui c) !! index with
  | None => (w, NODES)
  | Some before =>
      let after := apply_draft (draft (nodes c)) before in
      let w := upd (on_profiles (<[index := after]>)) w in
      if decide (after = before) then (w, NODES)
      else if decide (index = selected_profile (runtime (gui c))) then (w, NODES ∪ OVERVIEW)
      else (w, NODES)
  end.

Definition edit_node (field : DraftField) (value : str) w : World S * Changes :=
  let '(w, ch) := commit_draft (upd (on_nodes (λ s, with_draft (set field value (draft s)) s)) w) in
  match field with DProtocol | DMethod => (w, ch ∪ EDITOR) | _ => (w, ch) end.

Definition set_active_node (now : Z) w : World S * Changes :=
  let index := selected (nodes (ctl w)) in
  match profiles (gui (ctl w)) !! index with
  | None => (w, NONE)
  | Some target =>
      match missing_fields target with
      | (_ :: _) as ms => set_notice (MissingFields ms) w
      | [] =>
          let w := upd (set_working_active index) w in
          if connected (ctl w) then let '(w, ch) := start_active now w in (w, OVERVIEW ∪ NODES ∪ ch) else (w, OVERVIEW ∪ NODES)
      end
  end.

(** [None] when an import panics. *)
Definition import_text (txt : str) w : option (World S * Changes) :=
  '(n, added, skipped) ← Nodes.import_text txt (node_list (ctl w));
  Some (if decide (added = O) then
          set_notice (ImportFailed (EMsg (if decide (skipped = O) then B "the clipboard holds no link" else B "no line is a valid juicity:// or ss:// link"))) w
        else
          let w := upd (λ c, on_nodes (with_selected (n_selected n)) (on_profiles (λ _, n_profiles n) c)) w in
          let '(w, ch) := load_selected w in
          let '(w, ch') := set_notice (if decide (skipped = O) then Imported else ImportPartial added skipped) w in
          (w, ch ∪ ch')).

Definition import_links w : option (World S * Changes) :=
  let '(s, r) := paste_text (outside w) in
  let w := with_outside s w in
  match r with
  | Ok text => import_text text w
  | Err e => Some (set_notice (ImportFailed e) w)
  end.

(** [None] when there is no node; the error is the notice. *)
Definition share_link (c : Controller) : option (str + Notice) :=
  match errors (nodes c) with
  | _ :: _ => Some (inr ExportInvalid)
  | [] =>
      p ← edited_profile c;
      Some (match export_share_link p with Ok link => inl link | Err e => inr (ExportFailed e) end)
  end.

Definition export_link w : World S * Changes :=
  match share_link (ctl w) with
  | Some (inl link) =>
      let '(s, r) := copy_text link (outside w) in
      let w := with_outside s w in
      match r with Ok _ => set_notice LinkCopied w | Err e => set_notice (ExportFailed e) w end
  | Some (inr n) => set_notice n w
  | None => (w, NONE)
  end.

Definition share_qr_code w : World S * Changes :=
  match share_link (ctl w) with
  | Some (inl link) =>
      match mask link with
      | Ok m => (upd (on_nodes (with_qr (Some (link, m)))) w, NODES)
      | Err e => set_notice (ExportFailed e) w
      end
  | Some (inr n) => set_notice n w
  | None => (w, NONE)
  end.

Definition close_qr_code w : World S * Changes := (upd (on_nodes (with_qr None)) w, NODES).

(** ** The advanced sheet *)
Definition open_advanced w : World S * Changes :=
  (upd (on_nodes (λ s, with_advanced_errors [] (with_advanced (Some (draft s)) s))) w, NODES).

Definition edit_advanced (field : DraftField) (value : str) w : World S * Changes :=
  match advanced (nodes (ctl w)) with
  | None => (w, NONE)
  | Some sheet =>
      let sheet := set field value sheet in
      let errs := filter (λ e, e.1 = DTimeout) (Nodes.errors sheet) in
      (upd (on_nodes (λ s, with_advanced_errors errs (with_advanced (Some sheet) s))) w, NODES)
  end.

Definition commit_advanced w : World S * Changes :=
  match advanced_errors (nodes (ctl w)) with
  | _ :: _ => (w, NONE)
  | [] =>
      match advanced (nodes (ctl w)) with
      | None => (w, NONE)
      | Some sheet =>
          let '(w, ch) := commit_draft (upd (on_nodes (λ s, with_draft (take_advanced sheet (draft s)) (with_advanced None s))) w) in
          (w, ch ∪ EDITOR)
      end
  end.

Definition drop_advanced (s : NodesState) : NodesState := with_advanced_errors [] (with_advanced None s).
Definition cancel_advanced w : World S * Changes := (upd (on_nodes drop_advanced) w, NODES).

(** ** After a reload *)
Definition after_reload (edited : option ProxyProfile) w : World S * Changes :=
  let w := upd (λ c, on_nodes (λ s, with_selected (selected s `min` (length (profiles (gui c)) - 1))%nat s) c) w in
  if decide (edited_profile (ctl w) = edited) then (w, NODES) else load_selected (upd (on_nodes drop_advanced) w).
End editor.
