(* ===== verification/Save.v ===== *)
(** * [gui/src/ui/controller/save.rs]: saving the node list, and leaving

    Edits stay in the working list until Save writes the list and the active index;
    closing with unsaved edits asks first.  [on_files_changed] of [mod.rs] and the
    snapshot of the nodes page, which compare the two lists, are here as well. *)
From S2P Require Import Prelude Std Net Text Link Traffic Logs Qr Pac Storage Persist Nodes ShareLink SystemProxy Profile Controller Editor.
#[local] Open Scope Z_scope.

Section save.
Context `{Codec AppConfig, Codec ProfileStore, Codec RuntimeState} {S : Type} `{Effects S, Files S, Place}.
Implicit Types w : World S.

Definition list_dirty (c : Controller) : bool :=
  negb (bool_decide (profiles (gui c) = s_profiles (saved c))) || negb (bool_decide (selected_profile (runtime (gui c)) = active (saved c))).
Definition nodes_dirty (c : Controller) : bool := list_dirty c || draft_unapplied c.
Definition prompt_open (c : Controller) : bool := bool_decide (is_Some (leave c)).

Definition save_failed (e : error) w : World S * Changes * bool :=
  let '(w, ch) := set_notice (NodesSaveFailed e) (upd (with_leave None) w) in (w, NODES ∪ ch, false).

Fixpoint first_incomplete (ps : list ProxyProfile) : option Notice :=
  match ps with
  | [] => None
  | p :: ps => match missing_fields p with [] => first_incomplete ps | ms => Some (NodeIncomplete (display_name p) ms) end
  end.

Definition save_refusal w : World S * option Notice :=
  let w := upd (on_nodes (λ s, with_errors (Nodes.errors (draft s)) s)) w in
  (w, match errors (nodes (ctl w)) with
      | _ :: _ => Some SaveInvalid
      | [] => first_incomplete (profiles (gui (ctl w)))
      end).

Definition save_notice (n : Notice) : bool := match n with NodesSaveFailed _ | SaveInvalid | NodeIncomplete _ _ | ProfilesChanged => true | _ => false end.
Definition clear_save_notice w : World S * Changes := if save_notice (notice (ctl w)) then dismiss_notice w else (w, NONE).

(** [Persist::write] on the state. *)
Definition write_file (f : ConfigFile) (s : Saved) w : World S * result unit :=
  let c := ctl w in
  let '(p, d, r) := Persist.write content_hash config_dir (file_fault (outside w) f) f (gui c) s (disk w) (persist c) in
  (mkWorld (with_persist p c) (outside w) d, r).

(** The index part of [write_nodes]. *)
Definition write_index (next : Saved) w : World S * Changes * bool :=
  let sv := saved (ctl w) in
  if decide (active next = active sv) then let '(w, ch) := clear_save_notice w in (w, NODES ∪ ch, true)
  else
    let w := upd (with_saved (mkSaved (s_profiles sv) (active next))) w in
    match write_file Runtime (saved (ctl w)) w with
    | (w, Err e) => save_failed e (upd (λ c, with_saved (mkSaved (s_profiles (saved c)) (active sv)) c) w)
    | (w, Ok _) => let '(w, ch) := clear_save_notice w in (w, NODES ∪ ch, true)
    end.

Definition write_nodes w : World S * Changes * bool :=
  if nodes_dirty (ctl w) then
    match save_refusal w with
    | (w, Some n) => let '(w, ch) := set_notice n (upd (with_leave None) w) in (w, NODES ∪ ch, false)
    | (w, None) =>
        let c := ctl w in
        let next := clamp_active (mkSaved (profiles (gui c)) (selected_profile (runtime (gui c)))) in
        if decide (s_profiles next = s_profiles (saved c)) then write_index next w
        else
          match write_file Profiles next w with
          | (w, Err e) => save_failed e w
          | (w, Ok _) => write_index next (upd (λ c, with_saved (clamp_active (mkSaved (s_profiles next) (active (saved c)))) c) w)
          end
    end
  else (w, NONE, true).

Definition save_nodes w : World S * Changes := (write_nodes w).1.

Definition revert_nodes w : World S * Changes :=
  if nodes_dirty (ctl w) then
    let w := upd (λ c, on_gui (λ g, normalize_selected_index (with_runtime (Storage.with_selected (active (saved c)) (runtime g)) (with_profiles (s_profiles (saved c)) g))) c) w in
    let w := upd (λ c, on_nodes (λ s, drop_advanced (with_selected (selected_profile (runtime (gui c))) s)) c) w in
    let '(w, ch) := load_selected w in
    let '(w, ch') := clear_save_notice w in (w, OVERVIEW ∪ ch ∪ ch')
  else (w, NONE).

(** ** The prompt *)
Definition request_leave (l : Leave) w : World S * Changes * option Leave :=
  match leave (ctl w) with
  | Some _ => (w, NONE, None)
  | None => if nodes_dirty (ctl w) then (upd (with_leave (Some l)) w, NODES, None) else (w, NONE, Some l)
  end.

Definition answer_prompt (a : Answer) w : World S * Changes * option Leave :=
  match leave (ctl w) with
  | None => (w, NONE, None)
  | Some l =>
      match a with
      | Save =>
          let '(w, ch, ok) := write_nodes w in
          let out := if ok then leave (ctl w) else None in
          (if ok then upd (with_leave None) w else w, ch ∪ NODES, out)
      | Discard => let '(w, ch) := revert_nodes (upd (with_leave None) w) in (w, ch ∪ NODES, Some l)
      | Cancel => (upd (with_leave None) w, NODES, None)
      end
  end.

(** ** Edits by other programs *)
Definition proxy_changed (old new : AppConfig) : bool :=
  negb (bool_decide (system_proxy_mode old = system_proxy_mode new)) || negb (bool_decide (mixed_listen old = mixed_listen new)) ||
  negb (bool_decide (pac_listen old = pac_listen new)) || negb (bool_decide (pac_mode old = pac_mode new)) ||
  negb (bool_decide (online_pac_url old = online_pac_url new)).

(** What a change of app.json leads to. *)
Definition app_reloaded (old : AppConfig) w : World S * Changes :=
  let listen_changed := negb (bool_decide (pac_listen old = pac_listen (config (gui (ctl w))))) in
  match restart_pac listen_changed w with
  | (w, Err e) => set_notice (ProxyFailed e) w
  | (w, Ok _) => if proxy_changed old (config (gui (ctl w))) then apply_system_proxy_now w else (w, NONE)
  end.

Definition on_files_changed (now : Z) w : World S * Changes :=
  let c := ctl w in
  let edited := edited_profile c in
  let working_active := selected_profile (runtime (gui c)) in
  let was_dirty := list_dirty c in
  let '(p, g, sv, reloaded) := reload_changed content_hash config_dir (disk w) now (gui c) (saved c) (persist c) in
  let old := config (gui c) in
  let w := upd (λ c, with_saved sv (with_gui g (with_persist p c))) w in
  let changes := if decide (is_Some (delay now p)) then PERSIST else NONE in
  match reloaded with
  | [] => (w, changes)
  | _ =>
      let '(w, ch) :=
        if was_dirty then
          let w := upd (on_runtime (Storage.with_selected working_active)) w in
          if bool_decide (Profiles ∈ reloaded) && list_dirty (ctl w) then set_notice ProfilesChanged w else (w, NONE)
        else
          let w := if decide (Profiles ∈ reloaded) then upd (λ c, on_profiles (λ _, s_profiles (saved c)) c) w else w in
          (upd (λ c, on_runtime (Storage.with_selected (active (saved c))) c) w, NONE) in
      let w := upd (on_gui normalize_selected_index) w in
      let '(w, ch') := after_reload edited w in
      let changes := changes ∪ ch ∪ OVERVIEW ∪ SETTINGS ∪ ch' in
      if decide (App ∈ reloaded) then let '(w, ch) := app_reloaded old w in (w, changes ∪ ch) else (w, changes)
  end.

(** ** The nodes page *)
Record RowData := mkRow { row_name : str; row_address : str; row_protocol : ProxyProtocol; in_use : bool; row_group : str }.

Record NodesSnapshot := mkNodesSnapshot {
  rows : list RowData;
  ns_selected : nat;
  ns_draft : DraftData;
  ns_errors : list (DraftField * DraftError);
  reconnect_required : bool;
  ns_advanced : option DraftData;
  ns_qr : option (str * QrMask);
  ns_dirty : bool;
  ns_prompt : bool;
}.

Definition row_of (act : nat) (index : nat) (p : ProxyProfile) : RowData :=
  mkRow (display_name p) (if is_empty (server p) then [] else format_host_port (server p) (server_port p)) (protocol p) (bool_decide (index = act))
    (default [] (group p)).

Definition nodes_snapshot (c : Controller) : NodesSnapshot :=
  let act := selected_profile (runtime (gui c)) in
  let s := nodes c in
  mkNodesSnapshot (imap (row_of act) (profiles (gui c))) (selected s) (draft s) (errors s ++ advanced_errors s)
    (connected c && bool_decide (selected s = act) && negb (bool_decide (started_with s = s_profiles (saved c) !! act)))
    (advanced s) (qr s) (nodes_dirty c) (prompt_open c).
End save.
