(* ===== verification/Settings.v ===== *)
(** * [gui/src/ui/controller/settings.rs]: the settings page

    Values are edited in a sheet with a draft of its own, checked and normalized when
    they are committed, and applied to the proxy, the PAC server and a running core. *)
From S2P Require Import Prelude Std Net Text Link Traffic Logs Qr Pac Storage Persist Nodes ShareLink SystemProxy Profile Controller Editor.
#[local] Open Scope Z_scope.

(** ** Checking values *)
Definition INTERVAL_PRESETS : list Z := [6; 12; 24; 72; 168].
Definition is_interval_preset (hours : Z) : bool := (hours =? 0) || bool_decide (hours ∈ INTERVAL_PRESETS).

(** [str::contains(char::is_whitespace)]. *)
Fixpoint has_whitespace (s : str) : bool :=
  match s with [] => false | _ :: s' => (0 <? ws_width s)%nat || has_whitespace s' end.

(** [char::is_ascii_alphanumeric]. *)
Definition is_alnum (c : byte) : bool := between 48 57 c || between 65 90 c || between 97 122 c.

Definition host_label (label : str) : bool :=
  negb (is_empty label) && negb (starts_with (B "-") label) && negb (match last label with Some c => bool_decide (c = x2d) | None => false end) &&
  forallb (λ c, is_alnum c || bool_decide (c = x2d)) label.

Definition valid_host (host : str) : bool :=
  if forallb (λ c, is_ascii_digit c || bool_decide (c = x2e)) host then bool_decide (is_Some (parse_ipv4 host))
  else forallb host_label (split_char x2e host).

(** The host as it is kept, and the text of the port. *)
Definition listen_parts (text : str) : option (str * str) :=
  match strip_prefix (B "[") text with
  | Some rest =>
      pos ← find2 x5d x3a rest;
      let ip := take pos rest in
      _ ← parse_ipv6 ip;
      Some (B "[" ++ ip ++ B "]", drop (pos + 2) rest)
  | None =>
      pos ← rfind x3a text;
      let host := take pos text in
      if valid_host host then Some (host, drop (pos + 1) text) else None
  end.

Definition listen_port (port : str) : option Z :=
  if is_empty port || negb (forallb is_ascii_digit port) then None
  else p ← parse_u16 port; if decide (0 < p) then Some p else None.

Definition parse_listen (text : str) : option str :=
  if has_whitespace text then None
  else
    '(host, port) ← listen_parts text;
    p ← listen_port port;
    Some (host ++ B ":" ++ show_dec p).

Section validate.
Context `{UrlLib}.

Definition http_url (text : str) : str + SettingError :=
  match url_parse text with
  | Some u => if (bool_decide (scheme u = B "http") || bool_decide (scheme u = B "https")) && bool_decide (is_Some (host_str u)) then inl text else inr SUrl
  | None => inr SUrl
  end.

Definition parse_positive (max : Z) (text : str) : option Z := n ← parse_uint max text; if decide (1 ≤ n) then Some n else None.

Definition validate (k : SettingKey) (text : str) : str + SettingError :=
  let text := trim text in
  match k with
  | MixedPort => match parse_positive u16_max text with Some port => inl (show_dec port) | None => inr SPort end
  | PacListen => match parse_listen text with Some listen => inl listen | None => inr SListenAddress end
  | DirectUrl | ProxyUrl => http_url text
  | OnlinePacUrl => if is_empty text then inl [] else http_url text
  | UpdateHours => match parse_positive u32_max text with Some hours => inl (show_dec hours) | None => inr SHours end
  end.

(** [path_segments] are those of the parsed URL. *)
Definition url_summary (path_segments : str → list str) (url : str) : str :=
  match url_parse url with
  | None => url
  | Some parsed =>
      let host := default [] (host_str parsed) in
      let segments := filter (λ s, is_empty s = false) (path_segments url) in
      let source := match head segments with
                    | Some owner => if decide (host = B "raw.githubusercontent.com" ∨ host = B "github.com") then owner else host
                    | None => host
                    end in
      match last segments with
      | Some file => if is_empty source then url else source ++ B " " ++ [xc2; xb7] ++ B " " ++ file
      | None => url
      end
  end.
End validate.

(** ** Setters *)
Definition with_language (x : LanguagePreference) (r : RuntimeState) : RuntimeState :=
  mkRuntime x (appearance r) (auto_start r) (selected_profile r) (close_to_tray r) (hide_window_on_startup r) (startup_connection_state r) (was_running r).
Definition with_appearance (x : AppearancePreference) (r : RuntimeState) : RuntimeState :=
  mkRuntime (language r) x (auto_start r) (selected_profile r) (close_to_tray r) (hide_window_on_startup r) (startup_connection_state r) (was_running r).
Definition with_auto_start (x : bool) (r : RuntimeState) : RuntimeState :=
  mkRuntime (language r) (appearance r) x (selected_profile r) (close_to_tray r) (hide_window_on_startup r) (startup_connection_state r) (was_running r).
Definition with_hide (x : bool) (r : RuntimeState) : RuntimeState :=
  mkRuntime (language r) (appearance r) (auto_start r) (selected_profile r) (close_to_tray r) x (startup_connection_state r) (was_running r).
Definition with_close_to_tray (x : bool) (r : RuntimeState) : RuntimeState :=
  mkRuntime (language r) (appearance r) (auto_start r) (selected_profile r) x (hide_window_on_startup r) (startup_connection_state r) (was_running r).
Definition with_startup (x : StartupConnectionState) (r : RuntimeState) : RuntimeState :=
  mkRuntime (language r) (appearance r) (auto_start r) (selected_profile r) (close_to_tray r) (hide_window_on_startup r) x (was_running r).

Definition with_mixed_listen (x : str) (c : AppConfig) : AppConfig :=
  mkAppConfig x (system_proxy_mode c) (pac_mode c) (pac_rule_mode c) (pac_listen c) (online_pac_url c) (pac_direct_url c) (pac_proxy_url c) (pac_auto_update_hours c).
Definition with_pac_mode (x : PacMode) (c : AppConfig) : AppConfig :=
  mkAppConfig (mixed_listen c) (system_proxy_mode c) x (pac_rule_mode c) (pac_listen c) (online_pac_url c) (pac_direct_url c) (pac_proxy_url c) (pac_auto_update_hours c).
Definition with_pac_listen (x : str) (c : AppConfig) : AppConfig :=
  mkAppConfig (mixed_listen c) (system_proxy_mode c) (pac_mode c) (pac_rule_mode c) x (online_pac_url c) (pac_direct_url c) (pac_proxy_url c) (pac_auto_update_hours c).
Definition with_online_url (x : option str) (c : AppConfig) : AppConfig :=
  mkAppConfig (mixed_listen c) (system_proxy_mode c) (pac_mode c) (pac_rule_mode c) (pac_listen c) x (pac_direct_url c) (pac_proxy_url c) (pac_auto_update_hours c).
Definition with_direct_url (x : str) (c : AppConfig) : AppConfig :=
  mkAppConfig (mixed_listen c) (system_proxy_mode c) (pac_mode c) (pac_rule_mode c) (pac_listen c) (online_pac_url c) x (pac_proxy_url c) (pac_auto_update_hours c).
Definition with_proxy_url (x : str) (c : AppConfig) : AppConfig :=
  mkAppConfig (mixed_listen c) (system_proxy_mode c) (pac_mode c) (pac_rule_mode c) (pac_listen c) (online_pac_url c) (pac_direct_url c) x (pac_auto_update_hours c).
Definition with_update_hours (x : Z) (c : AppConfig) : AppConfig :=
  mkAppConfig (mixed_listen c) (system_proxy_mode c) (pac_mode c) (pac_rule_mode c) (pac_listen c) (online_pac_url c) (pac_direct_url c) (pac_proxy_url c) x.

Section settings.
Context `{Codec AppConfig, Codec ProfileStore, Codec RuntimeState} {S : Type} `{Effects S, Files S, Place, UrlLib}.
Implicit Types w : World S.

Record SettingsSnapshot := mkSettings {
  st_language : LanguagePreference;
  st_appearance : AppearancePreference;
  st_autostart : bool;
  st_hide_on_start : bool;
  st_close_to_tray : bool;
  st_startup : StartupConnectionState;
  st_mixed_port : str;
  st_direct_url : str;
  st_proxy_url : str;
  st_update_hours : Z;
  st_pac_source : PacMode;
  st_pac_listen : str;
  st_online_pac_url : str;
  st_sheet : option SettingSheet;
}.

(** [None] is the panic of [split_host_port]. *)
Definition settings_snapshot (c : Controller) : option SettingsSnapshot :=
  let cfg := config (gui c) in
  let r := runtime (gui c) in
  '(_, port) ← split_host_port (mixed_listen cfg);
  Some (mkSettings (language r) (appearance r) (auto_start r) (hide_window_on_startup r) (close_to_tray r) (startup_connection_state r) (show_dec port)
    (pac_direct_url cfg) (pac_proxy_url cfg) (pac_auto_update_hours cfg) (pac_mode cfg) (pac_listen cfg) (default [] (online_pac_url cfg)) (sheet c)).

(** A setter of runtime.json: nothing is marked when the value stays. *)
Definition set_runtime {A} `{EqDecision A} (get : RuntimeState → A) (put : A → RuntimeState → RuntimeState) (x : A) (now : Z) w : World S * Changes :=
  if decide (get (runtime (gui (ctl w))) = x) then (w, SETTINGS)
  else let '(w, ch) := mark_dirty Runtime now (upd (on_runtime (put x)) w) in (w, SETTINGS ∪ ch).

Definition set_language : LanguagePreference → Z → World S → World S * Changes := set_runtime language with_language.
Definition set_appearance : AppearancePreference → Z → World S → World S * Changes := set_runtime appearance with_appearance.
Definition set_hide_on_start : bool → Z → World S → World S * Changes := set_runtime hide_window_on_startup with_hide.
Definition set_close_to_tray : bool → Z → World S → World S * Changes := set_runtime close_to_tray with_close_to_tray.
Definition set_startup_connection : StartupConnectionState → Z → World S → World S * Changes := set_runtime startup_connection_state with_startup.

(** [supported] is the constant of the platform. *)
Definition set_autostart (supported enabled : bool) (now : Z) w : World S * Changes :=
  if negb supported || Bool.eqb (auto_start (runtime (gui (ctl w)))) enabled then (w, SETTINGS)
  else
    let '(s, r) := apply_autostart enabled (outside w) in
    let w := with_outside s w in
    match r with
    | Err e => let '(w, ch) := set_notice (SaveFailed e) w in (w, SETTINGS ∪ ch)
    | Ok _ => let '(w, ch) := mark_dirty Runtime now (upd (on_runtime (with_auto_start enabled)) w) in (w, SETTINGS ∪ ch)
    end.

Definition install_app_icon w : World S * Changes :=
  let '(s, r) := install_icon (outside w) in
  let w := with_outside s w in
  let '(w, ch) := match r with Ok _ => set_notice AppIconInstalled w | Err e => set_notice (AppIconFailed e) w end in
  (w, SETTINGS ∪ ch).

Definition reapply_pac_proxy w : World S * Changes :=
  if decide (system_proxy_mode (config (gui (ctl w))) = PPac) then apply_system_proxy_now w else (w, NONE).

Definition set_pac_source (mode : PacMode) (now : Z) w : World S * Changes :=
  if decide (pac_mode (config (gui (ctl w))) = mode) then (w, SETTINGS)
  else
    let '(w, ch) := mark_dirty App now (upd (on_config (with_pac_mode mode)) w) in
    let '(w, ch') := reapply_pac_proxy w in (w, OVERVIEW ∪ SETTINGS ∪ ch ∪ ch').

Definition set_update_hours (hours : Z) (now : Z) w : World S * Changes :=
  if decide (pac_auto_update_hours (config (gui (ctl w))) = hours) then (w, SETTINGS)
  else let '(w, ch) := mark_dirty App now (upd (on_config (with_update_hours hours)) w) in (w, SETTINGS ∪ ch).

(** ** The sheet *)

(** The draft that a sheet begins with; the inner [None] is the row that is disabled. *)
Definition initial_draft (k : SettingKey) (c : AppConfig) : option (option str) :=
  match k with
  | MixedPort => '(_, port) ← split_host_port (mixed_listen c); Some (Some (show_dec port))
  | DirectUrl => Some (Some (pac_direct_url c))
  | ProxyUrl => Some (Some (pac_proxy_url c))
  | UpdateHours => Some (Some (if decide (pac_auto_update_hours c = 0) then B "24" else show_dec (pac_auto_update_hours c)))
  | PacListen => Some (Some (pac_listen c))
  | OnlinePacUrl => Some (if decide (pac_mode c = Online) then Some (default [] (online_pac_url c)) else None)
  end.

Definition open_setting (k : SettingKey) w : option (World S * Changes) :=
  draft ← initial_draft k (config (gui (ctl w)));
  Some (match draft with
        | None => (w, NONE)
        | Some d => (upd (with_sheet (Some (mkSheet k d None))) w, SETTINGS)
        end).

Definition error_of {A} (r : A + SettingError) : option SettingError := match r with inl _ => None | inr e => Some e end.

Definition edit_setting (text : str) w : World S * Changes :=
  match sheet (ctl w) with
  | None => (w, NONE)
  | Some s => (upd (with_sheet (Some (mkSheet (key s) text (error_of (validate (key s) text))))) w, SETTINGS)
  end.

Definition cancel_setting w : World S * Changes :=
  match sheet (ctl w) with None => (w, NONE) | Some _ => (upd (with_sheet None) w, SETTINGS) end.

Definition apply_listen_change (now : Z) w : World S * Changes :=
  let '(w, changes) := match restart_pac false w with
                       | (w, Err e) => let '(w, ch) := set_notice (ProxyFailed e) w in (w, OVERVIEW ∪ ch)
                       | (w, Ok _) => (w, OVERVIEW)
                       end in
  let '(w, ch) := if decide (system_proxy_mode (config (gui (ctl w))) = PDisable) then (w, NONE) else apply_system_proxy_now w in
  let changes := changes ∪ ch in
  if connected (ctl w) then let '(w, ch) := start_active now w in (w, changes ∪ ch) else (w, changes).

Definition change_pac_listen (listen : str) (now : Z) w : World S * Changes :=
  let previous := pac_listen (config (gui (ctl w))) in
  match restart_pac true (upd (on_config (with_pac_listen listen)) w) with
  | (w, Err e) => set_notice (ProxyFailed e) (upd (on_config (with_pac_listen previous)) w)
  | (w, Ok _) =>
      let '(w, ch) := mark_dirty App now w in
      let '(w, ch') := reapply_pac_proxy w in (w, OVERVIEW ∪ ch ∪ ch')
  end.

(** A value of app.json that nothing else depends on. *)
Definition commit_plain {A} `{EqDecision A} (get : AppConfig → A) (put : A → AppConfig → AppConfig) (x : A) (now : Z) w : World S * Changes :=
  if decide (get (config (gui (ctl w))) = x) then (w, SETTINGS)
  else let '(w, ch) := mark_dirty App now (upd (on_config (put x)) w) in (w, SETTINGS ∪ ch).

(** Applying a checked value; [None] is a panic of [expect] or of [split_host_port]. *)
Definition commit_value (k : SettingKey) (value : str) (now : Z) w : option (World S * Changes) :=
  let c := config (gui (ctl w)) in
  match k with
  | MixedPort =>
      port ← parse_u16 value;
      '(host, _) ← split_host_port (mixed_listen c);
      let listen := format_host_port host port in
      Some (if decide (listen = mixed_listen c) then (w, SETTINGS)
            else
              let '(w, ch) := mark_dirty App now (upd (on_config (with_mixed_listen listen)) w) in
              let '(w, ch') := apply_listen_change now w in (w, SETTINGS ∪ ch ∪ ch'))
  | DirectUrl => Some (commit_plain pac_direct_url with_direct_url value now w)
  | ProxyUrl => Some (commit_plain pac_proxy_url with_proxy_url value now w)
  | UpdateHours =>
      hours ← parse_uint u32_max value;
      Some (commit_plain pac_auto_update_hours with_update_hours hours now w)
  | PacListen =>
      Some (if decide (pac_listen c = value) then (w, SETTINGS)
            else let '(w, ch) := change_pac_listen value now w in (w, SETTINGS ∪ ch))
  | OnlinePacUrl =>
      let url := if is_empty value then None else Some value in
      Some (if decide (online_pac_url c = url) then (w, SETTINGS)
            else
              let '(w, ch) := mark_dirty App now (upd (on_config (with_online_url url)) w) in
              let '(w, ch') := reapply_pac_proxy w in (w, OVERVIEW ∪ SETTINGS ∪ ch ∪ ch'))
  end.

Definition commit_setting (now : Z) w : option (World S * Changes) :=
  match sheet (ctl w) with
  | None => Some (w, NONE)
  | Some s =>
      match validate (key s) (sheet_draft s) with
      | inr e => Some (upd (with_sheet (Some (mkSheet (key s) (sheet_draft s) (Some e)))) w, SETTINGS)
      | inl value => commit_value (key s) value now (upd (with_sheet None) w)
      end
  end.
End settings.

(** ** Addresses *)

(** *** White space *)
Lemma ws_width_app x a c b : visible c = true → (0 <? ws_width (x :: a ++ c :: b))%nat = (0 <? ws_width (x :: a))%nat.
Proof.
  intros Hc. assert (∀ k, visible k = false → bool_decide (c = k) = false) as Hf by (intros k Hk; apply bool_decide_false; intros ->; congruence).
  pose proof (byte_forall (λ c, negb (visible c && between 0x80 0x8a c)) ltac:(by vm_compute) c) as Hb. cbn beta in Hb. rewrite Hc in Hb. apply negb_true_iff in Hb. cbn in Hb.
  destruct a as [|d [|e a]]; cbn [app]; [| |done]; unfold ws_width; destruct (between 9 13 x || _); try done.
  - rewrite (Hf x85), (Hf xa0) by done. rewrite andb_false_r. destruct b as [|e b]; [done|]. rewrite (Hf x9a), (Hf x80), (Hf x81) by done. by rewrite !andb_false_r.
  - destruct (bool_decide (x = xc2) && _); [done|]. rewrite (Hf x80), (Hf xa8), (Hf xa9), (Hf xaf), (Hf x9f) by done.
    change (between 128 138 c) with (between 0x80 0x8a c). rewrite Hb. cbn [orb]. by rewrite !andb_false_r.
Qed.

Lemma has_whitespace_app a c b : visible c = true → has_whitespace (a ++ c :: b) = has_whitespace a || has_whitespace (c :: b).
Proof.
  intros Hc. induction a as [|x a IH]; [done|]. cbn [app has_whitespace]. rewrite ws_width_app by done. cbn [has_whitespace] in IH. by rewrite IH, orb_assoc.
Qed.

Lemma has_whitespace_visible s : forallb visible s = true → has_whitespace s = false.
Proof.
  induction s as [|c s IH]; [done|]. intros [Hc Hs]%andb_prop. cbn [has_whitespace]. rewrite IH by done. by rewrite visible_width.
Qed.

Lemma has_whitespace_drop n s : has_whitespace s = false → has_whitespace (drop n s) = false.
Proof. revert n. induction s as [|c s IH]; intros [|n]; try done. cbn [has_whitespace drop]. intros [_ Hs]%orb_false_iff. by apply IH. Qed.

Lemma has_whitespace_trim s : has_whitespace s = false → trim s = s.
Proof.
  intros Hs. assert (∀ t, has_whitespace t = false → ws_width t = O) as Hw.
  { intros [|c t]; [done|]. cbn [has_whitespace]. intros [Hc _]%orb_false_iff. by destruct (ws_width (c :: t)). }
  unfold trim, trim_start. rewrite (strip_width_stop ws_width) by by apply Hw. unfold trim_end. rewrite strip_width_stop; [by rewrite rev_involutive|].
  assert (∀ n, ws_width (rev (take n (rev s))) = O) as Hn.
  { intros n. rewrite List.firstn_rev, rev_involutive. by apply Hw, has_whitespace_drop. }
  unfold ws_width_end. by rewrite !Hn.
Qed.

(** *** Hosts *)
Lemma split_char_all (P : byte → bool) c s : forallb (forallb P) (split_char c s) = true → ∀ x, x ∈ s → x = c ∨ P x = true.
Proof.
  induction s as [|d s IH]; [by intros _ x ?%elem_of_nil|]. cbn [split_char]. pose proof (split_char_ne c s) as Hn. case_decide as E.
  - intros [_ Hs]%andb_prop x [->|Hx]%elem_of_cons; auto.
  - destruct (split_char c s) as [|x xs]; [done|]. cbn. intros [[Hd Hx]%andb_prop Hxs]%andb_prop y [->|Hy]%elem_of_cons; [by right|].
    apply IH; [|done]. cbn. by rewrite Hx, Hxs.
Qed.

(** A host that is not an IPv6 address. *)
Definition plain_host (h : str) : Prop := h ≠ [] ∧ ∀ c, c ∈ h → visible c = true ∧ c ≠ x3a ∧ c ≠ x5b.

Lemma valid_host_plain h : valid_host h = true → plain_host h.
Proof.
  unfold valid_host. assert (∀ c, (is_alnum c || bool_decide (c = x2d)) || bool_decide (c = x2e) = true → visible c = true ∧ c ≠ x3a ∧ c ≠ x5b) as Hc.
  { intros c Hc. pose proof (byte_forall (λ c, negb (is_alnum c || bool_decide (c = x2d) || bool_decide (c = x2e)) ||
      (visible c && negb (bool_decide (c = x3a)) && negb (bool_decide (c = x5b)))) ltac:(by vm_compute) c) as H. cbn beta in H. rewrite Hc in H. cbn [negb orb] in H.
    apply andb_prop in H as [[H1 H2]%andb_prop H3]. split_and!; [done|intros ->; by vm_compute in H2|intros ->; by vm_compute in H3]. }
  destruct (forallb _ h) eqn:Ed; intros Hv.
  - split; [intros ->; by vm_compute in Hv|]. intros c Hin. apply Hc. rewrite List.forallb_forall in Ed. specialize (Ed c ltac:(by apply list_elem_of_In)).
    unfold is_alnum, is_ascii_digit in *. apply orb_prop in Ed as [->| ->]; [done|by rewrite orb_true_r].
  - split; [by intros ->|]. intros c Hin. apply Hc.
    assert (forallb (forallb (λ c, is_alnum c || bool_decide (c = x2d))) (split_char x2e h) = true) as Ha.
    { rewrite List.forallb_forall in *. intros l Hl%Hv. unfold host_label in Hl. by apply andb_prop in Hl as [_ ?]. }
    destruct (split_char_all _ _ _ Ha c Hin) as [-> | ->]; [by rewrite orb_true_r|done].
Qed.

(** *** Ports *)
Lemma listen_port_spec text p : listen_port text = Some p → 1 <= p <= u16_max ∧ listen_port (show_dec p) = Some p.
Proof.
  unfold listen_port at 1. destruct (_ || _); [done|]. destruct (parse_u16 text) as [q|] eqn:Eq; [|done]. cbn [mbind option_bind]. case_decide; [|done]. intros [= ->].
  pose proof (parse_uint_range _ _ _ Eq) as Hr. split; [lia|]. unfold listen_port. rewrite parse_u16_dec by lia. cbn [mbind option_bind].
  pose proof (show_dec_digits p ltac:(unfold u16_max in *; lia)) as Hd.
  assert (forallb is_ascii_digit (show_dec p) = true) as ->.
  { apply List.forallb_forall. by rewrite List.Forall_forall in Hd. }
  assert (is_empty (show_dec p) = false) as ->.
  { destruct (show_dec p) eqn:E; [|done]. apply (f_equal parse_u16) in E. by rewrite parse_u16_dec in E by lia. }
  cbn. by rewrite decide_True by lia.
Qed.

Lemma find2_Some c d s i : c ≠ d → find2 c d s = Some i → ∃ r, s = take i s ++ c :: d :: r ∧ ∀ r', find2 c d (take i s ++ c :: d :: r') = Some i.
Proof.
  intros Hcd. revert i. induction s as [|a s IH]; intros i; [done|]. destruct s as [|b s]; [done|]. rewrite find2_cons. case_decide as E.
  - intros [= <-]. destruct E as [-> ->]. exists s. split; [done|]. intros r'. cbn [take app]. rewrite find2_cons. by rewrite decide_True.
  - intros Hi. apply fmap_Some in Hi as (j & Hj & ->). destruct (IH j Hj) as (r & Hr & Hf). exists r. cbn [take app]. split; [by f_equal|].
    intros r'. specialize (Hf r'). destruct j as [|j]; cbn [take app] in *.
    + cbn in Hr. injection Hr as -> ->. rewrite find2_cons, decide_False by (intros [_ ?]; congruence). by rewrite Hf.
    + rewrite find2_cons, decide_False by done. by rewrite Hf.
Qed.

Lemma find2_parts rest i : find2 x5d x3a rest = Some i →
  rest = take i rest ++ x5d :: x3a :: drop (i + 2) rest ∧ length (take i rest) = i ∧ ∀ r, find2 x5d x3a (take i rest ++ x5d :: x3a :: r) = Some i.
Proof.
  intros Hi. pose proof (find2_Some x5d x3a rest i ltac:(done) Hi) as (r & Hr & Hf).
  assert (length (take i rest) = i) as Hl.
  { rewrite length_take. apply (f_equal length) in Hr. rewrite length_app, length_take in Hr. cbn in Hr. lia. }
  split_and!; [|done..]. rewrite Hr at 1. f_equal. f_equal. f_equal. rewrite Hr. rewrite drop_app. rewrite Hl, drop_ge by lia.
  by replace (i + 2 - i)%nat with 2%nat by lia.
Qed.

(** The accepted text of a host and a port. *)
Lemma parse_listen_plain h p : valid_host h = true → 1 <= p <= u16_max → listen_port (show_dec p) = Some p →
  parse_listen (h ++ B ":" ++ show_dec p) = Some (h ++ B ":" ++ show_dec p) ∧ split_host_port (h ++ B ":" ++ show_dec p) = Some (h, p) ∧
  has_whitespace (h ++ B ":" ++ show_dec p) = false.
Proof.
  intros Hh Hp Hl. destruct (valid_host_plain _ Hh) as [Hne Hc]. change (h ++ B ":" ++ show_dec p) with (h ++ x3a :: show_dec p).
  assert (has_whitespace (h ++ x3a :: show_dec p) = false) as Hw.
  { apply has_whitespace_visible. rewrite forallb_app. cbn [forallb]. rewrite show_dec_visible by lia. assert (forallb visible h = true) as ->; [|done].
    apply List.forallb_forall. intros c Hin. by apply Hc, list_elem_of_In. }
  assert (strip_prefix (B "[") (h ++ x3a :: show_dec p) = None) as Hs.
  { destruct h as [|c h]; [done|]. cbn. destruct (Hc c ltac:(by left)) as (_ & _ & ?). by rewrite decide_False by congruence. }
  assert (rfind x3a (h ++ x3a :: show_dec p) = Some (length h)) as Hr by by apply rfind_app, show_dec_not_colon; lia.
  split_and!; [| |done].
  - unfold parse_listen, listen_parts. rewrite Hw, Hs, Hr. cbn [mbind option_bind]. rewrite take_app_length, Hh. cbn [mbind option_bind]. rewrite drop_past, Hl. done.
  - unfold split_host_port. rewrite Hs, Hr, take_app_length, drop_past, parse_u16_dec by lia. done.
Qed.

(** An address that the settings accept: it has a port from 1 and a host, which is an IPv4 address, a host name or an IPv6
    address in brackets; it is kept in a form that is accepted again as it is, and the rest of the client splits it into
    this host and this port. *)
Theorem parse_listen_correct text l : parse_listen text = Some l →
  ∃ host port, 1 <= port <= u16_max ∧ parse_listen l = Some l ∧ split_host_port l = Some (host, port) ∧ has_whitespace l = false ∧
    (valid_host host = true ∧ l = host ++ B ":" ++ show_dec port ∨ is_Some (parse_ipv6 host) ∧ l = B "[" ++ host ++ B "]:" ++ show_dec port).
Proof.
  unfold parse_listen at 1, listen_parts. destruct (has_whitespace text) eqn:Hw; [done|]. destruct (strip_prefix (B "[") text) as [rest|] eqn:Es.
  - destruct (find2 x5d x3a rest) as [i|] eqn:Ei; [|done]. cbn [mbind option_bind]. destruct (parse_ipv6 (take i rest)) as [o|] eqn:Eo; [|done]. cbn [mbind option_bind].
    destruct (listen_port (drop (i + 2) rest)) as [p|] eqn:Ep; [|done]. cbn [mbind option_bind]. intros [= <-].
    apply listen_port_spec in Ep as [Hp Hl]. apply strip_prefix_Some in Es as ->. destruct (find2_parts _ _ Ei) as (Hr & Hlen & Hf).
    set (ip := take i rest) in *. exists ip, p. change ((B "[" ++ ip ++ B "]") ++ B ":" ++ show_dec p) with (x5b :: (ip ++ [x5d]) ++ x3a :: show_dec p).
    rewrite <-app_assoc. set (l := ip ++ x5d :: x3a :: show_dec p). change (x5b :: ip ++ [x5d] ++ x3a :: show_dec p) with (x5b :: l).
    assert (has_whitespace (x5b :: l) = false) as Hwl.
    { rewrite Hr in Hw. change (B "[" ++ ip ++ ?r) with ([x5b] ++ ip ++ r) in Hw. change (x5b :: l) with (([x5b] ++ ip) ++ x5d :: x3a :: show_dec p).
      rewrite app_assoc, has_whitespace_app in Hw by done. apply orb_false_iff in Hw as [Hw _].
      rewrite has_whitespace_app by done. rewrite Hw. apply has_whitespace_visible. cbn [forallb]. by rewrite show_dec_visible by lia. }
    assert (find2 x5d x3a l = Some i) as Hfl by apply Hf.
    assert (take i l = ip ∧ drop (i + 2) l = show_dec p) as [Ht Hd].
    { unfold l. rewrite <-Hlen at 1. rewrite take_app_length. split; [done|]. rewrite drop_app, Hlen, drop_ge by lia. by replace (i + 2 - i)%nat with 2%nat by lia. }
    split_and!; [lia|lia| | |done|right; by split].
    + change (parse_listen (x5b :: l) = Some (x5b :: l)). unfold parse_listen, listen_parts. rewrite Hwl. change (strip_prefix (B "[") (x5b :: l)) with (Some l). cbn beta iota. rewrite Hfl. cbn [mbind option_bind].
      rewrite Ht, Eo. cbn [mbind option_bind]. rewrite Hd, Hl. cbn [mbind option_bind]. unfold l. by rewrite <-!app_assoc.
    + change (split_host_port (x5b :: l) = Some (ip, p)). unfold split_host_port. change (strip_prefix (B "[") (x5b :: l)) with (Some l). cbn beta iota. rewrite Hfl. change (drop 1 (x5b :: l)) with l. rewrite Ht, Hd, parse_u16_dec by lia. done.
  - destruct (rfind x3a text) as [i|] eqn:Ei; [|done]. cbn [mbind option_bind]. destruct (valid_host (take i text)) eqn:Ev; [|done]. cbn [mbind option_bind].
    destruct (listen_port (drop (i + 1) text)) as [p|] eqn:Ep; [|done]. cbn [mbind option_bind]. intros [= <-].
    apply listen_port_spec in Ep as [Hp Hl]. exists (take i text), p. destruct (parse_listen_plain _ _ Ev Hp Hl) as (H1 & H2 & H3). split_and!; [lia|lia|done..|]. by left.
Qed.

(** ** Values of the sheet *)
Section values.
Context `{UrlLib}.

Definition good_url (v : str) : Prop := ∃ u, url_parse v = Some u ∧ (scheme u = B "http" ∨ scheme u = B "https") ∧ is_Some (host_str u).

(** The values that are accepted for a setting. *)
Definition good_value (k : SettingKey) (v : str) : Prop :=
  match k with
  | MixedPort => ∃ port, 1 <= port <= u16_max ∧ v = show_dec port
  | UpdateHours => ∃ hours, 1 <= hours <= u32_max ∧ v = show_dec hours
  | PacListen => parse_listen v = Some v ∧ ∃ host port, 1 <= port <= u16_max ∧ split_host_port v = Some (host, port) ∧
                   (valid_host host = true ∨ is_Some (parse_ipv6 host))
  | DirectUrl | ProxyUrl => good_url v
  | OnlinePacUrl => v = [] ∨ good_url v
  end.

Lemma parse_positive_spec max text n : parse_positive max text = Some n → 1 <= n <= max.
Proof.
  unfold parse_positive. destruct (parse_uint max text) as [m|] eqn:E; [|done]. cbn [mbind option_bind]. case_decide; [|done]. intros [= <-].
  apply parse_uint_range in E. lia.
Qed.
Lemma parse_positive_dec max n : 1 <= n <= max → max < 10 ^ 64 → parse_positive max (show_dec n) = Some n.
Proof. intros Hn Hm. unfold parse_positive. rewrite parse_uint_show_dec by lia. cbn [mbind option_bind]. by rewrite decide_True by lia. Qed.

Lemma http_url_spec t v : http_url t = inl v → v = t ∧ good_url v.
Proof.
  unfold http_url. destruct (url_parse t) as [u|] eqn:E; [|done]. destruct (_ && _) eqn:Eb; [|done]. intros [= <-]. split; [done|]. exists u. split; [done|].
  apply andb_prop in Eb as [[Hs|Hs]%orb_prop Hh]; apply bool_decide_eq_true in Hs, Hh; auto.
Qed.

Lemma validate_good k text v : validate k text = inl v → good_value k v.
Proof.
  unfold validate. destruct k; cbv zeta.
  - destruct (parse_positive _ _) as [p|] eqn:E; [|done]. intros [= <-]. exists p. by apply parse_positive_spec in E.
  - by intros [_ ?]%http_url_spec.
  - by intros [_ ?]%http_url_spec.
  - destruct (parse_positive _ _) as [p|] eqn:E; [|done]. intros [= <-]. exists p. by apply parse_positive_spec in E.
  - destruct (parse_listen _) as [l|] eqn:E; [|done]. intros [= <-]. apply parse_listen_correct in E as (h & p & Hp & Hl & Hs & _ & Hh). split; [done|].
    exists h, p. split_and!; [lia|lia|done|]. destruct Hh as [[? _]|[? _]]; auto.
  - destruct (is_empty _); [intros [= <-]; by left|]. intros [_ ?]%http_url_spec. by right.
Qed.

(** What the settings accept is a port, an interval, an address or a URL as the client can use it, and is accepted again
    as it was kept. *)
Theorem validate_correct k text v : validate k text = inl v → good_value k v ∧ validate k v = inl v.
Proof.
  intros E. pose proof (validate_good _ _ _ E) as Hg. split; [done|]. revert E. unfold validate. destruct k; cbv zeta; cbn [good_value] in Hg.
  - destruct Hg as (p & Hp & ->). rewrite show_dec_trim by (unfold u16_max in *; lia). by rewrite parse_positive_dec by (unfold u16_max in *; lia).
  - intros E. pose proof (http_url_spec _ _ E) as [-> _]. by rewrite trim_idem.
  - intros E. pose proof (http_url_spec _ _ E) as [-> _]. by rewrite trim_idem.
  - destruct Hg as (p & Hp & ->). rewrite show_dec_trim by (unfold u32_max in *; lia). by rewrite parse_positive_dec by (unfold u32_max in *; lia).
  - destruct (parse_listen (trim text)) as [l|] eqn:E; [|done]. intros [= <-]. apply parse_listen_correct in E as (h & p & Hp & Hl & Hs & Hw & _).
    by rewrite has_whitespace_trim, Hl.
  - destruct (is_empty (trim text)) eqn:Ee; [by intros [= <-]|]. intros E. pose proof (http_url_spec _ _ E) as [-> _]. by rewrite trim_idem, Ee.
Qed.
End values.

Lemma validate_correct_witness : validate (H := ShareLink.Sample.lib) MixedPort (B "02080") = inl (B "2080") ∧ good_value (H := ShareLink.Sample.lib) MixedPort (B "2080").
Proof. split; [by vm_compute|]. apply (validate_correct (H := ShareLink.Sample.lib) MixedPort (B " 02080 ")). by vm_compute. Defined.
