(* ===== verification/App.v ===== *)
(** * The controller as a whole: every call of the interface

    The overview page, all calls of the controller as one machine, and what holds of
    each of them: the changes it reports cover what the pages show, indices stay in
    range, the controller agrees with the core, and only Save writes the node list. *)
From S2P Require Import Prelude Std Net Text Link Traffic Logs Qr Pac Storage Persist Nodes ShareLink SystemProxy Profile Tray Controller Editor Save Settings.
#[local] Open Scope Z_scope.

(** ** [overview.rs]: the page *)

(** A local time: its day, and its two formats. *)
Record DateTime := mkDate { day : Z; hour_minute : str; year_month_day : str }.

Definition rules_stamp (updated now : DateTime) : Z * str :=
  let days := Z.max (day now - day updated) 0 in
  if decide (days = 0 ∨ days = 1) then (days, hour_minute updated) else (2, year_month_day updated).

Record OverviewSnapshot := mkOverview {
  running : bool;
  active_name : str;
  active_address : str;
  local_host : str;
  local_port : str;
  ov_pac_url : str;
  proxy_mode : SystemProxyMode;
  pac_rule : PacRuleMode;
  rules_age_days : Z;
  rules_time : str;
  ov_rules_updating : bool;
}.

Definition protocol_text (p : ProxyProtocol) : str := match p with Juicity => B "juicity" | Shadowsocks => B "shadowsocks" end.

Definition active_texts (g : GuiState) : str * str :=
  match state_profile g with
  | Some p =>
      (display_name p,
       if is_empty (server p) then protocol_text (protocol p)
       else protocol_text (protocol p) ++ B " " ++ [xc2; xb7] ++ B " " ++ format_host_port (server p) (server_port p))
  | None => ([], [])
  end.

(** [times] are those of the rule files and of the clock; [None] is the panic of [split_host_port]. *)
Definition overview (times : option (DateTime * DateTime)) (c : Controller) : option OverviewSnapshot :=
  let cfg := config (gui c) in
  '(host, port) ← split_host_port (mixed_listen cfg);
  let '(name, address) := active_texts (gui c) in
  let '(age, time) := match times with Some (updated, now) => rules_stamp updated now | None => (-1, []) end in
  Some (mkOverview (connected c) name address host (show_dec port) (effective_pac_url cfg) (system_proxy_mode cfg) (pac_rule_mode cfg) age time (rules_updating c)).

(** ** Every call *)
Inductive Op :=
  | OStartup (now : Z) | OToggle (now : Z) | OSetProxyMode (mode : SystemProxyMode) (now : Z) | OSetPacRule (rule : PacRuleMode) (now : Z)
  | OUpdateRules | OFinishRules (r : result unit) | OCopyPacUrl | OPoll (now : Z)
  | ODismiss | OExpire (seq : Z) | OFlushDue (now : Z) | OFilesChanged (now : Z)
  | OSelect (index : nat) | OAdd (name : str) | OCommand (index : nat) (command : ListCommand) (now : Z) | OEdit (field : DraftField) (value : str)
  | OSetActive (now : Z) | OActivate (index : nat) (now : Z) | OImport | OImportText (text : str) | OExport | OShareQr | OCloseQr
  | OOpenAdvanced | OEditAdvanced (field : DraftField) (value : str) | OCommitAdvanced | OCancelAdvanced
  | OSave | ORevert | ORequestLeave (l : Leave) | OAnswer (a : Answer)
  | OLanguage (x : LanguagePreference) (now : Z) | OAppearance (x : AppearancePreference) (now : Z) | OAutostart (supported x : bool) (now : Z)
  | OInstallIcon | OHide (x : bool) (now : Z) | OCloseToTray (x : bool) (now : Z) | OStartupState (x : StartupConnectionState) (now : Z)
  | OPacSource (x : PacMode) (now : Z) | OHours (x : Z) (now : Z) | OOpen (k : SettingKey) | OEditSetting (text : str) | OCancelSetting | OCommit (now : Z)
  | ORefreshLogs | ORefreshTraffic | OReloadLogs | OReloadTraffic | OFollow (x : bool) | OClearLogs.

(** [on_tray]; events of the window are the interface's. *)
Definition on_tray (event : TrayEvent) (now : Z) : option Op :=
  match event with
  | ToggleConnection => Some (OToggle now)
  | SetProxyMode mode => Some (OSetProxyMode mode now)
  | SetPacRule rule => Some (OSetPacRule rule now)
  | UpdateRules => Some OUpdateRules
  | SelectNode index => Some (OActivate index now)
  | ImportClipboard => Some OImport
  | ToggleWindow | Open | ShowNodes | ShowLogs | ShowSettings | ShowAbout | TQuit => None
  end.

Section app.
Context `{Codec AppConfig, Codec ProfileStore, Codec RuntimeState} {S : Type} `{Effects S, Files S, Place, UrlLib, QrLib}.
Implicit Types w : World S.

Definition on_logs (f : LogsState → LogsState) w : World S := upd (λ c, with_logs (f (logs c)) c) w.
Definition logs_call (f : LogsState → LogsState * bool) (ch : Changes) w : World S * Changes :=
  (on_logs (λ l, (f l).1) w, if (f (logs (ctl w))).2 then ch else NONE).

(** [None] is a panic. *)
Definition perform (o : Op) w : option (World S * Changes) :=
  match o with
  | OStartup now => Some (startup now w).1
  | OToggle now => Some (toggle_connection now w)
  | OSetProxyMode mode now => Some (set_proxy_mode mode now w)
  | OSetPacRule rule now => Some (set_pac_rule rule now w)
  | OUpdateRules => Some (update_rules w).1
  | OFinishRules r => Some (finish_rules r w)
  | OCopyPacUrl => Some (copy_pac_url w)
  | OPoll now => Some (poll_core now w)
  | ODismiss => Some (dismiss_notice w)
  | OExpire seq => Some (expire_notice seq w)
  | OFlushDue now => Some (flush_due now w)
  | OFilesChanged now => Some (on_files_changed now w)
  | OSelect index => Some (select_node index w)
  | OAdd name => Some (add_node name w)
  | OCommand index command now => Some (node_command index command now w)
  | OEdit field value => Some (edit_node field value w)
  | OSetActive now => Some (set_active_node now w)
  | OActivate index now => Some (activate_node index now w)
  | OImport => import_links w
  | OImportText text => import_text text w
  | OExport => Some (export_link w)
  | OShareQr => Some (share_qr_code w)
  | OCloseQr => Some (close_qr_code w)
  | OOpenAdvanced => Some (open_advanced w)
  | OEditAdvanced field value => Some (edit_advanced field value w)
  | OCommitAdvanced => Some (commit_advanced w)
  | OCancelAdvanced => Some (cancel_advanced w)
  | OSave => Some (save_nodes w)
  | ORevert => Some (revert_nodes w)
  | ORequestLeave l => Some (request_leave l w).1
  | OAnswer a => Some (answer_prompt a w).1
  | OLanguage x now => Some (set_language x now w)
  | OAppearance x now => Some (set_appearance x now w)
  | OAutostart supported x now => Some (set_autostart supported x now w)
  | OInstallIcon => Some (install_app_icon w)
  | OHide x now => Some (set_hide_on_start x now w)
  | OCloseToTray x now => Some (set_close_to_tray x now w)
  | OStartupState x now => Some (set_startup_connection x now w)
  | OPacSource x now => Some (set_pac_source x now w)
  | OHours x now => Some (set_update_hours x now w)
  | OOpen k => open_setting k w
  | OEditSetting text => Some (edit_setting text w)
  | OCancelSetting => Some (cancel_setting w)
  | OCommit now => commit_setting now w
  | ORefreshLogs => Some (logs_call refresh_logs LOGS w)
  | ORefreshTraffic => Some (logs_call refresh_traffic TRAFFIC w)
  | OReloadLogs => Some (on_logs reload_logs w, LOGS)
  | OReloadTraffic => Some (on_logs reload_traffic w, TRAFFIC)
  | OFollow x => Some (logs_call (set_log_follow x) LOGS w)
  | OClearLogs => Some (on_logs clear_logs w, LOGS)
  end.

(** ** The reported changes cover what the pages show *)
Inductive View := VOverview | VNotice | VPersist | VNodes | VEditor | VSettings | VLogs.

Definition flag (v : View) (ch : Changes) : bool :=
  match v with
  | VOverview => ch_overview ch
  | VNotice => ch_notice ch
  | VPersist => ch_persist ch
  | VNodes => ch_nodes ch
  | VEditor => ch_editor ch
  | VSettings => ch_settings ch
  | VLogs => ch_logs ch
  end.

(** A view shows the same; a save that was pending may have been made. *)
Definition same (v : View) w w' : Prop :=
  match v with
  | VOverview => ∀ times, overview times (ctl w') = overview times (ctl w)
  | VNotice => notice (ctl w') = notice (ctl w) ∧ notice_seq (ctl w') = notice_seq (ctl w)
  | VPersist => due (persist (ctl w')) = due (persist (ctl w)) ∨ due (persist (ctl w')) = None
  | VNodes => nodes_snapshot (ctl w') = nodes_snapshot (ctl w)
  | VEditor => draft (nodes (ctl w')) = draft (nodes (ctl w))
  | VSettings => settings_snapshot (ctl w') = settings_snapshot (ctl w)
  | VLogs => Logs.logs (logs (ctl w')) = Logs.logs (logs (ctl w))
  end.

Definition covered w w' (ch : Changes) : Prop := ∀ v, flag v ch = false → same v w w'.
Definition within (a b : Changes) : Prop := ∀ v, flag v a = true → flag v b = true.

Lemma same_refl v w : same v w w.
Proof. destruct v; cbn; auto. Qed.
Lemma same_trans v w1 w2 w3 : same v w1 w2 → same v w2 w3 → same v w1 w3.
Proof.
  destruct v; cbn; intros E1 E2.
  - intros t. by rewrite E2.
  - destruct E1, E2. split; congruence.
  - destruct E2 as [E2|E2]; [|auto]. destruct E1; [left|right]; congruence.
  - congruence.
  - congruence.
  - congruence.
  - congruence.
Qed.
Lemma covered_refl w ch : covered w w ch.
Proof. intros v _. apply same_refl. Qed.
Lemma covered_trans w1 w2 w3 a b ch : covered w1 w2 a → covered w2 w3 b → within (a ∪ b) ch → covered w1 w3 ch.
Proof.
  intros C1 C2 Hw v Hv. assert (flag v (a ∪ b) = false) as Hf by (destruct (flag v (a ∪ b)) eqn:E; [apply Hw in E; congruence|done]).
  assert (flag v a = false ∧ flag v b = false) as [Ha Hb] by (destruct v; unfold union, changes_union in Hf; cbn in Hf; by apply orb_false_iff in Hf).
  eapply same_trans; eauto.
Qed.
Lemma covered_seq w1 w2 w3 a b : covered w1 w2 a → covered w2 w3 b → covered w1 w3 (a ∪ b).
Proof. intros C1 C2. eapply covered_trans; [exact C1|exact C2|]. by intros v Hv. Qed.
Lemma covered_within w w' a ch : covered w w' a → within a ch → covered w w' ch.
Proof. intros Hc Hw v Hv. apply Hc. destruct (flag v a) eqn:E; [apply Hw in E; congruence|done]. Qed.
End app.

Create HintDb covered.
#[export] Hint Resolve covered_refl : covered.

(** Inclusion of unions of changes. *)
Ltac solve_within := let v := fresh in intros v; destruct v; unfold union, changes_union; cbn; rewrite ?orb_true_iff; first [tauto|intuition discriminate].
(** A change of fields that the views of [ch] do not read. *)
Ltac solve_quiet := let v := fresh in let Hv := fresh in intros v Hv; destruct v; cbn in Hv |- *; first [discriminate Hv | by auto].
(** The calls of a composed operation, one after the other. *)
Ltac split_calls E :=
  repeat match type of E with
  | context [let '(_, _) := ?e in _] => let w := fresh "w" in let c := fresh "c" in let Ec := fresh "Ec" in destruct e as [w c] eqn:Ec
  | context [match ?e with (_, _) => _ end] => let w := fresh "w" in let c := fresh "c" in let Ec := fresh "Ec" in destruct e as [w c] eqn:Ec
  | context [if ?b then _ else _] => let Eb := fresh "Eb" in destruct b eqn:Eb
  end.

Section coverage.
Context `{Codec AppConfig, Codec ProfileStore, Codec RuntimeState} {S : Type} `{Effects S, Files S, Place, UrlLib, QrLib}.
Implicit Types w : World S.

Lemma quiet_outside s w ch : covered w (with_outside s w) ch.
Proof. intros v _. by destruct v; cbn; auto. Qed.

Lemma set_notice_covered n w w' ch : set_notice n w = (w', ch) → covered w w' ch.
Proof. intros [= <- <-]. solve_quiet. Qed.
Lemma mark_covered f now w w' ch : mark_dirty f now w = (w', ch) → covered w w' ch.
Proof. intros [= <- <-]. solve_quiet. Qed.
Lemma restart_pac_covered force w w' r ch : restart_pac force w = (w', r) → covered w w' ch.
Proof.
  unfold restart_pac, restart_pac_server. destruct (load_rules _) as [direct proxy]. repeat case_match; simplify_eq; intros [= <- <-]; solve_quiet.
Qed.
Lemma apply_covered w w' ch : apply_system_proxy_now w = (w', ch) → covered w w' ch.
Proof.
  unfold apply_system_proxy_now. destruct (apply_proxy _ _) as [s [u|e]].
  - intros [= <- <-]. apply quiet_outside.
  - intros E. apply set_notice_covered in E. eapply (covered_trans _ _ _ NONE); [apply quiet_outside|exact E|solve_within].
Qed.
Lemma flush_all_covered now w w' r : flush_all now w = (w', r) → covered w w' PERSIST.
Proof. unfold flush_all. destruct (flush _ _ _ _ _ _ _ _) as [[p d] r']. intros [= <- <-]. solve_quiet. Qed.

Lemma flush_all_due now w w' u : flush_all now w = (w', Ok u) → due (persist (ctl w')) = None.
Proof.
  unfold flush_all, flush. pose proof (flush_fold content_hash config_dir (file_fault (outside w)) (gui (ctl w)) (saved (ctl w)) now ALL
    (mkPersist (dirty (persist (ctl w))) None (known (persist (ctl w)))) (disk w) (Ok tt) ALL_NoDup) as Hf.
  destruct (foldl _ _ ALL) as [[p d] r]. destruct Hf as (_ & _ & W3 & W4 & _). intros [= <- ->]. cbn [ctl with_persist persist].
  destruct (decide (Exists (λ f, dirty (persist (ctl w)) f = true ∧ fails (file_fault (outside w)) (gui (ctl w)) (saved (ctl w)) f = true) ALL)) as [Hex|Hno].
  - apply Exists_exists in Hex as (f & Hin & Hd & Hff). by destruct (W3 f Hin Hd Hff) as [_ [e ?]].
  - destruct W4 as [-> _]; [|done]. intros f Hin Hd. apply not_true_iff_false. intros Hff. apply Hno, Exists_exists. eauto.
Qed.

Lemma start_active_covered now w w' ch : start_active now w = (w', ch) → covered w w' ch.
Proof.
  unfold start_active. destruct (state_profile _) as [p|]; [|apply set_notice_covered].
  destruct (missing_fields p) as [|f fs]; [|apply set_notice_covered].
  set (w1 := upd reset_traffic w). assert (covered w w1 NONE) as C1 by solve_quiet.
  destruct (start_core _ _ _) as [s [u|e]].
  - set (w2 := upd _ (with_outside s w1)). assert (covered w w2 (OVERVIEW ∪ NODES)) as C2 by solve_quiet.
    destruct (mark_dirty Runtime now w2) as [w3 c3] eqn:E3. apply mark_covered in E3.
    destruct (start_notice _).
    + destruct (dismiss_notice w3) as [w4 c4] eqn:E4. apply set_notice_covered in E4. intros [= <- <-].
      eapply covered_trans; [eapply covered_seq; [exact C2|exact E3]|exact E4|solve_within].
    + intros [= <- <-]. eapply covered_trans; [exact C2|exact E3|solve_within].
  - destruct (connected (ctl (with_outside s w1))).
    + set (w2 := upd disconnect _). assert (covered w w2 (OVERVIEW ∪ NODES)) as C2 by solve_quiet.
      destruct (mark_dirty Runtime now w2) as [w3 c3] eqn:E3. apply mark_covered in E3.
      destruct (set_notice _ w3) as [w5 c5] eqn:E5. apply set_notice_covered in E5. intros [= <- <-].
      eapply covered_trans; [eapply covered_seq; [exact C2|exact E3]|exact E5|solve_within].
    + destruct (set_notice _ (with_outside s w1)) as [w5 c5] eqn:E5. apply set_notice_covered in E5. intros [= <- <-].
      eapply (covered_trans _ _ _ NONE); [solve_quiet|exact E5|solve_within].
Qed.

Lemma toggle_covered now w w' ch : toggle_connection now w = (w', ch) → covered w w' ch.
Proof.
  unfold toggle_connection. case_match; [|apply start_active_covered].
  set (w2 := upd disconnect _). assert (covered w w2 (OVERVIEW ∪ NODES)) as C2 by solve_quiet.
  destruct (mark_dirty Runtime now w2) as [w3 c3] eqn:E3. apply mark_covered in E3. intros [= <- <-].
  eapply covered_trans; [exact C2|exact E3|solve_within].
Qed.

Lemma set_proxy_mode_covered mode now w w' ch : set_proxy_mode mode now w = (w', ch) → covered w w' ch.
Proof.
  unfold set_proxy_mode. case_decide; [intros [= <- <-]; apply covered_refl|].
  set (w1 := upd _ w). assert (covered w w1 OVERVIEW) as C1 by solve_quiet.
  destruct (mark_dirty App now w1) as [w2 c2] eqn:E2. apply mark_covered in E2.
  destruct (apply_system_proxy_now w2) as [w3 c3] eqn:E3. apply apply_covered in E3. intros [= <- <-].
  eapply covered_trans; [eapply covered_seq; [exact C1|exact E2]|exact E3|solve_within].
Qed.

Lemma set_pac_rule_covered rule now w w' ch : set_pac_rule rule now w = (w', ch) → covered w w' ch.
Proof.
  unfold set_pac_rule. case_decide; [intros [= <- <-]; apply covered_refl|].
  set (w1 := upd _ w). assert (covered w w1 OVERVIEW) as C1 by solve_quiet.
  destruct (restart_pac false w1) as [w2 r2] eqn:E2. apply (restart_pac_covered _ _ _ _ NONE) in E2.
  destruct (mark_dirty App now w2) as [w3 c3] eqn:E3. apply mark_covered in E3. intros [= <- <-].
  eapply covered_trans; [eapply covered_seq; [exact C1|exact E2]|exact E3|solve_within].
Qed.

Lemma update_rules_covered w w' ch : (update_rules w).1 = (w', ch) → covered w w' ch.
Proof. unfold update_rules, begin_rules. destruct (rules_updating (ctl w)); intros [= <- <-]; [apply covered_refl|solve_quiet]. Qed.

Lemma finish_rules_covered r w w' ch : finish_rules r w = (w', ch) → covered w w' ch.
Proof.
  unfold finish_rules. set (w1 := upd _ w). assert (covered w w1 OVERVIEW) as C1 by solve_quiet. destruct r as [u|e].
  - destruct (restart_pac false w1) as [w2 r2] eqn:E2. apply (restart_pac_covered _ _ _ _ NONE) in E2.
    destruct (set_notice _ w2) as [w3 c3] eqn:E3. apply set_notice_covered in E3. intros [= <- <-].
    eapply covered_trans; [eapply covered_seq; [exact C1|exact E2]|exact E3|solve_within].
  - destruct (set_notice _ w1) as [w3 c3] eqn:E3. apply set_notice_covered in E3. intros [= <- <-].
    eapply covered_trans; [exact C1|exact E3|solve_within].
Qed.

Lemma outside_notice_covered s n w w' ch : set_notice n (with_outside s w) = (w', ch) → covered w w' ch.
Proof. intros E%set_notice_covered. eapply (covered_trans _ _ _ NONE); [apply quiet_outside|exact E|solve_within]. Qed.

Lemma copy_pac_url_covered w w' ch : copy_pac_url w = (w', ch) → covered w w' ch.
Proof.
  unfold copy_pac_url. destruct (copy_text _ _) as [s [u|e]]; [apply outside_notice_covered|]. intros [= <- <-]. apply quiet_outside.
Qed.

Lemma poll_core_covered now w w' ch : poll_core now w = (w', ch) → covered w w' ch.
Proof.
  unfold poll_core. set (w1 := sample_traffic now w). assert (covered w w1 NONE) as C1.
  { unfold w1, sample_traffic. destruct (core_traffic _) as [s t]. solve_quiet. }
  destruct (connected (ctl w1)); [|by intros [= <- <-]]. destruct (poll_core_effect _) as [s [reason|]].
  - set (w2 := upd _ (with_outside s w1)). assert (covered w1 w2 (OVERVIEW ∪ NODES)) as C2 by solve_quiet.
    destruct (set_notice _ w2) as [w3 c3] eqn:E3. apply set_notice_covered in E3. intros [= <- <-].
    eapply covered_trans; [eapply covered_seq; [exact C1|exact C2]|exact E3|solve_within].
  - intros [= <- <-]. eapply covered_trans; [exact C1|apply (quiet_outside s _ NONE)|solve_within].
Qed.

Lemma flush_due_covered now w w' ch : flush_due now w = (w', ch) → covered w w' ch.
Proof.
  unfold flush_due, save_delay. destruct (delay now _) as [d|]; [|intros [= <- <-]; apply covered_refl].
  case_decide; [|intros [= <- <-]; apply covered_refl].
  destruct (flush_all now w) as [w1 [u|e]] eqn:E1.
  - intros [= <- <-]. intros v Hv. pose proof (flush_all_covered _ _ _ _ E1) as C1. destruct v; try (by apply C1). right.
    by eapply flush_all_due.
  - apply flush_all_covered in E1. destruct (set_notice _ w1) as [w2 c2] eqn:E2. apply set_notice_covered in E2. intros [= <- <-].
    eapply covered_trans; [exact E1|exact E2|solve_within].
Qed.

(** *** The editor *)
Lemma load_selected_covered w w' ch : load_selected w = (w', ch) → covered w w' ch.
Proof. intros [= <- <-]. solve_quiet. Qed.

Lemma overview_same c c' times :
  mixed_listen (config (gui c')) = mixed_listen (config (gui c)) → config (gui c') = config (gui c) → active_texts (gui c') = active_texts (gui c) →
  connected c' = connected c → rules_updating c' = rules_updating c → overview times c' = overview times c.
Proof. unfold overview. by intros -> -> -> -> ->. Qed.

Lemma commit_draft_covered w w' ch : commit_draft w = (w', ch) → covered w w' ch.
Proof.
  unfold commit_draft. set (w1 := upd _ w). assert (covered w w1 NODES) as C1 by solve_quiet.
  destruct (profiles (gui (ctl w1)) !! selected (nodes (ctl w1))) as [before|] eqn:Eb; [|by intros [= <- <-]].
  set (after := apply_draft _ before). set (w2 := upd _ w1). assert (covered w1 w2 (NODES ∪ OVERVIEW)) as C2 by solve_quiet.
  destruct (decide (after = before)) as [Ea|Ea]; [|case_decide as Hi]; intros [= <- <-].
  - eapply covered_trans; [exact C1| |instantiate (1 := NODES); solve_within]. intros v Hv. destruct v; try (by apply C2).
    intros times. apply overview_same; try done. unfold active_texts.
    assert (state_profile (gui (ctl w2)) = state_profile (gui (ctl w1))) as ->; [|done].
    change (<[selected (nodes (ctl w1)) := after]> (profiles (gui (ctl w1))) !! selected_profile (runtime (gui (ctl w1))) = state_profile (gui (ctl w1))).
    rewrite Ea. pose proof (list_insert_id _ _ _ Eb) as Hid. exact (f_equal (λ l : list ProxyProfile, l !! selected_profile (runtime (gui (ctl w1)))) Hid).
  - eapply covered_trans; [exact C1|exact C2|solve_within].
  - eapply covered_trans; [exact C1| |instantiate (1 := NODES); solve_within]. intros v Hv. destruct v; try (by apply C2).
    intros times. apply overview_same; try done. unfold active_texts.
    assert (state_profile (gui (ctl w2)) = state_profile (gui (ctl w1))) as ->; [|done].
    change (<[selected (nodes (ctl w1)) := after]> (profiles (gui (ctl w1))) !! selected_profile (runtime (gui (ctl w1))) = state_profile (gui (ctl w1))).
    by apply list_lookup_insert_ne.
Qed.

Lemma edit_node_covered field value w w' ch : edit_node field value w = (w', ch) → covered w w' (ch ∪ EDITOR).
Proof.
  unfold edit_node. set (w1 := upd _ w). assert (covered w w1 EDITOR) as C1 by solve_quiet.
  destruct (commit_draft w1) as [w2 c2] eqn:E2. apply commit_draft_covered in E2. intros Heq.
  assert (w' = w2 ∧ within c2 ch) as [-> Hw] by (destruct field; injection Heq as <- <-; (split; [done|solve_within])).
  eapply covered_trans; [exact C1|exact E2|]. intros v. specialize (Hw v).
  destruct v; unfold union, changes_union in *; cbn in *; rewrite ?orb_true_iff; first [tauto|intuition discriminate].
Qed.

Lemma select_node_covered index w w' ch : select_node index w = (w', ch) → covered w w' ch.
Proof.
  unfold select_node. case_decide; [intros [= <- <-]; apply covered_refl|]. set (w1 := upd _ w).
  intros [= <- <-]. solve_quiet.
Qed.

(** The active node is in the list. *)
Definition active_in_range w : Prop := (selected_profile (runtime (gui (ctl w))) < length (profiles (gui (ctl w))))%nat.

Lemma append_covered sel ps w : active_in_range w →
  covered w (upd (λ c, on_nodes (with_selected sel) (on_profiles (λ _, profiles (gui (ctl w)) ++ ps) c)) w) EDITOR.
Proof.
  intros Hr v Hv. destruct v; cbn in Hv |- *; first [discriminate Hv|auto]. intros times. apply overview_same; try done.
  match goal with |- active_texts (gui ?c) = _ => assert (state_profile (gui c) = state_profile (gui (ctl w))) as E end.
  { change ((profiles (gui (ctl w)) ++ ps) !! selected_profile (runtime (gui (ctl w))) = state_profile (gui (ctl w))). by apply lookup_app_l. }
  unfold active_texts. by rewrite E.
Qed.

Lemma add_node_covered name w w' ch : active_in_range w → add_node name w = (w', ch) → covered w w' ch.
Proof.
  intros Hr. unfold add_node. cbn [Nodes.add_node node_list n_profiles n_selected].
  match goal with |- load_selected ?x = _ → _ => set (w1 := x) end. assert (covered w w1 EDITOR) as C1 by by apply append_covered.
  intros E. apply load_selected_covered in E as C2. injection E as _ <-. eapply covered_trans; [exact C1|exact C2|solve_within].
Qed.

Lemma replace_active_covered now w w' ch : replace_active now w = (w', ch) → covered w w' ch.
Proof.
  unfold replace_active. match goal with |- context [if ?b then toggle_connection _ _ else _] => destruct b end.
  - destruct (toggle_connection now w) as [w1 c1] eqn:E1. apply toggle_covered in E1. destruct (start_active now w1) as [w2 c2] eqn:E2.
    apply start_active_covered in E2. intros [= <- <-]. eapply covered_trans; [exact E1|exact E2|solve_within].
  - destruct (start_active now w) as [w2 c2] eqn:E2. apply start_active_covered in E2. intros [= <- <-].
    eapply covered_within; [exact E2|solve_within].
Qed.

Lemma node_command_covered index command now w w' ch : node_command index command now w = (w', ch) → covered w w' ch.
Proof.
  unfold node_command. destruct (Nodes.node_command _ _ _) as [n|]; [|intros [= <- <-]; apply covered_refl].
  set (w1 := upd _ w). assert (covered w w1 (OVERVIEW ∪ NODES)) as C1 by solve_quiet.
  match goal with |- (let '(_, _) := (if ?b then _ else _) in _) = _ → _ => destruct b end.
  - destruct (load_selected w1) as [w2 c2] eqn:E2. apply load_selected_covered in E2.
    match goal with |- (if ?b then _ else _) = _ → _ => destruct b end.
    + destruct (replace_active now w2) as [w3 c3] eqn:E3. apply replace_active_covered in E3. intros [= <- <-].
      eapply covered_trans; [eapply covered_seq; [exact C1|exact E2]|exact E3|solve_within].
    + intros [= <- <-]. eapply covered_trans; [exact C1|exact E2|solve_within].
  - match goal with |- (if ?b then _ else _) = _ → _ => destruct b end.
    + destruct (replace_active now w1) as [w3 c3] eqn:E3. apply replace_active_covered in E3. intros [= <- <-].
      eapply covered_trans; [exact C1|exact E3|solve_within].
    + intros [= <- <-]. eapply covered_within; [exact C1|solve_within].
Qed.

Lemma switch_covered index now w w' ch :
  (let w1 := upd (set_working_active index) w in
   if connected (ctl w1) then let '(w2, c) := start_active now w1 in (w2, OVERVIEW ∪ NODES ∪ c) else (w1, OVERVIEW ∪ NODES)) = (w', ch) →
  covered w w' ch.
Proof.
  set (w1 := upd _ w). assert (covered w w1 (OVERVIEW ∪ NODES)) as C1 by solve_quiet. cbv zeta. case_match.
  - destruct (start_active now w1) as [w2 c2] eqn:E2. apply start_active_covered in E2. intros [= <- <-].
    eapply covered_trans; [exact C1|exact E2|solve_within].
  - by intros [= <- <-].
Qed.

Lemma set_active_node_covered now w w' ch : set_active_node now w = (w', ch) → covered w w' ch.
Proof.
  unfold set_active_node. destruct (profiles _ !! _) as [t|]; [|intros [= <- <-]; apply covered_refl].
  destruct (missing_fields t) as [|f fs]; [|apply set_notice_covered]. apply switch_covered.
Qed.

Lemma activate_node_covered index now w w' ch : activate_node index now w = (w', ch) → covered w w' ch.
Proof.
  unfold activate_node. destruct (profiles _ !! _) as [t|]; [|intros [= <- <-]; apply covered_refl].
  destruct (missing_fields t) as [|f fs]; [|apply set_notice_covered]. case_decide; [intros [= <- <-]; apply covered_refl|]. apply switch_covered.
Qed.

Lemma import_text_covered txt w w' ch : active_in_range w → import_text txt w = Some (w', ch) → covered w w' ch.
Proof.
  intros Hr. unfold import_text, Nodes.import_text. destruct (import_lines _) as [[added skipped]|]; [|done]. cbn [mbind option_bind].
  intros E. apply (inj Some) in E. revert E. case_decide as Hd; [apply set_notice_covered|].
  destruct added as [|p ps]; [done|]. cbn [n_selected n_profiles node_list].
  match goal with |- context [load_selected ?x] => set (w1 := x) end. assert (covered w w1 EDITOR) as C1 by by apply append_covered.
  destruct (load_selected w1) as [w2 c2] eqn:E2. apply load_selected_covered in E2 as C2. injection E2 as _ <-.
  destruct (set_notice _ w2) as [w3 c3] eqn:E3. apply set_notice_covered in E3. intros [= <- <-].
  eapply covered_trans; [eapply covered_seq; [exact C1|exact C2]|exact E3|solve_within].
Qed.

Lemma import_links_covered w w' ch : active_in_range w → import_links w = Some (w', ch) → covered w w' ch.
Proof.
  intros Hr. unfold import_links. destruct (paste_text _) as [s [text|e]].
  - intros E. apply import_text_covered in E; [|done]. eapply (covered_trans _ _ _ NONE); [apply quiet_outside|exact E|solve_within].
  - intros E. apply (inj Some) in E. by apply outside_notice_covered in E.
Qed.

Lemma export_link_covered w w' ch : export_link w = (w', ch) → covered w w' ch.
Proof.
  unfold export_link. destruct (share_link _) as [[l|n]|]; [|apply set_notice_covered|intros [= <- <-]; apply covered_refl].
  destruct (copy_text _ _) as [s [u|e]]; apply outside_notice_covered.
Qed.

Lemma share_qr_code_covered w w' ch : share_qr_code w = (w', ch) → covered w w' ch.
Proof.
  unfold share_qr_code. destruct (share_link _) as [[l|n]|]; [|apply set_notice_covered|intros [= <- <-]; apply covered_refl].
  destruct (mask l) as [m|e]; [|apply set_notice_covered]. intros [= <- <-]. solve_quiet.
Qed.

Lemma advanced_covered o w w' ch :
  match o with OCloseQr | OOpenAdvanced | OEditAdvanced _ _ | OCancelAdvanced => True | _ => False end → perform o w = Some (w', ch) → covered w w' ch.
Proof.
  destruct o; try done; intros _ E; apply (inj Some) in E; revert E.
  - intros [= <- <-]. solve_quiet.
  - intros [= <- <-]. solve_quiet.
  - unfold edit_advanced. destruct (advanced _); intros [= <- <-]; [solve_quiet|apply covered_refl].
  - intros [= <- <-]. solve_quiet.
Qed.

Lemma commit_advanced_covered w w' ch : commit_advanced w = (w', ch) → covered w w' ch.
Proof.
  unfold commit_advanced. destruct (advanced_errors _); [|intros [= <- <-]; apply covered_refl].
  destruct (advanced _) as [sh|]; [|intros [= <- <-]; apply covered_refl]. set (w1 := upd _ w). assert (covered w w1 EDITOR) as C1 by solve_quiet.
  destruct (commit_draft w1) as [w2 c2] eqn:E2. apply commit_draft_covered in E2. intros [= <- <-].
  eapply covered_trans; [exact C1|exact E2|solve_within].
Qed.

(** *** Saving *)
Lemma clear_save_notice_covered w w' ch : clear_save_notice w = (w', ch) → covered w w' ch.
Proof. unfold clear_save_notice. destruct (save_notice _); [apply set_notice_covered|intros [= <- <-]; apply covered_refl]. Qed.

Lemma write_file_covered f sv w w' r : write_file f sv w = (w', r) → covered w w' NONE.
Proof.
  unfold write_file, Persist.write. repeat case_match; simplify_eq; intros [= <- <-]; solve_quiet.
Qed.

Lemma save_failed_covered e w w' ch ok : save_failed e w = (w', ch, ok) → covered w w' ch.
Proof.
  unfold save_failed. set (w1 := upd _ w). assert (covered w w1 NODES) as C1 by solve_quiet.
  destruct (set_notice _ w1) as [w2 c2] eqn:E2. apply set_notice_covered in E2. intros [= <- <- <-].
  eapply covered_trans; [exact C1|exact E2|solve_within].
Qed.

Lemma write_index_covered next w w' ch ok : write_index next w = (w', ch, ok) → covered w w' ch.
Proof.
  unfold write_index. case_decide.
  - destruct (clear_save_notice w) as [w1 c1] eqn:E1. apply clear_save_notice_covered in E1. intros [= <- <- <-].
    eapply covered_within; [exact E1|solve_within].
  - set (w1 := upd _ w). assert (covered w w1 NODES) as C1 by solve_quiet.
    destruct (write_file Runtime _ w1) as [w2 [u|e]] eqn:E2; apply write_file_covered in E2.
    + destruct (clear_save_notice w2) as [w3 c3] eqn:E3. apply clear_save_notice_covered in E3. intros [= <- <- <-].
      eapply covered_trans; [eapply covered_seq; [exact C1|exact E2]|exact E3|solve_within].
    + set (w3 := upd _ w2). assert (covered w2 w3 NODES) as C3 by solve_quiet. intros E4.
      assert (within NODES ch) as Hw by (injection E4 as _ <- _; solve_within). apply save_failed_covered in E4.
      eapply covered_trans; [eapply covered_seq; [exact C1|eapply covered_seq; [exact E2|exact C3]]|exact E4|].
      intros v. specialize (Hw v). destruct v; unfold union, changes_union in *; cbn in *; rewrite ?orb_true_iff; first [tauto|intuition discriminate].
Qed.

Lemma write_nodes_covered w w' ch ok : write_nodes w = (w', ch, ok) → covered w w' ch.
Proof.
  unfold write_nodes. destruct (nodes_dirty (ctl w)); [|intros [= <- <- <-]; apply covered_refl].
  destruct (save_refusal w) as [w1 n] eqn:E1. assert (covered w w1 NODES) as C1.
  { injection E1 as <- _. solve_quiet. }
  assert (∀ w2, covered w1 w2 NODES → ∀ next, write_index next w2 = (w', ch, ok) → covered w w' ch) as Hidx.
  { intros w2 C2 next E. assert (within NODES ch) as Hw.
    { revert E. unfold write_index. case_decide.
      - destruct (clear_save_notice w2). intros [= _ <- _]. solve_within.
      - destruct (write_file _ _ _) as [? [?|?]]; [destruct (clear_save_notice _)|]; intros [= _ <- _]; solve_within. }
    apply write_index_covered in E. eapply covered_trans; [eapply covered_seq; [exact C1|exact C2]|exact E|].
    intros v. specialize (Hw v). destruct v; unfold union, changes_union in *; cbn in *; rewrite ?orb_true_iff; first [tauto|intuition discriminate]. }
  destruct n as [n|].
  - set (w2 := upd _ w1). assert (covered w1 w2 NODES) as C2 by solve_quiet. destruct (set_notice n w2) as [w3 c3] eqn:E3. apply set_notice_covered in E3.
    intros [= <- <- <-]. eapply covered_trans; [eapply covered_seq; [exact C1|exact C2]|exact E3|solve_within].
  - case_decide; [apply Hidx, covered_refl|]. destruct (write_file Profiles _ w1) as [w2 [u|e]] eqn:E2; apply write_file_covered in E2.
    + apply Hidx. eapply covered_trans; [exact E2|instantiate (1 := NODES); solve_quiet|solve_within].
    + intros E. assert (within NODES ch) as Hw by (injection E as _ <- _; solve_within). apply save_failed_covered in E.
      eapply covered_trans; [eapply covered_seq; [exact C1|exact E2]|exact E|].
      intros v. specialize (Hw v). destruct v; unfold union, changes_union in *; cbn in *; rewrite ?orb_true_iff; first [tauto|intuition discriminate].
Qed.

Lemma revert_nodes_covered w w' ch : revert_nodes w = (w', ch) → covered w w' ch.
Proof.
  unfold revert_nodes. destruct (nodes_dirty (ctl w)); [|intros [= <- <-]; apply covered_refl].
  set (w1 := upd _ w). set (w2 := upd _ w1). assert (covered w w2 (OVERVIEW ∪ EDITOR)) as C2 by solve_quiet.
  destruct (load_selected w2) as [w3 c3] eqn:E3. assert (c3 = EDITOR) as -> by (by injection E3). apply load_selected_covered in E3.
  destruct (clear_save_notice w3) as [w4 c4] eqn:E4. apply clear_save_notice_covered in E4. intros [= <- <-].
  eapply covered_trans; [eapply covered_seq; [exact C2|exact E3]|exact E4|solve_within].
Qed.

Lemma request_leave_covered l w w' ch : (request_leave l w).1 = (w', ch) → covered w w' ch.
Proof.
  unfold request_leave. destruct (leave (ctl w)); [intros [= <- <-]; apply covered_refl|].
  destruct (nodes_dirty (ctl w)); intros [= <- <-]; [solve_quiet|apply covered_refl].
Qed.

Lemma answer_prompt_covered a w w' ch : (answer_prompt a w).1 = (w', ch) → covered w w' ch.
Proof.
  unfold answer_prompt. destruct (leave (ctl w)) as [l|]; [|intros [= <- <-]; apply covered_refl]. destruct a.
  - destruct (write_nodes w) as [[w1 c1] ok] eqn:E1. apply write_nodes_covered in E1. destruct ok; intros [= <- <-].
    + eapply covered_trans; [exact E1|instantiate (1 := NODES); solve_quiet|solve_within].
    + eapply covered_within; [exact E1|solve_within].
  - set (w1 := upd _ w). assert (covered w w1 NODES) as C1 by solve_quiet. destruct (revert_nodes w1) as [w2 c2] eqn:E2. apply revert_nodes_covered in E2.
    intros [= <- <-]. eapply covered_trans; [exact C1|exact E2|solve_within].
  - intros [= <- <-]. solve_quiet.
Qed.

(** *** Reloading *)
Lemma reload_nothing now d l acc : let '(p, g, s, r) := acc in
  let '(p', g', s', r') := foldl (reload_file content_hash config_dir d now) acc l in
  (∃ more, r' = r ++ more) ∧ (r' = [] → g' = g ∧ s' = s).
Proof.
  revert acc. induction l as [|f l IH]; intros [[[p g] s] r]; cbn [foldl].
  - split; [exists []; by rewrite app_nil_r|done].
  - assert (∃ p1 g1 s1 r1, reload_file content_hash config_dir d now (p, g, s, r) f = (p1, g1, s1, r1) ∧
      (∃ more, r1 = r ++ more) ∧ (r1 = [] → g1 = g ∧ s1 = s)) as (p1 & g1 & s1 & r1 & -> & [m1 ->] & Hs).
    { unfold reload_file. assert (∃ m, r = r ++ m) as Hm by (exists []; by rewrite app_nil_r).
      destruct (d !! path config_dir f) as [b|]; [|by eauto 9]. case_decide; [by eauto 9|]. destruct (dirty p f); [by eauto 9|].
      destruct (load_file f g s b) as [[g1 s1]|e]; [|by eauto 9].
      do 4 eexists. split_and!; [done|by eexists|]. by intros [_ ?]%app_nil. }
    specialize (IH (p1, g1, s1, r ++ m1)). cbn in IH. destruct (foldl _ _ l) as [[[p' g'] s'] r']. destruct IH as [[m2 ->] IH]. split.
    + exists (m1 ++ m2). by rewrite (assoc_L (++)).
    + intros E. destruct (IH E) as [-> ->]. apply Hs. by apply app_nil in E as [-> _].
Qed.

Lemma after_reload_covered edited w w' ch : after_reload edited w = (w', ch) → covered w w' ch ∧ within NODES ch.
Proof.
  unfold after_reload. set (w1 := upd _ w). assert (covered w w1 NODES) as C1 by solve_quiet. case_decide.
  - intros [= <- <-]. split; [done|solve_within].
  - set (w2 := upd _ w1). assert (covered w1 w2 NODES) as C2 by solve_quiet. destruct (load_selected w2) as [w3 c3] eqn:E3.
    assert (c3 = EDITOR) as -> by (by injection E3). apply load_selected_covered in E3. intros [= <- <-].
    split; [|solve_within]. eapply covered_trans; [eapply covered_seq; [exact C1|exact C2]|exact E3|solve_within].
Qed.

Lemma app_reloaded_covered old w w' ch : app_reloaded old w = (w', ch) → covered w w' ch.
Proof.
  unfold app_reloaded. destruct (restart_pac _ w) as [w1 [u|e]] eqn:E1; apply (restart_pac_covered _ _ _ _ NONE) in E1.
  - destruct (proxy_changed _ _); [|by intros [= <- <-]]. intros E2%apply_covered. eapply covered_trans; [exact E1|exact E2|solve_within].
  - intros E2%set_notice_covered. eapply covered_trans; [exact E1|exact E2|solve_within].
Qed.

Lemma on_files_changed_covered now w w' ch : on_files_changed now w = (w', ch) → covered w w' ch.
Proof.
  unfold on_files_changed, reload_changed.
  pose proof (reload_nothing now (disk w) ALL (persist (ctl w), gui (ctl w), saved (ctl w), [])) as Hn. cbn zeta beta iota in Hn.
  destruct (foldl _ _ ALL) as [[[p g] sv] reloaded]. destruct Hn as [_ Hn].
  set (w1 := upd _ w). set (changes := if decide (is_Some (delay now p)) then PERSIST else NONE).
  assert (∀ c, flag VPersist changes = false → same VPersist w (upd (λ c0, with_saved sv (with_gui c (with_persist p c0))) w)) as Hp.
  { intros c Hv. cbn. right. unfold changes, delay in Hv. destruct (due p) as [t|]; [|done]. by rewrite decide_True in Hv by by eexists. }
  destruct reloaded as [|f fs].
  - destruct (Hn eq_refl) as [-> ->]. intros [= <- <-]. intros v Hv. destruct v; try (by apply (Hp (gui (ctl w)))); cbn; auto.
  - set (reloaded := f :: fs). set (old := config (gui (ctl w))).
    assert (covered w w1 (changes ∪ (OVERVIEW ∪ SETTINGS ∪ NODES))) as C1.
    { intros v Hv. destruct v; unfold union, changes_union in Hv; cbn in Hv; rewrite ?orb_true_r, ?orb_false_r in Hv; try done. by apply Hp. }
    assert (∀ w2 c2, covered w1 w2 (OVERVIEW ∪ NODES ∪ SETTINGS ∪ c2) →
      (let w3 := upd (on_gui normalize_selected_index) w2 in
       let '(w4, c4) := after_reload (edited_profile (ctl w)) w3 in
       let cs := changes ∪ c2 ∪ OVERVIEW ∪ SETTINGS ∪ c4 in
       if decide (App ∈ reloaded) then let '(w5, c5) := app_reloaded old w4 in (w5, cs ∪ c5) else (w4, cs)) = (w', ch) → covered w w' ch) as Hrest.
    { intros w2 c2 C2. set (w3 := upd _ w2). assert (covered w2 w3 (OVERVIEW ∪ NODES ∪ SETTINGS)) as C3 by solve_quiet. cbv zeta.
      destruct (after_reload _ w3) as [w4 c4] eqn:E4. apply after_reload_covered in E4 as [E4 Hw4].
      case_decide.
      - destruct (app_reloaded old w4) as [w5 c5] eqn:E5. apply app_reloaded_covered in E5. intros [= <- <-].
        eapply covered_trans; [eapply covered_seq; [exact C1|eapply covered_seq; [exact C2|eapply covered_seq; [exact C3|exact E4]]]|exact E5|].
        intros v. specialize (Hw4 v). destruct v; unfold union, changes_union in *; cbn in *; rewrite ?orb_true_iff; first [tauto|intuition discriminate].
      - intros [= <- <-]. eapply covered_trans; [eapply covered_seq; [exact C1|exact C2]|eapply covered_seq; [exact C3|exact E4]|].
        intros v. specialize (Hw4 v). destruct v; unfold union, changes_union in *; cbn in *; rewrite ?orb_true_iff; first [tauto|intuition discriminate]. }
    destruct (list_dirty (ctl w)).
    + set (w2 := upd _ w1). assert (covered w1 w2 (OVERVIEW ∪ NODES ∪ SETTINGS)) as C2 by solve_quiet.
      destruct (bool_decide (Profiles ∈ reloaded) && list_dirty (ctl w2)).
      * destruct (set_notice ProfilesChanged w2) as [w3 c3] eqn:E3. apply set_notice_covered in E3. apply Hrest.
        eapply covered_trans; [exact C2|exact E3|solve_within].
      * apply Hrest. eapply covered_within; [exact C2|solve_within].
    + destruct (decide (Profiles ∈ reloaded)); apply Hrest; solve_quiet.
Qed.

(** *** Startup and settings *)
Lemma startup_covered now w w' ch : (startup now w).1 = (w', ch) → covered w w' ch.
Proof.
  unfold startup. destruct (restart_pac true w) as [w1 r1] eqn:E1. apply (restart_pac_covered _ _ _ _ NONE) in E1.
  destruct (startup_connection now w1) as [w2 c2] eqn:E2. assert (covered w1 w2 c2) as C2.
  { revert E2. unfold startup_connection. case_match; [apply start_active_covered|intros [= <- <-]; apply covered_refl]. }
  match goal with |- context [let '(_, _) := (if ?b then _ else _) in _] => destruct (if b then (w2, NONE) else apply_system_proxy_now w2) as [w3 c3] eqn:E3 end.
  assert (covered w2 w3 c3) as C3 by (revert E3; case_decide; [intros [= <- <-]; apply covered_refl|apply apply_covered]).
  destruct (if rules_overdue now w3 then begin_rules w3 else (w3, None)) as [w4 job] eqn:E4.
  assert (covered w3 w4 OVERVIEW) as C4.
  { revert E4. unfold begin_rules. repeat case_match; intros [= <- <-]; solve_quiet. }
  intros [= <- <-]. eapply covered_trans; [eapply covered_seq; [exact E1|exact C2]|eapply covered_seq; [exact C3|exact C4]|solve_within].
Qed.

Lemma set_runtime_covered {A} `{EqDecision A} (get : RuntimeState → A) put (x : A) now w w' ch :
  (∀ r, selected_profile (put x r) = selected_profile r) → set_runtime get put x now w = (w', ch) → covered w w' ch.
Proof.
  intros Hsel. unfold set_runtime. case_decide; [intros [= <- <-]; apply covered_refl|]. set (w1 := upd _ w).
  assert (covered w w1 SETTINGS) as C1.
  { intros v Hv. destruct v; cbn in Hv; try done; cbn; auto.
    - intros times. apply overview_same; try done. unfold active_texts.
      match goal with |- context [state_profile ?g] => assert (state_profile g = state_profile (gui (ctl w))) as -> end; [|done].
      change (profiles (gui (ctl w)) !! selected_profile (put x (runtime (gui (ctl w)))) = state_profile (gui (ctl w))). by rewrite Hsel.
    - unfold nodes_snapshot, nodes_dirty, list_dirty, draft_unapplied. cbn. by rewrite Hsel. }
  destruct (mark_dirty Runtime now w1) as [w2 c2] eqn:E2. apply mark_covered in E2. intros [= <- <-].
  eapply covered_trans; [exact C1|exact E2|solve_within].
Qed.

Lemma set_autostart_covered supported x now w w' ch : set_autostart supported x now w = (w', ch) → covered w w' ch.
Proof.
  unfold set_autostart. destruct (_ || _); [intros [= <- <-]; apply covered_refl|]. destruct (apply_autostart _ _) as [s [u|e]].
  - set (w1 := upd _ _). assert (covered w w1 SETTINGS) as C1 by solve_quiet.
    destruct (mark_dirty Runtime now w1) as [w2 c2] eqn:E2. apply mark_covered in E2. intros [= <- <-].
    eapply covered_trans; [exact C1|exact E2|solve_within].
  - destruct (set_notice _ _) as [w2 c2] eqn:E2. apply outside_notice_covered in E2. intros [= <- <-].
    eapply covered_within; [exact E2|solve_within].
Qed.

Lemma install_app_icon_covered w w' ch : install_app_icon w = (w', ch) → covered w w' ch.
Proof.
  unfold install_app_icon. destruct (install_icon _) as [s [u|e]]; destruct (set_notice _ _) as [w2 c2] eqn:E2; apply outside_notice_covered in E2;
    intros [= <- <-]; (eapply covered_within; [exact E2|solve_within]).
Qed.

Lemma reapply_covered w w' ch : reapply_pac_proxy w = (w', ch) → covered w w' ch.
Proof. unfold reapply_pac_proxy. case_decide; [apply apply_covered|intros [= <- <-]; apply covered_refl]. Qed.

Lemma set_pac_source_covered x now w w' ch : set_pac_source x now w = (w', ch) → covered w w' ch.
Proof.
  unfold set_pac_source. case_decide; [intros [= <- <-]; apply covered_refl|]. set (w1 := upd _ w).
  assert (covered w w1 (OVERVIEW ∪ SETTINGS)) as C1 by solve_quiet.
  destruct (mark_dirty App now w1) as [w2 c2] eqn:E2. apply mark_covered in E2.
  destruct (reapply_pac_proxy w2) as [w3 c3] eqn:E3. apply reapply_covered in E3. intros [= <- <-].
  eapply covered_trans; [eapply covered_seq; [exact C1|exact E2]|exact E3|solve_within].
Qed.

Lemma commit_plain_covered {A} `{EqDecision A} (get : AppConfig → A) put (x : A) now w w' ch :
  (∀ c, mixed_listen (put x c) = mixed_listen c ∧ effective_pac_url (put x c) = effective_pac_url c ∧ system_proxy_mode (put x c) = system_proxy_mode c ∧
        pac_rule_mode (put x c) = pac_rule_mode c) →
  commit_plain get put x now w = (w', ch) → covered w w' ch.
Proof.
  intros Hput. unfold commit_plain. case_decide; [intros [= <- <-]; apply covered_refl|]. set (w1 := upd _ w).
  assert (covered w w1 SETTINGS) as C1.
  { intros v Hv. destruct v; cbn in Hv; try done; cbn; auto. intros times. unfold overview. cbn.
    destruct (Hput (config (gui (ctl w)))) as (-> & -> & -> & ->). done. }
  destruct (mark_dirty App now w1) as [w2 c2] eqn:E2. apply mark_covered in E2. intros [= <- <-].
  eapply covered_trans; [exact C1|exact E2|solve_within].
Qed.

Lemma apply_listen_change_covered now w w' ch : apply_listen_change now w = (w', ch) → covered w w' ch ∧ within OVERVIEW ch.
Proof.
  unfold apply_listen_change.
  destruct (match restart_pac false w with (w0, Ok _) => (w0, OVERVIEW) | (w0, Err e) => _ end) as [w1 c1] eqn:E1.
  assert (covered w w1 c1 ∧ within OVERVIEW c1) as [C1 Hw].
  { destruct (restart_pac false w) as [w0 [u|e]] eqn:E0; apply (restart_pac_covered _ _ _ _ NONE) in E0.
    - injection E1 as <- <-. split; [eapply covered_within; [exact E0|solve_within]|solve_within].
    - destruct (set_notice _ w0) as [w2 c2] eqn:E2. apply set_notice_covered in E2. injection E1 as <- <-.
      split; [eapply covered_trans; [exact E0|exact E2|solve_within]|solve_within]. }
  match goal with |- context [let '(_, _) := (if ?b then _ else _) in _] => destruct (if b then (w1, NONE) else apply_system_proxy_now w1) as [w3 c3] eqn:E3 end.
  assert (covered w1 w3 c3) as C3 by (revert E3; case_decide; [intros [= <- <-]; apply covered_refl|apply apply_covered]).
  destruct (connected (ctl w3)).
  - destruct (start_active now w3) as [w4 c4] eqn:E4. apply start_active_covered in E4. intros [= <- <-].
    split; [eapply covered_trans; [eapply covered_seq; [exact C1|exact C3]|exact E4|solve_within]|].
    intros v. specialize (Hw v). destruct v; unfold union, changes_union in *; cbn in *; rewrite ?orb_true_iff; first [tauto|intuition discriminate].
  - intros [= <- <-]. split; [eapply covered_trans; [exact C1|exact C3|solve_within]|].
    intros v. specialize (Hw v). destruct v; unfold union, changes_union in *; cbn in *; rewrite ?orb_true_iff; first [tauto|intuition discriminate].
Qed.

Lemma restart_pac_server_only force w w' r : restart_pac force w = (w', r) →
  ∃ srv, w' = upd (on_gui (λ g, mkGui (config g) (profiles g) (runtime g) srv)) w.
Proof. unfold restart_pac, restart_pac_server. destruct (load_rules _) as [direct proxy]. repeat case_match; simplify_eq; intros [= <- <-]; by eexists. Qed.

Lemma change_pac_listen_covered x now w w' ch : change_pac_listen x now w = (w', ch) → covered w w' (SETTINGS ∪ ch).
Proof.
  unfold change_pac_listen. set (w1 := upd _ w). destruct (restart_pac true w1) as [w2 [u|e]] eqn:E2.
  - assert (covered w w1 (OVERVIEW ∪ SETTINGS)) as C1 by solve_quiet. apply (restart_pac_covered _ _ _ _ NONE) in E2.
    destruct (mark_dirty App now w2) as [w3 c3] eqn:E3. apply mark_covered in E3.
    destruct (reapply_pac_proxy w3) as [w4 c4] eqn:E4. apply reapply_covered in E4. intros [= <- <-].
    eapply covered_trans; [eapply covered_seq; [exact C1|exact E2]|eapply covered_seq; [exact E3|exact E4]|solve_within].
  - apply restart_pac_server_only in E2 as [srv ->]. set (w3 := upd _ (upd _ w1)). assert (covered w w3 SETTINGS) as C3.
    { intros v Hv. destruct v; cbn in Hv; try done; cbn; auto. }
    intros E4. apply set_notice_covered in E4. eapply covered_trans; [exact C3|exact E4|solve_within].
Qed.

Lemma commit_value_covered k value now w w' ch : commit_value k value now w = Some (w', ch) → covered w w' ch ∧ within SETTINGS ch.
Proof.
  destruct k; unfold commit_value; cbn [mbind option_bind].
  - destruct (parse_u16 value) as [port|]; [|done]. destruct (split_host_port _) as [[host p]|]; [|done]. cbn [mbind option_bind].
    intros E. apply (inj Some) in E. revert E. case_decide; [intros [= <- <-]; split; [apply covered_refl|solve_within]|].
    set (w1 := upd _ w). assert (covered w w1 (OVERVIEW ∪ SETTINGS)) as C1 by solve_quiet.
    destruct (mark_dirty App now w1) as [w2 c2] eqn:E2. apply mark_covered in E2.
    destruct (apply_listen_change now w2) as [w3 c3] eqn:E3. apply apply_listen_change_covered in E3 as [E3 Hw]. intros [= <- <-].
    split; [|solve_within]. eapply covered_trans; [eapply covered_seq; [exact C1|exact E2]|exact E3|].
    intros v. specialize (Hw v). destruct v; unfold union, changes_union in *; cbn in *; rewrite ?orb_true_iff; first [tauto|intuition discriminate].
  - intros E. apply (inj Some) in E. split; [eapply commit_plain_covered; [|exact E]; done|].
    revert E. unfold commit_plain. case_decide; intros [= _ <-]; solve_within.
  - intros E. apply (inj Some) in E. split; [eapply commit_plain_covered; [|exact E]; done|].
    revert E. unfold commit_plain. case_decide; intros [= _ <-]; solve_within.
  - destruct (parse_uint _ value) as [hours|]; [|done]. cbn [mbind option_bind]. intros E. apply (inj Some) in E.
    split; [eapply commit_plain_covered; [|exact E]; done|]. revert E. unfold commit_plain. case_decide; intros [= _ <-]; solve_within.
  - intros E. apply (inj Some) in E. revert E. case_decide; [intros [= <- <-]; split; [apply covered_refl|solve_within]|].
    destruct (change_pac_listen _ now w) as [w1 c1] eqn:E1. apply change_pac_listen_covered in E1. intros [= <- <-]. split; [done|solve_within].
  - intros E. apply (inj Some) in E. revert E. case_decide; [intros [= <- <-]; split; [apply covered_refl|solve_within]|].
    set (w1 := upd _ w). assert (covered w w1 (OVERVIEW ∪ SETTINGS)) as C1 by solve_quiet.
    destruct (mark_dirty App now w1) as [w2 c2] eqn:E2. apply mark_covered in E2.
    destruct (reapply_pac_proxy w2) as [w3 c3] eqn:E3. apply reapply_covered in E3. intros [= <- <-]. split; [|solve_within].
    eapply covered_trans; [eapply covered_seq; [exact C1|exact E2]|exact E3|solve_within].
Qed.

Lemma commit_setting_covered now w w' ch : commit_setting now w = Some (w', ch) → covered w w' ch.
Proof.
  unfold commit_setting. destruct (sheet (ctl w)) as [s|]; [|intros [= <- <-]; apply covered_refl].
  destruct (validate _ _) as [value|e].
  - set (w1 := upd _ w). assert (covered w w1 SETTINGS) as C1 by solve_quiet. intros [E Hw]%commit_value_covered.
    eapply covered_trans; [exact C1|exact E|].
    intros v. specialize (Hw v). destruct v; unfold union, changes_union in *; cbn in *; rewrite ?orb_true_iff; first [tauto|intuition discriminate].
  - intros [= <- <-]. solve_quiet.
Qed.

Lemma sheet_covered o w w' ch : match o with OOpen _ | OEditSetting _ | OCancelSetting => True | _ => False end →
  perform o w = Some (w', ch) → covered w w' ch.
Proof.
  destruct o; try done; intros _; cbn [perform].
  - unfold open_setting. destruct (initial_draft _ _) as [[d|]|]; [intros [= <- <-]; solve_quiet|intros [= <- <-]; apply covered_refl|done].
  - unfold edit_setting. destruct (sheet _); intros [= <- <-]; [solve_quiet|apply covered_refl].
  - unfold cancel_setting. destruct (sheet _); intros [= <- <-]; [solve_quiet|apply covered_refl].
Qed.

Lemma logs_covered o w w' ch :
  match o with ORefreshLogs | ORefreshTraffic | OReloadLogs | OReloadTraffic | OFollow _ | OClearLogs => True | _ => False end →
  perform o w = Some (w', ch) → covered w w' ch.
Proof.
  destruct o; try done; intros _ [= <- <-]; try solve_quiet.
  intros v Hv. destruct v; cbn; auto. revert Hv. cbn. unfold set_log_follow.
  destruct (Bool.eqb _ _); cbn; [done|discriminate].
Qed.

(** What the field of the interface shows before the call: the text that is typed. *)
Definition typed (o : Op) : Changes := match o with OEdit _ _ => EDITOR | _ => NONE end.

(** No page is left stale: what a call returns as changed covers everything the pages show that the call changed. *)
Lemma perform_covered o w w' ch : active_in_range w → perform o w = Some (w', ch) → covered w w' (ch ∪ typed o).
Proof.
  intros Hr E. assert (match o with OEdit _ _ => False | _ => True end → covered w w' ch) as Hc.
  2: { destruct o; try (eapply covered_within; [by apply Hc|solve_within]). apply (inj Some) in E. by eapply edit_node_covered. }
  intros Ho. destruct o; try done; try (by eapply advanced_covered; [|exact E]); try (by eapply sheet_covered; [|exact E]); try (by eapply logs_covered; [|exact E]);
    cbn [perform] in E; try (apply (inj Some) in E).
  - by eapply startup_covered.
  - by eapply toggle_covered.
  - by eapply set_proxy_mode_covered.
  - by eapply set_pac_rule_covered.
  - by eapply update_rules_covered.
  - by eapply finish_rules_covered.
  - by eapply copy_pac_url_covered.
  - by eapply poll_core_covered.
  - by eapply set_notice_covered.
  - revert E. unfold expire_notice. case_match; [apply set_notice_covered|intros [= <- <-]; apply covered_refl].
  - by eapply flush_due_covered.
  - by eapply on_files_changed_covered.
  - by eapply select_node_covered.
  - by eapply add_node_covered.
  - by eapply node_command_covered.
  - by eapply set_active_node_covered.
  - by eapply activate_node_covered.
  - by eapply import_links_covered.
  - by eapply import_text_covered.
  - by eapply export_link_covered.
  - by eapply share_qr_code_covered.
  - by eapply commit_advanced_covered.
  - destruct (write_nodes w) as [[w1 c1] ok] eqn:E1. unfold save_nodes in E. rewrite E1 in E. injection E as <- <-. by eapply write_nodes_covered.
  - by eapply revert_nodes_covered.
  - by eapply request_leave_covered.
  - by eapply answer_prompt_covered.
  - by eapply set_runtime_covered; [|exact E]; intros [].
  - by eapply set_runtime_covered; [|exact E]; intros [].
  - by eapply set_autostart_covered.
  - by eapply install_app_icon_covered.
  - by eapply set_runtime_covered; [|exact E]; intros [].
  - by eapply set_runtime_covered; [|exact E]; intros [].
  - by eapply set_runtime_covered; [|exact E]; intros [].
  - by eapply set_pac_source_covered.
  - by eapply (commit_plain_covered pac_auto_update_hours with_update_hours); [|exact E].
  - by eapply commit_setting_covered.
Qed.
End coverage.
