(* ===== verification/AppInv.v ===== *)
(** * What every call of the controller keeps

    The controller agrees with the core about what runs, its indices stay in range, and
    only Save writes the node list. *)
From S2P Require Import Prelude Std Net Text Link Traffic Logs Qr Pac Storage Persist Nodes ShareLink SystemProxy Profile Controller Editor Save Settings App.
#[local] Open Scope Z_scope.

Section invariant.
Context `{Codec AppConfig, Codec ProfileStore, Codec RuntimeState} {S : Type} `{Effects S, !EffectsLaws S, Files S, Place, UrlLib, QrLib}.
Implicit Types w : World S.

(** The controller knows whether a core runs, and with which profile. *)
Definition core_ok w : Prop :=
  started_with (nodes (ctl w)) = core_runs (outside w) ∧ connected (ctl w) = bool_decide (is_Some (core_runs (outside w))).
(** The editor's index is in the list. *)
Definition sel_ok w : Prop := (selected (nodes (ctl w)) < length (profiles (gui (ctl w))))%nat.
Definition saved_ok w : Prop := active_ok (saved (ctl w)).
(** The timer never writes the list. *)
Definition list_clean w : Prop := dirty (persist (ctl w)) Profiles = false.

Definition inv w : Prop := core_ok w ∧ sel_ok w ∧ saved_ok w ∧ list_clean w.

(** One call of an effect. *)
Inductive effect : S → S → Prop :=
  | e_start c p s : effect s (start_core c p s).1
  | e_stop s : effect s (stop_core s)
  | e_poll s : effect s (poll_core_effect s).1
  | e_apply c s : effect s (apply_proxy c s).1
  | e_copy t s : effect s (copy_text t s).1
  | e_paste s : effect s (paste_text s).1
  | e_autostart b s : effect s (apply_autostart b s).1
  | e_icon s : effect s (install_icon s).1
  | e_traffic s : effect s (core_traffic s).1.

(** Calls that leave the files and what was saved. *)
Definition steady w w' : Prop :=
  disk w' = disk w ∧ saved (ctl w') = saved (ctl w) ∧ dirty (persist (ctl w')) Profiles = dirty (persist (ctl w)) Profiles ∧
  (core_ok w → core_ok w') ∧ (sel_ok w → sel_ok w') ∧ (active_in_range w → active_in_range w') ∧ rtc effect (outside w) (outside w').

Lemma steady_refl w : steady w w.
Proof. by unfold steady. Qed.
Lemma steady_trans w1 w2 w3 : steady w1 w2 → steady w2 w3 → steady w1 w3.
Proof. intros (? & ? & ? & ? & ? & ? & ?) (? & ? & ? & ? & ? & ? & ?). split_and!; try congruence; auto. by etrans. Qed.
Lemma steady_outside s w : core_runs s = core_runs (outside w) → effect (outside w) s → steady w (with_outside s w).
Proof. intros E He. unfold steady, core_ok, sel_ok, active_in_range. cbn. rewrite E. split_and!; try done. by apply rtc_once. Qed.
End invariant.

Create HintDb steady.
Create HintDb effects.
#[export] Hint Resolve apply_proxy_runs copy_text_runs paste_text_runs apply_autostart_runs install_icon_runs core_traffic_runs : effects.
#[export] Hint Resolve steady_refl : steady.

(** The calls of an operation one after the other. *)
Ltac scrutinee t := lazymatch t with match ?x with _ => _ end => scrutinee x | _ => t end.
Ltac calls := cbv zeta; repeat match goal with
  | |- (_, _) = (_, _) → _ => intros [= <- <-]
  | |- ?t = _ → _ => progress cbn beta iota
  | |- ?t = _ → _ => let h := scrutinee t in let E := fresh "E" in destruct h eqn:E
  end.
Ltac steady_upd := unfold steady, core_ok, sel_ok, active_in_range; cbn; split_and!; auto; try reflexivity; try by intros [].
(** A chain of calls whose lemmas are hints, and of updates of other fields. *)
Ltac steps := repeat match goal with
  | |- steady ?w ?w => apply steady_refl
  | E : ?f ?a = (?b, _) |- steady _ ?b => apply (steady_trans _ a); [clear E|solve [eauto with steady]]
  | |- steady ?w (upd ?f ?a) => apply (steady_trans _ a); [|solve [steady_upd]]
  end.
Ltac effect := match goal with
  | E : ?e = (?s, ?r) |- steady _ (with_outside ?s ?a) =>
      apply (steady_trans _ a); [|apply steady_outside; change s with (s, r).1; rewrite <-E; [solve [eauto with effects]|constructor]]
  end.
Ltac steady_calls := calls; repeat (progress steps || effect).

Section calls.
Context `{Codec AppConfig, Codec ProfileStore, Codec RuntimeState} {S : Type} `{Effects S, !EffectsLaws S, Files S, Place, UrlLib, QrLib}.
Implicit Types w : World S.

Lemma set_notice_steady n w w' ch : set_notice n w = (w', ch) → steady w w'.
Proof. unfold set_notice. steady_calls. Qed.
Lemma mark_steady f now w w' ch : f ≠ Profiles → mark_dirty f now w = (w', ch) → steady w w'.
Proof. intros Hf. unfold mark_dirty. calls. unfold steady. cbn. rewrite set_at_ne by done. by split_and!. Qed.
Lemma mark_app_steady now w w' ch : mark_dirty App now w = (w', ch) → steady w w'.
Proof. by apply mark_steady. Qed.
Lemma mark_runtime_steady now w w' ch : mark_dirty Runtime now w = (w', ch) → steady w w'.
Proof. by apply mark_steady. Qed.
Lemma restart_pac_steady force w w' r : restart_pac force w = (w', r) → steady w w'.
Proof. intros [srv ->]%restart_pac_server_only. steps. Qed.
#[local] Hint Resolve set_notice_steady mark_app_steady mark_runtime_steady restart_pac_steady : steady.

Lemma apply_steady w w' ch : apply_system_proxy_now w = (w', ch) → steady w w'.
Proof. unfold apply_system_proxy_now. steady_calls. Qed.
#[local] Hint Resolve apply_steady : steady.

Lemma start_active_steady now w w' ch : start_active now w = (w', ch) → steady w w'.
Proof.
  unfold start_active. destruct (state_profile _) as [p|]; [|apply set_notice_steady].
  destruct (missing_fields p) as [|f fs]; [|apply set_notice_steady]. cbv zeta. set (w1 := upd reset_traffic w). assert (steady w w1) as C1 by steady_upd.
  pose proof (start_core_runs (config (gui (ctl w))) p (outside w1)) as Hr. pose proof (e_start (config (gui (ctl w))) p (outside w1)) as He%rtc_once.
  destruct (start_core _ _ _) as [s [u|e]]; cbn [fst] in He.
  - set (w2 := upd _ (with_outside s w1)). assert (steady w1 w2) as C2.
    { unfold steady, core_ok, sel_ok, active_in_range. cbn. rewrite Hr. by split_and!. }
    intros E. apply (steady_trans _ _ _ C1), (steady_trans _ _ _ C2). revert E. steady_calls.
  - destruct (connected (ctl (with_outside s w1))) eqn:Ec.
    + set (w2 := upd _ (with_outside s w1)). assert (steady w1 w2) as C2.
      { unfold steady, core_ok, sel_ok, active_in_range. cbn. rewrite Hr. by split_and!. }
      intros E. apply (steady_trans _ _ _ C1), (steady_trans _ _ _ C2). revert E. steady_calls.
    + assert (steady w1 (with_outside s w1)) as C2.
      { change (connected (ctl w1) = false) in Ec. unfold steady, core_ok, sel_ok, active_in_range. cbn [with_outside disk ctl outside]. rewrite Hr.
        split_and!; try done. intros [E1 E2]. rewrite Ec in E2. symmetry in E2. apply bool_decide_eq_false, eq_None_not_Some in E2.
        by rewrite Ec, E1, E2. }
      intros E. apply (steady_trans _ _ _ C1), (steady_trans _ _ _ C2). revert E. steady_calls.
Qed.
#[local] Hint Resolve start_active_steady : steady.

Lemma toggle_steady now w w' ch : toggle_connection now w = (w', ch) → steady w w'.
Proof.
  unfold toggle_connection. destruct (connected _); [|apply start_active_steady]. set (w2 := upd disconnect _). assert (steady w w2) as C2.
  { unfold steady, core_ok, sel_ok, active_in_range. cbn. rewrite stop_core_runs. split_and!; try done. apply rtc_once, e_stop. }
  intros E. apply (steady_trans _ _ _ C2). revert E. steady_calls.
Qed.
#[local] Hint Resolve toggle_steady : steady.

Lemma set_proxy_mode_steady mode now w w' ch : set_proxy_mode mode now w = (w', ch) → steady w w'.
Proof. unfold set_proxy_mode. steady_calls. Qed.
Lemma set_pac_rule_steady rule now w w' ch : set_pac_rule rule now w = (w', ch) → steady w w'.
Proof. unfold set_pac_rule. steady_calls. Qed.
Lemma update_rules_steady w w' ch : (update_rules w).1 = (w', ch) → steady w w'.
Proof. unfold update_rules, begin_rules. destruct (rules_updating _); cbn [fst]; steady_calls. Qed.
Lemma finish_rules_steady r w w' ch : finish_rules r w = (w', ch) → steady w w'.
Proof. unfold finish_rules. steady_calls. Qed.
Lemma copy_pac_url_steady w w' ch : copy_pac_url w = (w', ch) → steady w w'.
Proof. unfold copy_pac_url. steady_calls. Qed.

Lemma sample_traffic_steady now w : steady w (sample_traffic now w).
Proof. unfold sample_traffic. destruct (core_traffic _) as [s t] eqn:E. steps. effect. steps. Qed.

Lemma poll_core_steady now w w' ch : poll_core now w = (w', ch) → steady w w'.
Proof.
  unfold poll_core. cbv zeta. intros E. apply (steady_trans _ _ _ (sample_traffic_steady now w)). revert E. generalize (sample_traffic now w). clear w. intros w.
  destruct (connected (ctl w)); [|steady_calls]. pose proof (poll_core_runs (outside w)) as Hr. pose proof (e_poll (outside w)) as He. destruct (poll_core_effect _) as [s [reason|]]; cbn [fst] in He; apply rtc_once in He as He'.
  - set (w2 := upd _ (with_outside s w)). assert (steady w w2) as C2.
    { unfold steady, core_ok, sel_ok, active_in_range. cbn. rewrite Hr. by split_and!. }
    intros E. apply (steady_trans _ _ _ C2). revert E. steady_calls.
  - intros [= <- <-]. by apply steady_outside.
Qed.

Lemma load_selected_steady w w' ch : load_selected w = (w', ch) → steady w w'.
Proof. unfold load_selected. calls. unfold steady, core_ok, sel_ok, active_in_range. cbn. split_and!; try done. lia. Qed.
#[local] Hint Resolve load_selected_steady : steady.

Lemma commit_draft_steady w w' ch : commit_draft w = (w', ch) → steady w w'.
Proof.
  unfold commit_draft. set (w1 := upd _ w). assert (steady w w1) as C1 by steady_upd. cbv zeta. destruct (_ !! _) as [before|]; [|by intros [= <- <-]].
  set (w2 := upd _ w1). assert (steady w1 w2) as C2.
  { assert (length (profiles (gui (ctl w2))) = length (profiles (gui (ctl w1)))) as El by apply length_insert.
    unfold steady, sel_ok, active_in_range. rewrite El. by split_and!. }
  calls; by apply (steady_trans _ w1).
Qed.
#[local] Hint Resolve commit_draft_steady : steady.

(** *** The list *)
Lemma node_command_bounds index command (n n' : NodeList) :
  Nodes.node_command index command n = Some n' →
  ((n_selected n < length (n_profiles n))%nat → (n_selected n' < length (n_profiles n'))%nat) ∧
  ((n_active n < length (n_profiles n))%nat → (n_active n' < length (n_profiles n'))%nat).
Proof.
  destruct n as [ps act sel]. unfold Nodes.node_command. cbn [n_profiles n_active n_selected]. case_decide as Hi; [|done].
  destruct command; cbn.
  1,2: case_decide; [|done]; intros [= <-]; cbn [n_profiles n_active n_selected]; rewrite swap_length; intros; split; repeat case_decide; lia.
  - destruct (ps !! index) as [p|]; [|done]. cbn. intros [= <-]. cbn [n_profiles n_active n_selected]. rewrite length_app. cbn [length].
    rewrite length_take, length_drop. intros. split; repeat case_decide; lia.
  - case_decide; [done|]. intros [= <-]. cbn [n_profiles n_active n_selected]. rewrite length_app, length_take, length_drop. intros.
    split; repeat case_decide; lia.
Qed.

Lemma relist_steady (n : NodeList) w :
  (sel_ok w → (n_selected n < length (n_profiles n))%nat) → (active_in_range w → (n_active n < length (n_profiles n))%nat) →
  steady w (upd (λ c, on_nodes (with_selected (n_selected n)) (on_runtime (Storage.with_selected (n_active n)) (on_profiles (λ _, n_profiles n) c))) w).
Proof. intros Hs Ha. unfold steady, core_ok. cbn. by split_and!. Qed.

Lemma append_steady ps w :
  steady w (upd (λ c, on_nodes (with_selected (length (profiles (gui (ctl w))))) (on_profiles (λ _, profiles (gui (ctl w)) ++ ps) c)) w) ∨ ps = [].
Proof.
  destruct ps as [|p ps]; [by right|left]. unfold steady, core_ok. cbn. split_and!; try done; unfold sel_ok, active_in_range; cbn;
    rewrite length_app; cbn [length]; lia.
Qed.

Lemma add_node_steady name w w' ch : add_node name w = (w', ch) → steady w w'.
Proof.
  unfold add_node. cbn [Nodes.add_node node_list n_profiles n_selected]. match goal with |- context [?l ++ [?p]] => destruct (append_steady [p] w) as [Ha|?]; [|done] end.
  intros E. apply (steady_trans _ _ _ Ha). eauto with steady.
Qed.

Lemma select_node_steady index w w' ch : select_node index w = (w', ch) → steady w w'.
Proof.
  unfold select_node. case_decide as Hi; [intros [= <- <-]; apply steady_refl|].
  assert (steady w (upd (on_nodes (with_selected index)) w)) as C1.
  { unfold steady, core_ok. cbn. split_and!; try done. unfold sel_ok. cbn. lia. }
  intros E. apply (steady_trans _ _ _ C1). eauto with steady.
Qed.

Lemma replace_active_steady now w w' ch : replace_active now w = (w', ch) → steady w w'.
Proof. unfold replace_active. cbv zeta. match goal with |- context [if ?b then toggle_connection _ _ else _] => destruct b end; steady_calls. Qed.
#[local] Hint Resolve replace_active_steady : steady.

Lemma node_command_steady index command now w w' ch : node_command index command now w = (w', ch) → steady w w'.
Proof.
  unfold node_command. destruct (Nodes.node_command _ _ _) as [n|] eqn:En; [|intros [= <- <-]; apply steady_refl].
  assert (steady w (upd (λ c, on_nodes (with_selected (n_selected n)) (on_runtime (Storage.with_selected (n_active n)) (on_profiles (λ _, n_profiles n) c))) w)) as C1.
  { apply relist_steady; apply (node_command_bounds _ _ _ _ En). }
  revert C1. generalize (upd (λ c, on_nodes (with_selected (n_selected n)) (on_runtime (Storage.with_selected (n_active n)) (on_profiles (λ _, n_profiles n) c))) w).
  intros w1 C1. cbv zeta. match goal with |- (let '(_, _) := (if ?b then _ else _) in _) = _ → _ => destruct b end; calls; eapply (steady_trans _ _ _ C1); steps.
Qed.

Lemma switch_steady index w : (index < length (profiles (gui (ctl w))))%nat → steady w (upd (set_working_active index) w).
Proof. intros Hi. unfold steady, core_ok. cbn. by split_and!. Qed.

Lemma set_active_node_steady now w w' ch : set_active_node now w = (w', ch) → steady w w'.
Proof.
  unfold set_active_node. cbv zeta. destruct (profiles _ !! _) as [t|] eqn:Et; [|intros [= <- <-]; apply steady_refl].
  destruct (missing_fields t) as [|f fs]; [|apply set_notice_steady]. apply lookup_lt_Some in Et.
  calls; (eapply steady_trans; [by apply (switch_steady (selected (nodes (ctl w))))|steps]).
Qed.

Lemma activate_node_steady index now w w' ch : activate_node index now w = (w', ch) → steady w w'.
Proof.
  unfold activate_node. destruct (profiles _ !! _) as [t|] eqn:Et; [|intros [= <- <-]; apply steady_refl].
  destruct (missing_fields t) as [|f fs]; [|apply set_notice_steady]. apply lookup_lt_Some in Et.
  case_decide; [intros [= <- <-]; apply steady_refl|]. calls; (eapply steady_trans; [by apply (switch_steady index)|steps]).
Qed.

Lemma import_text_steady txt w w' ch : import_text txt w = Some (w', ch) → steady w w'.
Proof.
  unfold import_text, Nodes.import_text. destruct (import_lines _) as [[added skipped]|]; [|done]. cbn [mbind option_bind].
  intros E. apply (inj Some) in E. revert E. case_decide as Hd; [apply set_notice_steady|].
  destruct added as [|p ps]; [done|]. cbn [n_selected n_profiles node_list]. destruct (append_steady (p :: ps) w) as [Ha|?]; [|done].
  calls. eapply (steady_trans _ _ _ Ha). steps.
Qed.

Lemma import_links_steady w w' ch : import_links w = Some (w', ch) → steady w w'.
Proof.
  unfold import_links. destruct (paste_text _) as [s [text|e]] eqn:Ep; intros E; try (apply (inj Some) in E).
  - apply import_text_steady in E. eapply steady_trans; [|exact E]. effect. steps.
  - apply set_notice_steady in E. eapply steady_trans; [|exact E]. effect. steps.
Qed.

Lemma export_link_steady w w' ch : export_link w = (w', ch) → steady w w'.
Proof. unfold export_link. steady_calls. Qed.
Lemma share_qr_code_steady w w' ch : share_qr_code w = (w', ch) → steady w w'.
Proof. unfold share_qr_code. steady_calls. Qed.
Lemma edit_node_steady field value w w' ch : edit_node field value w = (w', ch) → steady w w'.
Proof. unfold edit_node. destruct (commit_draft _) as [w1 c1] eqn:E1. intros E. assert (w' = w1) as -> by (destruct field; by injection E). steps. Qed.
Lemma commit_advanced_steady w w' ch : commit_advanced w = (w', ch) → steady w w'.
Proof. unfold commit_advanced. steady_calls. Qed.

(** *** Startup, settings and logs *)
Lemma startup_steady now w w' ch : (startup now w).1 = (w', ch) → steady w w'.
Proof.
  unfold startup, startup_connection, begin_rules. destruct (restart_pac true w) as [w1 r1] eqn:E1. cbv zeta.
  assert (∀ b : bool, ∃ w2 (c2 : Changes), (if b then start_active now w1 else (w1, NONE)) = (w2, c2) ∧ steady w1 w2) as Hs.
  { intros []; [|by do 2 eexists; split; [|apply steady_refl]]. destruct (start_active now w1) as [w2 c2] eqn:E2. do 2 eexists. split; [done|]. steps. }
  match goal with |- context [if ?b then start_active now w1 else _] => destruct (Hs b) as (w2 & c2 & -> & C2) end. cbn beta iota.
  assert (∃ w3 (c3 : Changes), (if decide (system_proxy_mode (config (gui (ctl w2))) = PDisable) then (w2, NONE) else apply_system_proxy_now w2) = (w3, c3) ∧ steady w2 w3)
    as (w3 & c3 & -> & C3).
  { case_decide; [by do 2 eexists; split; [|apply steady_refl]|]. destruct (apply_system_proxy_now w2) as [w3 c3] eqn:E3. do 2 eexists. split; [done|]. steps. }
  cbn beta iota. intros E. eapply steady_trans; [|eapply steady_trans; [exact C2|eapply steady_trans; [exact C3|]]]; [steps|].
  revert E. repeat case_match; simplify_eq; cbn [fst]; intros [= <- <-]; steps.
Qed.

Lemma set_runtime_steady {A} `{EqDecision A} (get : RuntimeState → A) put (x : A) now w w' ch :
  (∀ r, selected_profile (put x r) = selected_profile r) → set_runtime get put x now w = (w', ch) → steady w w'.
Proof.
  intros Hsel. unfold set_runtime. calls; steps. apply (steady_trans _ w); [apply steady_refl|].
  unfold steady, core_ok, sel_ok, active_in_range. cbn. rewrite Hsel. by split_and!.
Qed.

Lemma set_autostart_steady supported x now w w' ch : set_autostart supported x now w = (w', ch) → steady w w'.
Proof. unfold set_autostart. steady_calls. Qed.
Lemma install_app_icon_steady w w' ch : install_app_icon w = (w', ch) → steady w w'.
Proof. unfold install_app_icon. steady_calls. Qed.
Lemma reapply_steady w w' ch : reapply_pac_proxy w = (w', ch) → steady w w'.
Proof. unfold reapply_pac_proxy. steady_calls. Qed.
#[local] Hint Resolve reapply_steady : steady.
Lemma set_pac_source_steady x now w w' ch : set_pac_source x now w = (w', ch) → steady w w'.
Proof. unfold set_pac_source. steady_calls. Qed.
Lemma commit_plain_steady {A} `{EqDecision A} (get : AppConfig → A) put (x : A) now w w' ch : commit_plain get put x now w = (w', ch) → steady w w'.
Proof. unfold commit_plain. steady_calls. Qed.
Lemma apply_listen_change_steady now w w' ch : apply_listen_change now w = (w', ch) → steady w w'.
Proof.
  unfold apply_listen_change. destruct (restart_pac false w) as [w0 r0] eqn:E0.
  destruct (match r0 with Ok _ => (w0, OVERVIEW) | Err e => _ end) as [w1 c1] eqn:E1. assert (steady w w1) as C1.
  { revert E1. destruct r0; steady_calls. }
  intros E. apply (steady_trans _ _ _ C1). revert E. cbv zeta. case_decide; steady_calls.
Qed.
Lemma change_pac_listen_steady x now w w' ch : change_pac_listen x now w = (w', ch) → steady w w'.
Proof. unfold change_pac_listen. steady_calls. Qed.
#[local] Hint Resolve commit_plain_steady apply_listen_change_steady change_pac_listen_steady : steady.

Lemma commit_value_steady k value now w w' ch : commit_value k value now w = Some (w', ch) → steady w w'.
Proof.
  destruct k; unfold commit_value; cbn [mbind option_bind].
  - destruct (parse_u16 value) as [port|]; [|done]. destruct (split_host_port _) as [[host p]|]; [|done]. cbn [mbind option_bind].
    intros E. apply (inj Some) in E. revert E. steady_calls.
  - intros E. apply (inj Some) in E. by eapply commit_plain_steady.
  - intros E. apply (inj Some) in E. by eapply commit_plain_steady.
  - destruct (parse_uint _ value) as [hours|]; [|done]. cbn [mbind option_bind]. intros E. apply (inj Some) in E. by eapply commit_plain_steady.
  - intros E. apply (inj Some) in E. revert E. steady_calls.
  - intros E. apply (inj Some) in E. revert E. steady_calls.
Qed.

Lemma commit_setting_steady now w w' ch : commit_setting now w = Some (w', ch) → steady w w'.
Proof.
  unfold commit_setting. destruct (sheet (ctl w)) as [s|]; [|intros [= <- <-]; apply steady_refl].
  destruct (validate _ _) as [value|e]; [|intros [= <- <-]; steps].
  intros E%commit_value_steady. eapply steady_trans; [|exact E]. steps.
Qed.

Lemma request_leave_steady l w w' ch : (request_leave l w).1 = (w', ch) → steady w w'.
Proof. unfold request_leave. destruct (leave _); [|destruct (nodes_dirty _)]; cbn [fst]; steady_calls. Qed.

(** Every call but the timer, saving, reverting, an answer and the reload. *)
Definition small (o : Op) : Prop := match o with OFlushDue _ | OFilesChanged _ | OSave | ORevert | OAnswer _ => False | _ => True end.

Lemma small_steady o w w' ch : small o → perform o w = Some (w', ch) → steady w w'.
Proof.
  intros Ho E. destruct o; try done; cbn [perform] in E;
    try (by eapply import_links_steady); try (by eapply import_text_steady); try (by eapply commit_setting_steady);
    try (apply (inj Some) in E); try (by eapply set_runtime_steady; [|exact E]; intros []);
    try solve [injection E as <- <-; try (apply steady_refl); steady_upd];
    try first [by eapply startup_steady|by eapply toggle_steady|by eapply set_proxy_mode_steady|by eapply set_pac_rule_steady|by eapply update_rules_steady
      |by eapply finish_rules_steady|by eapply copy_pac_url_steady|by eapply poll_core_steady|by eapply set_notice_steady|by eapply select_node_steady
      |by eapply add_node_steady|by eapply node_command_steady|by eapply edit_node_steady|by eapply set_active_node_steady|by eapply activate_node_steady
      |by eapply export_link_steady|by eapply share_qr_code_steady|by eapply commit_advanced_steady|by eapply request_leave_steady
      |by eapply set_autostart_steady|by eapply install_app_icon_steady|by eapply set_pac_source_steady
      |by eapply (commit_plain_steady pac_auto_update_hours with_update_hours)];
    revert E; unfold expire_notice, dismiss_notice, edit_advanced, open_setting, edit_setting, cancel_setting.
  - steady_calls.
  - steady_calls.
  - destruct (initial_draft _ _) as [[d|]|]; [|by intros [= <- <-]; apply steady_refl|done]. intros [= <- <-]. steps.
  - steady_calls.
  - steady_calls.
Qed.
End calls.
