(* ===== verification/Commit.v ===== *)
(** * Committing a value of the settings page

    What a commit does to the settings, whether it can panic, and what becomes of an
    address that cannot be served. *)
From S2P Require Import Prelude Std Net Text Link Traffic Logs Qr Pac Storage Persist Nodes ShareLink SystemProxy Profile Controller Editor Save Settings App AppInv.
#[local] Open Scope Z_scope.

Section commit.
Context `{Codec AppConfig, Codec ProfileStore, Codec RuntimeState} {S : Type} `{Effects S, Files S, Place, UrlLib}.
Implicit Types w : World S.

(** Calls that leave app.json and the sheet alone. *)
Definition kept w w' : Prop :=
  config (gui (ctl w')) = config (gui (ctl w)) ∧ sheet (ctl w') = sheet (ctl w) ∧ (dirty (persist (ctl w)) App = true → dirty (persist (ctl w')) App = true).

Lemma kept_refl w : kept w w.
Proof. by unfold kept. Qed.
Lemma kept_trans w1 w2 w3 : kept w1 w2 → kept w2 w3 → kept w1 w3.
Proof. intros (? & ? & ?) (? & ? & ?). split_and!; try congruence; auto. Qed.

Lemma set_notice_kept n w w' ch : set_notice n w = (w', ch) → kept w w'.
Proof. by intros [= <- <-]. Qed.
Lemma mark_kept f now w w' ch : mark_dirty f now w = (w', ch) → kept w w' ∧ dirty (persist (ctl w')) f = true.
Proof. intros [= <- <-]. unfold kept. cbn. rewrite set_at_eq. split_and!; try done. intros. unfold set_at. by case_decide. Qed.
Lemma restart_pac_kept force w w' r : restart_pac force w = (w', r) → kept w w'.
Proof. by intros [srv ->]%restart_pac_server_only. Qed.
Lemma apply_kept w w' ch : apply_system_proxy_now w = (w', ch) → kept w w'.
Proof. unfold apply_system_proxy_now. destruct (apply_proxy _ _) as [s [u|e]]; by intros [= <- <-]. Qed.
Lemma reapply_kept w w' ch : reapply_pac_proxy w = (w', ch) → kept w w'.
Proof. unfold reapply_pac_proxy. case_decide; [apply apply_kept|by intros [= <- <-]]. Qed.
Lemma start_active_kept now w w' ch : start_active now w = (w', ch) → kept w w'.
Proof.
  unfold start_active. destruct (state_profile _) as [p|]; [|apply set_notice_kept]. destruct (missing_fields p); [|apply set_notice_kept].
  destruct (start_core _ _ _) as [s [u|e]]; cbv zeta.
  - unfold mark_dirty. destruct (start_notice _); cbn; intros [= <- <-]; unfold kept; cbn; split_and!; try done; intros; unfold set_at; by case_decide.
  - destruct (connected _); unfold mark_dirty; cbn; intros [= <- <-]; unfold kept; cbn; split_and!; try done; intros; unfold set_at; by case_decide.
Qed.
Lemma apply_listen_change_kept now w w' ch : apply_listen_change now w = (w', ch) → kept w w'.
Proof.
  unfold apply_listen_change. destruct (restart_pac false w) as [w0 r0] eqn:E0. apply restart_pac_kept in E0.
  destruct (match r0 with Ok _ => (w0, OVERVIEW) | Err e => _ end) as [w1 c1] eqn:E1. assert (kept w w1) as C1.
  { apply (kept_trans _ _ _ E0). revert E1. by destruct r0; intros [= <- <-]. }
  intros E. apply (kept_trans _ _ _ C1). revert E. cbv zeta.
  match goal with |- context [let '(_, _) := (if ?b then _ else _) in _] => destruct (if b then (w1, NONE) else apply_system_proxy_now w1) as [w2 c2] eqn:E2 end.
  assert (kept w1 w2) as C2 by (revert E2; case_decide; [by intros [= <- <-]|apply apply_kept]).
  destruct (connected (ctl w2)); [|by intros [= <- <-]].
  destruct (start_active now w2) as [w3 c3] eqn:E3. apply start_active_kept in E3. intros [= <- <-]. by apply (kept_trans _ _ _ C2).
Qed.

(** The settings after an address of the PAC server was changed: one that cannot be served is taken back. *)
Lemma change_pac_listen_spec listen now w w' ch : change_pac_listen listen now w = (w', ch) →
  sheet (ctl w') = sheet (ctl w) ∧
  (config (gui (ctl w')) = with_pac_listen listen (config (gui (ctl w))) ∧ dirty (persist (ctl w')) App = true ∨
   config (gui (ctl w')) = config (gui (ctl w)) ∧ ∃ e, notice (ctl w') = ProxyFailed e).
Proof.
  unfold change_pac_listen. destruct (restart_pac true _) as [w1 [u|e]] eqn:E1; apply restart_pac_kept in E1 as (Ec & Es & _).
  - destruct (mark_dirty App now w1) as [w2 c2] eqn:E2. apply mark_kept in E2 as [(Ec2 & Es2 & _) Hd2].
    destruct (reapply_pac_proxy w2) as [w3 c3] eqn:E3. apply reapply_kept in E3 as (Ec3 & Es3 & Hd3). intros [= <- <-].
    split; [by rewrite Es3, Es2, Es|left]. split; [by rewrite Ec3, Ec2, Ec|by apply Hd3].
  - intros [= <- <-]. split; [exact Es|right]. cbn. rewrite Ec. cbn. split; [by destruct (config (gui (ctl w)))|by eexists].
Qed.

Definition online_url (v : str) : option str := if is_empty v then None else Some v.

(** The settings with an accepted value. *)
Definition with_setting (k : SettingKey) (v : str) (c : AppConfig) : AppConfig :=
  match k with
  | MixedPort => with_mixed_listen (format_host_port (default [] (fst <$> split_host_port (mixed_listen c))) (default 0 (parse_u16 v))) c
  | DirectUrl => with_direct_url v c
  | ProxyUrl => with_proxy_url v c
  | UpdateHours => with_update_hours (default 0 (parse_uint u32_max v)) c
  | PacListen => with_pac_listen v c
  | OnlinePacUrl => with_online_url (online_url v) c
  end.

Lemma commit_plain_spec {A} `{EqDecision A} (get : AppConfig → A) put (x : A) now w w' ch :
  (∀ c, get c = x → put x c = c) → commit_plain get put x now w = (w', ch) →
  config (gui (ctl w')) = put x (config (gui (ctl w))) ∧ sheet (ctl w') = sheet (ctl w) ∧
  (config (gui (ctl w')) ≠ config (gui (ctl w)) → dirty (persist (ctl w')) App = true).
Proof.
  intros Hput. unfold commit_plain. case_decide as Hd; [intros [= <- <-]; by rewrite Hput|]. destruct (mark_dirty App now _) as [w2 c2] eqn:E2.
  apply mark_kept in E2 as [(Ec & Es & _) Hdi]. intros [= <- <-]. by rewrite Ec, Es.
Qed.

Lemma commit_value_spec k v now w : good_value k v → is_Some (split_host_port (mixed_listen (config (gui (ctl w))))) →
  ∃ w' ch, commit_value k v now w = Some (w', ch) ∧ sheet (ctl w') = sheet (ctl w) ∧
    (config (gui (ctl w')) = with_setting k v (config (gui (ctl w))) ∨
     k = PacListen ∧ config (gui (ctl w')) = config (gui (ctl w)) ∧ ∃ e, notice (ctl w') = ProxyFailed e) ∧
    (config (gui (ctl w')) ≠ config (gui (ctl w)) → dirty (persist (ctl w')) App = true).
Proof.
  set (c := config (gui (ctl w))). intros Hv [[host port] Hm].
  assert (∀ get put (x : str), (∀ c, get c = x → put x c = c) → ∃ w' ch, Some (commit_plain get put x now w) = Some (w', ch) ∧ sheet (ctl w') = sheet (ctl w) ∧
    config (gui (ctl w')) = put x c ∧ (config (gui (ctl w')) ≠ c → dirty (persist (ctl w')) App = true)) as Hplain.
  { intros get put x Hp. destruct (commit_plain get put x now w) as [w' ch] eqn:E. apply commit_plain_spec in E as (E1 & E2 & E3); [|done]. exists w', ch. auto. }
  destruct k; unfold commit_value; cbn [good_value] in Hv.
  - destruct Hv as (p & Hp & ->). rewrite parse_u16_dec by lia. fold c. rewrite Hm. cbn [mbind option_bind]. do 2 eexists. split; [apply f_equal, surjective_pairing|].
    unfold with_setting. rewrite Hm, parse_u16_dec by lia. cbn [fmap option_fmap option_map fst default]. unfold id.
    case_decide as Hs; [cbn [fst]; rewrite Hs; split_and!; [done|left|done]; fold c; generalize c; by intros []|].
    destruct (mark_dirty App now _) as [w2 c2] eqn:E2. apply mark_kept in E2 as [(Ec & Es & _) Hd].
    destruct (apply_listen_change now w2) as [w3 c3] eqn:E3. apply apply_listen_change_kept in E3 as (Ec3 & Es3 & Hd3). cbn [fst]. rewrite Es3, Es, Ec3, Ec. auto.
  - destruct (Hplain pac_direct_url with_direct_url v) as (w' & ch & E1 & E2 & E3 & E4); [by intros [] ; cbn; intros ->|]. exists w', ch. auto.
  - destruct (Hplain pac_proxy_url with_proxy_url v) as (w' & ch & E1 & E2 & E3 & E4); [by intros [] ; cbn; intros ->|]. exists w', ch. auto.
  - destruct Hv as (h & Hh & ->). unfold with_setting. rewrite parse_uint_show_dec by (unfold u32_max in *; lia). cbn [mbind option_bind default]. unfold id.
    destruct (commit_plain pac_auto_update_hours with_update_hours h now w) as [w' ch] eqn:E.
    apply commit_plain_spec in E as (E1 & E2 & E3); [|by intros []; cbn; intros ->]. exists w', ch. auto.
  - fold c. case_decide as Hs; [exists w, SETTINGS; split_and!; [done..| |done]; left; fold c; rewrite <-Hs; generalize c; by intros []|].
    destruct (change_pac_listen v now w) as [w' ch] eqn:E. exists w', (SETTINGS ∪ ch). apply change_pac_listen_spec in E as (Es & [[Ec Hd]|[Ec He]]); fold c in Ec; rewrite Ec; split_and!; auto; done.
  - fold c. cbv zeta. fold (online_url v). case_decide as Hs; [exists w, SETTINGS; split_and!; [done..| |done]; left; fold c; unfold with_setting; rewrite <-Hs; generalize c; by intros []|].
    do 2 eexists. split; [apply f_equal, surjective_pairing|].
    destruct (mark_dirty App now _) as [w2 c2] eqn:E2. apply mark_kept in E2 as [(Ec & Es & _) Hd].
    destruct (reapply_pac_proxy w2) as [w3 c3] eqn:E3. apply reapply_kept in E3 as (Ec3 & Es3 & Hd3). cbn [fst]. rewrite Es3, Es, Ec3, Ec. auto.
Qed.

(** C29: committing a sheet does not panic while the address of the proxy is one that can be split: a bad value stays in the
    sheet with its error, a good one closes the sheet and becomes the setting, which is written later; only the address
    of the PAC server can be taken back, with a notice, when it cannot be served. *)
Theorem commit_setting_correct now w s :
  sheet (ctl w) = Some s → is_Some (split_host_port (mixed_listen (config (gui (ctl w))))) →
  match validate (key s) (sheet_draft s) with
  | inr e => commit_setting now w = Some (upd (with_sheet (Some (mkSheet (key s) (sheet_draft s) (Some e)))) w, SETTINGS)
  | inl v => ∃ w' ch, commit_setting now w = Some (w', ch) ∧ sheet (ctl w') = None ∧ good_value (key s) v ∧
      (config (gui (ctl w')) = with_setting (key s) v (config (gui (ctl w))) ∨
       key s = PacListen ∧ config (gui (ctl w')) = config (gui (ctl w)) ∧ ∃ e, notice (ctl w') = ProxyFailed e) ∧
      (config (gui (ctl w')) ≠ config (gui (ctl w)) → dirty (persist (ctl w')) App = true)
  end.
Proof.
  intros Es Hm. unfold commit_setting. rewrite Es. destruct (validate _ _) as [v|e] eqn:Ev; [|done].
  destruct (commit_value_spec (key s) v now (upd (with_sheet None) w) (validate_good _ _ _ Ev) Hm) as (w' & ch & E & E1 & E2 & E3).
  exists w', ch. split_and!; try done. by eapply validate_good.
Qed.
End commit.
