(* ===== verification/Saving.v ===== *)
(** * What Save, Revert, the timer and a reload do to the lists and the files

    The working list and the saved list are equal after a Save that succeeds, and a
    Save that fails keeps the edits. *)
From S2P Require Import Prelude Std Net Text Link Traffic Logs Qr Pac Storage Persist Nodes ShareLink SystemProxy Profile Controller Editor Save Settings App AppInv.
#[local] Open Scope Z_scope.

Section saving.
Context `{Codec AppConfig, Codec ProfileStore, Codec RuntimeState} {S : Type} `{Effects S, Files S, Place}.
Implicit Types w : World S.

Abbreviation on_disk w f := (disk w !! path config_dir f).

(** Only the persistence and the disk differ; only [f] is written. *)
Definition wrote f w w' (r : result str) : Prop :=
  ctl w' = with_persist (persist (ctl w')) (ctl w) ∧ outside w' = outside w ∧
  (∀ f', f' ≠ f → on_disk w' f' = on_disk w f' ∧ dirty (persist (ctl w')) f' = dirty (persist (ctl w)) f') ∧
  match r with
  | Ok b => on_disk w' f = Some b ∧ dirty (persist (ctl w')) f = false
  | Err _ => on_disk w' f = on_disk w f ∧ persist (ctl w') = persist (ctl w)
  end.

Lemma write_file_spec f sv w w' r : write_file f sv w = (w', r) →
  match r with
  | Ok _ => ∃ b, file_bytes f (gui (ctl w)) sv = Ok b ∧ wrote f w w' (Ok b)
  | Err e => fails (file_fault (outside w)) (gui (ctl w)) sv f = true ∧ wrote f w w' (Err e)
  end.
Proof.
  unfold write_file. destruct (fails (λ _, file_fault (outside w) f) (gui (ctl w)) sv f) eqn:Ef.
  - destruct (write_fails content_hash config_dir (λ _, file_fault (outside w) f) f (gui (ctl w)) sv (disk w) (persist (ctl w)) Ef) as (d & e & E & Hd). cbn beta in E.
    rewrite E. intros [= <- <-]. split; [exact Ef|]. unfold wrote. cbn. by split_and!.
  - unfold fails in Ef. destruct (file_fault (outside w) f) eqn:Efa; [done|]. destruct (file_bytes f (gui (ctl w)) sv) as [b|] eqn:Eb; [|done].
    destruct (write_fine content_hash config_dir None f (gui (ctl w)) sv (disk w) (persist (ctl w)) b eq_refl Eb) as (d & E & Hd & Ho).
    rewrite E. intros [= <- <-]. exists b. split; [done|]. unfold wrote. cbn. rewrite set_at_eq. split_and!; try done.
    intros f' Hf. by rewrite set_at_ne, Ho.
Qed.

Lemma flush_all_spec now w w' r : flush_all now w = (w', r) →
  ctl w' = with_persist (persist (ctl w')) (ctl w) ∧ outside w' = outside w ∧
  (∀ f, dirty (persist (ctl w)) f = false → on_disk w' f = on_disk w f ∧ dirty (persist (ctl w')) f = false) ∧
  (∀ f, on_disk w' f = on_disk w f ∨ ∃ b, on_disk w' f = Some b ∧ file_bytes f (gui (ctl w)) (saved (ctl w)) = Ok b).
Proof.
  unfold flush_all, flush. pose proof (flush_fold content_hash config_dir (file_fault (outside w)) (gui (ctl w)) (saved (ctl w)) now ALL
    (mkPersist (dirty (persist (ctl w))) None (known (persist (ctl w)))) (disk w) (Ok tt) ALL_NoDup) as Hf.
  destruct (foldl _ _ ALL) as [[p d] r0]. destruct Hf as (W1 & W2 & _). intros [= <- <-]. cbn. cbn in W1, W2. split_and!; try done.
  - intros f Hd. destruct (W2 f) as (-> & _ & ->); auto.
  - intros f. destruct (dirty (persist (ctl w)) f) eqn:Ed; [|left; apply W2; auto].
    destruct (fails (file_fault (outside w)) (gui (ctl w)) (saved (ctl w)) f) eqn:Ef; [left; apply W2; auto|].
    right. pose proof Ef as Ef'. unfold fails in Ef'. destruct (file_fault (outside w) f); [done|]. destruct (file_bytes f _ _) as [b|] eqn:Eb; [|done].
    exists b. split; [|done]. apply (W1 f b); try done. destruct f; [by left|by right; left|by right; right; left].
Qed.

(** ** Save *)
Definition refuses (n : Notice) : bool := match n with SaveInvalid | NodeIncomplete _ _ | NodesSaveFailed _ => true | _ => false end.

(** The lists after [write_nodes]; the edited list is kept either way.  An active index that points past the list, which a
    file can hold at the start, is saved as the last one and stays as it is. *)
Definition save_outcome w w' (ok : bool) : Prop :=
  gui (ctl w') = gui (ctl w) ∧ draft (nodes (ctl w')) = draft (nodes (ctl w)) ∧ selected (nodes (ctl w')) = selected (nodes (ctl w)) ∧
  connected (ctl w') = connected (ctl w) ∧ started_with (nodes (ctl w')) = started_with (nodes (ctl w)) ∧ outside w' = outside w ∧
  (if ok then s_profiles (saved (ctl w')) = profiles (gui (ctl w)) ∧
              active (saved (ctl w')) = (selected_profile (runtime (gui (ctl w))) `min` (length (profiles (gui (ctl w))) - 1))%nat ∧
              draft_unapplied (ctl w') = false ∧ (nodes_dirty (ctl w') = false ↔ active_in_range w) ∧ leave (ctl w') = leave (ctl w)
   else nodes_dirty (ctl w') = true ∧ leave (ctl w') = None ∧ refuses (notice (ctl w')) = true ∧ is_error (notice (ctl w')) = true).

(** The file of the index after [write_index]. *)
Definition index_written (before : nat) w w' : Prop :=
  if decide (active (saved (ctl w')) = before) then on_disk w' Runtime = on_disk w Runtime
  else ∃ b, on_disk w' Runtime = Some b ∧ encode (Storage.with_selected (active (saved (ctl w'))) (runtime (gui (ctl w')))) = Ok b.

(** The files: a Save writes the list when it differs from the saved one, and the index when it differs from the one
    saved for the new list; a Save that fails may have written the list, never the index. *)
Definition files_outcome w w' (ok : bool) : Prop :=
  on_disk w' App = on_disk w App ∧
  if ok then
    (if decide (profiles (gui (ctl w)) = s_profiles (saved (ctl w))) then on_disk w' Profiles = on_disk w Profiles
     else ∃ b, on_disk w' Profiles = Some b ∧ encode (profiles (gui (ctl w))) = Ok b) ∧
    index_written (active (saved (ctl w)) `min` (length (profiles (gui (ctl w))) - 1)) w w'
  else
    (on_disk w' Profiles = on_disk w Profiles ∧ s_profiles (saved (ctl w')) = s_profiles (saved (ctl w)) ∨
     s_profiles (saved (ctl w')) = profiles (gui (ctl w)) ∧ ∃ b, on_disk w' Profiles = Some b ∧ encode (profiles (gui (ctl w))) = Ok b) ∧
    on_disk w' Runtime = on_disk w Runtime.

(** Nothing is in the way of a Save. *)
Definition can_save w : Prop :=
  Nodes.errors (draft (nodes (ctl w))) = [] ∧ first_incomplete (profiles (gui (ctl w))) = None ∧
  ∀ f, fails (file_fault (outside w)) (gui (ctl w)) (Saved_new (gui (ctl w))) f = false.

Lemma clear_save_notice_spec w w' ch : clear_save_notice w = (w', ch) →
  ∃ n q, ctl w' = with_notice_seq q (with_notice n (ctl w)) ∧ outside w' = outside w ∧ disk w' = disk w.
Proof.
  unfold clear_save_notice, dismiss_notice, set_notice. destruct (save_notice _); intros [= <- <-].
  - by do 2 eexists.
  - exists (notice (ctl w)), (notice_seq (ctl w)). by destruct (ctl w).
Qed.

Lemma save_failed_spec e w w' ch ok : save_failed e w = (w', ch, ok) →
  ok = false ∧ ∃ q, ctl w' = with_notice_seq q (with_notice (NodesSaveFailed e) (with_leave None (ctl w))) ∧ outside w' = outside w ∧ disk w' = disk w.
Proof. unfold save_failed, set_notice. intros [= <- <- <-]. split; [done|]. by eexists. Qed.

Lemma clean_draft c : Nodes.errors (draft (nodes c)) = [] → draft_unapplied c = false.
Proof. intros E. unfold draft_unapplied, unapplied. rewrite E. by case_match. Qed.

Lemma nodes_clean c :
  Nodes.errors (draft (nodes c)) = [] → s_profiles (saved c) = profiles (gui c) →
  active (saved c) = (selected_profile (runtime (gui c)) `min` (length (profiles (gui c)) - 1))%nat → (0 < length (profiles (gui c)))%nat →
  nodes_dirty c = false ↔ (selected_profile (runtime (gui c)) < length (profiles (gui c)))%nat.
Proof.
  intros E1 E2 E3 Hl. unfold nodes_dirty, list_dirty. rewrite clean_draft, E2, E3, (bool_decide_true (_ = profiles _)) by done.
  cbn [negb orb]. rewrite orb_false_r, negb_false_iff, bool_decide_eq_true. lia.
Qed.

Lemma write_index_outcome next w w' ch ok :
  write_index next w = (w', ch, ok) → active next = (selected_profile (runtime (gui (ctl w))) `min` (length (profiles (gui (ctl w))) - 1))%nat →
  s_profiles (saved (ctl w)) = profiles (gui (ctl w)) → saved_ok w → Nodes.errors (draft (nodes (ctl w))) = [] →
  save_outcome w w' ok ∧ saved_ok w' ∧ s_profiles (saved (ctl w')) = profiles (gui (ctl w)) ∧
  (∀ f, f ≠ Runtime → on_disk w' f = on_disk w f) ∧
  (if ok then index_written (active (saved (ctl w))) w w' else on_disk w' Runtime = on_disk w Runtime) ∧
  dirty (persist (ctl w')) Profiles = dirty (persist (ctl w)) Profiles ∧ (can_save w → ok = true).
Proof.
  intros E Ha Hp Hs Hd. assert (0 < length (profiles (gui (ctl w))))%nat as Hlen by (unfold saved_ok, active_ok in Hs; rewrite Hp in Hs; lia).
  revert E. unfold write_index. case_decide as Hn.
  - destruct (clear_save_notice w) as [w1 c1] eqn:E1. apply clear_save_notice_spec in E1 as (n & q & Ec & Eo & Ed). intros [= <- <- <-].
    unfold save_outcome, index_written, saved_ok. rewrite Ec, Eo, Ed. cbn [gui nodes connected saved persist notice leave with_notice with_notice_seq].
    rewrite decide_True by done. split_and!; try done; [congruence|by apply clean_draft|]. apply nodes_clean; cbn; congruence.
  - set (w1 := upd _ w). destruct (write_file Runtime _ w1) as [w2 [u|e]] eqn:E2; apply write_file_spec in E2.
    + destruct E2 as (b & Hb & Ec2 & Eo2 & Ho2 & Hd2 & Hc2).
      destruct (clear_save_notice w2) as [w3 c3] eqn:E3. apply clear_save_notice_spec in E3 as (n & q & Ec & Eo & Ed). intros [= <- <- <-].
      unfold save_outcome, index_written, saved_ok, active_ok. rewrite Ec, Eo, Ed. rewrite Ec2, Eo2.
      cbn [gui nodes connected saved persist notice leave with_notice with_notice_seq with_persist upd ctl w1 with_saved s_profiles active].
      assert (∀ f, f ≠ Runtime → disk w2 !! path config_dir f = on_disk w f) as Hdisk by (intros f Hf; by apply Ho2). rewrite decide_False by done.
      split_and!; try done; [by apply clean_draft|apply nodes_clean; cbn; congruence|rewrite Hp; lia|by exists b|by apply Ho2].
    + destruct E2 as (Hf2 & Ec2 & Eo2 & Ho2 & Hd2 & Hc2). intros E4. apply save_failed_spec in E4 as (-> & q & Ec & Eo & Ed).
      unfold save_outcome, saved_ok, active_ok. rewrite Ec, Eo, Ed. cbn [upd ctl outside disk]. rewrite Ec2, Eo2.
      cbn [gui nodes connected saved persist notice leave with_notice with_notice_seq with_persist with_leave with_saved upd ctl w1 s_profiles active].
      assert (∀ f, f ≠ Runtime → disk w2 !! path config_dir f = on_disk w f) as Hdisk by (intros f Hf; by apply Ho2).
      split_and!; try done; [|by apply Ho2|].
      2: { intros (_ & _ & Hf). specialize (Hf Runtime). unfold fails, file_bytes in Hf, Hf2. cbn -[Nat.min] in Hf, Hf2. rewrite Ha in Hf2. congruence. }
      unfold nodes_dirty, list_dirty. cbn. rewrite (bool_decide_false (_ = active _)); [by rewrite orb_true_r|].
      unfold saved_ok, active_ok in Hs. rewrite Hp in Hs. intros Heq. apply Hn. rewrite Ha. unfold ProfileStore in *. lia.
Qed.

Lemma save_outcome_trans w w1 w' ok :
  gui (ctl w1) = gui (ctl w) → draft (nodes (ctl w1)) = draft (nodes (ctl w)) → selected (nodes (ctl w1)) = selected (nodes (ctl w)) →
  connected (ctl w1) = connected (ctl w) → started_with (nodes (ctl w1)) = started_with (nodes (ctl w)) → outside w1 = outside w → leave (ctl w1) = leave (ctl w) →
  save_outcome w1 w' ok → save_outcome w w' ok.
Proof. unfold save_outcome, active_in_range. by intros -> -> -> -> -> -> ->. Qed.

Lemma first_incomplete_refuses ps n : first_incomplete ps = Some n → refuses n = true ∧ is_error n = true.
Proof. induction ps as [|p ps IH]; [done|]. cbn. destruct (missing_fields p); [done|]. by intros [= <-]. Qed.

Lemma save_failed_files e w w' ch ok : save_failed e w = (w', ch, ok) → disk w' = disk w.
Proof. intros E. by apply save_failed_spec in E as (_ & q & _ & _ & ?). Qed.

Lemma write_nodes_outcome w w' ch ok :
  sel_ok w → saved_ok w → write_nodes w = (w', ch, ok) →
  if nodes_dirty (ctl w) then save_outcome w w' ok ∧ files_outcome w w' ok ∧ (can_save w → ok = true) ∧ (list_clean w → list_clean w') ∧ saved_ok w'
  else w' = w ∧ ok = true.
Proof.
  intros Hsel Hsv. unfold write_nodes. destruct (nodes_dirty (ctl w)) eqn:Hdirty; [|by intros [= <- _ <-]].
  assert (0 < length (profiles (gui (ctl w))))%nat as Hlen by (unfold sel_ok in Hsel; lia).
  destruct (save_refusal w) as [w1 n] eqn:E1. unfold save_refusal in E1. injection E1 as <- <-. set (w1 := upd _ w).
  destruct (match errors (nodes (ctl w1)) with [] => _ | _ => _ end) as [n|] eqn:En.
  - intros [= <- <- <-]. assert (refuses n = true ∧ is_error n = true) as [Hn1 Hn2].
    { destruct (errors _); [by eapply first_incomplete_refuses|by injection En as <-]. }
    unfold save_outcome, files_outcome. cbn. split; [by split_and!|]. split; [by split_and!; auto|]. split; [|done].
    intros (He & Hi & _). exfalso. change (errors (nodes (ctl w1))) with (Nodes.errors (draft (nodes (ctl w)))) in En. rewrite He in En. cbn in En, Hi. congruence.
  - assert (Nodes.errors (draft (nodes (ctl w1))) = []) as Hok by (change (errors (nodes (ctl w1)) = []); by destruct (errors (nodes (ctl w1)))). clear En.
    set (next := clamp_active _). assert (active next = (selected_profile (runtime (gui (ctl w1))) `min` (length (profiles (gui (ctl w1))) - 1))%nat) as Hact by done.
    assert (∀ w2, gui (ctl w2) = gui (ctl w) ∧ nodes (ctl w2) = nodes (ctl w1) ∧ connected (ctl w2) = connected (ctl w) ∧ leave (ctl w2) = leave (ctl w) ∧ outside w2 = outside w →
      s_profiles (saved (ctl w2)) = profiles (gui (ctl w)) → saved_ok w2 → write_index next w2 = (w', ch, ok) →
      save_outcome w w' ok ∧ saved_ok w' ∧ s_profiles (saved (ctl w')) = profiles (gui (ctl w)) ∧ (∀ f, f ≠ Runtime → on_disk w' f = on_disk w2 f) ∧
      (if ok then index_written (active (saved (ctl w2))) w2 w' else on_disk w' Runtime = on_disk w2 Runtime) ∧
      dirty (persist (ctl w')) Profiles = dirty (persist (ctl w2)) Profiles ∧ (can_save w → ok = true)) as Hidx.
    { intros w2 (Eg & En & Eco & El & Eo) Es Hs2 E. apply write_index_outcome in E as (A & Sv & B & C & D & F & G); [|by rewrite Eg|by rewrite Es, Eg|done|by rewrite En].
      split_and!; try done; [|by rewrite B, Eg|].
      - eapply save_outcome_trans; [..|exact A]; by rewrite ?Eg, ?En, ?Eco, ?Eo, ?El.
      - unfold can_save in *. rewrite Eg, En, Eo in G. intros (H1' & H2' & H3'). by apply G. }
    case_decide as Hsame.
    + intros E. destruct (Hidx w1) as (A & Sv & B & C & D & F & G); [by split_and!|by rewrite <-Hsame|exact Hsv|exact E|].
      split; [exact A|]. split; [|split; [exact G|]; by unfold list_clean; rewrite F].
      split; [by apply C|]. destruct ok.
      * rewrite decide_True by done. split; [by apply C|]. assert (active (saved (ctl w)) `min` (length (profiles (gui (ctl w))) - 1) = active (saved (ctl w)))%nat as ->; [|exact D].
        unfold saved_ok, active_ok in Hsv. change (s_profiles (saved (ctl w))) with (s_profiles (saved (ctl w1))) in Hsv. rewrite <-Hsame in Hsv.
        change (active (saved (ctl w)) < length (profiles (gui (ctl w))))%nat in Hsv. unfold ProfileStore in *. lia.
      * split; [left; split; [by apply C|rewrite B; exact Hsame]|exact D].
    + destruct (write_file Profiles next w1) as [w2 [u|e]] eqn:E2; apply write_file_spec in E2.
      * destruct E2 as (b & Hb & Ec2 & Eo2 & Ho2 & Hd2 & Hc2). set (w3 := upd _ w2). intros E.
        destruct (Hidx w3) as (A & Sv & B & C & D & F & G); [cbn; rewrite Ec2; by split_and!|done|by apply clamp_active_ok; cbn; intros Hnil; rewrite Hnil in Hlen; cbn in Hlen; lia|exact E|].
        split; [exact A|]. split; [|split; [exact G|]; unfold list_clean; rewrite F; done].
        split; [rewrite C by done; by apply Ho2|].
        assert (∃ b, on_disk w' Profiles = Some b ∧ encode (profiles (gui (ctl w))) = Ok b) as Hpr by (exists b; rewrite C by done; by split).
        assert (disk w3 !! path config_dir Runtime = on_disk w Runtime) as Hrt by exact (proj1 (Ho2 Runtime ltac:(done))).
        destruct ok.
        -- rewrite decide_False by done. split; [exact Hpr|]. unfold index_written in *. cbn [w3 upd ctl with_saved saved clamp_active active s_profiles] in D. rewrite Ec2 in D.
           rewrite Hrt in D. exact D.
        -- split; [right; by split|]. rewrite D. exact Hrt.
      * destruct E2 as (Hf2 & Ec2 & Eo2 & Ho2 & Hd2 & Hc2). intros E. pose proof (save_failed_files _ _ _ _ _ E) as Ed0. apply save_failed_spec in E as (-> & q & Ec & Eo & Ed).
        unfold save_outcome, files_outcome, list_clean, saved_ok. rewrite Ec, Eo, Ed. cbn [saved with_notice_seq with_notice with_leave gui nodes connected leave persist]. rewrite Ec2, Eo2.
        cbn [saved with_persist gui nodes connected leave persist]. split_and!; try done; [exact (proj1 (Ho2 App ltac:(done)))|left; by split|exact (proj1 (Ho2 Runtime ltac:(done)))| |].
        -- intros (_ & _ & Hf). by rewrite Hf in Hf2.
        -- cbn. by rewrite Hc2.
Qed.
End saving.

Section runs.
Context `{Codec AppConfig, Codec ProfileStore, Codec RuntimeState} {S : Type} `{Effects S, !EffectsLaws S, Files S, Place, UrlLib, QrLib}.
Implicit Types w : World S.
Abbreviation on_disk w f := (disk w !! path config_dir f).

Lemma save_outcome_core w w' ok : save_outcome w w' ok → (core_ok w → core_ok w') ∧ (sel_ok w → sel_ok w') ∧ (active_in_range w → active_in_range w').
Proof. unfold save_outcome, core_ok, sel_ok, active_in_range. by intros (-> & _ & -> & -> & -> & -> & _). Qed.

(** ** Revert *)
Lemma unapplied_self p : unapplied (from_profile p) p = false.
Proof. unfold unapplied. apply not_true_iff_false. intros E%List.existsb_exists. destruct E as ([f e] & _ & E). by rewrite bool_decide_true in E. Qed.

Lemma normalize_id g : (selected_profile (runtime g) < length (profiles g))%nat → normalize_selected_index g = g.
Proof.
  intros Hi. unfold normalize_selected_index. destruct g as [c ps r pac]. cbn in *. destruct ps as [|p ps]; [cbn in Hi; lia|].
  rewrite decide_False by lia. by destruct r.
Qed.
Lemma normalize_range g : let g' := normalize_selected_index g in (selected_profile (runtime g') < length (profiles g'))%nat.
Proof. unfold normalize_selected_index. cbn. destruct (profiles g); cbn [length]; case_decide; cbn in *; lia. Qed.

(** The list and the editor after a revert. *)
Definition reverted w w' : Prop :=
  profiles (gui (ctl w')) = s_profiles (saved (ctl w)) ∧ selected_profile (runtime (gui (ctl w'))) = active (saved (ctl w)) ∧
  selected (nodes (ctl w')) = active (saved (ctl w)) ∧ nodes_dirty (ctl w') = false.

Lemma revert_nodes_spec w w' ch : saved_ok w → revert_nodes w = (w', ch) →
  (if nodes_dirty (ctl w) then reverted w w' else w' = w) ∧
  disk w' = disk w ∧ saved (ctl w') = saved (ctl w) ∧ persist (ctl w') = persist (ctl w) ∧ leave (ctl w') = leave (ctl w) ∧
  (core_ok w → core_ok w') ∧ (sel_ok w → sel_ok w') ∧ (active_in_range w → active_in_range w') ∧ outside w' = outside w.
Proof.
  intros Hs. unfold revert_nodes. destruct (nodes_dirty (ctl w)); [|by intros [= <- _]]. unfold upd at 1 2, on_gui. cbn [ctl outside disk].
  rewrite normalize_id by exact Hs.
  unfold load_selected. destruct (clear_save_notice _) as [w2 c2] eqn:E2. apply clear_save_notice_spec in E2 as (n & q & Ec & Eo & Ed).
  intros [= <- _]. unfold reverted, core_ok, sel_ok, active_in_range. rewrite Ec, Eo, Ed. cbn -[Nat.min]. unfold saved_ok, active_ok in Hs.
  assert (active (saved (ctl w)) `min` (length (s_profiles (saved (ctl w))) - 1) = active (saved (ctl w)))%nat as Hmin by lia. rewrite Hmin.
  split_and!; try done. unfold nodes_dirty, list_dirty, draft_unapplied, edited_profile. cbn -[Nat.min unapplied from_profile]. rewrite !bool_decide_true by done. cbn [negb orb].
  case_match eqn:Ep; [|done]. cbn [fmap option_fmap option_map default]. apply unapplied_self.
Qed.

(** ** Reloading *)
Lemma after_reload_sel edited w w' ch : (0 < length (profiles (gui (ctl w))))%nat → after_reload edited w = (w', ch) → steady w w' ∧ sel_ok w'.
Proof.
  intros Hr. unfold after_reload. set (w1 := upd _ w). assert (sel_ok w1) as Hs1 by (unfold sel_ok; cbn -[Nat.min]; lia).
  assert (steady w w1) as C1 by (unfold steady, core_ok; by split_and!). case_decide.
  - by intros [= <- _].
  - intros E%load_selected_steady. assert (steady w1 w') as C2 by (eapply steady_trans; [|exact E]; steps).
    split; [by eapply steady_trans|by apply C2].
Qed.

Lemma app_reloaded_steady old w w' ch : app_reloaded old w = (w', ch) → steady w w'.
Proof.
  unfold app_reloaded. cbv zeta. destruct (restart_pac _ w) as [w1 [u|e]] eqn:E1; apply restart_pac_steady in E1.
  - destruct (proxy_changed _ _); [|by intros [= <- <-]]. intros E2%apply_steady. by eapply steady_trans.
  - intros E2%set_notice_steady. by eapply steady_trans.
Qed.

(** *** What a reload reads *)

(** The bytes of a file that another program wrote and that are to be loaded. *)
Definition unseen (d : Disk) (p : Persist) (f : ConfigFile) : option str :=
  b ← d !! path config_dir f;
  if decide (known p f = Some (content_hash b)) then None else if dirty p f then None else Some b.

Definition decoded {A} `{Codec A} (b : str) : option A := match decode b with Ok a => Some a | Err _ => None end.
Definition new_config w : option AppConfig := unseen (disk w) (persist (ctl w)) App ≫= decoded.
Definition new_list w : option ProfileStore := unseen (disk w) (persist (ctl w)) Profiles ≫= decoded.
Definition new_runtime w : option RuntimeState := unseen (disk w) (persist (ctl w)) Runtime ≫= decoded.
Definition reloads w : Prop := is_Some (new_config w) ∨ is_Some (new_list w) ∨ is_Some (new_runtime w).

(** The settings, the saved list and the saved index after the reload; an empty list is read as one node, and an index
    past the list as the last one. *)
Definition seen_config w : AppConfig := default (config (gui (ctl w))) (new_config w).
Definition seen_runtime w : RuntimeState := default (runtime (gui (ctl w))) (new_runtime w).
Definition seen_list w : ProfileStore := match new_list w with None => s_profiles (saved (ctl w)) | Some [] => [ProxyProfile_default] | Some ps => ps end.
Definition seen_active w : nat :=
  (match new_runtime w with Some r => selected_profile r | None => active (saved (ctl w)) end `min` (length (seen_list w) - 1))%nat.

(** The working list and the active index after the reload: edits that are not saved stay. *)
Definition kept_list w : ProfileStore := if list_dirty (ctl w) then profiles (gui (ctl w)) else seen_list w.
Definition kept_active w : nat :=
  if list_dirty (ctl w) then (selected_profile (runtime (gui (ctl w))) `min` (length (profiles (gui (ctl w))) - 1))%nat else seen_active w.

Definition lists_reloaded w w' : Prop :=
  config (gui (ctl w')) = seen_config w ∧ saved (ctl w') = mkSaved (seen_list w) (seen_active w) ∧ profiles (gui (ctl w')) = kept_list w ∧
  (¬ reloads w ∧ runtime (gui (ctl w')) = runtime (gui (ctl w)) ∨
   reloads w ∧ runtime (gui (ctl w')) = Storage.with_selected (kept_active w) (seen_runtime w)).

Lemma reload_file_eq d now p g s acc f : ∃ p',
  dirty p' = dirty p ∧ (∀ f', f' ≠ f → unseen d p' f' = unseen d p f') ∧
  reload_file content_hash config_dir d now (p, g, s, acc) f =
    match unseen d p f with
    | Some b => match load_file f g s b with Ok (g', s') => (p', g', s', acc ++ [f]) | Err _ => (p', g, s, acc) end
    | None => (p', g, s, acc)
    end.
Proof.
  unfold reload_file, unseen. destruct (d !! path config_dir f) as [b|]; [|by exists p]. cbn [mbind option_bind].
  case_decide; [by exists p|]. destruct (dirty p f) eqn:Ed; [|destruct (load_file f g s b) as [[g1 s1]|]]; (eexists; split; [|split; [|reflexivity]]; [done|]);
    intros f' Hf; cbn [known dirty]; by rewrite set_at_ne.
Qed.

(** The three files in their order. *)
Lemma reload_app d now p g s acc : ∃ p', dirty p' = dirty p ∧ (∀ f', f' ≠ App → unseen d p' f' = unseen d p f') ∧
  let new := unseen d p App ≫= decoded in
  reload_file content_hash config_dir d now (p, g, s, acc) App =
    (p', mkGui (default (config g) new) (profiles g) (runtime g) (pac_server g), s, acc ++ if new is Some _ then [App] else []).
Proof.
  destruct (reload_file_eq d now p g s acc App) as (p' & Hd & Hu & ->). exists p'. split_and!; [done..|]. cbv zeta. unfold decoded, load_file.
  destruct (unseen d p App) as [b|]; cbn [mbind option_bind]; [destruct (decode b); cbn [mbind result_bind default]|]; rewrite ?app_nil_r; try done; by destruct g.
Qed.

Lemma reload_list d now p g s acc : ∃ p', dirty p' = dirty p ∧ (∀ f', f' ≠ Profiles → unseen d p' f' = unseen d p f') ∧
  let new := unseen d p Profiles ≫= decoded in
  reload_file content_hash config_dir d now (p, g, s, acc) Profiles =
    (p', g, if new is Some ps then clamp_active (mkSaved (match ps with [] => [ProxyProfile_default] | _ => ps end) (active s)) else s,
     acc ++ if new is Some _ then [Profiles] else []).
Proof.
  destruct (reload_file_eq d now p g s acc Profiles) as (p' & Hd & Hu & ->). exists p'. split_and!; [done..|]. cbv zeta. unfold decoded, load_file.
  destruct (unseen d p Profiles) as [b|]; cbn [mbind option_bind]; [destruct (decode b); cbn [mbind result_bind]|]; rewrite ?app_nil_r; done.
Qed.

Lemma reload_runtime d now p g s acc : ∃ p', dirty p' = dirty p ∧
  let new := unseen d p Runtime ≫= decoded in
  reload_file content_hash config_dir d now (p, g, s, acc) Runtime =
    (p', mkGui (config g) (profiles g) (default (runtime g) new) (pac_server g),
     if new is Some r then clamp_active (mkSaved (s_profiles s) (selected_profile r)) else s, acc ++ if new is Some _ then [Runtime] else []).
Proof.
  destruct (reload_file_eq d now p g s acc Runtime) as (p' & Hd & Hu & ->). exists p'. split_and!; [done..|]. cbv zeta. unfold decoded, load_file.
  destruct (unseen d p Runtime) as [b|]; cbn [mbind option_bind]; [destruct (decode b); cbn [mbind result_bind default]|]; rewrite ?app_nil_r; try done; by destruct g.
Qed.

Definition reloaded_files w : list ConfigFile :=
  (if new_config w is Some _ then [App] else []) ++ (if new_list w is Some _ then [Profiles] else []) ++ (if new_runtime w is Some _ then [Runtime] else []).

Lemma seen_reload now w : saved_ok w → ∃ p,
  dirty p = dirty (persist (ctl w)) ∧
  reload_changed content_hash config_dir (disk w) now (gui (ctl w)) (saved (ctl w)) (persist (ctl w)) =
    (p, mkGui (seen_config w) (profiles (gui (ctl w))) (seen_runtime w) (pac_server (gui (ctl w))), mkSaved (seen_list w) (seen_active w), reloaded_files w).
Proof.
  intros Hs. unfold saved_ok, active_ok in Hs. unfold reload_changed, ALL. cbn [foldl].
  destruct (reload_app (disk w) now (persist (ctl w)) (gui (ctl w)) (saved (ctl w)) []) as (p1 & Hd1 & Hu1 & ->). cbv zeta.
  match goal with |- context [reload_file _ _ _ _ (p1, ?g, ?s, ?a) Profiles] => destruct (reload_list (disk w) now p1 g s a) as (p2 & Hd2 & Hu2 & ->) end. cbv zeta.
  match goal with |- context [reload_file _ _ _ _ (p2, ?g, ?s, ?a) Runtime] => destruct (reload_runtime (disk w) now p2 g s a) as (p3 & Hd3 & ->) end. cbv zeta.
  rewrite (Hu2 Runtime), !(Hu1 Runtime), (Hu1 Profiles) by done. exists p3. split; [congruence|].
  unfold reloaded_files, seen_config, seen_runtime, seen_active, seen_list, new_config, new_list, new_runtime. cbn [config profiles runtime pac_server app].
  rewrite (assoc_L (++)). f_equal. f_equal.
  destruct (unseen _ _ Profiles ≫= decoded) as [[|p0 ps]|], (unseen _ _ Runtime ≫= decoded) as [r|]; unfold clamp_active; cbn [s_profiles active]; f_equal.
  destruct (saved (ctl w)) as [ps a]. cbn [s_profiles active] in *. f_equal. lia.
Qed.
(** *** The editor and the proxy of the OS *)

(** The editor after a reload: the text stays when the node that it shows is the same. *)
Definition editor_kept w w' : Prop := edited_profile (ctl w') = edited_profile (ctl w) → draft (nodes (ctl w')) = draft (nodes (ctl w)).

(** Outside at most the proxy of the OS is set, to the new settings. *)
Definition proxy_only w w' : Prop := outside w' = outside w ∨ outside w' = (apply_proxy (config (gui (ctl w'))) (outside w)).1.

Definition same_lists w w' : Prop :=
  nodes (ctl w') = nodes (ctl w) ∧ config (gui (ctl w')) = config (gui (ctl w)) ∧ profiles (gui (ctl w')) = profiles (gui (ctl w)) ∧
  runtime (gui (ctl w')) = runtime (gui (ctl w)) ∧ saved (ctl w') = saved (ctl w) ∧ persist (ctl w') = persist (ctl w) ∧ proxy_only w w'.

Lemma app_reloaded_lists old w w' ch : app_reloaded old w = (w', ch) → same_lists w w'.
Proof.
  unfold app_reloaded. cbv zeta. destruct (restart_pac _ w) as [w1 [u|e]] eqn:E1; apply restart_pac_server_only in E1 as [srv ->].
  - destruct (proxy_changed _ _); [|by intros [= <- <-]; split_and!; [done..|left]]. unfold apply_system_proxy_now. unfold same_lists, proxy_only.
    destruct (apply_proxy _ _) as [s [u'|e]] eqn:E; intros [= <- <-]; (split_and!; [done..|]); right; cbn in *; by rewrite E.
  - intros [= <- <-]; split_and!; [done..|by left].
Qed.

(** The lists, the index and the persistence of [on_files_changed] before the editor follows. *)
Lemma after_reload_lists w0 w w' ch : after_reload (edited_profile (ctl w0)) w = (w', ch) → draft (nodes (ctl w)) = draft (nodes (ctl w0)) →
  gui (ctl w') = gui (ctl w) ∧ saved (ctl w') = saved (ctl w) ∧
  persist (ctl w') = persist (ctl w) ∧ outside w' = outside w ∧ editor_kept w0 w'.
Proof.
  intros E Hd. revert E. unfold after_reload. set (w1 := upd _ w). case_decide as He.
  - intros [= <- _]. split_and!; try done. by intros _.
  - unfold load_selected. intros [= <- _]. split_and!; try done. intros Hk. destruct He. rewrite <-Hk. unfold edited_profile. cbn -[Nat.min].
    f_equal. lia.
Qed.

Lemma seen_active_ok w : saved_ok w → active_ok (mkSaved (seen_list w) (seen_active w)).
Proof.
  intros Hs. unfold saved_ok, active_ok, seen_active in *. cbn [s_profiles active].
  assert (0 < length (seen_list w))%nat; [|lia]. unfold seen_list. destruct (new_list w) as [[|p ps]|]; cbn [length]; lia.
Qed.

Lemma normalized g c ps r pac i : g = mkGui c ps r pac → ps ≠ [] → i = (selected_profile r `min` (length ps - 1))%nat →
  normalize_selected_index g = mkGui c ps (Storage.with_selected i r) pac.
Proof.
  intros -> Hp ->. unfold normalize_selected_index. cbn [profiles runtime config pac_server]. destruct ps as [|p ps]; [done|].
  f_equal. f_equal. case_decide; lia.
Qed.

Lemma reloads_files w : reloaded_files w = [] ↔ ¬ reloads w.
Proof.
  unfold reloaded_files, reloads. destruct (new_config w), (new_list w), (new_runtime w); split; try done; try (intros Hn; destruct Hn; eauto; fail).
  intros _ [[? ?]|[[? ?]|[? ?]]]; done.
Qed.
Lemma list_reloaded w : Profiles ∈ reloaded_files w ↔ is_Some (new_list w).
Proof. unfold reloaded_files. destruct (new_config w), (new_list w), (new_runtime w); split; try set_solver; by intros [? ?]. Qed.
Lemma list_seen w : new_list w = None → seen_list w = s_profiles (saved (ctl w)).
Proof. unfold seen_list. by intros ->. Qed.

(** The state in which the editor follows a reload. *)
Lemma follow_reload now w w' ch : sel_ok w → saved_ok w → on_files_changed now w = (w', ch) →
  ¬ reloads w ∧ ctl w' = with_persist (persist (ctl w')) (ctl w) ∧ outside w' = outside w ∧ disk w' = disk w ∧
    dirty (persist (ctl w')) = dirty (persist (ctl w)) ∨
  reloads w ∧ ∃ w3 w4 c4, disk w3 = disk w ∧ outside w3 = outside w ∧ dirty (persist (ctl w3)) = dirty (persist (ctl w)) ∧
    nodes (ctl w3) = nodes (ctl w) ∧ connected (ctl w3) = connected (ctl w) ∧ saved (ctl w3) = mkSaved (seen_list w) (seen_active w) ∧
    gui (ctl w3) = mkGui (seen_config w) (kept_list w) (Storage.with_selected (kept_active w) (seen_runtime w)) (pac_server (gui (ctl w))) ∧
    after_reload (edited_profile (ctl w)) w3 = (w4, c4) ∧ (w' = w4 ∨ ∃ old c5, app_reloaded old w4 = (w', c5)).
Proof.
  intros Hsel Hs. unfold on_files_changed. destruct (seen_reload now w Hs) as (p & Hd & ->). pose proof (seen_active_ok w Hs) as Hact.
  destruct (decide (reloads w)) as [Hr|Hr].
  2: { rewrite (proj2 (reloads_files w) Hr). intros [= <- _]. left. split; [done|]. unfold upd. cbn. split_and!; try done.
       assert (mkGui (seen_config w) (profiles (gui (ctl w))) (seen_runtime w) (pac_server (gui (ctl w))) = gui (ctl w)) as ->.
       { unfold seen_config, seen_runtime, reloads in *. destruct (new_config w); [destruct Hr; eauto|]. destruct (new_runtime w); [destruct Hr; eauto|]. by destruct (gui (ctl w)). }
       assert (mkSaved (seen_list w) (seen_active w) = saved (ctl w)) as ->; [|by destruct (ctl w)].
       unfold seen_active, seen_list, reloads, saved_ok, active_ok in *. destruct (new_list w); [destruct Hr; eauto|]. destruct (new_runtime w); [destruct Hr; eauto|].
       destruct (saved (ctl w)) as [ps a]. cbn in *. f_equal. lia. }
  destruct (reloaded_files w) as [|f fs] eqn:Ef; [by apply reloads_files in Ef|]. rewrite <-Ef.
  assert (list_dirty (ctl w) = false → profiles (gui (ctl w)) = s_profiles (saved (ctl w))) as Hclean.
  { intros [E _]%orb_false_iff. by case_bool_decide. }
  set (w1 := upd _ w). cbv zeta. intros E. right. split; [done|]. revert E.
  set (changes := if decide (is_Some (delay now p)) then PERSIST else NONE).
  assert (∀ w2 c2 a r, disk w2 = disk w → outside w2 = outside w → persist (ctl w2) = p → saved (ctl w2) = mkSaved (seen_list w) (seen_active w) →
      nodes (ctl w2) = nodes (ctl w) → connected (ctl w2) = connected (ctl w) → gui (ctl w2) = mkGui (seen_config w) (kept_list w) r (pac_server (gui (ctl w))) →
      Storage.with_selected (selected_profile r) (seen_runtime w) = r → kept_active w = (selected_profile r `min` (length (kept_list w) - 1))%nat →
      (let '(w4, c4) := after_reload (edited_profile (ctl w)) (upd (on_gui normalize_selected_index) w2) in
       if decide (App ∈ reloaded_files w) then let '(w5, c5) := app_reloaded a w4 in (w5, changes ∪ c2 ∪ OVERVIEW ∪ SETTINGS ∪ c4 ∪ c5)
       else (w4, changes ∪ c2 ∪ OVERVIEW ∪ SETTINGS ∪ c4)) = (w', ch) →
      ∃ w3 w4 c4, disk w3 = disk w ∧ outside w3 = outside w ∧ dirty (persist (ctl w3)) = dirty (persist (ctl w)) ∧
        nodes (ctl w3) = nodes (ctl w) ∧ connected (ctl w3) = connected (ctl w) ∧ saved (ctl w3) = mkSaved (seen_list w) (seen_active w) ∧
        gui (ctl w3) = mkGui (seen_config w) (kept_list w) (Storage.with_selected (kept_active w) (seen_runtime w)) (pac_server (gui (ctl w))) ∧
        after_reload (edited_profile (ctl w)) w3 = (w4, c4) ∧ (w' = w4 ∨ ∃ old c5, app_reloaded old w4 = (w', c5))) as Hrest.
  { intros w2 c2 a r E1 E2 E3 E4 E5 E6 E7 Er Ek. destruct (after_reload _ _) as [w4 c4] eqn:E8. intros E. exists (upd (on_gui normalize_selected_index) w2), w4, c4.
    assert (kept_list w ≠ []) as Hne.
    { unfold kept_list. unfold sel_ok in Hsel. unfold active_ok in Hact. cbn [s_profiles active] in Hact. destruct (list_dirty _); intros Hn; rewrite Hn in *; cbn in *; lia. }
    unfold upd, on_gui. cbn [ctl gui with_gui disk outside persist nodes connected saved]. rewrite E7.
    split_and!; try done; [by rewrite E3| |unfold upd, on_gui in E8; by rewrite E7 in E8|].
    - rewrite (normalized _ _ _ _ _ _ eq_refl Hne Ek). f_equal. by rewrite <-Er.
    - revert E. destruct (decide (App ∈ reloaded_files w)); [|intros E%(f_equal fst); by left].
      destruct (app_reloaded a w4) as [w5 c5] eqn:E9. intros E%(f_equal fst). right. exists a, c5. cbn in E. by rewrite E9, E. }
  destruct (list_dirty (ctl w)) eqn:Hdirty.
  - set (w2 := upd _ w1). destruct (_ && _); [unfold set_notice|]; intros E; (eapply Hrest; [..|exact E]); unfold kept_list, kept_active; rewrite ?Hdirty; reflexivity.
  - assert (kept_active w = (seen_active w `min` (length (kept_list w) - 1))%nat) as Hk.
    { unfold kept_active, kept_list. rewrite Hdirty. unfold active_ok in Hact. cbn in Hact. lia. }
    destruct (decide (Profiles ∈ reloaded_files w)) as [Hp|Hp]; intros E; (eapply (Hrest _ _ _ (Storage.with_selected (seen_active w) (seen_runtime w))); [..|exact E]); try reflexivity; try exact Hk.
    + cbn. unfold kept_list. by rewrite Hdirty.
    + cbn. unfold kept_list. rewrite Hdirty, Hclean, list_seen by (done || (rewrite list_reloaded in Hp; by apply eq_None_not_Some)). reflexivity.
Qed.

(** What a reload keeps; the files are only read. *)
Lemma on_files_changed_spec now w w' ch : sel_ok w → saved_ok w → on_files_changed now w = (w', ch) →
  disk w' = disk w ∧ dirty (persist (ctl w')) = dirty (persist (ctl w)) ∧ (core_ok w → core_ok w') ∧ sel_ok w' ∧ saved_ok w' ∧
  (active_in_range w → active_in_range w') ∧ lists_reloaded w w' ∧ editor_kept w w' ∧ proxy_only w w'.
Proof.
  intros Hsel Hs E. pose proof (seen_active_ok w Hs) as Hact.
  destruct (follow_reload _ _ _ _ Hsel Hs E) as [(Hr & Ec & Eo & Ed & Ep)|(Hr & w3 & w4 & c4 & Ed & Eo & Ep & En & Eco & Es3 & Eg3 & E4 & E5)].
  - unfold core_ok, sel_ok, active_in_range, saved_ok, editor_kept, proxy_only. rewrite Ec, Eo, Ed. cbn. split_and!; try done; [|by left].
    unfold lists_reloaded. rewrite Ec. cbn. unfold kept_list, seen_config, seen_active, seen_list, reloads, list_dirty in *.
    destruct (new_config w); [destruct Hr; eauto|]. destruct (new_list w); [destruct Hr; eauto|]. destruct (new_runtime w); [destruct Hr; eauto|].
    split_and!; [done| | |by left].
    + unfold saved_ok, active_ok in Hs. destruct (saved (ctl w)) as [ps a]. cbn in *. f_equal. lia.
    + destruct (negb _ || negb _) eqn:Hd; [done|]. apply orb_false_iff in Hd as [Hd _]. by case_bool_decide.
  - assert (0 < length (kept_list w) ∧ kept_active w < length (kept_list w))%nat as [Hlen Hka].
    { unfold kept_list, kept_active, sel_ok, active_ok in *. cbn [s_profiles active] in *. destruct (list_dirty _); lia. }
    destruct (after_reload_sel _ _ _ _ (ltac:(by rewrite Eg3) : (0 < length (profiles (gui (ctl w3))))%nat) E4) as [(Hd4 & Hs4 & _ & Hc4 & _) Hsel4].
    apply (after_reload_lists w) in E4 as (Eg4 & Es4 & Ep4 & Eo4 & Hk4); [|by rewrite En].
    assert (steady w4 w' ∧ same_lists w4 w') as [(Hd5 & _ & _ & Hc5 & Hsel5 & _) (En5 & Ef5 & Eg5 & Er5 & Es5 & Ep5 & Eo5)].
    { destruct E5 as [->|(old & c5 & E5)]; [split; [apply steady_refl|split_and!; [done..|by left]]|]. split; [by eapply app_reloaded_steady|by eapply app_reloaded_lists]. }
    rewrite Eg4, Eg3 in Ef5, Eg5, Er5. cbn [config profiles runtime] in Ef5, Eg5, Er5.
    split_and!.
    + congruence.
    + by rewrite Ep5, Ep4, Ep.
    + intros Hc. apply Hc5, Hc4. unfold core_ok. by rewrite En, Eo, Eco.
    + by apply Hsel5.
    + unfold saved_ok. by rewrite Es5, Es4, Es3.
    + intros _. unfold active_in_range. rewrite Eg5, Er5. exact Hka.
    + unfold lists_reloaded. rewrite Ef5, Eg5, Er5, Es5, Es4, Es3. split_and!; try done. by right.
    + unfold editor_kept, edited_profile in *. rewrite En5. rewrite Eg5. rewrite Eg4, Eg3 in Hk4. exact Hk4.
    + unfold proxy_only in *. by rewrite Eo4, Eo in Eo5.
Qed.
End runs.
