(* ===== verification/Keeps.v ===== *)
(** * What the window relies on between two calls

    Whatever is called, a changed file keeps a write scheduled, a code that is shown is the
    one of its link, and the flag of the rule download is set and cleared by the three calls
    that start and end a download only. *)
From S2P Require Import Prelude Std Net Text Link Traffic Logs Qr Pac Storage Persist Nodes ShareLink SystemProxy Profile Controller Editor Save Settings App AppInv.
#[local] Open Scope Z_scope.

Section keeps.
Context `{Codec AppConfig, Codec ProfileStore, Codec RuntimeState} {S : Type} `{Effects S, Files S, Place, UrlLib, QrLib}.
Implicit Types w : World S.

(** Every file with changes that are not written has a write scheduled. *)
Definition pending w : Prop := pending_due (persist (ctl w)).
(** The code in the share sheet is the one of its link. *)
Definition qr_ok w : Prop := match qr (nodes (ctl w)) with Some (link, m) => mask link = Ok m ∧ link ≠ [] | None => True end.

(** Both are kept, and no download starts or ends. *)
Definition keeps w w' : Prop :=
  (pending w → pending w') ∧ (qr_ok w → qr_ok w') ∧ rules_updating (ctl w') = rules_updating (ctl w).

Lemma keeps_refl w : keeps w w.
Proof. by unfold keeps. Qed.
Lemma keeps_trans w1 w2 w3 : keeps w1 w2 → keeps w2 w3 → keeps w1 w3.
Proof. intros (? & ? & ?) (? & ? & ?). split_and!; auto; congruence. Qed.
Lemma keeps_outside s w : keeps w (with_outside s w).
Proof. done. Qed.
End keeps.

Create HintDb keeps.
#[export] Hint Resolve keeps_refl : keeps.

Ltac keeps_upd := unfold keeps, pending, qr_ok; cbn; split_and!; auto.
Ltac keeps_steps := repeat match goal with
  | |- keeps ?w ?w => apply keeps_refl
  | E : ?f ?a = (?b, _) |- keeps _ ?b => apply (keeps_trans _ a); [clear E|solve [eauto with keeps]]
  | E : ?f ?a = (?b, _, _) |- keeps _ ?b => apply (keeps_trans _ a); [clear E|solve [eauto with keeps]]
  | |- keeps ?w (upd ?f ?a) => apply (keeps_trans _ a); [|solve [keeps_upd]]
  | |- keeps ?w (with_outside ?s ?a) => apply (keeps_trans _ a); [|apply keeps_outside]
  end.
Ltac calls3 := cbv zeta; repeat match goal with
  | |- (_, _, _) = (_, _, _) → _ => intros [= <- _ _]
  | |- (?p, _) = (_, _, _) → _ => is_var p; destruct p
  | |- ?t = _ → _ => progress cbn beta iota
  | |- ?t = _ → _ => let h := scrutinee t in let E := fresh "E" in destruct h as [] eqn:E
  end.
Ltac keeps_calls := calls; keeps_steps.
Ltac keeps_calls3 := calls3; keeps_steps.

Section calls.
Context `{Codec AppConfig, Codec ProfileStore, Codec RuntimeState} {S : Type} `{Effects S, Files S, Place, UrlLib, QrLib}.
Implicit Types w : World S.

Lemma set_notice_keeps n w w' ch : set_notice n w = (w', ch) → keeps w w'.
Proof. unfold set_notice. keeps_calls. Qed.
Lemma dismiss_notice_keeps w w' ch : dismiss_notice w = (w', ch) → keeps w w'.
Proof. apply set_notice_keeps. Qed.
Lemma mark_dirty_keeps f now w w' ch : mark_dirty f now w = (w', ch) → keeps w w'.
Proof. unfold mark_dirty. calls. unfold keeps, pending, pending_due. cbn. by split_and!. Qed.
Lemma restart_pac_keeps force w w' r : restart_pac force w = (w', r) → keeps w w'.
Proof. unfold restart_pac. destruct (restart_pac_server _ _ _ _) as [[g ?] ?]. intros [= <- <-]. keeps_steps. Qed.
#[local] Hint Resolve set_notice_keeps dismiss_notice_keeps mark_dirty_keeps restart_pac_keeps : keeps.
Lemma apply_system_proxy_keeps w w' ch : apply_system_proxy_now w = (w', ch) → keeps w w'.
Proof. unfold apply_system_proxy_now. keeps_calls. Qed.
Lemma start_active_keeps now w w' ch : start_active now w = (w', ch) → keeps w w'.
Proof. unfold start_active. keeps_calls. Qed.
#[local] Hint Resolve apply_system_proxy_keeps start_active_keeps : keeps.
Lemma toggle_connection_keeps now w w' ch : toggle_connection now w = (w', ch) → keeps w w'.
Proof. unfold toggle_connection. keeps_calls. Qed.
Lemma set_proxy_mode_keeps mode now w w' ch : set_proxy_mode mode now w = (w', ch) → keeps w w'.
Proof. unfold set_proxy_mode. keeps_calls. Qed.
Lemma set_pac_rule_keeps rule now w w' ch : set_pac_rule rule now w = (w', ch) → keeps w w'.
Proof. unfold set_pac_rule. keeps_calls. Qed.
Lemma copy_pac_url_keeps w w' ch : copy_pac_url w = (w', ch) → keeps w w'.
Proof. unfold copy_pac_url. keeps_calls. Qed.
Lemma poll_core_keeps now w w' ch : poll_core now w = (w', ch) → keeps w w'.
Proof. unfold poll_core, sample_traffic. destruct (core_traffic _). keeps_calls. Qed.
Lemma load_selected_keeps w w' ch : load_selected w = (w', ch) → keeps w w'.
Proof. unfold load_selected. keeps_calls. Qed.
Lemma commit_draft_keeps w w' ch : commit_draft w = (w', ch) → keeps w w'.
Proof. unfold commit_draft. keeps_calls. Qed.
#[local] Hint Resolve toggle_connection_keeps load_selected_keeps commit_draft_keeps : keeps.
Lemma add_node_keeps name w w' ch : add_node name w = (w', ch) → keeps w w'.
Proof. unfold add_node. intros E. keeps_steps. Qed.
Lemma select_node_keeps index w w' ch : select_node index w = (w', ch) → keeps w w'.
Proof. unfold select_node. case_decide; [by intros [= <- <-]|]. intros E. keeps_steps. Qed.
Lemma replace_active_keeps now w w' ch : replace_active now w = (w', ch) → keeps w w'.
Proof. unfold replace_active. cbv zeta. match goal with |- context [if ?b then toggle_connection _ _ else _] => destruct b end; keeps_calls. Qed.
#[local] Hint Resolve replace_active_keeps : keeps.
Lemma node_command_keeps index command now w w' ch : node_command index command now w = (w', ch) → keeps w w'.
Proof.
  unfold node_command. cbv zeta. destruct (Nodes.node_command _ _ _) as [n|]; [|by intros [= <- <-]].
  match goal with |- (let '(_, _) := (if ?b then _ else _) in _) = _ → _ => destruct b end; keeps_calls.
Qed.
Lemma set_active_node_keeps now w w' ch : set_active_node now w = (w', ch) → keeps w w'.
Proof. unfold set_active_node. keeps_calls. Qed.
Lemma activate_node_keeps index now w w' ch : activate_node index now w = (w', ch) → keeps w w'.
Proof. unfold activate_node. keeps_calls. Qed.
Lemma edit_node_keeps field value w w' ch : edit_node field value w = (w', ch) → keeps w w'.
Proof. unfold edit_node. keeps_calls. Qed.
Lemma import_text_keeps txt w w' ch : import_text txt w = Some (w', ch) → keeps w w'.
Proof.
  unfold import_text. destruct (Nodes.import_text _ _) as [[[n added] skipped]|]; [|done]. cbn [mbind option_bind].
  intros E. apply (inj Some) in E. revert E. case_decide; [apply set_notice_keeps|]. keeps_calls.
Qed.
Lemma import_links_keeps w w' ch : import_links w = Some (w', ch) → keeps w w'.
Proof.
  unfold import_links. destruct (paste_text _) as [s [text|e]]; [apply (import_text_keeps text (with_outside s w))|].
  intros E. apply (inj Some) in E. by apply set_notice_keeps in E.
Qed.
Lemma export_link_keeps w w' ch : export_link w = (w', ch) → keeps w w'.
Proof. unfold export_link. keeps_calls. Qed.

Lemma export_nonempty p link : export_share_link p = Ok link → link ≠ [].
Proof.
  unfold export_share_link, export_juicity_link, export_ss_link. destruct (protocol p); case_match; intros E; simplify_eq/=.
  - case_bool_decide; done.
  - repeat case_match; done.
Qed.

Lemma share_link_nonempty c link : share_link c = Some (inl link) → link ≠ [].
Proof.
  unfold share_link. destruct (errors (nodes c)); [|done]. destruct (edited_profile c) as [p|]; [|done]. cbn [mbind option_bind].
  destruct (export_share_link p) as [l|e] eqn:E; [|done]. intros [= <-]. by apply export_nonempty in E.
Qed.

Lemma share_qr_code_keeps w w' ch : share_qr_code w = (w', ch) → keeps w w'.
Proof.
  unfold share_qr_code. destruct (share_link (ctl w)) as [[link|n]|] eqn:El; [|apply set_notice_keeps|by intros [= <- <-]].
  apply share_link_nonempty in El. destruct (mask link) as [m|e] eqn:Em; [|apply set_notice_keeps]. intros [= <- <-]. by unfold keeps, qr_ok.
Qed.

Lemma commit_advanced_keeps w w' ch : commit_advanced w = (w', ch) → keeps w w'.
Proof. unfold commit_advanced. keeps_calls. Qed.
Lemma set_runtime_keeps {A} `{EqDecision A} (get : RuntimeState → A) put (x : A) now w w' ch : set_runtime get put x now w = (w', ch) → keeps w w'.
Proof. unfold set_runtime. keeps_calls. Qed.
Lemma set_autostart_keeps supported x now w w' ch : set_autostart supported x now w = (w', ch) → keeps w w'.
Proof. unfold set_autostart. keeps_calls. Qed.
Lemma install_app_icon_keeps w w' ch : install_app_icon w = (w', ch) → keeps w w'.
Proof. unfold install_app_icon. keeps_calls. Qed.
Lemma reapply_pac_proxy_keeps w w' ch : reapply_pac_proxy w = (w', ch) → keeps w w'.
Proof. unfold reapply_pac_proxy. keeps_calls. Qed.
#[local] Hint Resolve reapply_pac_proxy_keeps : keeps.
Lemma set_pac_source_keeps x now w w' ch : set_pac_source x now w = (w', ch) → keeps w w'.
Proof. unfold set_pac_source. keeps_calls. Qed.
Lemma commit_plain_keeps {A} `{EqDecision A} (get : AppConfig → A) put (x : A) now w w' ch : commit_plain get put x now w = (w', ch) → keeps w w'.
Proof. unfold commit_plain. keeps_calls. Qed.
Lemma apply_listen_change_keeps now w w' ch : apply_listen_change now w = (w', ch) → keeps w w'.
Proof. unfold apply_listen_change. keeps_calls. Qed.
Lemma change_pac_listen_keeps x now w w' ch : change_pac_listen x now w = (w', ch) → keeps w w'.
Proof. unfold change_pac_listen. keeps_calls. Qed.
#[local] Hint Resolve commit_plain_keeps apply_listen_change_keeps change_pac_listen_keeps : keeps.

Lemma commit_value_keeps k value now w w' ch : commit_value k value now w = Some (w', ch) → keeps w w'.
Proof.
  destruct k; unfold commit_value; cbn [mbind option_bind].
  - destruct (parse_u16 value) as [port|]; [|done]. destruct (split_host_port _) as [[host p]|]; [|done]. cbn [mbind option_bind].
    intros E. apply (inj Some) in E. revert E. keeps_calls.
  - intros E. apply (inj Some) in E. by eapply commit_plain_keeps.
  - intros E. apply (inj Some) in E. by eapply commit_plain_keeps.
  - destruct (parse_uint _ value) as [hours|]; [|done]. cbn [mbind option_bind]. intros E. apply (inj Some) in E. by eapply commit_plain_keeps.
  - intros E. apply (inj Some) in E. revert E. keeps_calls.
  - intros E. apply (inj Some) in E. revert E. keeps_calls.
Qed.

Lemma commit_setting_keeps now w w' ch : commit_setting now w = Some (w', ch) → keeps w w'.
Proof.
  unfold commit_setting. destruct (sheet (ctl w)) as [s|]; [|intros [= <- <-]; apply keeps_refl].
  destruct (validate _ _) as [value|e]; [|intros [= <- <-]; keeps_steps].
  intros E%commit_value_keeps. eapply keeps_trans; [|exact E]. keeps_steps.
Qed.

Lemma request_leave_keeps l w w' ch r : request_leave l w = (w', ch, r) → keeps w w'.
Proof. unfold request_leave. keeps_calls3. Qed.

(** *** The timer, Save and reloads *)
Lemma flush_all_keeps now w w' r : flush_all now w = (w', r) → keeps w w' ∧ pending w'.
Proof.
  unfold flush_all. pose proof (flush_pending content_hash config_dir (file_fault (outside w)) (gui (ctl w)) (saved (ctl w)) now (disk w) (persist (ctl w))) as Hp.
  destruct (flush _ _ _ _ _ _ _ _) as [[p d] r']. intros [= <- <-]. by unfold keeps, pending.
Qed.

Lemma flush_due_keeps now w w' ch : flush_due now w = (w', ch) → keeps w w'.
Proof.
  unfold flush_due. destruct (save_delay now w); [|by intros [= <- <-]]. case_decide; [|by intros [= <- <-]].
  destruct (flush_all now w) as [w1 r] eqn:E1. apply flush_all_keeps in E1 as [C1 _]. intros E. apply (keeps_trans _ _ _ C1). revert E. clear C1. keeps_calls.
Qed.

Lemma write_file_keeps f sv w w' r : write_file f sv w = (w', r) → keeps w w'.
Proof.
  unfold write_file, Persist.write. destruct (file_bytes _ _ _) as [b|e]; [|intros [= <- <-]; by destruct w as [[]]].
  destruct (write_atomic _ _ _ _) as [d [[]|e]]; intros [= <- <-]; [|by destruct w as [[]]].
  unfold keeps, pending, pending_due. cbn. split_and!; try done. intros Hp f' Hf'. apply (Hp f'). destruct (decide (f' = f)) as [->|Hne]; [by rewrite set_at_eq in Hf'|by rewrite set_at_ne in Hf'].
Qed.
#[local] Hint Resolve write_file_keeps : keeps.

Lemma clear_save_notice_keeps w w' ch : clear_save_notice w = (w', ch) → keeps w w'.
Proof. unfold clear_save_notice. keeps_calls. Qed.
Lemma save_failed_keeps e w w' ch ok : save_failed e w = (w', ch, ok) → keeps w w'.
Proof. unfold save_failed. keeps_calls3. Qed.
#[local] Hint Resolve clear_save_notice_keeps save_failed_keeps : keeps.
Lemma write_index_keeps next w w' ch ok : write_index next w = (w', ch, ok) → keeps w w'.
Proof. unfold write_index. keeps_calls3. Qed.
#[local] Hint Resolve write_index_keeps : keeps.
Lemma write_nodes_keeps w w' ch ok : write_nodes w = (w', ch, ok) → keeps w w'.
Proof. unfold write_nodes, save_refusal. keeps_calls3. Qed.
Lemma revert_nodes_keeps w w' ch : revert_nodes w = (w', ch) → keeps w w'.
Proof. unfold revert_nodes. keeps_calls. Qed.
#[local] Hint Resolve write_nodes_keeps revert_nodes_keeps : keeps.
Lemma answer_prompt_keeps a w w' ch r : answer_prompt a w = (w', ch, r) → keeps w w'.
Proof. unfold answer_prompt. keeps_calls3. destruct b; keeps_steps. Qed.

Lemma after_reload_keeps edited w w' ch : after_reload edited w = (w', ch) → keeps w w'.
Proof. unfold after_reload. keeps_calls. Qed.
Lemma app_reloaded_keeps old w w' ch : app_reloaded old w = (w', ch) → keeps w w'.
Proof. unfold app_reloaded. keeps_calls. Qed.
#[local] Hint Resolve after_reload_keeps app_reloaded_keeps : keeps.

Lemma on_files_changed_keeps now w w' ch : on_files_changed now w = (w', ch) → keeps w w'.
Proof.
  unfold on_files_changed. cbv zeta. unfold reload_changed. pose proof (reload_fold content_hash config_dir (disk w) now ALL (persist (ctl w)) (gui (ctl w)) (saved (ctl w)) [] ALL_NoDup) as Hr.
  destruct (foldl _ _ ALL) as [[[p g] sv] reloaded]. destruct Hr as (W1 & W2 & _).
  match goal with |- context [upd ?f w] => set (w1 := upd f w) end.
  assert (keeps w w1) as C1 by (unfold keeps, pending, qr_ok, pending_due; cbn; split_and!; try done; intros Hp f Hf; rewrite W1 in Hf; rewrite W2; by eapply Hp).
  intros E. apply (keeps_trans _ _ _ C1). revert E. clear C1. clearbody w1. keeps_calls; destruct (decide (Profiles ∈ _)); keeps_steps.
Qed.

(** *** Every call *)
Definition downloads (o : Op) : bool := match o with OStartup _ | OUpdateRules | OFinishRules _ => true | _ => false end.

Lemma perform_keeps o w w' ch : downloads o = false → perform o w = Some (w', ch) → keeps w w'.
Proof.
  intros Ho E. destruct o; try done; cbn [perform] in E;
    try (by eapply import_links_keeps); try (by eapply import_text_keeps); try (by eapply commit_setting_keeps);
    try (apply (inj Some) in E); try (by eapply set_runtime_keeps);
    try solve [injection E as <- <-; try (apply keeps_refl); keeps_upd];
    try first [by eapply toggle_connection_keeps|by eapply set_proxy_mode_keeps|by eapply set_pac_rule_keeps|by eapply copy_pac_url_keeps
      |by eapply poll_core_keeps|by eapply dismiss_notice_keeps|by eapply select_node_keeps|by eapply add_node_keeps|by eapply node_command_keeps
      |by eapply edit_node_keeps|by eapply set_active_node_keeps|by eapply activate_node_keeps|by eapply export_link_keeps|by eapply share_qr_code_keeps
      |by eapply commit_advanced_keeps|by eapply flush_due_keeps|by eapply on_files_changed_keeps|by eapply revert_nodes_keeps
      |by eapply set_autostart_keeps|by eapply install_app_icon_keeps|by eapply set_pac_source_keeps
      |by eapply (commit_plain_keeps pac_auto_update_hours with_update_hours)].
  - revert E. unfold expire_notice. keeps_calls.
  - revert E. unfold edit_advanced. keeps_calls.
  - unfold save_nodes in E. destruct (write_nodes w) as [[w1 c1] ok] eqn:E1. injection E as <- <-. by eapply write_nodes_keeps.
  - destruct (request_leave l w) as [[w1 c1] r] eqn:E1. injection E as <- <-. by eapply request_leave_keeps.
  - destruct (answer_prompt a w) as [[w1 c1] r] eqn:E1. injection E as <- <-. by eapply answer_prompt_keeps.
  - revert E. unfold open_setting. destruct (initial_draft _ _) as [[d|]|]; [|by intros [= <- <-]|done]. intros [= <- <-]. keeps_steps.
  - revert E. unfold edit_setting. keeps_calls.
  - revert E. unfold cancel_setting. keeps_calls.
Qed.

(** *** Downloads *)

(** A job is given exactly when the flag gets set. *)
Definition job_given w w' (job : option RuleJob) : Prop :=
  (pending w → pending w') ∧ (qr_ok w → qr_ok w') ∧
  match job with
  | Some _ => rules_updating (ctl w) = false ∧ rules_updating (ctl w') = true
  | None => rules_updating (ctl w') = rules_updating (ctl w)
  end.

Lemma begin_rules_job w w' job : begin_rules w = (w', job) → job_given w w' job.
Proof. unfold begin_rules. destruct (rules_updating (ctl w)) eqn:E; intros [= <- <-]; by unfold job_given. Qed.

Lemma keeps_job w1 w2 w3 job : keeps w1 w2 → job_given w2 w3 job → job_given w1 w3 job.
Proof. intros (? & ? & E) (? & ? & Hj). unfold job_given. rewrite <-E. split_and!; auto. Qed.

Lemma update_rules_job w w' ch job : update_rules w = (w', ch, job) → job_given w w' job.
Proof. unfold update_rules. destruct (begin_rules w) as [w1 j] eqn:E. intros [= <- _ <-]. by apply begin_rules_job. Qed.

Lemma startup_job now w w' ch job : startup now w = (w', ch, job) → job_given w w' job.
Proof.
  unfold startup, startup_connection. destruct (restart_pac true w) as [w1 r1] eqn:E1. apply restart_pac_keeps in E1. cbv zeta.
  match goal with |- context [if ?b then start_active now w1 else _] => set (start := b) end.
  assert (∃ w2 (c2 : Changes), (if start then start_active now w1 else (w1, NONE)) = (w2, c2) ∧ keeps w1 w2) as (w2 & c2 & -> & C2).
  { clearbody start. destruct start; [|by do 2 eexists]. destruct (start_active now w1) as [w2 c2] eqn:E2. do 2 eexists. split; [done|]. by apply start_active_keeps in E2. }
  assert (∃ w3 (c3 : Changes), (if decide (system_proxy_mode (config (gui (ctl w2))) = PDisable) then (w2, NONE) else apply_system_proxy_now w2) = (w3, c3) ∧ keeps w2 w3)
    as (w3 & c3 & -> & C3).
  { case_decide; [by do 2 eexists|]. destruct (apply_system_proxy_now w2) as [w3 c3] eqn:E3. do 2 eexists. split; [done|]. by apply apply_system_proxy_keeps in E3. }
  pose proof (keeps_trans _ _ _ (keeps_trans _ _ _ E1 C2) C3) as C. destruct (rules_overdue now w3).
  - destruct (begin_rules w3) as [w4 j] eqn:E4. intros [= <- _ <-]. eapply keeps_job; [exact C|]. by apply begin_rules_job.
  - intros [= <- _ <-]. by eapply keeps_job.
Qed.

Lemma finish_rules_ends r w w' ch : finish_rules r w = (w', ch) →
  (pending w → pending w') ∧ (qr_ok w → qr_ok w') ∧ rules_updating (ctl w') = false.
Proof.
  unfold finish_rules. cbv zeta. set (w1 := upd _ w). intros E. enough (keeps w1 w') as (? & ? & ->) by done. revert E. keeps_calls.
Qed.
End calls.
