(* ===== verification/Runs.v ===== *)
(** * Runs of the client: calls, and what other programs do in between

    The controller from its start on.  Between two calls the disk may be written by
    another program, and what is outside may change without starting or stopping the
    core. *)
From S2P Require Import Prelude Std Net Text Link Traffic Logs Qr Pac Storage Persist Nodes ShareLink SystemProxy Profile Controller Editor Save Settings App AppInv Commit Saving.
#[local] Open Scope Z_scope.

Section runs.
Context `{Codec AppConfig, Codec ProfileStore, Codec RuntimeState} {S : Type} `{Effects S, !EffectsLaws S, Files S, Place, UrlLib, QrLib}.
Implicit Types w : World S.
Abbreviation on_disk w f := (disk w !! path config_dir f).

(** [Controller::new]. *)
Definition opened (rename_ok : bool) (d : Disk) (s : S) (ls : LogsState) : World S :=
  let '(g, loaded, d) := load_tracked config_dir rename_ok d in mkWorld (Controller_new g loaded ls) s d.

Inductive reachable (w0 : World S) : World S → Prop :=
  | at_start : reachable w0 w0
  | call w o w' ch : reachable w0 w → perform o w = Some (w', ch) → reachable w0 w'
  | other_program w d : reachable w0 w → reachable w0 (mkWorld (ctl w) (outside w) d)
  | elsewhere w s : reachable w0 w → others (outside w) s → reachable w0 (with_outside s w).

Definition saves (o : Op) : bool := match o with OSave | OAnswer Save => true | _ => false end.
Definition reads_files (o : Op) : bool := match o with OFilesChanged _ => true | _ => false end.

(** runtime.json is as it was, or has the saved index with the current settings. *)
Definition runtime_written w w' : Prop :=
  on_disk w' Runtime = on_disk w Runtime ∨
  ∃ b, on_disk w' Runtime = Some b ∧ encode (Storage.with_selected (active (saved (ctl w'))) (runtime (gui (ctl w')))) = Ok b.
(** profiles.json is as it was, or has the saved list. *)
Definition list_written w w' : Prop :=
  on_disk w' Profiles = on_disk w Profiles ∨ ∃ b, on_disk w' Profiles = Some b ∧ encode (s_profiles (saved (ctl w'))) = Ok b.

(** What a call may do to what is saved, in memory and on the disk. *)
Definition saved_kept o w w' : Prop :=
  (saves o = false → on_disk w' Profiles = on_disk w Profiles ∧ (reads_files o = false → saved (ctl w') = saved (ctl w))) ∧
  list_written w w' ∧ runtime_written w w'.

(** What is saved and the files did not change. *)
Lemma saved_kept_same o w w' : saved (ctl w') = saved (ctl w) → disk w' = disk w → saved_kept o w w'.
Proof. intros Es Ed. unfold saved_kept, list_written, runtime_written. rewrite Ed. split; [by intros _; split|]. split; by left. Qed.

Lemma flush_due_spec now w w' ch : flush_due now w = (w', ch) → list_clean w →
  (core_ok w → core_ok w') ∧ (sel_ok w → sel_ok w') ∧ (active_in_range w → active_in_range w') ∧ saved (ctl w') = saved (ctl w) ∧ list_clean w' ∧
  on_disk w' Profiles = on_disk w Profiles ∧ runtime_written w w' ∧ outside w' = outside w.
Proof.
  intros E Hc. assert (∀ w1 r, flush_all now w = (w1, r) →
    (core_ok w → core_ok w1) ∧ (sel_ok w → sel_ok w1) ∧ (active_in_range w → active_in_range w1) ∧ saved (ctl w1) = saved (ctl w) ∧ list_clean w1 ∧
    on_disk w1 Profiles = on_disk w Profiles ∧ runtime_written w w1 ∧ outside w1 = outside w) as Hf.
  { intros w1 r (Ec & Eo & Hd & Hb)%flush_all_spec. unfold core_ok, sel_ok, active_in_range, runtime_written. rewrite Ec, Eo.
    destruct (Hd Profiles Hc) as [Hd1 Hd2]. split_and!; try done; exact (Hb Runtime). }
  revert E. unfold flush_due. destruct (save_delay now w) as [d|]; [|intros [= <- _]; split_and!; try done; by left].
  case_decide; [|intros [= <- _]; split_and!; try done; by left].
  destruct (flush_all now w) as [w1 [u|e]] eqn:E1; [intros [= <- _]; by eapply Hf|]. unfold set_notice. intros [= <- _].
  exact (Hf _ _ eq_refl).
Qed.

(** The files after [write_nodes]. *)
Lemma files_outcome_written w w' ok : gui (ctl w') = gui (ctl w) → s_profiles (saved (ctl w')) = profiles (gui (ctl w)) ∨ ok = false →
  files_outcome w w' ok → list_written w w' ∧ runtime_written w w'.
Proof.
  intros Hg Hp (_ & Hf). unfold list_written, runtime_written. destruct ok.
  - destruct Hp as [Hp|]; [|done]. destruct Hf as [Hl Hi]. split.
    + case_decide; [by left|right]. by rewrite Hp.
    + unfold index_written in Hi. case_decide; [by left|by right].
  - destruct Hf as [[[Hl _]|(Hs & b & Hl & Hb)] Hi]; (split; [|by left]); [by left|right]. exists b. by rewrite Hs.
Qed.

(** [write_nodes] keeps the invariant. *)
Lemma write_nodes_inv w w' ch ok : inv w → write_nodes w = (w', ch, ok) →
  inv w' ∧ (active_in_range w → active_in_range w') ∧ list_written w w' ∧ runtime_written w w' ∧ outside w' = outside w.
Proof.
  intros (Hc & Hs & Hv & Hl) E. apply write_nodes_outcome in E; [|done..].
  destruct (nodes_dirty (ctl w)); [|destruct E as [-> _]; split_and!; try done; by left].
  destruct E as (Ho & Hf & _ & Hl1 & Hv1). destruct (save_outcome_core _ _ _ Ho) as (Hc1 & Hs1 & Ha1). split; [split_and!; auto|]. split; [done|].
  destruct Ho as (Hg & _ & _ & _ & _ & Ho & Hok). rewrite (assoc (∧)). split; [|done]. apply (files_outcome_written _ _ ok); [done| |done].
  destruct ok; [left; apply Hok|by right].
Qed.

Lemma revert_nodes_inv w w' ch : inv w → revert_nodes w = (w', ch) →
  inv w' ∧ (active_in_range w → active_in_range w') ∧ saved (ctl w') = saved (ctl w) ∧ disk w' = disk w ∧ outside w' = outside w.
Proof.
  intros (Hc & Hs & Hv & Hl) E. apply revert_nodes_spec in E as (_ & Hd & Hsv & Hp & _ & Hc2 & Hs2 & Ha2 & Ho2); [|done].
  unfold inv, saved_ok, list_clean. rewrite Hsv, Hp. split_and!; auto.
Qed.

Lemma answer_spec a w w' ch l : inv w → answer_prompt a w = (w', ch, l) →
  inv w' ∧ (active_in_range w → active_in_range w') ∧ saved_kept (OAnswer a) w w' ∧ outside w' = outside w.
Proof.
  intros Hi. unfold answer_prompt. destruct (leave (ctl w)) as [lv|]; [|intros [= <- _ _]; split_and!; try done; by apply saved_kept_same].
  destruct a.
  - destruct (write_nodes w) as [[w1 c1] ok] eqn:E1. apply write_nodes_inv in E1 as (Hi1 & Ha1 & Hl1 & Hr1 & Ho1); [|done]. intros E.
    assert (w' = if ok then upd (with_leave None) w1 else w1) as -> by by injection E. by destruct ok.
  - destruct (revert_nodes _) as [w2 c2] eqn:E2. apply revert_nodes_inv in E2 as (Hi2 & Ha2 & Hs2 & Hd2 & Ho2); [|exact Hi].
    intros [= <- _ _]. split_and!; try done. by apply saved_kept_same.
  - intros [= <- _ _]. split; [exact Hi|]. split; [done|]. split; [by apply saved_kept_same|done].
Qed.

(** The invariant after a call, and what it does to what is saved. *)
Lemma perform_inv o w w' ch : inv w → perform o w = Some (w', ch) →
  inv w' ∧ (active_in_range w → active_in_range w') ∧ saved_kept o w w' ∧ rtc effect (outside w) (outside w').
Proof.
  intros Hi E. pose proof Hi as (Hc & Hs & Hv & Hl).
  assert (small o ∨ o = OSave ∨ o = ORevert ∨ (∃ now, o = OFlushDue now) ∨ (∃ now, o = OFilesChanged now) ∨ ∃ a, o = OAnswer a) as Ho.
  { destruct o; cbn; eauto 8. }
  destruct Ho as [Ho|[->|[->|[[now ->]|[[now ->]|[a ->]]]]]].
  - destruct (small_steady _ _ _ _ Ho E) as (Hd & Hsv & Hp & Hc' & Hs' & Ha' & Ho'). unfold inv, saved_ok, list_clean.
    rewrite Hsv, Hp. split_and!; auto; try done. by apply saved_kept_same.
  - cbn [perform] in E. unfold save_nodes in E. destruct (write_nodes w) as [[w1 c1] ok] eqn:E1. injection E as <- _.
    apply write_nodes_inv in E1 as (Hi1 & Ha1 & Hl1 & Hr1 & ->); [|done]. by split_and!.
  - cbn [perform] in E. apply (inj Some), revert_nodes_inv in E as (Hi1 & Ha1 & Hs1 & Hd1 & ->); [|done]. split_and!; try done. by apply saved_kept_same.
  - cbn [perform] in E. apply (inj Some), flush_due_spec in E as (? & ? & ? & Hsv & ? & Hp & ? & ->); [|done].
    unfold inv, saved_ok, saved_kept, list_written. rewrite Hsv. split_and!; auto; done.
  - cbn [perform] in E. apply (inj Some), on_files_changed_spec in E as (Hd & Hp & Hc' & Hs' & Hv' & Ha' & _ & _ & Ho); [|done..].
    unfold inv, list_clean, saved_kept, list_written, runtime_written. rewrite Hd, Hp. split_and!; auto; [done|]. destruct Ho as [->| ->]; [done|apply rtc_once, e_apply].
  - cbn [perform] in E. apply (inj Some) in E. destruct (answer_prompt a w) as [[w1 c1] l] eqn:E1. injection E as -> ->.
    by apply answer_spec in E1 as (Hi' & Ha' & Hk & ->).
Qed.

(** ** The invariant *)
Lemma opened_inv rename_ok d s ls : core_runs s = None → inv (opened rename_ok d s ls).
Proof.
  intros Hs. assert (saved_ok (opened rename_ok d s ls) ∧ (0 < length (profiles (gui (ctl (opened rename_ok d s ls)))))%nat) as [Hv Hlen].
  { unfold opened, load_tracked. destruct (load_or_recover AppConfig_default _ _ _ _) as [[c cb] d1]. destruct (load_or_recover [] _ _ _ d1) as [[ps pb] d2].
    destruct (load_or_recover RuntimeState_default _ _ _ d2) as [[r rb] d3]. destruct ps as [|p ps]; cbn [ctl saved gui Controller_new saved_ok profiles length]; (split; [|lia]);
      by apply clamp_active_ok. }
  revert Hv Hlen. unfold opened. destruct (load_tracked _ _ _) as [[g loaded] d']. intros Hv Hlen.
  unfold inv, core_ok, sel_ok, list_clean. cbn -[Nat.min] in *. rewrite Hs. split_and!; try done; try lia; by destruct loaded as [[??]?].
Qed.

(** The invariant and what is kept outside hold along a run, and the active index that is in the list stays there. *)
Lemma reachable_inv (P : S → Prop) w0 w :
  (∀ s s', P s → effect s s' → P s') → (∀ s s', P s → others s s' → P s') → inv w0 → P (outside w0) → reachable w0 w →
  inv w ∧ (active_in_range w0 → active_in_range w) ∧ P (outside w).
Proof.
  intros He Ho Hi HP. induction 1 as [|w o w' ch _ (IH & IHa & IHP) E|w d' _ IH|w s' _ (IH & IHa & IHP) E].
  - done.
  - apply perform_inv in E as (Hi' & Ha' & _ & Hr); [|done]. split_and!; [done|by auto|]. clear -He IHP Hr. induction Hr; eauto.
  - exact IH.
  - split; [|split; [exact IHa|by eapply Ho]]. destruct IH as (Hc & Hrest). split; [|exact Hrest]. unfold core_ok. cbn. by rewrite (others_runs _ _ E).
Qed.

(** C7: from whatever is on the disk at the start, whatever is called and whatever other programs write in between: the
    controller is connected exactly when a core runs and knows its profile, the editor's index is in the list, the saved
    index is in the saved list, and the timer has no write of the list; the active index stays in the list once it is
    there.  (A runtime.json whose index is past the list is not corrected at the start.) *)
Theorem controller_invariant rename_ok d s ls w w' :
  core_runs s = None → reachable (opened rename_ok d s ls) w → reachable w w' → inv w ∧ inv w' ∧ (active_in_range w → active_in_range w').
Proof.
  intros Hs Hw Hw'. apply (reachable_inv (λ _, True) _ w) in Hw as (Hi & _ & _); [|done..|by apply opened_inv|done].
  apply (reachable_inv (λ _, True)) in Hw' as (Hi' & Ha & _); done.
Qed.

(** C25: only Save and the answer Save write profiles.json, with the list that is then the saved one; runtime.json stays as
    it is or is written with the saved index, never with the one of unsaved edits; no other call but the reload of changed
    files changes what is saved. *)
Theorem only_save_writes_nodes o w w' ch : inv w → perform o w = Some (w', ch) → saved_kept o w w'.
Proof. intros Hi E. by apply perform_inv in E as (_ & _ & ? & _). Qed.



(** C26: when other programs change the files: each file that is not to be written itself and that can be read is taken over,
    the settings, the saved list and the saved index; edits of the list that are not saved stay, with the active node, and
    a list without edits follows the file; the text in the editor stays while its node is the same; outside at most
    the proxy of the OS is set, also when the address of a core that runs has changed. *)
Theorem reload_keeps_edits now w w' ch : inv w → on_files_changed now w = (w', ch) →
  lists_reloaded w w' ∧ editor_kept w w' ∧ proxy_only w w' ∧ disk w' = disk w.
Proof. intros (_ & Hs & Hv & _) E. apply on_files_changed_spec in E as (? & _ & _ & _ & _ & _ & ? & ? & ?); auto. Qed.

(** C39: when the saved index points past a shortened list whose last node is active, a Save that can write succeeds: profiles.json
    has the shorter list and the saved index is the last one, but runtime.json is not written, and its index, the one that
    was saved, points past the list on the disk. *)
Theorem stale_index_after_save w w' ch b r :
  inv w → can_save w → profiles (gui (ctl w)) ≠ s_profiles (saved (ctl w)) →
  selected_profile (runtime (gui (ctl w))) = (length (profiles (gui (ctl w))) - 1)%nat →
  (length (profiles (gui (ctl w))) ≤ active (saved (ctl w)))%nat →
  on_disk w Runtime = Some b → decode b = Ok r → selected_profile r = active (saved (ctl w)) → save_nodes w = (w', ch) →
  nodes_dirty (ctl w') = false ∧ (∃ b', on_disk w' Profiles = Some b' ∧ encode (profiles (gui (ctl w))) = Ok b') ∧
  active (saved (ctl w')) = (length (profiles (gui (ctl w))) - 1)%nat ∧
  on_disk w' Runtime = Some b ∧ (length (profiles (gui (ctl w))) ≤ selected_profile r)%nat.
Proof.
  intros (_ & Hs & Hv & _) Hcan Hp Ha Hlen Hb Hdec Hr. unfold save_nodes. destruct (write_nodes w) as [[w1 c1] ok] eqn:E1. intros [= <- _].
  assert (nodes_dirty (ctl w) = true) as Hd by (unfold nodes_dirty, list_dirty; by rewrite bool_decide_false).
  apply write_nodes_outcome in E1; [|done..]. rewrite Hd in E1. destruct E1 as (Ho & (_ & Hf) & Hok & _). rewrite (Hok Hcan) in Ho, Hf.
  destruct Ho as (Hg & _ & _ & _ & _ & _ & (_ & Hact & _ & Hn & _)). rewrite decide_False in Hf by done. destruct Hf as [Hl Hi].
  assert (active (saved (ctl w1)) = (length (profiles (gui (ctl w))) - 1)%nat) as Hact' by (rewrite Hact, Ha; lia).
  unfold index_written in Hi. rewrite decide_True in Hi by (rewrite Hact'; lia). rewrite Hi. split_and!; try done; [|lia].
  apply Hn. unfold active_in_range, sel_ok in *. lia.
Qed.

(** ** Connecting *)

(** Connecting: without a node, or with one that lacks a field, only a notice; a core that starts runs the active
    profile and the connection is remembered; a core that fails to start leaves the client disconnected. *)
Theorem start_active_correct now w w' ch : core_ok w → start_active now w = (w', ch) →
  config (gui (ctl w')) = config (gui (ctl w)) ∧ profiles (gui (ctl w')) = profiles (gui (ctl w)) ∧
  match state_profile (gui (ctl w)) with
  | None => notice (ctl w') = NoNode ∧ outside w' = outside w ∧ connected (ctl w') = connected (ctl w)
  | Some p =>
      match missing_fields p, (start_core (config (gui (ctl w))) p (outside w)).2 with
      | [], Ok _ => connected (ctl w') = true ∧ core_runs (outside w') = Some p ∧ started_with (nodes (ctl w')) = Some p ∧
                    was_running (runtime (gui (ctl w'))) = true ∧ dirty (persist (ctl w')) Runtime = true ∧ start_notice (notice (ctl w')) = false
      | [], Err e => connected (ctl w') = false ∧ core_runs (outside w') = None ∧ started_with (nodes (ctl w')) = None ∧ notice (ctl w') = StartFailed e
      | ms, _ => notice (ctl w') = MissingFields ms ∧ outside w' = outside w ∧ connected (ctl w') = connected (ctl w)
      end
  end.
Proof.
  intros [Hc1 Hc2]. unfold start_active. destruct (state_profile _) as [p|]; [|by intros [= <- _]].
  destruct (missing_fields p) as [|f fs]; [|by intros [= <- _]]. pose proof (start_core_runs (config (gui (ctl w))) p (outside w)) as Hr.
  change (start_core (config (gui (ctl w))) p (outside (upd reset_traffic w))) with (start_core (config (gui (ctl w))) p (outside w)).
  destruct (start_core _ _ _) as [s [u|e]]; cbn [fst snd].
  - unfold mark_dirty, dismiss_notice, set_notice. destruct (start_notice _) eqn:En; intros [= <- _]; by split_and!.
  - destruct (connected (ctl (with_outside s (upd reset_traffic w)))) eqn:Ec; unfold set_notice; [unfold mark_dirty|]; intros [= <- _]; split_and!; try done.
    change (started_with (nodes (ctl w)) = None). rewrite Hc1. change (connected (ctl w) = false) in Ec. rewrite Ec in Hc2. symmetry in Hc2.
    by apply bool_decide_eq_false, eq_None_not_Some in Hc2.
Qed.

(** What [shutdown] does. *)
Lemma shutdown_spec now w :
  let w' := shutdown now w in
  let c := config (gui (ctl w)) in
  core_runs (outside w') = None ∧ connected (ctl w') = false ∧ gui (ctl w') = gui (ctl w) ∧
  outside w' = (if decide (system_proxy_mode c = PDisable) then stop_core (outside w) else (apply_proxy (with_proxy_mode PDisable c) (stop_core (outside w))).1) ∧
  (list_clean w → on_disk w' Profiles = on_disk w Profiles) ∧
  ∀ f b, dirty (persist (ctl w)) f = true → file_fault (outside w') f = None → file_bytes f (gui (ctl w)) (saved (ctl w)) = Ok b → on_disk w' f = Some b.
Proof.
  cbv zeta. unfold shutdown. cbn [upd with_outside ctl outside gui with_connected].
  assert (∀ w1, ctl w1 = with_connected false (ctl w) → disk w1 = disk w → core_runs (outside w1) = None →
    let w' := (flush_all now w1).1 in
    core_runs (outside w') = None ∧ connected (ctl w') = false ∧ gui (ctl w') = gui (ctl w) ∧ outside w' = outside w1 ∧
    (list_clean w → on_disk w' Profiles = on_disk w Profiles) ∧
    ∀ f b, dirty (persist (ctl w)) f = true → file_fault (outside w') f = None → file_bytes f (gui (ctl w)) (saved (ctl w)) = Ok b → on_disk w' f = Some b) as Hf.
  { intros w1 Ec Ed Hr. unfold flush_all, flush. rewrite Ec, Ed. cbn [gui saved persist with_connected].
    pose proof (flush_fold content_hash config_dir (file_fault (outside w1)) (gui (ctl w)) (saved (ctl w)) now ALL
      (mkPersist (dirty (persist (ctl w))) None (known (persist (ctl w)))) (disk w) (Ok tt) ALL_NoDup) as Hf.
    destruct (foldl _ _ ALL) as [[p d] r]. destruct Hf as (W1 & W2 & _). cbn. split_and!; try done.
    - intros Hd. apply W2. right. by left.
    - intros f b Hd Hff Hb. apply (W1 f b); try done; [destruct f; [by left|by right; left|by right; right; left]|]. unfold fails. by rewrite Hff, Hb. }
  case_decide.
  - by apply Hf; cbn; [..|apply stop_core_runs].
  - apply Hf; cbn; [done..|]. by rewrite apply_proxy_runs, stop_core_runs.
Qed.

(** Quitting stops the core, takes the proxy of the OS back when one is set, and writes every changed file that can be
    written. *)
Theorem shutdown_correct now w f b :
  let w' := shutdown now w in
  let c := config (gui (ctl w)) in
  core_runs (outside w') = None ∧ connected (ctl w') = false ∧ gui (ctl w') = gui (ctl w) ∧
  outside w' = (if decide (system_proxy_mode c = PDisable) then stop_core (outside w) else (apply_proxy (with_proxy_mode PDisable c) (stop_core (outside w))).1) ∧
  (dirty (persist (ctl w)) f = true → file_fault (outside w') f = None → file_bytes f (gui (ctl w)) (saved (ctl w)) = Ok b → on_disk w' f = Some b).
Proof. cbv zeta. destruct (shutdown_spec now w) as (? & ? & ? & ? & _ & Hw). split_and!; [done..|]. apply Hw. Qed.
End runs.

(** ** Concrete runs *)
Module Toy.
(** Outside is only the profile that runs; every call succeeds. *)
#[export] Instance effects : Effects (option ProxyProfile) := {|
  start_core _ p _ := (Some p, Ok tt); stop_core _ := None; poll_core_effect s := (s, None); apply_proxy _ s := (s, Ok tt);
  copy_text _ s := (s, Ok tt); paste_text s := (s, Ok (B "juicity://x")); apply_autostart _ s := (s, Ok tt); install_icon s := (s, Ok tt);
  core_traffic s := (s, None) |}.
#[export, refine] Instance laws : EffectsLaws (option ProxyProfile) := {| core_runs s := s; others := eq |}.
Proof. all: done. Defined.
#[export] Instance files : Files (option ProxyProfile) := {|
  file_fault _ _ := None; read_rules _ _ := None; rule_mtime _ _ := None; can_bind _ _ := true |}.
#[export] Instance place : Place := {| config_dir := B "c"; content_hash b := Z.of_nat (length b) |}.
#[export] Instance qr : QrLib := {| qr_new _ := Ok (2%nat, λ x y, (x =? y)%nat) |}.
Definition node : ProxyProfile := mkProfile (B "n") Juicity (B "h") 443 (B "p") (B "u") None false None None [] None None None 5 None None None.
#[export] Instance profiles_codec : Codec ProfileStore := Storage.Sample.two [node] [node; node].
Definition world (ps : ProfileStore) (i : nat) : World (option ProxyProfile) :=
  mkWorld (Controller_new (mkGui AppConfig_default ps (Storage.with_selected i RuntimeState_default) None) (None, None, None)
    (with_sources LogBuffer_new TrafficMonitor_new)) None ∅.

Lemma world_inv ps i : (0 < length ps)%nat → inv (world ps i).
Proof. intros Hi. split_and!; try done; [unfold sel_ok; cbn -[Nat.min]; lia|apply clamp_active_ok; cbn; intros ->; cbn in Hi; lia]. Qed.

(** A second node, made active and not saved. *)
Definition edited : World (option ProxyProfile) := upd (set_working_active 1) (world [node; node] 0).
Lemma edited_inv : inv edited.
Proof. split_and!; try done; by apply Nat.ltb_lt. Qed.
End Toy.
#[local] Existing Instances Storage.Sample.app_codec Storage.Sample.runtime_codec Toy.profiles_codec Toy.effects Toy.laws Toy.files Toy.place Toy.qr ShareLink.Sample.lib.

Lemma controller_invariant_witness :
  let w0 := opened true ∅ None (with_sources LogBuffer_new TrafficMonitor_new) in inv w0 ∧ inv (add_node (B "x") w0).1 ∧ active_in_range (add_node (B "x") w0).1.
Proof.
  intros w0. destruct (controller_invariant true ∅ None (with_sources LogBuffer_new TrafficMonitor_new) w0 (add_node (B "x") w0).1) as (Hi & Hi' & Ha).
  - done.
  - apply at_start.
  - apply (call _ w0 (OAdd (B "x")) _ (add_node (B "x") w0).2); [apply at_start|]. done.
  - split_and!; [done..|]. apply Ha. by apply Nat.ltb_lt.
Defined.

Lemma only_save_writes_nodes_witness : disk (node_command 0 Delete 0 Toy.edited).1 !! path config_dir Profiles = None.
Proof. by apply (only_save_writes_nodes (OCommand 0 Delete 0) Toy.edited _ (node_command 0 Delete 0 Toy.edited).2 Toy.edited_inv). Defined.



(** Edits stay; a list without edits follows the file. *)
Lemma reload_keeps_edits_witness :
  let d := <[path config_dir Profiles := B "a"]> ∅ in
  profiles (gui (ctl (on_files_changed 0 (mkWorld (ctl Toy.edited) None d)).1)) = [Toy.node; Toy.node] ∧
  profiles (gui (ctl (on_files_changed 0 (mkWorld (ctl (Toy.world [Toy.node; Toy.node] 0)) None d)).1)) = [Toy.node].
Proof.
  intros d. split.
  - destruct (reload_keeps_edits 0 (mkWorld (ctl Toy.edited) None d) (on_files_changed 0 (mkWorld (ctl Toy.edited) None d)).1
      (on_files_changed 0 (mkWorld (ctl Toy.edited) None d)).2 Toy.edited_inv) as [(_ & _ & Hl & _) _]; [by destruct (on_files_changed _ _)|].
    by rewrite Hl; vm_compute.
  - pose (w := Toy.world [Toy.node; Toy.node] 0). assert (inv w) as Hw by by apply Toy.world_inv, Nat.ltb_lt.
    destruct (reload_keeps_edits 0 (mkWorld (ctl w) None d) (on_files_changed 0 (mkWorld (ctl w) None d)).1
      (on_files_changed 0 (mkWorld (ctl w) None d)).2 Hw) as [(_ & _ & Hl & _) _]; [by destruct (on_files_changed _ _)|].
    change (profiles (gui (ctl (on_files_changed 0 (mkWorld (ctl w) None d)).1)) = [Toy.node]). by rewrite Hl; vm_compute.
Defined.

(** Two nodes with the second one active and saved; the second is deleted. *)
Lemma stale_index_after_save_witness :
  let w := mkWorld (ctl (node_command 1 Delete 0 (Toy.world [Toy.node; Toy.node] 1)).1) None
    (<[path config_dir Profiles := B "b"]> (<[path config_dir Runtime := B "b"]> ∅)) in
  nodes_dirty (ctl (save_nodes w).1) = false ∧ disk (save_nodes w).1 !! path config_dir Profiles = Some (B "a") ∧
  disk (save_nodes w).1 !! path config_dir Runtime = Some (B "b").
Proof.
  intros w.
  destruct (stale_index_after_save w (save_nodes w).1 (save_nodes w).2 (B "b") (Storage.with_selected 1 RuntimeState_default)) as (Hn & (b & -> & Hb) & _ & Hr & _).
  - split_and!; try done; by apply Nat.ltb_lt.
  - split_and!; [by vm_compute..|by intros []].
  - by vm_compute.
  - by vm_compute.
  - by apply Nat.leb_le.
  - by vm_compute.
  - by vm_compute.
  - by vm_compute.
  - by destruct (save_nodes w).
  - split_and!; [done| |done]. vm_compute in Hb. by injection Hb as <-.
Defined.

(** At the next start the index is past the list; a Save then leaves it unsaved, and the active node is none. *)
Lemma stale_start :
  let d := <[path config_dir Profiles := B "a"]> (<[path config_dir Runtime := B "b"]> ∅) in
  let w := opened true d None (with_sources LogBuffer_new TrafficMonitor_new) in
  state_profile (gui (ctl w)) = None ∧ nodes_dirty (ctl w) = true ∧ is_error (notice (ctl (save_nodes w).1)) = false ∧
  nodes_dirty (ctl (save_nodes w).1) = true.
Proof. by vm_compute. Qed.

Lemma start_active_correct_witness : connected (ctl (start_active 0 Toy.edited).1) = true.
Proof.
  pose proof (start_active_correct 0 Toy.edited (start_active 0 Toy.edited).1 (start_active 0 Toy.edited).2) as (_ & _ & Hs); [by split|by destruct (start_active 0 Toy.edited)|].
  by destruct Hs.
Defined.

Lemma shutdown_correct_witness : dirty (persist (ctl (mark_dirty App 0 Toy.edited).1)) App = true ∧
  disk (shutdown 1 (mark_dirty App 0 Toy.edited).1) !! path config_dir App = Some (B "a").
Proof. split; [done|]. by apply (shutdown_correct 1 (mark_dirty App 0 Toy.edited).1 App (B "a")). Defined.

Lemma commit_setting_correct_witness :
  let w := upd (with_sheet (Some (mkSheet MixedPort (B " 3080") None))) Toy.edited in
  ∃ w' ch, commit_setting 0 w = Some (w', ch) ∧ sheet (ctl w') = None ∧ dirty (persist (ctl w')) App = true.
Proof.
  intros w. pose proof (commit_setting_correct 0 w _ eq_refl (ltac:(vm_compute; by eexists))) as Hc.
  assert (validate MixedPort (B " 3080") = inl (B "3080")) as Ev by by vm_compute. cbn [key sheet_draft] in Hc. rewrite Ev in Hc.
  destruct Hc as (w' & ch & E & Es & _ & Hset & Hd). exists w', ch. split_and!; [done..|]. apply Hd. destruct Hset as [-> |[? _]]; [|done].
  intros Heq. apply (f_equal mixed_listen) in Heq. by vm_compute in Heq.
Defined.
