(* ===== verification/Native.v ===== *)
(** * [NativeEffects]: the controller over the real core and the real desktop

    The effects of [mod.rs] as calls of [Core], [SystemProxy] and [Desktop]; the
    controller's runs over them. *)
From S2P Require Import Prelude Std Net Text Config Link Traffic Logs Qr Pac Storage Persist Nodes ShareLink Core SystemProxy Profile Desktop Controller Editor Save Settings App AppInv Saving Runs.
#[local] Open Scope Z_scope.

(** The clipboard of the desktop, through [arboard]. *)
Class Arboard (M : Type) := {
  new_clipboard : M → M * result unit;
  set_text : str → M → M * result unit;
  get_text : M → M * result str;
}.

Section native.
Context `{UuidParse} {SsConfig M : Type} `{Shell M, Arboard M, FsFaults} (path_exists : str → bool) (from_file : str → result Config)
  (load_file : str → result SsConfig) (to_string : Json → result str) (load_from_json_str : str → result SsConfig)
  (with_stat_addr : str → SsConfig → SsConfig) (little_endian : bool).

(** What does not change while the client runs: the systems, [current_exe], and the packaged files. *)
Context (os : Os) (sys : Autostart.System) (exe : result str) (xdg_data home : option str) (pid : Z) (template svg : str) (pngs : list (Z * str)) (linux : bool).

(** [profile] is the one of the last start that succeeded; [env] and [stats] are the answers of the libraries. *)
Record Native := mkNative {
  core : CoreManager;
  desktop : M;
  clipboard : bool;
  filesystem : FileSystem;
  env : StartEnv SsConfig;
  stats : option (Z * Z);
  profile : option ProxyProfile;
  panicked : bool;
}.

Definition with_core (m : CoreManager) (s : Native) : Native :=
  mkNative m (desktop s) (clipboard s) (filesystem s) (env s) (stats s) (profile s) (panicked s).
Definition with_desktop (m : M) (s : Native) : Native :=
  mkNative (core s) m (clipboard s) (filesystem s) (env s) (stats s) (profile s) (panicked s).
Definition with_clipboard (b : bool) (s : Native) : Native :=
  mkNative (core s) (desktop s) b (filesystem s) (env s) (stats s) (profile s) (panicked s).
Definition with_filesystem (d : FileSystem) (s : Native) : Native :=
  mkNative (core s) (desktop s) (clipboard s) d (env s) (stats s) (profile s) (panicked s).
Definition started (p : ProxyProfile) (s : Native) : Native :=
  mkNative (core s) (desktop s) (clipboard s) (filesystem s) (env s) (stats s) (Some p) (panicked s).
Definition panic (s : Native) : Native :=
  mkNative (core s) (desktop s) (clipboard s) (filesystem s) (env s) (stats s) (profile s) true.

Definition panic_error : error := EMsg (B "panicked").

Abbreviation start_profile := (Core.start_profile path_exists from_file load_file to_string load_from_json_str with_stat_addr).

(** [NativeEffects::clipboard], then [f]. *)
Definition with_arboard {A} (f : M → M * result A) (s : Native) : Native * result A :=
  if clipboard s then let '(m, r) := f (desktop s) in (with_desktop m s, r)
  else
    match new_clipboard (desktop s) with
    | (m, Err e) => (with_desktop m s, Err e)
    | (m, Ok _) => let '(m, r) := f m in (with_clipboard true (with_desktop m s), r)
    end.

#[export] Instance NativeEffects : Effects Native := {|
  start_core c p s :=
    match start_profile (env s) (mixed_listen c) p (core s) with
    | (m, Some (Ok _)) => (started p (with_core m s), Ok tt)
    | (m, Some (Err e)) => (with_core m s, Err e)
    | (m, None) => (panic (with_core m s), Err panic_error)
    end;
  stop_core s := with_core (Core.stop_and_wait (core s)) s;
  poll_core_effect s := let '(m, r) := Core.poll (core s) in (with_core m s, r);
  apply_proxy c s :=
    match apply_system_proxy os c (desktop s) with
    | (m, Some r) => (with_desktop m s, r)
    | (m, None) => (panic (with_desktop m s), Err panic_error)
    end;
  copy_text text s := with_arboard (set_text text) s;
  paste_text s := with_arboard get_text s;
  apply_autostart enabled s := let '(d, r) := Autostart.apply sys enabled exe (filesystem s) in (with_filesystem d s, r);
  install_icon s :=
    if linux then let '(d, r) := Integration.install_linux pid template svg pngs xdg_data home exe (filesystem s) in (with_filesystem d s, r)
    else (s, Err (EMsg (B "installing the app icon is not supported on this platform")));
  core_traffic s := let '(m, r) := Core.traffic (stats s) (core s) in (with_core m s, r);
|}.

(** Between two calls a task of the core ends, a reader thread takes a turn, or anything else changes. *)
Inductive turn : Native → Native → Prop :=
  | t_end t how s : turn s (with_core (Core.with_tasks (alter (Core.end_task how) t (Core.tasks (core s))) (core s)) s)
  | t_reader i a s : turn s (with_core (Core.with_readers (alter (Core.reader_turn little_endian a) i (Core.readers (core s))) (core s)) s)
  | t_other m d e st s : turn s (mkNative (core s) m (clipboard s) d e st (profile s) (panicked s)).

(** The profile of the core that runs. *)
Definition runs (s : Native) : option ProxyProfile := match Core.running (core s) with Some _ => profile s | None => None end.

Lemma stop_running_None m : Core.running (Core.stop_and_wait m) = None.
Proof. unfold Core.stop_and_wait. destruct (Core.running m) eqn:E; [|done]. repeat case_match; done. Qed.

(** Only a start that succeeds leaves a core. *)
Lemma start_running_None e listen p m : match start_profile e listen p m with (m', Some (Ok _)) => is_Some (Core.running m') | (m', _) => Core.running m' = None end.
Proof.
  unfold Core.start_profile. pose proof (stop_running_None m) as Hs. destruct (get_runtime _ _) as [m1|err] eqn:Eg; [|done].
  assert (Core.running m1 = None) as H1m by (unfold get_runtime in Eg; destruct (runtime _); [by injection Eg as <-|]; destruct (runtime_built e); [by injection Eg as <-|done]).
  assert (∀ m2 r, (match Profile.protocol p with Juicity => start_juicity path_exists from_file e listen p m1
      | Shadowsocks => start_shadowsocks path_exists load_file to_string load_from_json_str with_stat_addr e listen p m1 end) = (m2, r) → Core.running m2 = None) as Hst.
  { intros m2 r. destruct (Profile.protocol p); unfold start_juicity, start_shadowsocks, start_flow_stat_reader, spawn; repeat case_match; intros; simplify_eq; done. }
  destruct (match Profile.protocol p with Juicity => _ | Shadowsocks => _ end) as [m2 r] eqn:E2. specialize (Hst _ _ eq_refl).
  by destruct r as [[s|err]|].
Qed.

Lemma with_arboard_core {A} (f : M → M * result A) s : core (with_arboard f s).1 = core s ∧ profile (with_arboard f s).1 = profile s.
Proof. unfold with_arboard. repeat case_match; done. Qed.

#[export, refine] Instance native_laws : EffectsLaws Native := {| core_runs := runs; others := rtc turn |}.
Proof.
  - intros s s'. induction 1 as [|s1 s2 s3 Ht _ IH]; [done|]. rewrite IH. by destruct Ht.
  - intros c p s. cbn. pose proof (start_running_None (env s) (mixed_listen c) p (core s)) as Hr. unfold runs.
    destruct (start_profile (env s) (mixed_listen c) p (core s)) as [m [[u|e]|]]; cbn; [by destruct Hr as [r ->]|by rewrite Hr..].
  - intros s. unfold runs. cbn. by rewrite stop_running_None.
  - intros s. unfold runs. cbn. unfold Core.poll. destruct (Core.running (core s)) as [r|] eqn:Er; cbn; [|by rewrite Er].
    destruct (is_finished _); cbn; [done|by rewrite Er].
  - intros c s. unfold runs. cbn. destruct (apply_system_proxy os c (desktop s)) as [m [r|]]; done.
  - intros t s. unfold runs. cbn. by destruct (with_arboard_core (set_text t) s) as [-> ->].
  - intros s. unfold runs. cbn. by destruct (with_arboard_core get_text s) as [-> ->].
  - intros b s. unfold runs. cbn. by destruct (Autostart.apply sys b exe (filesystem s)) as [d r].
  - intros s. unfold runs. cbn. destruct linux; [|done]. by destruct (Integration.install_linux _ _ _ _ _ _ _ _) as [d r].
  - intros s. unfold runs. cbn. unfold Core.traffic. by destruct (Core.running (core s)) as [r|] eqn:Er; cbn; rewrite ?Er.
Defined.

(** The core's manager is in a state that [Core] allows, and the core that runs is one for the profile. *)
Definition native_ok (s : Native) : Prop :=
  Core.core_ok (core s) ∧ ∀ r, Core.running (core s) = Some r → ∃ p, profile s = Some p ∧ Core.protocol r = Profile.protocol p.

Abbreviation step := (Core.step path_exists from_file load_file to_string load_from_json_str with_stat_addr little_endian).

Lemma start_protocol e listen p m m' : start_profile e listen p m = (m', Some (Ok tt)) → ∀ r, Core.running m' = Some r → Core.protocol r = Profile.protocol p.
Proof.
  unfold Core.start_profile. destruct (get_runtime _ _); [|done]. destruct (match Profile.protocol p with Juicity => _ | Shadowsocks => _ end) as [m2 [[s|err]|]]; intros [= <-].
  by intros r [= <-].
Qed.

Lemma effect_ok s s' : native_ok s → effect s s' → native_ok s'.
Proof.
  intros [Hm Hp] He. destruct He as [c p s|s|s|c s|t s|s|b s|s|s]; cbn.
  - pose proof (step_ok path_exists from_file load_file to_string load_from_json_str with_stat_addr little_endian (core s) (Core.LStart (env s) (mixed_listen c) p) Hm) as Hs.
    cbn [Core.step] in Hs. pose proof (start_running_None (env s) (mixed_listen c) p (core s)) as Hr.
    pose proof (start_protocol (env s) (mixed_listen c) p (core s)) as Hpr.
    destruct (start_profile (env s) (mixed_listen c) p (core s)) as [m [[[]|e]|]]; cbn in *; (split; [done|]); cbn; intros r Er; [|congruence..].
    exists p. split; [done|]. by eapply Hpr.
  - split; [apply (step_ok path_exists from_file load_file to_string load_from_json_str with_stat_addr little_endian (core s) Core.LStop Hm)|].
    cbn. by rewrite stop_running_None.
  - pose proof (step_ok path_exists from_file load_file to_string load_from_json_str with_stat_addr little_endian (core s) Core.LPoll Hm) as Hs.
    cbn [Core.step] in Hs. assert (∀ r, Core.running (Core.poll (core s)).1 = Some r → Core.running (core s) = Some r) as Hr.
    { unfold Core.poll. destruct (Core.running (core s)) eqn:Er; [destruct (is_finished _)|]; cbn; congruence. }
    destruct (Core.poll (core s)) as [m r]. split; [exact Hs|]. cbn in *. intros r' Er'. by apply Hp, Hr.
  - destruct (apply_system_proxy os c (desktop s)) as [m [r|]]; by split.
  - destruct (with_arboard_core (set_text t) s) as [E1 E2]. unfold native_ok. by rewrite E1, E2.
  - destruct (with_arboard_core get_text s) as [E1 E2]. unfold native_ok. by rewrite E1, E2.
  - destruct (Autostart.apply sys b exe (filesystem s)) as [d r]; by split.
  - destruct linux; [|by split]. destruct (Integration.install_linux _ _ _ _ _ _ _ _) as [d r]; by split.
  - pose proof (step_ok path_exists from_file load_file to_string load_from_json_str with_stat_addr little_endian (core s) (Core.LTraffic (stats s)) Hm) as Hs.
    cbn [Core.step] in Hs. assert (∀ r, Core.running (Core.traffic (stats s) (core s)).1 = Some r → ∃ r0, Core.running (core s) = Some r0 ∧ Core.protocol r0 = Core.protocol r) as Hr.
    { unfold Core.traffic. destruct (Core.running (core s)) as [r0|] eqn:Er; cbn; [intros r [= <-]; by exists r0|congruence]. }
    destruct (Core.traffic (stats s) (core s)) as [m t]. split; [exact Hs|]. cbn in *. intros r' (r0 & Er0 & Epr)%Hr.
    destruct (Hp r0 Er0) as (p & ? & ?). exists p. split; [done|congruence].
Qed.

Lemma turn_ok s s' : native_ok s → turn s s' → native_ok s'.
Proof.
  intros [Hm Hp] Ht. destruct Ht as [t how s|i a s|m d e st s].
  - split; [apply (step_ok path_exists from_file load_file to_string load_from_json_str with_stat_addr little_endian (core s) (Core.LEnd t how) Hm)|exact Hp].
  - split; [apply (step_ok path_exists from_file load_file to_string load_from_json_str with_stat_addr little_endian (core s) (Core.LReader i a) Hm)|exact Hp].
  - by split.
Qed.

(** C23: the client and the core together, from the start of the client on, whatever is called and whatever happens in
    between: the client shows a connection exactly when the manager has a core; a task that still serves is the task of
    that core; and this core is for the profile the client takes it to be for. *)
Theorem client_and_core_agree `{Codec AppConfig, Codec ProfileStore, Codec RuntimeState, Files Native, Place, UrlLib, QrLib} rename_ok d s ls w :
  core s = CoreManager_new → reachable (opened rename_ok d s ls) w →
  let m := core (outside w) in
  (connected (ctl w) = true ↔ is_Some (Core.running m)) ∧
  (∀ t, alive m t → connected (ctl w) = true ∧ ∃ r, Core.running m = Some r ∧ Core.task r = t) ∧
  (∀ r, Core.running m = Some r → ∃ p, started_with (nodes (ctl w)) = Some p ∧ Core.protocol r = Profile.protocol p).
Proof.
  intros Hc Hw m. assert (inv w ∧ (active_in_range (opened rename_ok d s ls) → active_in_range w) ∧ native_ok (outside w)) as (([Hst Hcon] & _) & _ & [Hm Hp]).
  { eapply (reachable_inv native_ok); [apply effect_ok| |apply opened_inv| |exact Hw].
    - intros s1 s2 Hs1 Ht. induction Ht as [|s1 s2 s3 Ht _ IH]; [done|]. by eapply IH, turn_ok.
    - cbn. unfold runs. by rewrite Hc.
    - assert (outside (opened rename_ok d s ls) = s) as -> by (unfold opened; by destruct (load_tracked _ _ _) as [[? ?] ?]).
      split; rewrite Hc; [apply idle_ok, new_idle|done]. }
  assert (connected (ctl w) = true ↔ is_Some (Core.running m)) as Hiff.
  { rewrite Hcon, bool_decide_eq_true. cbn. unfold runs. fold m. destruct (Core.running m) as [r|] eqn:Er; [|done].
    destruct (Hp r Er) as (p & -> & _). split; intros _; by eexists. }
  split_and!; [done| |].
  - intros t Ht. destruct (ok_alive m Hm t Ht) as (r & Er & Et). split; [apply Hiff; by rewrite Er|by exists r].
  - intros r Er. destruct (Hp r Er) as (p & Ep & Epr). exists p. split; [|done]. rewrite Hst. cbn. unfold runs. fold m. by rewrite Er.
Qed.
End native.

(** ** A concrete system *)
Module NativeToy.
#[export] Instance uuid : UuidParse := λ s, Some s.
#[export] Instance shell : Shell unit := {| status _ m := (m, inl true); output _ m := (m, inl (true, [])) |}.
#[export] Instance arboard : Arboard unit := {| new_clipboard m := (m, Ok tt); set_text _ m := (m, Ok tt); get_text m := (m, Ok []) |}.
#[export] Instance faults : FsFaults := {| remove_fails _ := None; create_dir_fails _ := None; Desktop.write_fails _ := None; rename_fails _ := None |}.
Definition env : StartEnv str :=
  {| runtime_built := Ok tt; client_new _ := Ok tt; bind _ _ := inl tt; stat_bound := Ok (B "127.0.0.1:9"); stat_nonblocking := Ok tt; stat_spawned := Ok tt;
     server_new _ _ := inl tt |}.
Definition state : Native (SsConfig := str) (M := unit) := mkNative CoreManager_new tt false ∅ env None None false.
#[export] Instance effects : Effects (Native (SsConfig := str) (M := unit)) :=
  NativeEffects (λ _, false) (λ _, Err (EMsg [])) (λ _, Ok []) (λ _, Ok []) (λ s, Ok s) (λ a s, s ++ a) OtherOs Autostart.OtherSystem (Err (EMsg [])) None None 1 [] [] [] false.
#[export] Instance files : Files (Native (SsConfig := str) (M := unit)) := {|
  file_fault _ _ := None; read_rules _ _ := None; rule_mtime _ _ := None; can_bind _ _ := true |}.
End NativeToy.
#[local] Existing Instances Storage.Sample.app_codec Storage.Sample.runtime_codec Toy.profiles_codec Toy.place Toy.qr ShareLink.Sample.lib
  NativeToy.uuid NativeToy.shell NativeToy.arboard NativeToy.faults NativeToy.effects NativeToy.files.

Lemma client_and_core_agree_witness :
  let w := (add_node (B "x") (opened true ∅ NativeToy.state (with_sources LogBuffer_new TrafficMonitor_new))).1 in
  connected (ctl w) = true ↔ is_Some (Core.running (core (outside w))).
Proof.
  intros w. eapply (client_and_core_agree (λ _, false) (λ _, Err (EMsg [])) (λ _, Ok []) (λ _, Ok []) (λ s, Ok s) (λ a s, s ++ a) true OtherOs
    Autostart.OtherSystem (Err (EMsg [])) None None 1 [] [] [] false true ∅ NativeToy.state (with_sources LogBuffer_new TrafficMonitor_new) w); [done|].
  apply (call _ (opened true ∅ NativeToy.state (with_sources LogBuffer_new TrafficMonitor_new)) (OAdd (B "x")) _
    (add_node (B "x") (opened true ∅ NativeToy.state (with_sources LogBuffer_new TrafficMonitor_new))).2); [apply at_start|done].
Defined.
