(* ===== verification/I18n.v ===== *)
(** * [gui/src/i18n.rs]: the language of the interface

    The locale comes from the environment or from the system; only its first subtag and
    the subtags for Chinese scripts and regions count. *)
From S2P Require Import Prelude Std Text Pac Storage.

Inductive UiLang := UEn | UZhCn | UZhTw | URu.
#[export] Instance UiLang_eq_dec : EqDecision UiLang.
Proof. solve_decision. Defined.

Definition slint_tag (l : UiLang) : str :=
  match l with UEn => B "en" | UZhCn => B "zh_CN" | UZhTw => B "zh_TW" | URu => B "ru" end.

(** [LC_ALL], [LC_MESSAGES], [LANG]. *)
Definition pick_locale (vars : list (option str)) : option str := head (filter (λ v, is_empty v = false) (omap id vars)).

(** [split(['.', '@']).next()]. *)
Fixpoint before_suffix (s : str) : str :=
  match s with [] => [] | c :: s => if bool_decide (c ∈ [x2e; x40]) then [] else c :: before_suffix s end.

Definition locale_tag (raw : str) : str := ascii_lowercase ((λ c, if decide (c = x5f) then x2d else c) <$> before_suffix raw).

Definition normalise (raw : str) : UiLang :=
  let tag := locale_tag raw in
  let parts := split_char x2d tag in
  let has names := existsb (λ part, bool_decide (part ∈ names)) (tail parts) in
  match head parts with
  | Some first =>
      if decide (first = B "ru") then URu
      else if decide (first = B "zh") then
        if has [B "tw"; B "hk"; B "mo"; B "hant"] then UZhTw
        else if bool_decide (tag = B "zh") || has [B "cn"; B "sg"; B "hans"] then UZhCn else UEn
      else UEn
  | None => UEn
  end.

(** [var] is the environment, [system] the locale of the system. *)
Definition detect (var : string → option str) (system : option str) : UiLang :=
  normalise (default (default [] system) (pick_locale [var "LC_ALL"%string; var "LC_MESSAGES"%string; var "LANG"%string])).

(** [LanguagePreference::resolve]. *)
Definition resolve (detected : UiLang) (p : LanguagePreference) : UiLang :=
  match p with LFollowSystem => detected | LEn => UEn | LZhCn => UZhCn | LZhTw => UZhTw | LRu => URu end.

(** ** Tags are recognized in every spelling *)
Lemma before_suffix_app a c s : x2e ∉ a → x40 ∉ a → c ∈ [x2e; x40] → before_suffix (a ++ c :: s) = a.
Proof.
  intros Ha1 Ha2 Hc. induction a as [|d a IH]; cbn [app before_suffix].
  - by rewrite bool_decide_true.
  - apply not_elem_of_cons in Ha1 as [? ?], Ha2 as [? ?]. rewrite bool_decide_false; [by rewrite IH|].
    intros [->|[->|[]%not_elem_of_nil]%elem_of_cons]%elem_of_cons; congruence.
Qed.

(** An encoding or a variant after the locale changes nothing, nor do its case and its separator. *)
Lemma normalise_suffix a c s : x2e ∉ a → x40 ∉ a → c ∈ [x2e; x40] → normalise (a ++ c :: s) = normalise a.
Proof.
  intros H1 H2 Hc. unfold normalise, locale_tag. rewrite before_suffix_app by done.
  assert (before_suffix a = a) as ->; [|done]. clear Hc. induction a as [|d a IH]; [done|]. cbn [before_suffix].
  apply not_elem_of_cons in H1 as [? ?], H2 as [? ?]. rewrite bool_decide_false; [by rewrite IH|].
  intros [->|[->|[]%not_elem_of_nil]%elem_of_cons]%elem_of_cons; congruence.
Qed.

(** The tag of a catalog, as the environment spells it, chooses that catalog. *)
Lemma normalise_slint_tag l encoding : normalise (slint_tag l ++ x2e :: encoding) = l.
Proof.
  assert (∀ c, bool_decide (c ∉ slint_tag l) = true → c ∉ slint_tag l) as Hc by (intros c; apply bool_decide_eq_true_1).
  rewrite normalise_suffix; [by destruct l; vm_compute| | |by left]; apply Hc; destruct l; by vm_compute.
Qed.

(** The variables have the precedence of POSIX; an empty one counts as unset. *)
Lemma detect_precedence var system a : var "LC_ALL"%string = Some a → a ≠ [] → detect var system = normalise a.
Proof. intros E Ha. unfold detect. rewrite E. by destruct a. Qed.
