(* ===== verification/Store.v ===== *)
(** * [gui/src/ui/bind/]: what the window shows

    The globals of gui/ui/state.slint that the program sets, and the functions that push
    a snapshot of the controller into them.  The translations are those of the catalog of
    a language. *)
From S2P Require Import Prelude Std Net Text Link Traffic Logs Qr Pac Storage Persist Nodes ShareLink SystemProxy Profile Tray Controller Editor Save Settings App I18n.
#[local] Open Scope Z_scope.

(** ** The enumerations of the toolkit *)
Module Slint.
Inductive Page := Overview | Nodes | Logs | Settings.
Inductive Connection := Stopped | Starting | Running.
Inductive ProxyMode := Off | Pac | Global.
Inductive PacRule := BypassChina | GfwList.
Inductive PacSource := Local | Online.
Inductive Protocol := Juicity | Shadowsocks.
Inductive StartupConnection := SCOff | SCOn | SCLast.
Inductive Notice :=
  | None | Imported | LinkCopied | StartFailed | RulesUpdated | RulesFailed | ProxyFailed | SaveFailed | CoreExited | NoNode | MissingFields
  | ImportFailed | ExportFailed | ImportPartial | ExportInvalid | NodesSaveFailed | SaveInvalid | NodeIncomplete | ProfilesChanged
  | AppIconInstalled | AppIconFailed.
Inductive NodeField :=
  | Name | FProtocol | Server | Port | Uuid | Password | Method | Sni | AllowInsecure | PinnedCertchainSha256 | CongestionControl | Plugin
  | PluginOptions | PluginArgs | Timeout | Group.
Inductive SettingField := MixedPort | DirectUrl | ProxyUrl | UpdateHours | PacListen | OnlinePacUrl.
Inductive NodeCommand := MoveUp | MoveDown | Duplicate | Delete.
End Slint.

#[export] Instance Page_eq_dec : EqDecision Slint.Page.
Proof. solve_decision. Defined.

Definition field_from (f : Slint.NodeField) : DraftField :=
  match f with
  | Slint.Name => DName | Slint.FProtocol => DProtocol | Slint.Server => DServer | Slint.Port => DPort | Slint.Uuid => DUuid
  | Slint.Password => DPassword | Slint.Method => DMethod | Slint.Sni => DSni | Slint.AllowInsecure => DAllowInsecure
  | Slint.PinnedCertchainSha256 => DPinnedCertchainSha256 | Slint.CongestionControl => DCongestionControl | Slint.Plugin => DPlugin
  | Slint.PluginOptions => DPluginOptions | Slint.PluginArgs => DPluginArgs | Slint.Timeout => DTimeout | Slint.Group => DGroup
  end.
Definition field_to (f : DraftField) : Slint.NodeField :=
  match f with
  | DName => Slint.Name | DProtocol => Slint.FProtocol | DServer => Slint.Server | DPort => Slint.Port | DUuid => Slint.Uuid
  | DPassword => Slint.Password | DMethod => Slint.Method | DSni => Slint.Sni | DAllowInsecure => Slint.AllowInsecure
  | DPinnedCertchainSha256 => Slint.PinnedCertchainSha256 | DCongestionControl => Slint.CongestionControl | DPlugin => Slint.Plugin
  | DPluginOptions => Slint.PluginOptions | DPluginArgs => Slint.PluginArgs | DTimeout => Slint.Timeout | DGroup => Slint.Group
  end.
Definition command_from (c : Slint.NodeCommand) : ListCommand :=
  match c with Slint.MoveUp => MoveUp | Slint.MoveDown => MoveDown | Slint.Duplicate => Duplicate | Slint.Delete => Delete end.
Definition protocol_to (p : ProxyProtocol) : Slint.Protocol := match p with Juicity => Slint.Juicity | Shadowsocks => Slint.Shadowsocks end.

Definition proxy_mode_from (m : Slint.ProxyMode) : SystemProxyMode := match m with Slint.Off => PDisable | Slint.Pac => PPac | Slint.Global => PGlobal end.
Definition proxy_mode_to (m : SystemProxyMode) : Slint.ProxyMode := match m with PDisable => Slint.Off | PPac => Slint.Pac | PGlobal => Slint.Global end.
Definition pac_rule_from (r : Slint.PacRule) : PacRuleMode := match r with Slint.BypassChina => BypassChina | Slint.GfwList => ProxyGfw end.
Definition pac_rule_to (r : PacRuleMode) : Slint.PacRule := match r with BypassChina => Slint.BypassChina | ProxyGfw => Slint.GfwList end.

Definition key_from (f : Slint.SettingField) : SettingKey :=
  match f with
  | Slint.MixedPort => MixedPort | Slint.DirectUrl => DirectUrl | Slint.ProxyUrl => ProxyUrl | Slint.UpdateHours => UpdateHours
  | Slint.PacListen => PacListen | Slint.OnlinePacUrl => OnlinePacUrl
  end.
Definition key_to (k : SettingKey) : Slint.SettingField :=
  match k with
  | MixedPort => Slint.MixedPort | DirectUrl => Slint.DirectUrl | ProxyUrl => Slint.ProxyUrl | UpdateHours => Slint.UpdateHours
  | PacListen => Slint.PacListen | OnlinePacUrl => Slint.OnlinePacUrl
  end.
Definition startup_from (s : Slint.StartupConnection) : StartupConnectionState :=
  match s with Slint.SCOff => SOff | Slint.SCOn => SOn | Slint.SCLast => SLastState end.
Definition startup_to (s : StartupConnectionState) : Slint.StartupConnection :=
  match s with SOff => Slint.SCOff | SOn => Slint.SCOn | SLastState => Slint.SCLast end.
Definition source_from (s : Slint.PacSource) : PacMode := match s with Slint.Local => Local | Slint.Online => Online end.
Definition source_to (m : PacMode) : Slint.PacSource := match m with Local => Slint.Local | Online => Slint.Online end.

Definition language_from (index : Z) : LanguagePreference :=
  if decide (index = 1) then LEn else if decide (index = 2) then LZhCn else if decide (index = 3) then LZhTw else if decide (index = 4) then LRu
  else LFollowSystem.
Definition language_to (l : LanguagePreference) : Z := match l with LFollowSystem => 0 | LEn => 1 | LZhCn => 2 | LZhTw => 3 | LRu => 4 end.
Definition appearance_from (index : Z) : AppearancePreference :=
  if decide (index = 1) then ALight else if decide (index = 2) then ADark else AFollowSystem.
Definition appearance_to (a : AppearancePreference) : Z := match a with AFollowSystem => 0 | ALight => 1 | ADark => 2 end.

(** ** Translations *)
Class Texts := {
  tr : UiLang → string → str;
  tr_connected : UiLang → str → str;
  tr_node : UiLang → Z → str;
  error_text : error → str;
}.

Definition i32_max : Z := 2 ^ 31 - 1.
(** [i32::try_from]. *)
Definition to_i32 (d n : Z) : Z := if decide (n ≤ i32_max) then n else d.
Definition wrapping_add_i32 (a b : Z) : Z := (a + b + 2 ^ 31) mod 2 ^ 32 - 2 ^ 31.

(** ** The overview page and the notice *)
Record OverviewStore := mkOverviewStore {
  o_connection : Slint.Connection;
  o_active_name : str;
  o_active_address : str;
  o_local_host : str;
  o_local_port : str;
  o_pac_url : str;
  o_proxy_mode : Slint.ProxyMode;
  o_pac_rule : Slint.PacRule;
  o_rules_age_days : Z;
  o_rules_time : str;
  o_rules_updating : bool;
}.

Definition sync_overview (s : OverviewSnapshot) : OverviewStore :=
  mkOverviewStore (if running s then Slint.Running else Slint.Stopped) (active_name s) (active_address s) (local_host s) (local_port s) (ov_pac_url s)
    (proxy_mode_to (proxy_mode s)) (pac_rule_to (pac_rule s)) (rules_age_days s) (rules_time s) (ov_rules_updating s).

Record NoticeStore := mkNoticeStore { n_kind : Slint.Notice; n_detail : str; n_extra : str; n_error : bool }.

Section notice.
Context `{Texts}.

Definition field_name (l : UiLang) (f : RequiredField) : str :=
  match f with FServer => tr l "Server" | FUuid => B "UUID" | FPassword => tr l "Password" end.

(** [Vec::join]. *)
Fixpoint join (sep : str) (names : list str) : str :=
  match names with [] => [] | [n] => n | n :: names => n ++ sep ++ join sep names end.
Definition field_list (l : UiLang) (fields : list RequiredField) : str := join (tr l ", ") (field_name l <$> fields).

Definition notice_detail (l : UiLang) (n : Notice) : Slint.Notice * str :=
  match n with
  | NNone => (Slint.None, [])
  | Imported => (Slint.Imported, [])
  | ImportFailed e => (Slint.ImportFailed, error_text e)
  | ImportPartial added _ => (Slint.ImportPartial, show_dec (Z.of_nat added))
  | ExportFailed e => (Slint.ExportFailed, error_text e)
  | ExportInvalid => (Slint.ExportInvalid, [])
  | LinkCopied => (Slint.LinkCopied, [])
  | StartFailed e => (Slint.StartFailed, error_text e)
  | RulesUpdated => (Slint.RulesUpdated, [])
  | RulesFailed e => (Slint.RulesFailed, error_text e)
  | ProxyFailed e => (Slint.ProxyFailed, error_text e)
  | SaveFailed e => (Slint.SaveFailed, error_text e)
  | CoreExited reason => (Slint.CoreExited, reason)
  | NoNode => (Slint.NoNode, [])
  | MissingFields fields => (Slint.MissingFields, field_list l fields)
  | NodesSaveFailed e => (Slint.NodesSaveFailed, error_text e)
  | SaveInvalid => (Slint.SaveInvalid, [])
  | NodeIncomplete nm _ => (Slint.NodeIncomplete, nm)
  | ProfilesChanged => (Slint.ProfilesChanged, [])
  | AppIconInstalled => (Slint.AppIconInstalled, [])
  | AppIconFailed e => (Slint.AppIconFailed, error_text e)
  end.

Definition notice_extra (l : UiLang) (n : Notice) : str :=
  match n with
  | ImportPartial _ skipped => show_dec (Z.of_nat skipped)
  | NodeIncomplete _ fields => field_list l fields
  | _ => []
  end.

Definition sync_notice (l : UiLang) (n : Notice) : NoticeStore :=
  mkNoticeStore (notice_detail l n).1 (notice_detail l n).2 (notice_extra l n) (is_error n).
End notice.

(** ** The nodes page *)
Record NodeRow := mkNodeRow { r_id : str; r_name : str; r_address : str; r_protocol : Slint.Protocol; r_in_use : bool; r_group : str }.

Record NodeDraft := mkNodeDraft {
  nd_name : str;
  nd_protocol : Slint.Protocol;
  nd_server : str;
  nd_port : str;
  nd_uuid : str;
  nd_password : str;
  nd_method : str;
  nd_sni : str;
  nd_allow_insecure : bool;
  nd_pinned_certchain_sha256 : str;
  nd_congestion_control : str;
  nd_plugin : str;
  nd_plugin_options : str;
  nd_plugin_args : str;
  nd_timeout : str;
  nd_group : str;
}.

Definition draft_to (d : DraftData) : NodeDraft :=
  mkNodeDraft (d_name d) (protocol_to (d_protocol d)) (d_server d) (d_port d) (d_uuid d) (d_password d) (d_method d) (d_sni d) (d_allow_insecure d)
    (d_pinned_certchain_sha256 d) (d_congestion_control d) (d_plugin d) (d_plugin_options d) (d_plugin_args d) (d_timeout d) (d_group d).

Definition SS_METHODS : list str :=
  B <$> ["2022-blake3-aes-256-gcm"; "2022-blake3-aes-128-gcm"; "2022-blake3-chacha20-poly1305"; "2022-blake3-chacha8-poly1305";
    "chacha20-ietf-poly1305"; "xchacha20-ietf-poly1305"; "aes-256-gcm"; "aes-128-gcm"; "none"; "plain"; "aes-256-cfb"; "aes-192-cfb"; "aes-128-cfb";
    "aes-256-ctr"; "aes-192-ctr"; "aes-128-ctr"; "camellia-256-cfb"; "camellia-192-cfb"; "camellia-128-cfb"; "rc4-md5"; "chacha20-ietf"; "table"]%string.

(** What is done to a model of the toolkit, whose rows keep their place. *)
Inductive ModelOp (T : Type) := MPush (x : T) | MSetRow (i : nat) (x : T) | MRemoveLast.
Arguments MPush {T}. Arguments MSetRow {T}. Arguments MRemoveLast {T}.

Definition apply_model {T} (vec : list T) (op : ModelOp T) : list T :=
  match op with MPush x => vec ++ [x] | MSetRow i x => <[i := x]> vec | MRemoveLast => take (length vec - 1) vec end.

(** [sync_model] on a model that exists: the loop over the rows, and the removal of the rest. *)
Fixpoint sync_rows {T} `{EqDecision T} (i : nat) (vec rows : list T) : list (ModelOp T) :=
  match rows with
  | [] => replicate (length vec - i) MRemoveLast
  | row :: rows =>
      match vec !! i with
      | None => MPush row :: sync_rows (S i) (vec ++ [row]) rows
      | Some old => if decide (old = row) then sync_rows (S i) vec rows else MSetRow i row :: sync_rows (S i) (<[i := row]> vec) rows
      end
  end.
Definition sync_model {T} `{EqDecision T} (vec rows : list T) : list T := foldl apply_model vec (sync_rows 0 vec rows).

Record NodeStore := mkNodeStore {
  nv_rows : list NodeRow;
  nv_selected : Z;
  nv_draft : NodeDraft;
  nv_draft_serial : Z;
  nv_method_items : list (str * bool);
  nv_server_error : str;
  nv_uuid_error : str;
  nv_password_error : str;
  nv_port_error : str;
  nv_timeout_error : str;
  nv_errors : list (Slint.NodeField * str);
  nv_reconnect_required : bool;
  nv_dirty : bool;
  nv_save_prompt : bool;
  nv_advanced_draft : NodeDraft;
  nv_advanced_serial : Z;
  nv_advanced_open : bool;
  nv_qr_link : str;
  nv_qr_image : option QrMask;
  nv_qr_open : bool;
}.

#[export] Instance NodeRow_eq_dec : EqDecision NodeRow.
Proof. assert (EqDecision Slint.Protocol) by solve_decision. solve_decision. Defined.

Section nodes.
Context `{Texts}.

Definition draft_message (l : UiLang) (e : DraftError) : str :=
  match e with
  | ERequired => tr l "Required"
  | EPort => tr l "Enter a port from 1 to 65535"
  | ETimeout => tr l "Enter a whole number of seconds"
  end.

Definition error_for (l : UiLang) (errors : list (DraftField * DraftError)) (wanted : DraftField) : str :=
  match head (filter (λ e, e.1 = wanted) errors) with Some e => draft_message l e.2 | None => [] end.

Definition row_to (i : nat) (row : RowData) : NodeRow :=
  mkNodeRow (show_dec (Z.of_nat i)) (row_name row) (row_address row) (protocol_to (row_protocol row)) (in_use row) (row_group row).

Definition method_item (m : str) (method : str) : str * bool := (method, bool_decide (method = m)).

Definition sync_nodes (l : UiLang) (editor : bool) (s : NodesSnapshot) (v : NodeStore) : NodeStore :=
  let error := error_for l (ns_errors s) in
  let opens := match ns_advanced s with Some _ => negb (nv_advanced_open v) | None => false end in
  let new_link := match ns_qr s with Some (link, m) => if decide (nv_qr_link v = link) then None else Some (link, m) | None => None end in
  mkNodeStore (sync_model (nv_rows v) (imap row_to (rows s))) (to_i32 (-1) (Z.of_nat (ns_selected s))) (draft_to (ns_draft s))
    (if editor then wrapping_add_i32 (nv_draft_serial v) 1 else nv_draft_serial v)
    (sync_model (nv_method_items v) (method_item (d_method (ns_draft s)) <$> SS_METHODS))
    (error DServer) (error DUuid) (error DPassword) (error DPort) (error DTimeout) ((λ e, (field_to e.1, draft_message l e.2)) <$> ns_errors s)
    (reconnect_required s) (ns_dirty s) (ns_prompt s)
    (match ns_advanced s with Some sheet => draft_to sheet | None => nv_advanced_draft v end)
    (if opens then wrapping_add_i32 (nv_advanced_serial v) 1 else nv_advanced_serial v) (bool_decide (is_Some (ns_advanced s)))
    (match new_link with Some (link, _) => link | None => nv_qr_link v end) (match new_link with Some (_, m) => Some m | None => nv_qr_image v end)
    (bool_decide (is_Some (ns_qr s))).
End nodes.

(** ** The settings page *)
Record SettingsStore := mkSettingsStore {
  sv_language : Z;
  sv_appearance : Z;
  sv_autostart : bool;
  sv_hide_on_start : bool;
  sv_close_to_tray : bool;
  sv_startup_connection : Slint.StartupConnection;
  sv_mixed_port : str;
  sv_direct_url : str;
  sv_proxy_url : str;
  sv_update_hours : Z;
  sv_update_custom : bool;
  sv_pac_source : Slint.PacSource;
  sv_pac_listen : str;
  sv_online_pac_url : str;
  sv_sheet_field : Slint.SettingField;
  sv_sheet_draft : str;
  sv_sheet_error : str;
  sv_sheet_serial : Z;
  sv_sheet_open : bool;
}.

Section settings.
Context `{Texts, UrlLib} (path_segments : str → list str).

Definition sheet_message (l : UiLang) (e : option SettingError) : str :=
  match e with
  | None => []
  | Some SPort => tr l "Enter a port from 1 to 65535"
  | Some SListenAddress => tr l "Enter an address as host:port"
  | Some SUrl => tr l "Enter a URL that starts with http:// or https://"
  | Some SHours => tr l "Enter a whole number of hours, 1 or more"
  end.

Definition sync_settings (l : UiLang) (s : SettingsSnapshot) (v : SettingsStore) : SettingsStore :=
  let opens := match st_sheet s with Some _ => negb (sv_sheet_open v) | None => false end in
  mkSettingsStore (language_to (st_language s)) (appearance_to (st_appearance s)) (st_autostart s) (st_hide_on_start s) (st_close_to_tray s)
    (startup_to (st_startup s)) (st_mixed_port s) (url_summary path_segments (st_direct_url s)) (url_summary path_segments (st_proxy_url s))
    (to_i32 i32_max (st_update_hours s)) (negb (is_interval_preset (st_update_hours s))) (source_to (st_pac_source s)) (st_pac_listen s)
    (st_online_pac_url s)
    (match st_sheet s with Some sh => key_to (key sh) | None => sv_sheet_field v end)
    (match st_sheet s with Some sh => sheet_draft sh | None => sv_sheet_draft v end)
    (match st_sheet s with Some sh => sheet_message l (error_ sh) | None => sv_sheet_error v end)
    (if opens then wrapping_add_i32 (sv_sheet_serial v) 1 else sv_sheet_serial v) (bool_decide (is_Some (st_sheet s))).
End settings.

(** ** The logs page *)
Record LogStore := mkLogStore { lv_rows : list LogLine; lv_max_chars : Z; lv_serial : Z; lv_dropped : Z; lv_follow : bool }.

(** [chars().count()]. *)
Definition char_count (s : str) : nat := length (filter (λ c, is_cont c = false) s).

(** The store, and the version whose lines it has. *)
Definition sync_logs (s : LogsSnapshot) (v : LogStore) (shown : option Z) : LogStore * option Z :=
  let fresh := negb (bool_decide (shown = Some (ls_version s))) in
  let max_chars := foldr Nat.max O ((λ line, char_count (target line) + char_count (message line))%nat <$> ls_lines s) in
  (mkLogStore (if fresh then ls_lines s else lv_rows v) (if fresh then to_i32 i32_max (Z.of_nat max_chars) else lv_max_chars v)
     (if fresh then wrapping_add_i32 (lv_serial v) 1 else lv_serial v) (to_i32 i32_max (ls_dropped s)) (ls_follow s),
   Some (ls_version s)).

(** ** The conversions of the toolkit's values lose nothing *)
Lemma field_from_to f : field_from (field_to f) = f. Proof. by destruct f. Qed.
Lemma field_to_from f : field_to (field_from f) = f. Proof. by destruct f. Qed.
Lemma proxy_mode_from_to m : proxy_mode_from (proxy_mode_to m) = m. Proof. by destruct m. Qed.
Lemma pac_rule_from_to r : pac_rule_from (pac_rule_to r) = r. Proof. by destruct r. Qed.
Lemma key_from_to k : key_from (key_to k) = k. Proof. by destruct k. Qed.
Lemma startup_from_to s : startup_from (startup_to s) = s. Proof. by destruct s. Qed.
Lemma source_from_to m : source_from (source_to m) = m. Proof. by destruct m. Qed.
Lemma language_from_to l : language_from (language_to l) = l. Proof. by destruct l. Qed.
Lemma appearance_from_to a : appearance_from (appearance_to a) = a. Proof. by destruct a. Qed.

(** ** A model has the rows it is given, and rows that stay are not touched *)
Section models.
Context {T : Type} `{EqDecision T}.
Implicit Types vec rows : list T.

Lemma remove_last_spec vec n : foldl apply_model vec (replicate n MRemoveLast) = take (length vec - n) vec.
Proof.
  revert vec. induction n as [|n IH]; intros vec; cbn [replicate foldl apply_model]; [by rewrite Nat.sub_0_r, firstn_all|].
  rewrite IH, length_take, take_take. f_equal. lia.
Qed.

Lemma sync_rows_spec i vec rows : (i ≤ length vec)%nat → foldl apply_model vec (sync_rows i vec rows) = take i vec ++ rows.
Proof.
  revert i vec. induction rows as [|row rows IH]; intros i vec Hi; cbn [sync_rows].
  - rewrite remove_last_spec, app_nil_r. f_equal. lia.
  - destruct (vec !! i) as [old|] eqn:Eo.
    + pose proof (lookup_lt_Some _ _ _ Eo). case_decide as Hd.
      * subst old. rewrite IH by lia. rewrite (take_S_r _ _ _ Eo), <-app_assoc. done.
      * cbn [foldl apply_model]. rewrite IH by (rewrite length_insert; lia).
        rewrite (take_S_r _ _ row) by (by apply list_lookup_insert_eq). by rewrite take_insert_ge, <-app_assoc by lia.
    + apply lookup_ge_None_1 in Eo. assert (i = length vec) as -> by lia. cbn [foldl apply_model]. rewrite IH by (rewrite length_app; simpl; lia).
      rewrite !firstn_all2 by (rewrite ?length_app; simpl; lia). by rewrite <-app_assoc.
Qed.

Lemma sync_rows_sets i vec rows j x : MSetRow j x ∈ sync_rows i vec rows → (i ≤ j)%nat ∧ rows !! (j - i)%nat = Some x ∧ vec !! j ≠ Some x.
Proof.
  revert i vec. induction rows as [|row rows IH]; intros i vec; cbn [sync_rows].
  - intros Hin. by apply elem_of_replicate in Hin as [? _].
  - destruct (vec !! i) as [old|] eqn:Eo.
    + case_decide as Hd.
      * intros (Hj & Hr & Hv)%IH. replace (j - i)%nat with (S (j - S i)) by lia. split_and!; [lia|done|done].
      * intros [[= -> ->]|(Hj & Hr & Hv)%IH]%elem_of_cons.
        -- rewrite Nat.sub_diag. split_and!; [lia|done|]. intros E'. congruence.
        -- replace (j - i)%nat with (S (j - S i)) by lia. split_and!; [lia|done|]. rewrite list_lookup_insert_ne in Hv by lia. done.
    + intros [?|(Hj & Hr & Hv)%IH]%elem_of_cons; [done|]. replace (j - i)%nat with (S (j - S i)) by lia. split_and!; [lia|done|].
      apply lookup_ge_None_1 in Eo. intros Hs. apply lookup_lt_Some in Hs. lia.
Qed.

(** A model of the toolkit gets exactly the rows it is given, and a row that stays the same is not set again, so that what
    belongs to its place on the screen stays. *)
Theorem model_synced vec rows :
  sync_model vec rows = rows ∧
  (∀ i x, MSetRow i x ∈ sync_rows 0 vec rows → rows !! i = Some x ∧ vec !! i ≠ Some x).
Proof.
  split; [apply (sync_rows_spec 0); lia|]. intros i x (_ & Hr & Hv)%sync_rows_sets. by rewrite Nat.sub_0_r in Hr.
Qed.

Lemma sync_model_rows vec rows : sync_model vec rows = rows.
Proof. apply (sync_rows_spec 0). lia. Qed.
End models.

(** ** What it means that a store shows a snapshot *)
Section shown.
Context `{Texts, UrlLib} (path_segments : str → list str).

Definition nodes_shown (l : UiLang) (s : NodesSnapshot) (v : NodeStore) : Prop :=
  nv_rows v = imap row_to (rows s) ∧ nv_selected v = to_i32 (-1) (Z.of_nat (ns_selected s)) ∧ nv_draft v = draft_to (ns_draft s) ∧
  nv_method_items v = method_item (d_method (ns_draft s)) <$> SS_METHODS ∧
  (nv_server_error v, nv_uuid_error v, nv_password_error v, nv_port_error v, nv_timeout_error v) =
    (let error := error_for l (ns_errors s) in (error DServer, error DUuid, error DPassword, error DPort, error DTimeout)) ∧
  nv_errors v = (λ e, (field_to e.1, draft_message l e.2)) <$> ns_errors s ∧
  nv_reconnect_required v = reconnect_required s ∧ nv_dirty v = ns_dirty s ∧ nv_save_prompt v = ns_prompt s ∧
  nv_advanced_open v = bool_decide (is_Some (ns_advanced s)) ∧ (∀ sheet, ns_advanced s = Some sheet → nv_advanced_draft v = draft_to sheet) ∧
  nv_qr_open v = bool_decide (is_Some (ns_qr s)) ∧ (∀ link m, ns_qr s = Some (link, m) → nv_qr_link v = link).

Definition settings_shown (l : UiLang) (s : SettingsSnapshot) (v : SettingsStore) : Prop :=
  sv_language v = language_to (st_language s) ∧ sv_appearance v = appearance_to (st_appearance s) ∧ sv_autostart v = st_autostart s ∧
  sv_hide_on_start v = st_hide_on_start s ∧ sv_close_to_tray v = st_close_to_tray s ∧ sv_startup_connection v = startup_to (st_startup s) ∧
  sv_mixed_port v = st_mixed_port s ∧ sv_direct_url v = url_summary path_segments (st_direct_url s) ∧
  sv_proxy_url v = url_summary path_segments (st_proxy_url s) ∧ sv_update_hours v = to_i32 i32_max (st_update_hours s) ∧
  sv_update_custom v = negb (is_interval_preset (st_update_hours s)) ∧ sv_pac_source v = source_to (st_pac_source s) ∧
  sv_pac_listen v = st_pac_listen s ∧ sv_online_pac_url v = st_online_pac_url s ∧
  sv_sheet_open v = bool_decide (is_Some (st_sheet s)) ∧
  (∀ sh, st_sheet s = Some sh → sv_sheet_field v = key_to (key sh) ∧ sv_sheet_draft v = sheet_draft sh ∧ sv_sheet_error v = sheet_message l (error_ sh)).

Lemma sync_nodes_shown l editor s v : nodes_shown l s (sync_nodes l editor s v).
Proof.
  unfold nodes_shown, sync_nodes. cbn -[SS_METHODS]. rewrite !sync_model_rows. split_and!; try done.
  - intros sheet E. by rewrite E.
  - intros link m E. rewrite E. by destruct (decide (nv_qr_link v = link)).
Qed.

Lemma sync_settings_shown l s v : settings_shown l s (sync_settings path_segments l s v).
Proof. unfold settings_shown, sync_settings. cbn. split_and!; try done. intros sh E. by rewrite E. Qed.
End shown.
