(* ===== verification/Window.v ===== *)
(** * [gui/src/ui/bind/]: the window

    What the window keeps beside the controller: the globals it shows, its timers, the tray
    and the page that is refreshed.  A callback of the toolkit, a click in the tray, a timer
    or a call posted by another thread is one function on the state [Ui], which calls the
    controller and pushes what it reports as changed.  [None] is a panic of the controller.

    One call is made at one time [now].  Timers that repeat may fire at any time. *)
From S2P Require Import Prelude Std Net Text Link Traffic Logs Qr Pac Storage Persist Nodes ShareLink SystemProxy Profile Tray Desktop Controller Editor Save Settings App I18n Store.
#[local] Open Scope Z_scope.

(** ** What the toolkit and the desktop answer *)
Class Toolkit (S : Type) := {
  (** The language of the system, and whether a catalog with its fonts can be chosen. *)
  detected : UiLang;
  language_ok : S → UiLang → bool;
  (** Whether the window can be shown and hidden; its place once it exists, and the monitors it is on or starts on. *)
  shows : S → bool;
  hides : S → bool;
  outer : S → option ((Z * Z) * (Z * Z));
  current_monitor : S → option ((Z * Z) * (Z * Z));
  primary_monitor : S → option ((Z * Z) * (Z * Z));
  (** Whether the icon is shown, and whether a thread can be started. *)
  icon_shown : S → bool;
  spawn_thread : S → result unit;
  (** The local times of the rule lists and of the clock. *)
  rules_times : S → Z → option (DateTime * DateTime);
  AUTOSTART_SUPPORTED : bool;
  (** Whether the program is built for macOS. *)
  MACOS : bool;
  path_segments : str → list str;
  sin : f64 → f64;
  cos : f64 → f64;
}.

(** ** The state *)
Record Ui (S : Type) := mkUi {
  u_world : World S;
  u_tongue : UiLang;
  u_applied : option UiLang;
  u_syncing : bool;
  u_page : Slint.Page;
  u_reveal_about : bool;
  u_visible : bool;
  u_overview : OverviewStore;
  u_notice : NoticeStore;
  u_nodes : NodeStore;
  u_settings : SettingsStore;
  u_logs : LogStore;
  u_shown_version : option Z;
  u_traffic : TrafficView;
  u_save_timer : option Z;
  u_notice_timer : option (Z * Z);
  u_start_timer : option Z;
  u_refresh_timer : bool;
  u_refresh_page : option Slint.Page;
  u_tray : option TrayMenu;
  u_last_menu : option TrayMenu;
  u_activation : SingleInstance.Activation;
  u_last_position : option (Z * Z);
  u_placed : option (Z * Z);
  u_jobs : nat;
  u_reload_pending : bool;
  u_quit : bool;
}.
Arguments mkUi {S}. Arguments u_world {S}. Arguments u_tongue {S}. Arguments u_applied {S}. Arguments u_syncing {S}. Arguments u_page {S}. Arguments
u_reveal_about {S}. Arguments u_visible {S}. Arguments u_overview {S}. Arguments u_notice {S}. Arguments u_nodes {S}. Arguments u_settings {S}.
Arguments u_logs {S}. Arguments u_shown_version {S}. Arguments u_traffic {S}. Arguments u_save_timer {S}. Arguments u_notice_timer {S}. Arguments
u_start_timer {S}. Arguments u_refresh_timer {S}. Arguments u_refresh_page {S}. Arguments u_tray {S}. Arguments u_last_menu {S}. Arguments
u_activation {S}. Arguments u_last_position {S}. Arguments u_placed {S}. Arguments u_jobs {S}. Arguments u_reload_pending {S}. Arguments u_quit {S}.

Definition set_world {S} (x : World S) (u : Ui S) : Ui S := mkUi x (u_tongue u) (u_applied u) (u_syncing u) (u_page u) (u_reveal_about u) (u_visible
    u) (u_overview u) (u_notice u) (u_nodes u) (u_settings u) (u_logs u) (u_shown_version u) (u_traffic u) (u_save_timer u) (u_notice_timer u)
    (u_start_timer u) (u_refresh_timer u) (u_refresh_page u) (u_tray u) (u_last_menu u) (u_activation u) (u_last_position u) (u_placed u) (u_jobs u)
    (u_reload_pending u) (u_quit u).
Definition set_tongue {S} (x : UiLang) (u : Ui S) : Ui S := mkUi (u_world u) x (u_applied u) (u_syncing u) (u_page u) (u_reveal_about u) (u_visible
    u) (u_overview u) (u_notice u) (u_nodes u) (u_settings u) (u_logs u) (u_shown_version u) (u_traffic u) (u_save_timer u) (u_notice_timer u)
    (u_start_timer u) (u_refresh_timer u) (u_refresh_page u) (u_tray u) (u_last_menu u) (u_activation u) (u_last_position u) (u_placed u) (u_jobs u)
    (u_reload_pending u) (u_quit u).
Definition set_applied {S} (x : option UiLang) (u : Ui S) : Ui S := mkUi (u_world u) (u_tongue u) x (u_syncing u) (u_page u) (u_reveal_about u)
    (u_visible u) (u_overview u) (u_notice u) (u_nodes u) (u_settings u) (u_logs u) (u_shown_version u) (u_traffic u) (u_save_timer u)
    (u_notice_timer u) (u_start_timer u) (u_refresh_timer u) (u_refresh_page u) (u_tray u) (u_last_menu u) (u_activation u) (u_last_position u)
    (u_placed u) (u_jobs u) (u_reload_pending u) (u_quit u).
Definition set_syncing {S} (x : bool) (u : Ui S) : Ui S := mkUi (u_world u) (u_tongue u) (u_applied u) x (u_page u) (u_reveal_about u) (u_visible u)
    (u_overview u) (u_notice u) (u_nodes u) (u_settings u) (u_logs u) (u_shown_version u) (u_traffic u) (u_save_timer u) (u_notice_timer u)
    (u_start_timer u) (u_refresh_timer u) (u_refresh_page u) (u_tray u) (u_last_menu u) (u_activation u) (u_last_position u) (u_placed u) (u_jobs u)
    (u_reload_pending u) (u_quit u).
Definition set_page {S} (x : Slint.Page) (u : Ui S) : Ui S := mkUi (u_world u) (u_tongue u) (u_applied u) (u_syncing u) x (u_reveal_about u)
    (u_visible u) (u_overview u) (u_notice u) (u_nodes u) (u_settings u) (u_logs u) (u_shown_version u) (u_traffic u) (u_save_timer u)
    (u_notice_timer u) (u_start_timer u) (u_refresh_timer u) (u_refresh_page u) (u_tray u) (u_last_menu u) (u_activation u) (u_last_position u)
    (u_placed u) (u_jobs u) (u_reload_pending u) (u_quit u).
Definition set_reveal_about {S} (x : bool) (u : Ui S) : Ui S := mkUi (u_world u) (u_tongue u) (u_applied u) (u_syncing u) (u_page u) x (u_visible u)
    (u_overview u) (u_notice u) (u_nodes u) (u_settings u) (u_logs u) (u_shown_version u) (u_traffic u) (u_save_timer u) (u_notice_timer u)
    (u_start_timer u) (u_refresh_timer u) (u_refresh_page u) (u_tray u) (u_last_menu u) (u_activation u) (u_last_position u) (u_placed u) (u_jobs u)
    (u_reload_pending u) (u_quit u).
Definition set_visible {S} (x : bool) (u : Ui S) : Ui S := mkUi (u_world u) (u_tongue u) (u_applied u) (u_syncing u) (u_page u) (u_reveal_about u) x
    (u_overview u) (u_notice u) (u_nodes u) (u_settings u) (u_logs u) (u_shown_version u) (u_traffic u) (u_save_timer u) (u_notice_timer u)
    (u_start_timer u) (u_refresh_timer u) (u_refresh_page u) (u_tray u) (u_last_menu u) (u_activation u) (u_last_position u) (u_placed u) (u_jobs u)
    (u_reload_pending u) (u_quit u).
Definition set_overview {S} (x : OverviewStore) (u : Ui S) : Ui S := mkUi (u_world u) (u_tongue u) (u_applied u) (u_syncing u) (u_page u)
    (u_reveal_about u) (u_visible u) x (u_notice u) (u_nodes u) (u_settings u) (u_logs u) (u_shown_version u) (u_traffic u) (u_save_timer u)
    (u_notice_timer u) (u_start_timer u) (u_refresh_timer u) (u_refresh_page u) (u_tray u) (u_last_menu u) (u_activation u) (u_last_position u)
    (u_placed u) (u_jobs u) (u_reload_pending u) (u_quit u).
Definition set_notice {S} (x : NoticeStore) (u : Ui S) : Ui S := mkUi (u_world u) (u_tongue u) (u_applied u) (u_syncing u) (u_page u)
    (u_reveal_about u) (u_visible u) (u_overview u) x (u_nodes u) (u_settings u) (u_logs u) (u_shown_version u) (u_traffic u) (u_save_timer u)
    (u_notice_timer u) (u_start_timer u) (u_refresh_timer u) (u_refresh_page u) (u_tray u) (u_last_menu u) (u_activation u) (u_last_position u)
    (u_placed u) (u_jobs u) (u_reload_pending u) (u_quit u).
Definition set_nodes {S} (x : NodeStore) (u : Ui S) : Ui S := mkUi (u_world u) (u_tongue u) (u_applied u) (u_syncing u) (u_page u) (u_reveal_about
    u) (u_visible u) (u_overview u) (u_notice u) x (u_settings u) (u_logs u) (u_shown_version u) (u_traffic u) (u_save_timer u) (u_notice_timer u)
    (u_start_timer u) (u_refresh_timer u) (u_refresh_page u) (u_tray u) (u_last_menu u) (u_activation u) (u_last_position u) (u_placed u) (u_jobs u)
    (u_reload_pending u) (u_quit u).
Definition set_settings {S} (x : SettingsStore) (u : Ui S) : Ui S := mkUi (u_world u) (u_tongue u) (u_applied u) (u_syncing u) (u_page u)
    (u_reveal_about u) (u_visible u) (u_overview u) (u_notice u) (u_nodes u) x (u_logs u) (u_shown_version u) (u_traffic u) (u_save_timer u)
    (u_notice_timer u) (u_start_timer u) (u_refresh_timer u) (u_refresh_page u) (u_tray u) (u_last_menu u) (u_activation u) (u_last_position u)
    (u_placed u) (u_jobs u) (u_reload_pending u) (u_quit u).
Definition set_logs {S} (x : LogStore) (u : Ui S) : Ui S := mkUi (u_world u) (u_tongue u) (u_applied u) (u_syncing u) (u_page u) (u_reveal_about u)
    (u_visible u) (u_overview u) (u_notice u) (u_nodes u) (u_settings u) x (u_shown_version u) (u_traffic u) (u_save_timer u) (u_notice_timer u)
    (u_start_timer u) (u_refresh_timer u) (u_refresh_page u) (u_tray u) (u_last_menu u) (u_activation u) (u_last_position u) (u_placed u) (u_jobs u)
    (u_reload_pending u) (u_quit u).
Definition set_shown_version {S} (x : option Z) (u : Ui S) : Ui S := mkUi (u_world u) (u_tongue u) (u_applied u) (u_syncing u) (u_page u)
    (u_reveal_about u) (u_visible u) (u_overview u) (u_notice u) (u_nodes u) (u_settings u) (u_logs u) x (u_traffic u) (u_save_timer u)
    (u_notice_timer u) (u_start_timer u) (u_refresh_timer u) (u_refresh_page u) (u_tray u) (u_last_menu u) (u_activation u) (u_last_position u)
    (u_placed u) (u_jobs u) (u_reload_pending u) (u_quit u).
Definition set_traffic {S} (x : TrafficView) (u : Ui S) : Ui S := mkUi (u_world u) (u_tongue u) (u_applied u) (u_syncing u) (u_page u)
    (u_reveal_about u) (u_visible u) (u_overview u) (u_notice u) (u_nodes u) (u_settings u) (u_logs u) (u_shown_version u) x (u_save_timer u)
    (u_notice_timer u) (u_start_timer u) (u_refresh_timer u) (u_refresh_page u) (u_tray u) (u_last_menu u) (u_activation u) (u_last_position u)
    (u_placed u) (u_jobs u) (u_reload_pending u) (u_quit u).
Definition set_save_timer {S} (x : option Z) (u : Ui S) : Ui S := mkUi (u_world u) (u_tongue u) (u_applied u) (u_syncing u) (u_page u)
    (u_reveal_about u) (u_visible u) (u_overview u) (u_notice u) (u_nodes u) (u_settings u) (u_logs u) (u_shown_version u) (u_traffic u) x
    (u_notice_timer u) (u_start_timer u) (u_refresh_timer u) (u_refresh_page u) (u_tray u) (u_last_menu u) (u_activation u) (u_last_position u)
    (u_placed u) (u_jobs u) (u_reload_pending u) (u_quit u).
Definition set_notice_timer {S} (x : option (Z * Z)) (u : Ui S) : Ui S := mkUi (u_world u) (u_tongue u) (u_applied u) (u_syncing u) (u_page u)
    (u_reveal_about u) (u_visible u) (u_overview u) (u_notice u) (u_nodes u) (u_settings u) (u_logs u) (u_shown_version u) (u_traffic u)
    (u_save_timer u) x (u_start_timer u) (u_refresh_timer u) (u_refresh_page u) (u_tray u) (u_last_menu u) (u_activation u) (u_last_position u)
    (u_placed u) (u_jobs u) (u_reload_pending u) (u_quit u).
Definition set_start_timer {S} (x : option Z) (u : Ui S) : Ui S := mkUi (u_world u) (u_tongue u) (u_applied u) (u_syncing u) (u_page u)
    (u_reveal_about u) (u_visible u) (u_overview u) (u_notice u) (u_nodes u) (u_settings u) (u_logs u) (u_shown_version u) (u_traffic u)
    (u_save_timer u) (u_notice_timer u) x (u_refresh_timer u) (u_refresh_page u) (u_tray u) (u_last_menu u) (u_activation u) (u_last_position u)
    (u_placed u) (u_jobs u) (u_reload_pending u) (u_quit u).
Definition set_refresh_timer {S} (x : bool) (u : Ui S) : Ui S := mkUi (u_world u) (u_tongue u) (u_applied u) (u_syncing u) (u_page u)
    (u_reveal_about u) (u_visible u) (u_overview u) (u_notice u) (u_nodes u) (u_settings u) (u_logs u) (u_shown_version u) (u_traffic u)
    (u_save_timer u) (u_notice_timer u) (u_start_timer u) x (u_refresh_page u) (u_tray u) (u_last_menu u) (u_activation u) (u_last_position u)
    (u_placed u) (u_jobs u) (u_reload_pending u) (u_quit u).
Definition set_refresh_page {S} (x : option Slint.Page) (u : Ui S) : Ui S := mkUi (u_world u) (u_tongue u) (u_applied u) (u_syncing u) (u_page u)
    (u_reveal_about u) (u_visible u) (u_overview u) (u_notice u) (u_nodes u) (u_settings u) (u_logs u) (u_shown_version u) (u_traffic u)
    (u_save_timer u) (u_notice_timer u) (u_start_timer u) (u_refresh_timer u) x (u_tray u) (u_last_menu u) (u_activation u) (u_last_position u)
    (u_placed u) (u_jobs u) (u_reload_pending u) (u_quit u).
Definition set_tray {S} (x : option TrayMenu) (u : Ui S) : Ui S := mkUi (u_world u) (u_tongue u) (u_applied u) (u_syncing u) (u_page u)
    (u_reveal_about u) (u_visible u) (u_overview u) (u_notice u) (u_nodes u) (u_settings u) (u_logs u) (u_shown_version u) (u_traffic u)
    (u_save_timer u) (u_notice_timer u) (u_start_timer u) (u_refresh_timer u) (u_refresh_page u) x (u_last_menu u) (u_activation u) (u_last_position
    u) (u_placed u) (u_jobs u) (u_reload_pending u) (u_quit u).
Definition set_last_menu {S} (x : option TrayMenu) (u : Ui S) : Ui S := mkUi (u_world u) (u_tongue u) (u_applied u) (u_syncing u) (u_page u)
    (u_reveal_about u) (u_visible u) (u_overview u) (u_notice u) (u_nodes u) (u_settings u) (u_logs u) (u_shown_version u) (u_traffic u)
    (u_save_timer u) (u_notice_timer u) (u_start_timer u) (u_refresh_timer u) (u_refresh_page u) (u_tray u) x (u_activation u) (u_last_position u)
    (u_placed u) (u_jobs u) (u_reload_pending u) (u_quit u).
Definition set_activation {S} (x : SingleInstance.Activation) (u : Ui S) : Ui S := mkUi (u_world u) (u_tongue u) (u_applied u) (u_syncing u) (u_page
    u) (u_reveal_about u) (u_visible u) (u_overview u) (u_notice u) (u_nodes u) (u_settings u) (u_logs u) (u_shown_version u) (u_traffic u)
    (u_save_timer u) (u_notice_timer u) (u_start_timer u) (u_refresh_timer u) (u_refresh_page u) (u_tray u) (u_last_menu u) x (u_last_position u)
    (u_placed u) (u_jobs u) (u_reload_pending u) (u_quit u).
Definition set_last_position {S} (x : option (Z * Z)) (u : Ui S) : Ui S := mkUi (u_world u) (u_tongue u) (u_applied u) (u_syncing u) (u_page u)
    (u_reveal_about u) (u_visible u) (u_overview u) (u_notice u) (u_nodes u) (u_settings u) (u_logs u) (u_shown_version u) (u_traffic u)
    (u_save_timer u) (u_notice_timer u) (u_start_timer u) (u_refresh_timer u) (u_refresh_page u) (u_tray u) (u_last_menu u) (u_activation u) x
    (u_placed u) (u_jobs u) (u_reload_pending u) (u_quit u).
Definition set_placed {S} (x : option (Z * Z)) (u : Ui S) : Ui S := mkUi (u_world u) (u_tongue u) (u_applied u) (u_syncing u) (u_page u)
    (u_reveal_about u) (u_visible u) (u_overview u) (u_notice u) (u_nodes u) (u_settings u) (u_logs u) (u_shown_version u) (u_traffic u)
    (u_save_timer u) (u_notice_timer u) (u_start_timer u) (u_refresh_timer u) (u_refresh_page u) (u_tray u) (u_last_menu u) (u_activation u)
    (u_last_position u) x (u_jobs u) (u_reload_pending u) (u_quit u).
Definition set_jobs {S} (x : nat) (u : Ui S) : Ui S := mkUi (u_world u) (u_tongue u) (u_applied u) (u_syncing u) (u_page u) (u_reveal_about u)
    (u_visible u) (u_overview u) (u_notice u) (u_nodes u) (u_settings u) (u_logs u) (u_shown_version u) (u_traffic u) (u_save_timer u)
    (u_notice_timer u) (u_start_timer u) (u_refresh_timer u) (u_refresh_page u) (u_tray u) (u_last_menu u) (u_activation u) (u_last_position u)
    (u_placed u) x (u_reload_pending u) (u_quit u).
Definition set_reload_pending {S} (x : bool) (u : Ui S) : Ui S := mkUi (u_world u) (u_tongue u) (u_applied u) (u_syncing u) (u_page u)
    (u_reveal_about u) (u_visible u) (u_overview u) (u_notice u) (u_nodes u) (u_settings u) (u_logs u) (u_shown_version u) (u_traffic u)
    (u_save_timer u) (u_notice_timer u) (u_start_timer u) (u_refresh_timer u) (u_refresh_page u) (u_tray u) (u_last_menu u) (u_activation u)
    (u_last_position u) (u_placed u) (u_jobs u) x (u_quit u).
Definition set_quit {S} (x : bool) (u : Ui S) : Ui S := mkUi (u_world u) (u_tongue u) (u_applied u) (u_syncing u) (u_page u) (u_reveal_about u)
    (u_visible u) (u_overview u) (u_notice u) (u_nodes u) (u_settings u) (u_logs u) (u_shown_version u) (u_traffic u) (u_save_timer u)
    (u_notice_timer u) (u_start_timer u) (u_refresh_timer u) (u_refresh_page u) (u_tray u) (u_last_menu u) (u_activation u) (u_last_position u)
    (u_placed u) (u_jobs u) (u_reload_pending u) x.

(** ** The calls of the controller that the window needs an answer of *)
Section calls.
Context `{Codec AppConfig, Codec ProfileStore, Codec RuntimeState} {S : Type} `{Effects S, Files S, Place, UrlLib, QrLib}.
Implicit Types w : World S.

(** A call with the changes it reports and its answer. *)
Definition Call (R : Type) : Type := World S → option (World S * Changes * R).
Definition simply (o : Op) : Call unit := λ w, '(w, ch) ← perform o w; Some (w, ch, tt).

(** [Controller::on_tray]: an event of the window changes nothing. *)
Definition on_tray_call (event : TrayEvent) (now : Z) : Call (option RuleJob) := λ w,
  match event with
  | UpdateRules => Some (update_rules w)
  | _ => match on_tray event now with Some o => '(w, ch) ← perform o w; Some (w, ch, None) | None => Some (w, NONE, None) end
  end.
End calls.

(** ** The pushes *)
Definition NOTICE_TIMEOUT : Z := 4000.
Definition TRAY_WAIT : Z := 5000.

Section window.
Context `{Codec AppConfig, Codec ProfileStore, Codec RuntimeState} {S : Type} `{Effects S, Files S, Place, UrlLib, QrLib, Texts, Toolkit S}.
Implicit Types (u : Ui S) (w : World S) (now : Z).

Definition ctl_of u : Controller := ctl (u_world u).
Definition around u : S := outside (u_world u).
Definition language_of (c : Controller) : UiLang := resolve detected (language (runtime (gui c))).

(** [TrayText], which the toolkit computes from the globals it shows. *)
Definition connection_text (l : UiLang) (o : OverviewStore) : str :=
  match o_connection o with Slint.Running => tr_connected l (o_active_name o) | Slint.Starting => tr l "Connecting…" | Slint.Stopped => tr l "Disconnected" end.
Definition proxy_text (l : UiLang) (o : OverviewStore) : str :=
  match o_proxy_mode o with
  | Slint.Pac => tr l "System proxy · PAC" | Slint.Global => tr l "System proxy · Global" | Slint.Off => tr l "System proxy · Off"
  end.
Definition tray_text (l : UiLang) (o : OverviewStore) : TrayLabels :=
  mkLabels (connection_text l o) (proxy_text l o) (match o_connection o with Slint.Running => tr l "Disconnect" | _ => tr l "Connect" end)
    (tr l "System proxy") (tr l "Off") (B "PAC") (tr l "Global") (tr l "Bypass mainland China") (tr l "Proxy GFW list only") (tr l "Update rules")
    (tr l "Nodes") (tr l "Import from clipboard") (tr l "Open Juicity GUI") (tr l "Nodes…") (tr l "Logs…") (tr l "Settings…") (tr l "About Juicity GUI")
    (tr l "Quit").

Definition menu u : TrayMenu := mkMenu (tray_model (ctl_of u)) (tray_text (u_tongue u) (u_overview u)).

(** [Tray::update], when the menu changed or [force]. *)
Definition push_tray (force : bool) u : Ui S :=
  match u_tray u with
  | None => u
  | Some _ =>
      let m := menu u in
      if negb force && bool_decide (u_last_menu u = Some m) then u else set_tray (Some m) (set_last_menu (Some m) u)
  end.

(** While globals are set, calls are ignored. *)
Definition sync (f : Ui S → Ui S) u : Ui S := set_syncing false (f (set_syncing true u)).

Definition push_language u : Ui S * bool :=
  let l := language_of (ctl_of u) in
  if decide (u_applied u = Some l) then (u, false)
  else (set_applied (Some l) (if language_ok (around u) l then set_tongue l u else u), true).
Definition push_overview now u : option (Ui S) :=
  s ← overview (rules_times (around u) now) (ctl_of u); Some (sync (set_overview (sync_overview s)) u).
Definition push_nodes (editor : bool) u : Ui S :=
  let s := nodes_snapshot (ctl_of u) in sync (λ u, set_nodes (sync_nodes (u_tongue u) editor s (u_nodes u)) u) u.
Definition push_settings u : option (Ui S) :=
  s ← settings_snapshot (ctl_of u); Some (sync (λ u, set_settings (sync_settings path_segments (u_tongue u) s (u_settings u)) u) u).
Definition push_logs u : Ui S :=
  let s := Logs.logs (logs (ctl_of u)) in
  sync (λ u, let '(v, shown) := sync_logs s (u_logs u) (u_shown_version u) in set_logs v (set_shown_version shown u)) u.
Definition push_traffic u : Ui S := sync (set_traffic (traffic_view sin cos (snapshot (traffic (logs (ctl_of u)))))) u.
Definition push_notice u : Ui S := sync (λ u, set_notice (sync_notice (u_tongue u) (notice (ctl_of u))) u) u.

(** Info notices hide after a while; errors stay until they are dismissed. *)
Definition info (n : Notice) : bool := negb (is_error n) && match n with NNone => false | _ => true end.
Definition arm_notice now u : Ui S :=
  set_notice_timer (if info (notice (ctl_of u)) then Some (now + NOTICE_TIMEOUT, notice_seq (ctl_of u)) else None) u.
Definition arm_save now u : Ui S := match save_delay now (u_world u) with Some d => set_save_timer (Some (now + d)) u | None => u end.

Definition apply now (ch : Changes) u : option (Ui S) :=
  let '(u, language_changed) := if ch_settings ch then push_language u else (u, false) in
  u ← if ch_overview ch then push_overview now u else Some u;
  let u := if ch_nodes ch || ch_editor ch || language_changed then push_nodes (ch_editor ch) u else u in
  u ← if ch_settings ch then push_settings u else Some u;
  let u := if ch_logs ch then push_logs u else u in
  let u := if ch_traffic ch then push_traffic u else u in
  let u := if ch_notice ch then arm_notice now (push_notice u) else u in
  let u := if language_changed && negb (ch_notice ch) then push_notice u else u in
  let u := if ch_overview ch || ch_nodes ch || language_changed then push_tray false u else u in
  Some (if ch_persist ch then arm_save now u else u).

(** [update_with]: the call and its pushes; [None] as the answer of a call that is ignored. *)
Definition update_with {R} now (f : Call R) u : option (Ui S * option R) :=
  if u_syncing u then Some (u, None)
  else
    '(w, ch, r) ← f (u_world u);
    u ← apply now ch (set_world w u);
    Some (u, Some r).
Definition update now (o : Op) u : option (Ui S) := '(u, _) ← update_with now (simply o) u; Some u.

(** The thread of a download; its end is a call of its own. *)
Definition spawn_rules now (job : option (option RuleJob)) u : option (Ui S) :=
  match job with
  | Some (Some _) =>
      match spawn_thread (around u) with
      | Ok _ => Some (set_jobs (1 + u_jobs u)%nat u)
      | Err e => update now (OFinishRules (Err e)) u
      end
  | _ => Some u
  end.

(** ** The page that is refreshed *)
Definition refreshed_page u : option Slint.Page :=
  match u_page u with
  | (Slint.Overview | Slint.Logs) as p => if u_visible u then Some p else None
  | _ => None
  end.
Definition stop_refresh u : Ui S := set_refresh_timer false u.
Definition refreshing u : option Slint.Page := if u_refresh_timer u then u_refresh_page u else None.

Definition update_refresh now u : option (Ui S) :=
  match refreshed_page u with
  | None => Some (stop_refresh u)
  | Some p =>
      if decide (refreshing u = Some p) then Some u
      else
        let u := set_refresh_page (Some p) u in
        u ← if decide (p = Slint.Logs) then update now OReloadLogs (set_shown_version None u) else update now OReloadTraffic u;
        Some (set_refresh_timer true u)
  end.

(** A tick of the timer for the page [p]. *)
Definition refresh_tick now (p : Slint.Page) u : option (Ui S) :=
  if decide (refreshed_page u = Some p) then update now (if decide (p = Slint.Logs) then ORefreshLogs else ORefreshTraffic) u
  else Some (stop_refresh u).

Definition navigate now (p : Slint.Page) u : option (Ui S) := update_refresh now (set_page p u).

(** ** Showing and hiding *)
Definition centre (screen outer_size : Z) : Z := Z.max 0 (screen - outer_size) / 2.

Definition place_window u : Ui S :=
  let last := u_last_position u in
  let u := set_last_position None u in
  match outer (around u) with
  | None => u
  | Some (_, (width, height)) =>
      let centred := '((x, y), (w, h)) ← union (current_monitor (around u)) (primary_monitor (around u));
        Some (wrapping_add_i32 x (centre w width), wrapping_add_i32 y (centre h height)) in
      match union last centred with Some p => set_placed (Some p) u | None => u end
  end.

Definition show_window now (p : option Slint.Page) u : option (Ui S) :=
  u ← match p with Some p => navigate now p u | None => Some u end;
  if shows (around u) then
    let hidden := negb (u_visible u) in
    let u := set_visible true u in
    update_refresh now (if hidden then place_window u else u)
  else Some u.

(** The toolkit's [hide]. *)
Definition hide u : Ui S := if hides (around u) then set_visible false u else u.
Definition hide_window u : Ui S := stop_refresh (hide (set_last_position (fst <$> outer (around u)) u)).
Definition toggle_window now u : option (Ui S) := if u_visible u then Some (hide_window u) else show_window now None u.

(** ** Leaving *)
Definition request_window now (l : Leave) u : option (Ui S * option Leave) :=
  '(u, r) ← update_with now (λ w, Some (request_leave l w)) u; Some (u, default None r).
Definition perform_leave (l : Leave) u : Ui S := match l with Hide => hide_window u | Quit => set_quit true u end.
Definition answer now (a : Answer) u : option (Ui S) :=
  '(u, r) ← update_with now (λ w, Some (answer_prompt a w)) u;
  Some (match r with Some (Some l) => perform_leave l u | _ => u end).

Definition request_quit now u : option (Ui S) :=
  '(u, r) ← request_window now Quit u;
  match r with Some l => Some (perform_leave l u) | None => show_window now None u end.

Definition quits_on_close (close_to_tray tray_available : bool) : bool := negb (close_to_tray && tray_available).
Definition tray_available u : bool := bool_decide (is_Some (u_tray u)) && icon_shown (around u).

(** Whether the toolkit hides the window then. *)
Definition close_with_tray now (available : bool) u : option (Ui S * bool) :=
  let l := if quits_on_close (close_to_tray (runtime (gui (ctl_of u)))) available then Quit else Hide in
  '(u, r) ← request_window now l u;
  Some (match r with Some Quit => (set_quit true u, true) | Some Hide => (hide_window u, true) | None => (u, false) end).
Definition close_requested now u : option (Ui S) :=
  '(u, hidden) ← close_with_tray now (tray_available u) u; Some (match hidden with true => hide u | false => u end).

(** ** The tray *)
Definition start_tray u : Ui S := set_tray (Some (menu u)) (set_last_menu (Some (menu u)) u).

Definition handle_event now (event : TrayEvent) u : option (Ui S) :=
  match event with
  | ToggleWindow => toggle_window now u
  | Open => show_window now None u
  | ShowNodes => show_window now (Some Slint.Nodes) u
  | ShowLogs => show_window now (Some Slint.Logs) u
  | ShowSettings => show_window now (Some Slint.Settings) u
  | ShowAbout => show_window now (Some Slint.Settings) (set_reveal_about true u)
  | TQuit => request_quit now u
  | _ => '(u, job) ← update_with now (on_tray_call event now) u; spawn_rules now job u
  end.
Definition handle now (event : TrayEvent) u : option (Ui S) := u ← handle_event now event u; Some (push_tray true u).

(** ** Activation by a second launch *)
Definition request_activation now u : option (Ui S) :=
  let '(a, now_) := SingleInstance.request (u_activation u) in
  let u := set_activation a u in if now_ then show_window now None u else Some u.
Definition activation_ready now u : option (Ui S) :=
  let '(a, queued) := SingleInstance.window_ready (u_activation u) in
  let u := set_activation a u in if queued then show_window now None u else Some u.
End window.

(** ** The callbacks of the pages *)
Inductive Action :=
  | ANavigate (p : Slint.Page) | AToggleConnection | ASetProxyMode (m : Slint.ProxyMode) | ASetPacRule (r : Slint.PacRule) | AUpdateRules | ACopyPacUrl
  | ADismissNotice
  | ASelectNode (row : Z) | AAddNode | AImportLinks | ANodeCommand (row : Z) (c : Slint.NodeCommand) | AEditNode (f : Slint.NodeField) (value : str)
  | ASetActiveNode | AExportLink | AShareQrCode | ACloseQrCode | AOpenAdvanced | AEditAdvanced (f : Slint.NodeField) (value : str) | ACommitAdvanced
  | ACancelAdvanced | ASaveNodes | ARevertNodes | APrompt (a : Answer)
  | ASetAutostart (on : bool) | AInstallAppIcon | ASetLanguage (index : Z) | ASetAppearance (index : Z) | ASetHideOnStart (on : bool)
  | ASetCloseToTray (on : bool) | ASetStartupConnection (s : Slint.StartupConnection) | ASetPacSource (s : Slint.PacSource) | ASetUpdateHours (hours : Z)
  | AOpenSetting (f : Slint.SettingField) | AEditSetting (text : str) | ACommitSetting | ACancelSetting
  | ASetLogFollow (on : bool) | AClearLogs.

(** Row index from Slint; negative means none. *)
Definition index (row : Z) : option nat := if decide (0 ≤ row) then Some (Z.to_nat row) else None.

(** The switches, which turn before their callback is called. *)
Definition with_switches (autostart hide_on_start close_to_tray : option bool) (v : SettingsStore) : SettingsStore :=
  mkSettingsStore (sv_language v) (sv_appearance v) (default (sv_autostart v) autostart) (default (sv_hide_on_start v) hide_on_start)
    (default (sv_close_to_tray v) close_to_tray) (sv_startup_connection v) (sv_mixed_port v) (sv_direct_url v) (sv_proxy_url v) (sv_update_hours v)
    (sv_update_custom v) (sv_pac_source v) (sv_pac_listen v) (sv_online_pac_url v) (sv_sheet_field v) (sv_sheet_draft v) (sv_sheet_error v)
    (sv_sheet_serial v) (sv_sheet_open v).
Definition with_lv_follow (on : bool) (v : LogStore) : LogStore := mkLogStore (lv_rows v) (lv_max_chars v) (lv_serial v) (lv_dropped v) on.

(** ** Changes of the configuration files *)
Inductive EventKind := KAny | KAccess | KCreate | KModify | KRemove | KOther.
Definition CONFIG_FILES : list str := [B "app.json"; B "profiles.json"; B "runtime.json"].

(** [Path::file_name]. *)
Definition file_name (path : str) : option str :=
  match last (filter (λ part, part ≠ [] ∧ part ≠ B ".") (split_char x2f path)) with
  | Some part => if decide (part = B "..") then None else Some part
  | None => None
  end.
Definition is_config_change (kind : EventKind) (paths : list str) : bool :=
  match kind with KCreate | KModify | KRemove => true | _ => false end &&
  existsb (λ path, match file_name path with Some name => bool_decide (name ∈ CONFIG_FILES) | None => false end) paths.

Section events.
Context `{Codec AppConfig, Codec ProfileStore, Codec RuntimeState} {S : Type} `{Effects S, Files S, Place, UrlLib, QrLib, Texts, Toolkit S}.
Implicit Types (u : Ui S) (w : World S) (now : Z).

(** What the toolkit changes itself. *)
Definition turned (a : Action) u : Ui S :=
  match a with
  | ASetAutostart on => set_settings (with_switches (Some on) None None (u_settings u)) u
  | ASetHideOnStart on => set_settings (with_switches None (Some on) None (u_settings u)) u
  | ASetCloseToTray on => set_settings (with_switches None None (Some on) (u_settings u)) u
  | ASetLogFollow on => set_logs (with_lv_follow on (u_logs u)) u
  | _ => u
  end.

(** The calls of the controller that the callbacks of a page make; a negative row makes none. *)
Definition wire_overview (a : Action) now : option Op :=
  match a with
  | AToggleConnection => Some (OToggle now)
  | ASetProxyMode m => Some (OSetProxyMode (proxy_mode_from m) now)
  | ASetPacRule r => Some (OSetPacRule (pac_rule_from r) now)
  | ACopyPacUrl => Some OCopyPacUrl
  | ADismissNotice => Some ODismiss
  | _ => None
  end.
Definition wire_nodes (a : Action) now u : option Op :=
  match a with
  | ASelectNode row => OSelect <$> index row
  | AAddNode => Some (OAdd (tr_node (u_tongue u) (to_i32 i32_max (Z.of_nat (length (profiles (gui (ctl_of u)))) + 1))))
  | AImportLinks => Some OImport
  | ANodeCommand row c => (λ i, OCommand i (command_from c) now) <$> index row
  | AEditNode f value => Some (OEdit (field_from f) value)
  | ASetActiveNode => Some (OSetActive now)
  | AExportLink => Some OExport
  | AShareQrCode => Some OShareQr
  | ACloseQrCode => Some OCloseQr
  | AOpenAdvanced => Some OOpenAdvanced
  | AEditAdvanced f value => Some (OEditAdvanced (field_from f) value)
  | ACommitAdvanced => Some OCommitAdvanced
  | ASaveNodes => Some OSave
  | ARevertNodes => Some ORevert
  | ACancelAdvanced => Some OCancelAdvanced
  | _ => None
  end.
Definition wire_settings (a : Action) now : option Op :=
  match a with
  | ASetLanguage i => Some (OLanguage (language_from i) now)
  | ASetAppearance i => Some (OAppearance (appearance_from i) now)
  | ASetAutostart on => Some (OAutostart AUTOSTART_SUPPORTED on now)
  | AInstallAppIcon => Some OInstallIcon
  | ASetHideOnStart on => Some (OHide on now)
  | ASetCloseToTray on => Some (OCloseToTray on now)
  | ASetStartupConnection s => Some (OStartupState (startup_from s) now)
  | ASetPacSource s => Some (OPacSource (source_from s) now)
  | ASetUpdateHours hours => Some (OHours (Z.max 0 hours) now)
  | AOpenSetting f => Some (OOpen (key_from f))
  | AEditSetting text => Some (OEditSetting text)
  | ACommitSetting => Some (OCommit now)
  | ACancelSetting => Some OCancelSetting
  | _ => None
  end.
Definition wire_logs (a : Action) : option Op :=
  match a with
  | ASetLogFollow on => Some (OFollow on)
  | AClearLogs => Some OClearLogs
  | _ => None
  end.
Definition called (a : Action) now u : option Op :=
  match wire_overview a now, wire_nodes a now u, wire_settings a now, wire_logs a with
  | Some o, _, _, _ | None, Some o, _, _ | None, None, Some o, _ => Some o
  | None, None, None, o => o
  end.

Definition act now (a : Action) u : option (Ui S) :=
  let u := turned a u in
  match a with
  | ANavigate p => navigate now p u
  | AUpdateRules => '(u, job) ← update_with now (λ w, Some (update_rules w)) u; spawn_rules now job u
  | APrompt a => answer now a u
  | _ => match called a now u with Some o => update now o u | None => Some u end
  end.

(** ** Starting and stopping *)
Definition OverviewStore_default : OverviewStore := mkOverviewStore Slint.Stopped [] [] [] [] [] Slint.Off Slint.BypassChina (-1) [] false.
Definition NoticeStore_default : NoticeStore := mkNoticeStore Slint.None [] [] false.
Definition NodeDraft_default : NodeDraft := mkNodeDraft [] Slint.Juicity [] [] [] [] [] [] false [] [] [] [] [] [] [].
Definition NodeStore_default : NodeStore :=
  mkNodeStore [] (-1) NodeDraft_default 0 [] [] [] [] [] [] [] false false false NodeDraft_default 0 false [] None false.
Definition SettingsStore_default : SettingsStore :=
  mkSettingsStore 0 0 false false false Slint.SCOff [] [] [] 0 false Slint.Local [] [] Slint.MixedPort [] [] 0 false.
Definition LogStore_default : LogStore := mkLogStore [] 0 0 0 true.
Definition TrafficStore_default : TrafficView := mkView (mkChart [] [] []) (mkDonut [] [] []) false [] [] [] [] [].

Definition Ui_new (l : UiLang) w : Ui S :=
  mkUi w l None false Slint.Overview false false OverviewStore_default NoticeStore_default NodeStore_default SettingsStore_default LogStore_default None
    TrafficStore_default None None None false None None None SingleInstance.Activation_default None None O false false.

Definition install now (l : UiLang) w : option (Ui S) := apply now (OVERVIEW ∪ EDITOR ∪ SETTINGS) (Ui_new l w).
Definition watch_config_dir now u : option (Ui S) := update now (OFilesChanged now) u.
Definition startup_window now u : option (Ui S) := '(u, job) ← update_with now (λ w, Some (startup now w)) u; spawn_rules now job u.

(** Whether the window could be shown. *)
Definition show_initial now u : option (Ui S * bool) :=
  if hide_window_on_startup (runtime (gui (ctl_of u))) then Some (set_start_timer (Some (now + TRAY_WAIT)) u, true)
  else if shows (around u) then u ← update_refresh now (place_window (set_visible true u)); Some (u, true)
  else Some (u, false).

(** [bind::shutdown]. *)
Definition shutdown_window now u : World S := shutdown now (u_world u).

(** How the event loop ends: by the quit of the window, by an error of the platform, or, on macOS, from inside, when
    AppKit terminates the program without asking it (Dock Quit, logging out); [ShutdownOnExit] runs the shutdown there. *)
Inductive Ending := LoopQuit | LoopFailed | LoopTerminated.
Definition end_loop now (e : Ending) u : option (World S) :=
  if match e with LoopQuit => u_quit u | LoopFailed => true | LoopTerminated => MACOS end then Some (shutdown_window now u) else None.

(** [ui::run] up to the event loop; [inr] when the program ends before it. *)
Definition launch now w : option (Ui S + World S) :=
  let l := language_of (ctl w) in
  if language_ok (outside w) l then
    u ← install now l w;
    u ← watch_config_dir now u;
    u ← startup_window now u;
    '(u, ok) ← show_initial now u;
    match ok with
    | true => u ← activation_ready now u; Some (inl u)
    | false => Some (inr (shutdown_window now u))
    end
  else Some (inr w).

(** ** What happens to the window *)
Inductive Event :=
  | EAct (a : Action) | ETray (event : TrayEvent) (shown : TrayMenu) | EClose
  | EPoll | ESaveTimer | ENoticeTimer | EStartTimer | ERefresh
  | ERules (r : result unit) | EWatch (kind : EventKind) (paths : list str) | EReload | ETrayStart | EActivate | ERevealed.

(** A timer fires once its time has come, and a posted call comes once. *)
Definition possible now (e : Event) u : bool :=
  match e with
  | ETray _ _ => bool_decide (is_Some (u_tray u))
  | ESaveTimer => match u_save_timer u with Some t => t <=? now | None => false end
  | ENoticeTimer => match u_notice_timer u with Some (t, _) => t <=? now | None => false end
  | EStartTimer => match u_start_timer u with Some t => t <=? now | None => false end
  | ERefresh => bool_decide (is_Some (refreshing u))
  | ERules _ => (0 <? u_jobs u)%nat
  | EReload => u_reload_pending u
  | ETrayStart => bool_decide (u_tray u = None)
  | _ => true
  end.

Definition on_event now (e : Event) u : option (Ui S) :=
  match e with
  | EAct a => act now a u
  | ETray event shown => handle now event (set_tray (Some shown) u)
  | EClose => close_requested now u
  | EPoll => update now (OPoll now) u
  | ESaveTimer => update now (OFlushDue now) (set_save_timer None u)
  | ENoticeTimer => match u_notice_timer u with Some (_, seq) => update now (OExpire seq) (set_notice_timer None u) | None => Some u end
  | EStartTimer => let u := set_start_timer None u in if tray_available u then Some u else show_window now None u
  | ERefresh => match refreshing u with Some p => refresh_tick now p u | None => Some u end
  | ERules r => update now (OFinishRules r) (set_jobs (u_jobs u - 1)%nat u)
  | EWatch kind paths => Some (if is_config_change kind paths then set_reload_pending true u else u)
  | EReload => if u_syncing u then Some u else update now (OFilesChanged now) (set_reload_pending false u)
  | ETrayStart => Some (start_tray u)
  | EActivate => request_activation now u
  | ERevealed => Some (set_reveal_about false u)
  end.
End events.
