(* ===== verification/WindowInv.v ===== *)
(** * The window keeps showing the controller

    What a push does to the window, and that every callback, tray event and timer keeps the
    window's globals, timers, tray and download in agreement with the controller. *)
From S2P Require Import Prelude Std Net Text Link Traffic Logs Qr Pac Storage Persist Nodes ShareLink SystemProxy Profile Tray Desktop Controller Editor Save Settings App AppInv Saving Keeps Runs I18n Store Window.
#[local] Open Scope Z_scope.

(** The fields of a state that is written out. *)
Ltac flat := lazy beta iota delta [ctl_of around u_world set_world u_tongue set_tongue u_applied set_applied u_syncing set_syncing u_page set_page u_reveal_about
  set_reveal_about u_visible set_visible u_overview set_overview u_notice set_notice u_nodes set_nodes u_settings set_settings u_logs set_logs
  u_shown_version set_shown_version u_traffic set_traffic u_save_timer set_save_timer u_notice_timer set_notice_timer u_start_timer set_start_timer
  u_refresh_timer set_refresh_timer u_refresh_page set_refresh_page u_tray set_tray u_last_menu set_last_menu u_activation set_activation
  u_last_position set_last_position u_placed set_placed u_jobs set_jobs u_reload_pending set_reload_pending u_quit set_quit] in *.

Lemma surjective_tray m : m = mkTray (t_connected m) (t_active_name m) (t_proxy_mode m) (t_pac_rule m) (t_nodes m) (t_active m).
Proof. by destruct m. Qed.

Section pushes.
Context `{Codec AppConfig, Codec ProfileStore, Codec RuntimeState} {S : Type} `{Effects S, !EffectsLaws S, Files S, Place, UrlLib, QrLib, Texts, Toolkit S}.
Implicit Types (u : Ui S) (w : World S) (now : Z).

(** A push and the timers change nothing but what they push. *)
Definition rest u := (u_page u, u_visible u, u_refresh_timer u, u_refresh_page u, u_jobs u, u_quit u, u_reload_pending u).

Lemma sync_id f u : u_syncing u = false → (∀ v, u_syncing (f v) = u_syncing v) → (∀ b v, f (set_syncing b v) = set_syncing b (f v)) → sync f u = f u.
Proof.
  intros Hu Hf Hc. unfold sync. rewrite Hc. transitivity (set_syncing false (f u)); [by destruct (f u)|]. rewrite <-Hu, <-(Hf u). by destruct (f u).
Qed.

Definition armed now u : option Z := match save_delay now (u_world u) with Some d => Some (now + d) | None => u_save_timer u end.

(** What [apply] pushes for which flag. *)
Record applied now (ch : Changes) u u' : Prop := {
  a_world : u_world u' = u_world u;
  a_rest : rest u' = rest u;
  a_syncing : u_syncing u' = false;
  a_language : u_applied u' = if ch_settings ch then Some (language_of (ctl_of u)) else u_applied u;
  a_tongue : u_tongue u' = u_tongue u ∨ ch_settings ch = true ∧ u_applied u ≠ Some (language_of (ctl_of u)) ∧ u_tongue u' = language_of (ctl_of u);
  a_chosen : (∀ s l, language_ok s l = true) →
    u_tongue u' = if ch_settings ch && negb (bool_decide (u_applied u = Some (language_of (ctl_of u)))) then language_of (ctl_of u) else u_tongue u;
  a_overview : if ch_overview ch then ∃ s, overview (rules_times (around u) now) (ctl_of u) = Some s ∧ u_overview u' = sync_overview s
               else u_overview u' = u_overview u;
  a_nodes : nodes_shown (u_tongue u') (nodes_snapshot (ctl_of u)) (u_nodes u') ∨
            ch_nodes ch = false ∧ ch_editor ch = false ∧ u_tongue u' = u_tongue u ∧ u_nodes u' = u_nodes u;
  a_settings : if ch_settings ch then ∃ s, settings_snapshot (ctl_of u) = Some s ∧ settings_shown path_segments (u_tongue u') s (u_settings u')
               else u_settings u' = u_settings u;
  a_follow : if ch_logs ch then lv_follow (u_logs u') = follow (logs (ctl_of u)) else u_logs u' = u_logs u;
  a_notice : u_notice u' = sync_notice (u_tongue u') (notice (ctl_of u)) ∨ ch_notice ch = false ∧ u_tongue u' = u_tongue u ∧ u_notice u' = u_notice u;
  a_notice_timer : u_notice_timer u' = if ch_notice ch then u_notice_timer (arm_notice now u) else u_notice_timer u;
  a_save_timer : u_save_timer u' = if ch_persist ch then armed now u else u_save_timer u;
  a_tray : match u_tray u with
           | None => u_tray u' = None
           | Some _ => u_last_menu u' = Some (menu u') ∧ (u_tray u' = Some (menu u') ∨ u_tray u' = u_tray u ∧ u_last_menu u = Some (menu u')) ∨
               ch_overview ch = false ∧ ch_nodes ch = false ∧ u_tongue u' = u_tongue u ∧ u_tray u' = u_tray u ∧ u_last_menu u' = u_last_menu u
           end;
}.

(** Each push as the global it sets. *)
Lemma language_stage ch u u1 changed : (if ch_settings ch then push_language u else (u, false)) = (u1, changed) →
  ∃ l, u1 = set_applied (if ch_settings ch then Some (language_of (ctl_of u)) else u_applied u) (set_tongue l u) ∧
  (changed = false ∧ l = u_tongue u ∨ changed = true ∧ ch_settings ch = true ∧ u_applied u ≠ Some (language_of (ctl_of u)) ∧ (l = u_tongue u ∨ l = language_of (ctl_of u))) ∧
  ((∀ s l, language_ok s l = true) →
    l = if ch_settings ch && negb (bool_decide (u_applied u = Some (language_of (ctl_of u)))) then language_of (ctl_of u) else u_tongue u).
Proof.
  destruct (ch_settings ch); [unfold push_language; case_decide as Hd|]; intros [= <- <-]; cbn [andb].
  - exists (u_tongue u). rewrite bool_decide_true by done. split; [rewrite <-Hd; by destruct u|]. split; [by left|done].
  - rewrite bool_decide_false by done. destruct (language_ok _ _) eqn:El; [exists (language_of (ctl_of u))|exists (u_tongue u)];
      (split; [by destruct u|]; split; [right; split_and!; auto|]); [done|]. intros Hl. by rewrite Hl in El.
  - exists (u_tongue u). split; [by destruct u|]. split; [by left|done].
Qed.

Lemma overview_stage now (b : bool) u u1 : u_syncing u = false → (if b then push_overview now u else Some u) = Some u1 →
  ∃ ov, u1 = set_overview ov u ∧
  if b then ∃ s, overview (rules_times (around u) now) (ctl_of u) = Some s ∧ ov = sync_overview s else ov = u_overview u.
Proof.
  intros Hs. destruct b; [|intros [= <-]; exists (u_overview u); by destruct u].
  unfold push_overview. destruct (overview _ _) as [s|]; [|done]. intros [= <-]. exists (sync_overview s). split; [|eauto].
  destruct u. cbn in Hs. by subst.
Qed.

Lemma nodes_stage (b : bool) editor u : u_syncing u = false →
  ∃ ns, (if b then push_nodes editor u else u) = set_nodes ns u ∧
  if b then nodes_shown (u_tongue u) (nodes_snapshot (ctl_of u)) ns else ns = u_nodes u.
Proof.
  intros Hs. destruct b; [|exists (u_nodes u); by destruct u]. eexists. split; [|apply sync_nodes_shown].
  destruct u. cbn in Hs. by subst.
Qed.

Lemma settings_stage (b : bool) u u1 : u_syncing u = false → (if b then push_settings u else Some u) = Some u1 →
  ∃ st, u1 = set_settings st u ∧
  if b then ∃ s, settings_snapshot (ctl_of u) = Some s ∧ settings_shown path_segments (u_tongue u) s st else st = u_settings u.
Proof.
  intros Hs. destruct b; [|intros [= <-]; exists (u_settings u); by destruct u].
  unfold push_settings. destruct (settings_snapshot _) as [s|]; [|done]. intros [= <-]. eexists. split; [|exists s; split; [done|apply sync_settings_shown]].
  destruct u. cbn in Hs. by subst.
Qed.

Lemma logs_stage (b : bool) u : u_syncing u = false →
  ∃ ls v, (if b then push_logs u else u) = set_logs ls (set_shown_version v u) ∧
  if b then lv_follow ls = follow (logs (ctl_of u)) else ls = u_logs u.
Proof.
  intros Hs. destruct b; [|exists (u_logs u), (u_shown_version u); by destruct u].
  set (r := sync_logs (Logs.logs (logs (ctl_of u))) (u_logs u) (u_shown_version u)). exists r.1, r.2. split; [|done].
  unfold push_logs, sync. destruct u. cbn in Hs. by subst.
Qed.

Lemma traffic_stage (b : bool) u : u_syncing u = false → ∃ t, (if b then push_traffic u else u) = set_traffic t u.
Proof.
  intros Hs. destruct b; [exists (traffic_view sin cos (snapshot (traffic (logs (ctl_of u)))))|exists (u_traffic u)]; destruct u; cbn in Hs; by subst.
Qed.

Lemma notice_stage now (b changed : bool) u : u_syncing u = false →
  ∃ n t, (let u := if b then arm_notice now (push_notice u) else u in if changed && negb b then push_notice u else u) = set_notice n (set_notice_timer t u) ∧
  t = (if b then u_notice_timer (arm_notice now u) else u_notice_timer u) ∧
  n = (if changed || b then sync_notice (u_tongue u) (notice (ctl_of u)) else u_notice u).
Proof.
  intros Hs. destruct b, changed; cbn [negb andb orb]; do 2 eexists; (split; [|by split]); destruct u; cbn in Hs; by subst.
Qed.

Lemma tray_stage (b : bool) u :
  ∃ t m, (if b then push_tray false u else u) = set_tray t (set_last_menu m u) ∧
  match u_tray u with
  | None => t = None
  | Some _ => if b then m = Some (menu u) ∧ (t = Some (menu u) ∨ t = u_tray u ∧ u_last_menu u = Some (menu u)) else t = u_tray u ∧ m = u_last_menu u
  end.
Proof.
  destruct b.
  - unfold push_tray. destruct (u_tray u) as [t|] eqn:Et; [|exists None, (u_last_menu u); rewrite <-Et; by destruct u].
    cbv zeta. cbn [negb andb]. case_bool_decide as Hl; [exists (Some t), (Some (menu u)); rewrite <-Hl, <-Et; split; [by destruct u|auto]|].
    do 2 eexists. split; [done|auto].
  - exists (u_tray u), (u_last_menu u). split; [by destruct u|by destruct (u_tray u)].
Qed.

Lemma save_stage now (b : bool) u :
  (if b then arm_save now u else u) = set_save_timer (if b then armed now u else u_save_timer u) u.
Proof. destruct b; [unfold arm_save, armed; destruct (save_delay _ _)|]; by destruct u. Qed.

Lemma apply_applied now ch u u' : u_syncing u = false → apply now ch u = Some u' → applied now ch u u'.
Proof.
  intros Hs. unfold apply. destruct (if ch_settings ch then push_language u else (u, false)) as [u1 changed] eqn:E1.
  apply language_stage in E1 as (l & E1 & Hl & Hch). assert (u_syncing u1 = false) as Hs1 by by rewrite E1.
  destruct (if ch_overview ch then push_overview now u1 else Some u1) as [u2|] eqn:E2; [|done]. cbn [mbind option_bind].
  apply overview_stage in E2 as (ov & E2 & Hov); [|done]. assert (u_syncing u2 = false) as Hs2 by by rewrite E2.
  destruct (nodes_stage (ch_nodes ch || ch_editor ch || changed) (ch_editor ch) u2 Hs2) as (ns & E3 & Hns).
  cbv zeta. rewrite E3. set (u3 := set_nodes ns u2) in *.
  destruct (if ch_settings ch then push_settings u3 else Some u3) as [u4|] eqn:E4; [|done]. cbn [mbind option_bind].
  apply settings_stage in E4 as (st & E4 & Hst); [|done]. assert (u_syncing u4 = false) as Hs4 by by rewrite E4.
  destruct (logs_stage (ch_logs ch) u4 Hs4) as (ls & v & E5 & Hls). rewrite E5. set (u5 := set_logs ls _) in *.
  destruct (traffic_stage (ch_traffic ch) u5 Hs4) as (t & E6). rewrite E6. set (u6 := set_traffic t u5) in *.
  destruct (notice_stage now (ch_notice ch) changed u6 Hs4) as (n & nt & E7 & Hnt & Hn). cbv zeta in E7. rewrite E7. set (u7 := set_notice n _) in *.
  destruct (tray_stage (ch_overview ch || ch_nodes ch || changed) u7) as (ty & lm & E8 & Hty). rewrite E8. set (u8 := set_tray ty _) in *.
  rewrite save_stage. intros E. apply (inj Some) in E.
  subst u1 u2 u3 u4 u5 u6 u7 u8 u'. destruct u as [w tg ap sy pg rv vis ov0 n0 ns0 st0 ls0 v0 tr0 sv0 nt0 sm0 rt rp ty0 lm0 ac lp pl jb rl qt]. flat. split; flat.
  - done.
  - done.
  - exact Hs.
  - done.
  - destruct Hl as [[_ ->]|(_ & Hset & Ha & [->| ->])]; [by left|by left|right; split_and!; done].
  - exact Hch.
  - destruct (ch_overview ch); [|exact Hov]. destruct Hov as (s & Es & ->). exists s. split; [exact Es|reflexivity].
  - destruct (ch_nodes ch || ch_editor ch || changed) eqn:Eb; [left; exact Hns|]. apply orb_false_iff in Eb as [[? ?]%orb_false_iff ->].
    right. destruct Hl as [[_ ->]|[? _]]; [|done]. by split_and!.
  - destruct (ch_settings ch); [|exact Hst]. destruct Hst as (s & Es & Hs'). exists s. split; [exact Es|exact Hs'].
  - destruct (ch_logs ch); [exact Hls|exact Hls].
  - destruct (changed || ch_notice ch) eqn:Eb; [left; exact Hn|]. apply orb_false_iff in Eb as [-> ?].
    right. destruct Hl as [[_ ->]|[? _]]; [|done]. by split_and!.
  - exact Hnt.
  - reflexivity.
  - destruct ty0 as [t0|]; [|exact Hty]. destruct (ch_overview ch || ch_nodes ch || changed) eqn:Eb.
    + left. exact Hty.
    + apply orb_false_iff in Eb as [[? ?]%orb_false_iff ->]. right. destruct Hl as [[_ ->]|[? _]]; [|done]. destruct Hty as [? ?]. by split_and!.
Qed.

(** ** The calls of the controller *)

(** The controller's invariant, with an active index that is in the list. *)
Definition ranged w : Prop := inv w ∧ active_in_range w.

(** What a call that reports [ch] leaves as it was. *)
Record reported w w' (ch : Changes) : Prop := {
  r_inv : ranged w';
  r_pending : pending w → pending w';
  r_qr : qr_ok w → qr_ok w';
  r_same v : v ≠ VEditor → flag v ch = false → same v w w';
}.

Lemma edit_node_nodes field value w w' ch : edit_node field value w = (w', ch) → ch_nodes ch = true.
Proof.
  unfold edit_node, commit_draft. repeat case_match; simplify_eq; intros [= <- <-]; done.
Qed.

Lemma perform_reported o w w' ch : ranged w → perform o w = Some (w', ch) → reported w w' ch.
Proof.
  intros Hi E. assert (pending w → pending w') as Hp; [|assert (qr_ok w → qr_ok w') as Hq].
  1, 2: destruct (downloads o) eqn:Eo; [destruct o; try done; cbn [perform] in E; apply (inj Some) in E|by apply perform_keeps in E as (? & ? & _)].
  1, 4: by (destruct (startup now w) as [[w1 c1] job] eqn:E1; injection E as <- <-; apply startup_job in E1 as (? & ? & _)).
  1, 3: by (destruct (update_rules w) as [[w1 c1] job] eqn:E1; injection E as <- <-; apply update_rules_job in E1 as (? & ? & _)).
  1, 2: by apply finish_rules_ends in E as (? & ? & _).
  destruct Hi as [Hi Hr]. split; [|done..|].
  - apply perform_inv in E as (? & Ha & _); [|done]. split; auto.
  - intros v Hv Hf. destruct o; try (apply (perform_covered _ _ _ _ Hr E v); destruct v; unfold union, changes_union; cbn in *; by rewrite ?orb_false_r).
    pose proof E as E'. cbn [perform] in E'. apply (inj Some), edit_node_nodes in E'.
    apply (perform_covered _ _ _ _ Hr E v). destruct v; try done; unfold union, changes_union; cbn in *; rewrite ?orb_false_r; congruence.
Qed.

(** ** What the window shows and waits for *)
Definition save_armed now u : Prop :=
  match due (persist (ctl_of u)) with Some d => ∃ t, u_save_timer u = Some t ∧ d ≤ t ≤ Z.max d now | None => True end.
Definition notice_armed now u : Prop :=
  if info (notice (ctl_of u)) then ∃ t, u_notice_timer u = Some (t, notice_seq (ctl_of u)) ∧ t ≤ now + NOTICE_TIMEOUT
  else u_notice_timer u = None.

(** The globals are those of the controller as it is. *)
Record window_shown u : Prop := {
  s_language : u_applied u = Some (language_of (ctl_of u));
  s_tongue : (∀ s l, language_ok s l = true) → u_tongue u = language_of (ctl_of u);
  s_overview : ∃ times s, overview times (ctl_of u) = Some s ∧ u_overview u = sync_overview s;
  s_nodes : nodes_shown (u_tongue u) (nodes_snapshot (ctl_of u)) (u_nodes u);
  s_settings : ∃ s, settings_snapshot (ctl_of u) = Some s ∧ settings_shown path_segments (u_tongue u) s (u_settings u);
  s_notice : u_notice u = sync_notice (u_tongue u) (notice (ctl_of u));
  s_follow : lv_follow (u_logs u) = follow (logs (ctl_of u));
}.

(** The menu that was sent last is the one of what is shown; with [drawn] the icon's menu is that one. *)
Definition tray_ok (drawn : bool) u : Prop :=
  match u_tray u with None => True | Some m => u_last_menu u = Some (menu u) ∧ (drawn = true → m = menu u) end.

Record window_ok (drawn : bool) now u : Prop := {
  k_inv : ranged (u_world u);
  k_pending : pending (u_world u);
  k_qr : qr_ok (u_world u);
  k_syncing : u_syncing u = false;
  k_shown : window_shown u;
  k_tray : tray_ok drawn u;
  k_save : save_armed now u;
  k_notice : notice_armed now u;
}.

Lemma snapshot_language c s : settings_snapshot c = Some s → language (runtime (gui c)) = st_language s.
Proof. unfold settings_snapshot. destruct (split_host_port _) as [[host port]|]; [|done]. by intros [= <-]. Qed.

Lemma overview_parts times c s : overview times c = Some s →
  running s = connected c ∧ active_name s = (active_texts (gui c)).1 ∧ proxy_mode s = system_proxy_mode (config (gui c)) ∧ pac_rule s = pac_rule_mode (config (gui c)) ∧
  ov_rules_updating s = rules_updating c.
Proof.
  unfold overview. destruct (split_host_port _) as [[host port]|]; [|done]. cbn [mbind option_bind]. destruct (active_texts _) as [name address].
  destruct (match times with Some _ => _ | None => _ end) as [age time]. by intros [= <-].
Qed.

Lemma tray_model_name c : t_active_name (tray_model c) = (active_texts (gui c)).1.
Proof.
  unfold tray_model, active_texts, state_profile. cbn [t_active_name].
  destruct (decide _) as [Hd|Hd]; cbn [mbind option_bind]; [by destruct (profiles (gui c) !! _)|].
  by rewrite (proj2 (lookup_ge_None (profiles (gui c)) _)) by lia.
Qed.

(** The tray shows nothing that the overview page and the nodes page do not show. *)
Lemma tray_model_same times w w' s : ranged w → ranged w' → overview times (ctl w) = Some s → overview times (ctl w') = Some s →
  nodes_snapshot (ctl w') = nodes_snapshot (ctl w) → tray_model (ctl w') = tray_model (ctl w).
Proof.
  intros [_ Hr] [_ Hr'] (E1 & E2 & E3 & E4 & _)%overview_parts (E1' & E2' & E3' & E4' & _)%overview_parts En.
  pose proof (tray_model_name (ctl w)) as Hn. pose proof (tray_model_name (ctl w')) as Hn'. unfold active_in_range in *.
  assert (imap (row_of (selected_profile (runtime (gui (ctl w'))))) (profiles (gui (ctl w'))) =
          imap (row_of (selected_profile (runtime (gui (ctl w))))) (profiles (gui (ctl w)))) as Er by exact (f_equal rows En).
  assert (display_name <$> profiles (gui (ctl w')) = display_name <$> profiles (gui (ctl w))) as Ed.
  { apply (f_equal (fmap row_name)) in Er. rewrite !fmap_imap in Er. rewrite <-!imap_const. exact Er. }
  assert (selected_profile (runtime (gui (ctl w'))) = selected_profile (runtime (gui (ctl w)))) as Es.
  { apply (f_equal (λ l, in_use <$> l !! selected_profile (runtime (gui (ctl w))))) in Er.
    apply (f_equal length) in Ed. rewrite !length_fmap in Ed. rewrite !list_lookup_imap in Er.
    destruct (lookup_lt_is_Some_2 _ _ Hr) as [p Ep]. rewrite Ep in Er. destruct (lookup_lt_is_Some_2 (profiles (gui (ctl w'))) (selected_profile (runtime (gui (ctl w))))) as [p' Ep']; [by rewrite Ed|].
    rewrite Ep' in Er. cbn in Er. injection Er as Er. rewrite (bool_decide_true (_ = selected_profile (runtime (gui (ctl w))))) in Er by done.
    symmetry. by apply bool_decide_eq_true_1 in Er. }
  rewrite (surjective_tray (tray_model (ctl w'))), (surjective_tray (tray_model (ctl w))). rewrite Hn, Hn', <-E2, <-E2'. cbn.
  apply (f_equal length) in Ed as El. rewrite !length_fmap in El. rewrite Es, El, Ed. congruence.
Qed.

(** A call and its pushes bring the window in agreement; [st] and [ls] are what the toolkit may have changed, and where the
    call reports nothing of a timer or of these, they must be right. *)
Lemma apply_ok drawn now ch w st ls u u' :
  ranged (u_world u) → pending (u_world u) → qr_ok (u_world u) → u_syncing u = false → window_shown u → tray_ok drawn u → reported (u_world u) w ch →
  (ch_settings ch = false → st = u_settings u) → (ch_logs ch = false → lv_follow ls = follow (logs (ctl w))) →
  (ch_persist ch = false → save_armed now (set_world w u)) → (ch_notice ch = false → notice_armed now (set_world w u)) →
  apply now ch (set_world w (set_settings st (set_logs ls u))) = Some u' → window_ok drawn now u' ∧ rest u' = rest u ∧ u_world u' = w.
Proof.
  intros Hi Hp Hq Hs [Sl Sg So Sn St Sno Sf] Ht [Ri Rp Rq Rs] Hst Hls Hsave Hnote E. set (u0 := set_settings st (set_logs ls u)) in *.
  apply apply_applied in E as [Aw Ar As Al At Ac Ao An Ast Af Ano Ant Asv Aty]; [|exact Hs].
  assert (ctl_of u' = ctl w) as Ec by (unfold ctl_of; by rewrite Aw). change (ctl_of (set_world w u0)) with (ctl w) in *.
  assert (∃ times s, overview times (ctl w) = Some s ∧ u_overview u' = sync_overview s) as So'.
  { destruct (ch_overview ch) eqn:Ef; [destruct Ao as (s & ? & ?); eauto|]. destruct So as (times & s & E & Eu). exists times, s.
    split; [rewrite <-E; by apply (Rs VOverview)|]. rewrite Ao. exact Eu. }
  assert (u_tongue u' = u_tongue u ∨ ch_settings ch = true) as Htongue by (destruct At as [?|(? & _)]; auto).
  assert (ch_settings ch = false → language_of (ctl w) = language_of (ctl_of u)) as Hlang.
  { intros Ef. unfold language_of. f_equal. destruct St as (s & E & _). rewrite (snapshot_language _ _ E). apply snapshot_language.
    rewrite <-E. by apply (Rs VSettings). }
  split; [|split; [exact Ar|by rewrite Aw]]. split; rewrite ?Aw; auto.
  - split; rewrite ?Ec.
    + rewrite Al. destruct (ch_settings ch) eqn:Ef; [done|]. change (u_applied (set_world w u0)) with (u_applied u). by rewrite Sl, Hlang.
    + intros Hok. rewrite (Ac Hok). destruct (ch_settings ch) eqn:Ef; cbn [andb]; [|rewrite Hlang by done; by apply Sg].
      case_bool_decide as Hd; [|done]. cbn [negb]. change (u_applied (set_world w u0)) with (u_applied u) in Hd. rewrite Sl in Hd. injection Hd as <-. by apply Sg.
    + exact So'.
    + destruct An as [An|(F1 & _ & F3 & F4)]; [exact An|]. rewrite F4, F3, (Rs VNodes) by done. exact Sn.
    + destruct (ch_settings ch) eqn:Ef; [exact Ast|]. destruct Htongue as [->|?]; [|done]. rewrite Ast, (Rs VSettings) by done. change (u_settings (set_world w u0)) with st. rewrite Hst by done. exact St.
    + destruct Ano as [Ano|(F1 & F2 & F3)]; [exact Ano|]. rewrite F3, F2. rewrite (proj1 (Rs VNotice ltac:(done) F1)). exact Sno.
    + destruct (ch_logs ch) eqn:Ef; [exact Af|]. rewrite Af. by apply Hls.
  - unfold tray_ok in *. change (u_tray (set_world w u0)) with (u_tray u) in *. destruct (u_tray u) as [m|] eqn:Et; [|by rewrite Aty].
    destruct Ht as [Hl Hd]. destruct Aty as [[Hl' [-> |[-> Hm]]]|(F1 & F2 & F3 & -> & F4)]; [done| |].
    + split; [done|]. intros Hdr. specialize (Hd Hdr). change (u_last_menu (set_world w u0)) with (u_last_menu u) in Hm. congruence.
    + assert (menu u' = menu u) as ->; [|by rewrite F4]. unfold menu. rewrite Ec, F3. destruct So as (times & s & E & Eu). rewrite F1 in Ao.
      rewrite Ao. change (u_overview (set_world w u0)) with (u_overview u). change (u_tongue (set_world w u0)) with (u_tongue u). f_equal.
      apply (tray_model_same times _ _ s); auto; [rewrite <-E; by apply (Rs VOverview)|by apply (Rs VNodes)].
  - unfold save_armed. rewrite Ec. destruct (ch_persist ch) eqn:Ef.
    + rewrite Asv. unfold armed, save_delay, delay. change (u_world (set_world w u0)) with w. destruct (due (persist (ctl w))) as [d|]; [|done].
      cbn. unfold saturating_sub. eexists. split; [done|]. lia.
    + specialize (Hsave eq_refl). unfold save_armed in Hsave. change (ctl_of (set_world w u)) with (ctl w) in Hsave. by rewrite Asv.
  - unfold notice_armed. rewrite Ec. destruct (ch_notice ch) eqn:Ef.
    + rewrite Ant. unfold arm_notice. change (ctl_of (set_world w u0)) with (ctl w). cbn [u_notice_timer set_notice_timer].
      destruct (info _); [|done]. eexists. split; [done|]. lia.
    + specialize (Hnote eq_refl). unfold notice_armed in Hnote. change (ctl_of (set_world w u)) with (ctl w) in Hnote. by rewrite Ant.
Qed.

Lemma save_armed_reported now w u ch : reported (u_world u) w ch → save_armed now u → ch_persist ch = false → save_armed now (set_world w u).
Proof.
  intros R Hs Hf. destruct (r_same _ _ _ R VPersist ltac:(done) Hf) as [E|E]; unfold save_armed in *; change (ctl_of (set_world w u)) with (ctl w); by rewrite E.
Qed.
Lemma notice_armed_reported now w u ch : reported (u_world u) w ch → notice_armed now u → ch_notice ch = false → notice_armed now (set_world w u).
Proof.
  intros R Hs Hf. destruct (r_same _ _ _ R VNotice ltac:(done) Hf) as [E1 E2]. unfold notice_armed in *. change (ctl_of (set_world w u)) with (ctl w).
  by rewrite E1, E2.
Qed.

(** What a call of the controller guarantees beside the changes it reports. *)
Lemma update_with_turned {R} drawn now (f : Call R) st ls u u' r :
  (∀ w' ch r, f (u_world u) = Some (w', ch, r) → reported (u_world u) w' ch ∧
    (ch_settings ch = false → st = u_settings u) ∧ (ch_logs ch = false → lv_follow ls = follow (logs (ctl w')))) →
  window_ok drawn now u → update_with now f (set_settings st (set_logs ls u)) = Some (u', r) →
  window_ok drawn now u' ∧ rest u' = rest u ∧ ∃ ch r', r = Some r' ∧ f (u_world u) = Some (u_world u', ch, r').
Proof.
  intros Hf [Ki Kp Kq Ks Kw Kt Ksv Kn]. unfold update_with. cbn [u_syncing u_world set_settings set_logs]. rewrite Ks.
  destruct (f (u_world u)) as [[[w ch] r']|] eqn:E; [|done]. cbn [mbind option_bind].
  destruct (Hf _ _ _ eq_refl) as (Hr & Hst & Hls). destruct (apply now ch _) as [u1|] eqn:E1; [|done]. cbn [mbind option_bind]. intros E2. apply (inj Some) in E2. injection E2 as <- <-.
  apply (apply_ok drawn) in E1 as (Hok & Hrest & Hw); try done.
  - split; [done|]. split; [done|]. exists ch, r'. by rewrite Hw.
  - by apply (save_armed_reported _ _ _ ch).
  - by apply (notice_armed_reported _ _ _ ch).
Qed.

Lemma reported_follow w w' ch ls : reported w w' ch → lv_follow ls = follow (logs (ctl w)) → ch_logs ch = false → lv_follow ls = follow (logs (ctl w')).
Proof. intros Hr -> Hf. exact (eq_sym (f_equal ls_follow (r_same _ _ _ Hr VLogs ltac:(done) Hf))). Qed.

Lemma set_same u : set_settings (u_settings u) (set_logs (u_logs u) u) = u.
Proof. by destruct u. Qed.

Lemma update_with_ok {R} drawn now (f : Call R) u u' r :
  (∀ w' ch r, f (u_world u) = Some (w', ch, r) → reported (u_world u) w' ch) → window_ok drawn now u → update_with now f u = Some (u', r) →
  window_ok drawn now u' ∧ rest u' = rest u ∧ ∃ ch r', r = Some r' ∧ f (u_world u) = Some (u_world u', ch, r').
Proof.
  intros Hf K E. rewrite <-(set_same u) in E at 1. eapply update_with_turned; [|exact K|exact E]. intros w ch r' Ew. specialize (Hf _ _ _ Ew).
  split; [done|]. split; [done|]. apply (reported_follow _ _ _ _ Hf), (s_follow _ (k_shown _ _ _ K)).
Qed.

Lemma update_turned drawn now o st ls u u' :
  (∀ w' ch, perform o (u_world u) = Some (w', ch) →
    (ch_settings ch = false → st = u_settings u) ∧ (ch_logs ch = false → lv_follow ls = follow (logs (ctl w')))) →
  window_ok drawn now u → update now o (set_settings st (set_logs ls u)) = Some u' →
  window_ok drawn now u' ∧ rest u' = rest u ∧ ∃ ch, perform o (u_world u) = Some (u_world u', ch).
Proof.
  intros Ht K. unfold update. destruct (update_with now (simply o) _) as [[u1 r]|] eqn:E; [|done]. cbn [mbind option_bind]. intros E1. apply (inj Some) in E1 as <-.
  assert (∀ w w' ch r, simply o w = Some (w', ch, r) → perform o w = Some (w', ch)) as Hs.
  { intros w w' ch r'. unfold simply. destruct (perform o w) as [[w1 c]|]; [|done]. cbn [mbind option_bind]. intros E1. apply (inj Some) in E1. by injection E1 as -> -> _. }
  apply (update_with_turned drawn) in E as (K' & Hr & ch & r' & -> & E); [|intros w ch r' Ew%Hs|done].
  - split; [done|]. split; [done|]. exists ch. by eapply Hs.
  - split; [apply (perform_reported o); [apply K|done]|by apply Ht].
Qed.

Lemma update_ok drawn now o u u' : window_ok drawn now u → update now o u = Some u' →
  window_ok drawn now u' ∧ rest u' = rest u ∧ ∃ ch, perform o (u_world u) = Some (u_world u', ch).
Proof.
  intros K E. rewrite <-(set_same u) in E at 1. eapply update_turned; [|exact K|exact E]. intros w ch Ew. split; [done|].
  apply (reported_follow (u_world u) _ _ _ (perform_reported _ _ _ _ (k_inv _ _ _ K) Ew)), (s_follow _ (k_shown _ _ _ K)).
Qed.

(** The call of a timer that has just fired. *)
Lemma update_fired drawn now o u u' :
  ranged (u_world u) → pending (u_world u) → qr_ok (u_world u) → u_syncing u = false → window_shown u → tray_ok drawn u →
  (∀ w ch, perform o (u_world u) = Some (w, ch) →
    (ch_persist ch = false → save_armed now (set_world w u)) ∧ (ch_notice ch = false → notice_armed now (set_world w u))) →
  update now o u = Some u' → window_ok drawn now u' ∧ rest u' = rest u ∧ ∃ ch, perform o (u_world u) = Some (u_world u', ch).
Proof.
  intros Hi Hp Hq Hs Hw Ht Hf. unfold update, update_with, simply. rewrite Hs. destruct (perform o (u_world u)) as [[w ch]|] eqn:E; [|done]. cbn [mbind option_bind].
  destruct (apply now ch (set_world w u)) as [u1|] eqn:E1; [|done]. cbn [mbind option_bind]. intros E2. apply (inj Some) in E2 as <-.
  destruct (Hf _ _ eq_refl) as [H1' H2']. pose proof (perform_reported _ _ _ _ Hi E) as Hr. rewrite <-(set_same u) in E1 at 1.
  apply (apply_ok drawn) in E1 as (Hok & Hrest & Ew); try done.
  - split; [done|]. split; [done|]. exists ch. by rewrite Ew.
  - apply (reported_follow _ _ _ _ Hr), (s_follow _ Hw).
Qed.
End pushes.
