(* ===== verification/WindowRuns.v ===== *)
(** * Runs of the window

    The window from its start on: callbacks, tray events, timers and posted calls, and
    between them time, other programs that write the files, and threads that log. *)
From S2P Require Import Prelude Std Net Text Link Traffic Logs Qr Pac Storage Persist Nodes ShareLink SystemProxy Profile Tray Desktop Controller Editor Save Settings App AppInv Saving Keeps Runs I18n Store Window WindowInv.
#[local] Open Scope Z_scope.

Section events.
Context `{Codec AppConfig, Codec ProfileStore, Codec RuntimeState} {S : Type} `{Effects S, !EffectsLaws S, Files S, Place, UrlLib, QrLib, Texts, Toolkit S}.
Implicit Types (u : Ui S) (w : World S) (now : Z).

(** The page in front is refreshed; a hide that fails stops the timer of a window that stays. *)
Definition refresh_ok u : Prop := (∀ s : S, hides s = true) → ∀ p, refreshed_page u = Some p → refreshing u = Some p.
(** One download runs exactly when the controller says so. *)
Definition jobs_ok u : Prop := u_jobs u = if rules_updating (ctl_of u) then 1%nat else O.

Record good (drawn : bool) now u : Prop := {
  g_ok : window_ok drawn now u;
  g_refresh : refresh_ok u;
  g_jobs : jobs_ok u;
}.

(** What the agreement of the window reads. *)
Definition view u :=
  (u_world u, u_tongue u, u_applied u, u_syncing u, (u_overview u, u_notice u, u_nodes u, u_settings u, lv_follow (u_logs u)),
   (u_save_timer u, u_notice_timer u, u_tray u, u_last_menu u)).

Lemma window_ok_view drawn now u u' : view u' = view u → window_ok drawn now u → window_ok drawn now u'.
Proof.
  intros E. injection E as E1 E2 E3 E4 E5 E6 E7 E8 E9 E10 E11 E12 E13. intros [Ki Kp Kq Ks [Sl Sg So Sn St Sno Sf] Kt Ksv Kn].
  assert (ctl_of u' = ctl_of u) as Ec by (unfold ctl_of; by rewrite E1). assert (menu u' = menu u) as Em by (unfold menu; by rewrite Ec, E2, E5).
  split; rewrite ?E1; auto; try congruence.
  - split; rewrite ?Ec, ?E2, ?E3, ?E5, ?E6, ?E7, ?E8, ?E9; auto.
  - unfold tray_ok. by rewrite E12, E13, Em.
  - unfold save_armed. by rewrite Ec, E10.
  - unfold notice_armed. by rewrite Ec, E11.
Qed.

Lemma window_ok_later drawn now now' u : now ≤ now' → window_ok drawn now u → window_ok drawn now' u.
Proof.
  intros Hn [Ki Kp Kq Ks Kw Kt Ksv Kn]. split; auto.
  - unfold save_armed in *. destruct (due _); [|done]. destruct Ksv as (t & ? & ?). exists t. split; [done|]. lia.
  - unfold notice_armed in *. destruct (info _); [|done]. destruct Kn as (t & ? & ?). exists t. split; [done|]. lia.
Qed.

Lemma refresh_ok_rest u u' : rest u' = rest u → refresh_ok u → refresh_ok u'.
Proof.
  intros E. injection E as E1 E2 E3 E4 _ _ _. unfold refresh_ok, refreshed_page, refreshing. by rewrite E1, E2, E3, E4.
Qed.

(** ** Calls *)
Lemma perform_rules o w w' ch : downloads o = false → perform o w = Some (w', ch) → rules_updating (ctl w') = rules_updating (ctl w).
Proof. intros Ho E. by apply perform_keeps in E as (_ & _ & ?). Qed.

Lemma jobs_ok_same u u' : u_jobs u' = u_jobs u → rules_updating (ctl_of u') = rules_updating (ctl_of u) → jobs_ok u → jobs_ok u'.
Proof. unfold jobs_ok. by intros -> ->. Qed.
Lemma rest_jobs u u' : rest u' = rest u → u_jobs u' = u_jobs u.
Proof. intros E. by injection E. Qed.

Lemma update_good drawn now o u u' : downloads o = false → good drawn now u → update now o u = Some u' → good drawn now u' ∧ rest u' = rest u.
Proof.
  intros Ho [K R J] E. apply (update_ok drawn) in E as (K' & Hr & ch & E); [|done]. split; [|done].
  split; [done|by eapply refresh_ok_rest|]. eapply jobs_ok_same; [by apply rest_jobs| |done]. by eapply perform_rules.
Qed.

(** A call that is one of the controller's, with an answer. *)
Definition answers {R} (f : Call (S := S) R) : Prop := ∀ w w' ch r, f w = Some (w', ch, r) → ∃ o, downloads o = false ∧ perform o w = Some (w', ch).

Lemma call_good {R} drawn now (f : Call R) u u' r : answers f → good drawn now u → update_with now f u = Some (u', r) →
  good drawn now u' ∧ rest u' = rest u ∧ ∃ ch r', r = Some r' ∧ f (u_world u) = Some (u_world u', ch, r').
Proof.
  intros Hf [K Re J] E. apply (update_with_ok drawn) in E as (K' & Hr & ch & r' & -> & E); [|by intros w' c r' (o & _ & Eo)%Hf; apply (perform_reported o); [apply K|]|done].
  split; [|split; [done|by exists ch, r']]. destruct (Hf _ _ _ _ E) as (o & Ho & Eo). split; [done|by eapply refresh_ok_rest|].
  eapply jobs_ok_same; [by apply rest_jobs| |done]. by eapply perform_rules.
Qed.

Lemma request_answers l : answers (λ w, Some (request_leave l w)).
Proof. intros w w' ch r [= E]. exists (ORequestLeave l). split; [done|]. cbn [perform]. by rewrite E. Qed.
Lemma answer_answers a : answers (λ w, Some (answer_prompt a w)).
Proof. intros w w' ch r [= E]. exists (OAnswer a). split; [done|]. cbn [perform]. by rewrite E. Qed.

Lemma request_clean l w w' ch l' : request_leave l w = (w', ch, Some l') → nodes_dirty (ctl w') = false.
Proof. unfold request_leave. destruct (leave _); [done|]. destruct (nodes_dirty (ctl w)) eqn:E; [done|]. by intros [= <- _ _]. Qed.

Lemma answer_clean a w w' ch l : ranged w → answer_prompt a w = (w', ch, Some l) → nodes_dirty (ctl w') = false.
Proof.
  intros [(_ & Hs & Hv & _) Hr]. unfold answer_prompt. destruct (leave (ctl w)) as [lv|]; [|done]. destruct a; [| |done].
  - destruct (write_nodes w) as [[w1 c1] ok] eqn:E1. apply write_nodes_outcome in E1; [|done..]. destruct ok; intros [= <- _ _].
    destruct (nodes_dirty (ctl w)) eqn:Hd; [|by destruct E1 as [-> _]]. destruct E1 as ((_ & _ & _ & _ & _ & _ & Hok) & _).
    destruct Hok as (_ & _ & _ & Hn & _). by apply Hn.
  - destruct (revert_nodes _) as [w2 c2] eqn:E2. apply revert_nodes_spec in E2 as (Hrev & _); [|exact Hv]. intros [= <- _ _].
    change (nodes_dirty (ctl (upd (with_leave None) w))) with (nodes_dirty (ctl w)) in Hrev.
    destruct (nodes_dirty (ctl w)) eqn:Hd; [by destruct Hrev as (_ & _ & _ & ?)|by subst].
Qed.

(** ** The page that is refreshed *)
Definition leaving u := (u_page u, u_visible u, u_jobs u, u_quit u, u_reload_pending u).

Lemma rest_leaving u u' : rest u' = rest u → leaving u' = leaving u.
Proof. intros E. injection E as E1 E2 _ _ E5 E6 E7. unfold leaving. by rewrite E1, E2, E5, E6, E7. Qed.

(** The refresh timer runs for the page in front, also when hiding can fail. *)
Definition refreshed u : Prop := ∀ p, refreshed_page u = Some p → refreshing u = Some p.

Lemma update_refresh_good drawn now u u' : window_ok drawn now u → jobs_ok u → update_refresh now u = Some u' →
  good drawn now u' ∧ refreshed u' ∧ leaving u' = leaving u.
Proof.
  intros K J. unfold update_refresh. destruct (refreshed_page u) as [p|] eqn:Ep.
  2: { intros [= <-]. assert (refreshed (stop_refresh u)) as Hr by (intros p Hp; change (refreshed_page u = Some p) in Hp; congruence).
       split; [|by split]. split; [by apply (window_ok_view _ _ u)|by intros _|done]. }
  case_decide as Hd.
  { intros [= <-]. assert (refreshed u) as Hr by (intros q; congruence). split; [|by split]. split; [done|by intros _|done]. }
  set (u1 := set_refresh_page (Some p) u).
  assert (∀ o u0 u2, downloads o = false → view u0 = view u → rest u0 = rest u1 → update now o u0 = Some u2 →
    good drawn now (set_refresh_timer true u2) ∧ refreshed (set_refresh_timer true u2) ∧ leaving (set_refresh_timer true u2) = leaving u) as Hgo.
  { intros o u0 u2 Ho Hv Hr0 E. apply (update_ok drawn) in E as (K2 & Hr & ch & E); [|by apply (window_ok_view _ _ u)].
    rewrite Hr0 in Hr. pose proof (rest_leaving _ _ Hr) as Hl.
    assert (refreshed (set_refresh_timer true u2)) as Hre.
    { intros q. injection Hr as R1 R2 _ R4 _ _ _. unfold refreshed_page, refreshing in *. cbn [u_page u_visible u_refresh_timer u_refresh_page set_refresh_timer].
      rewrite R1, R2, R4. cbn [u1 u_page u_visible u_refresh_page set_refresh_page]. unfold u1. cbn [u_page u_visible u_refresh_page set_refresh_page]. congruence. }
    split; [|split; [done|exact Hl]]. split; [by apply (window_ok_view _ _ u2)|by intros _|].
    apply (jobs_ok_same u); [exact (rest_jobs _ _ Hr)| |done]. unfold ctl_of. cbn [u_world set_refresh_timer].
    rewrite (perform_rules _ _ _ _ Ho E). unfold view in Hv. by injection Hv as -> _. }
  case_decide; (destruct (update now _ _) as [u2|] eqn:E; [|done]); cbn [mbind option_bind]; intros [= <-]; by (eapply Hgo; [| | |exact E]).
Qed.

Lemma refresh_tick_good drawn now p u u' : good drawn now u → refreshing u = Some p → refresh_tick now p u = Some u' → good drawn now u' ∧ leaving u' = leaving u.
Proof.
  intros G Hp. unfold refresh_tick. destruct (decide (refreshed_page u = Some p)) as [Hf|Hf].
  - intros E. apply (update_good drawn) in E as [G' Hr]; [|by case_decide|done]. split; [done|by apply rest_leaving].
  - intros [= <-]. destruct G as [K R J]. split; [|done]. split; [by apply (window_ok_view _ _ u)| |done].
    intros Hh q Hq. change (refreshed_page u = Some q) in Hq. specialize (R Hh q Hq). congruence.
Qed.

(** ** Showing and hiding *)
Lemma navigate_good drawn now p u u' : window_ok drawn now u → jobs_ok u → navigate now p u = Some u' →
  good drawn now u' ∧ u_quit u' = u_quit u ∧ u_page u' = p ∧ u_visible u' = u_visible u.
Proof.
  intros K J E. apply (update_refresh_good drawn) in E as (G & _ & Hl); [|by apply (window_ok_view _ _ u)|done].
  split; [done|]. injection Hl as Hl1 Hl2 _ Hl4 _. by rewrite Hl1, Hl2, Hl4.
Qed.

Lemma place_window_view u : view (place_window u) = view u ∧ leaving (place_window u) = leaving u.
Proof.
  unfold place_window. cbv zeta. destruct (outer _) as [[? [? ?]]|]; [|done]. by match goal with |- context [match ?m with Some _ => _ | None => _ end] => destruct m end.
Qed.

Lemma show_window_good drawn now p u u' : good drawn now u → show_window now p u = Some u' → good drawn now u' ∧ u_quit u' = u_quit u.
Proof.
  intros G. unfold show_window.
  assert (∀ u1, match p with Some p => navigate now p u | None => Some u end = Some u1 → good drawn now u1 ∧ u_quit u1 = u_quit u) as Hn.
  { intros u1. destruct p as [p|]; [|by intros [= <-]]. intros E. destruct G as [K R J]. by apply (navigate_good drawn) in E as (? & ? & _). }
  destruct (match p with Some _ => _ | None => _ end) as [u1|]; [|done]. destruct (Hn u1 eq_refl) as [[K R J] Hq]. cbn [mbind option_bind]. cbv zeta.
  destruct (shows _); [|by intros [= <-]]. set (u2 := set_visible true u1).
  assert (∀ b : bool, view (if b then place_window u2 else u2) = view u1 ∧ leaving (if b then place_window u2 else u2) = leaving u2) as Hv.
  { intros []; [|done]. by destruct (place_window_view u2). }
  specialize (Hv (negb (u_visible u1))) as [Hv Hl]. intros E. apply (update_refresh_good drawn) in E as (G' & _ & Hl').
  - split; [done|]. rewrite Hl in Hl'. rewrite <-Hq. unfold leaving in Hl'. by injection Hl'.
  - by apply (window_ok_view _ _ u1).
  - apply (jobs_ok_same u1); [unfold leaving in Hl; by injection Hl| |done]. unfold view in Hv. unfold ctl_of. by injection Hv as -> _.
Qed.

Lemma hide_good drawn now u : good drawn now u → good drawn now (hide u).
Proof.
  intros [K R J]. unfold hide. destruct (hides _); [|by split]. split; [by apply (window_ok_view _ _ u)| |done].
  intros _ p. unfold refreshed_page. cbn. by destruct (u_page u).
Qed.

Lemma hide_window_good drawn now u : good drawn now u → good drawn now (hide_window u) ∧ u_quit (hide_window u) = u_quit u.
Proof.
  intros [K R J]. split; [|unfold hide_window, hide; by destruct (hides _)]. split.
  - apply (window_ok_view _ _ u); [|done]. unfold hide_window, hide. by destruct (hides _).
  - intros Hh p. unfold hide_window, hide. rewrite Hh. unfold refreshed_page. cbn. by destruct (u_page u).
  - apply (jobs_ok_same u); [unfold hide_window, hide; by destruct (hides _)..|done].
Qed.

(** ** Leaving *)

(** The event loop ends only without unsaved edits of the nodes. *)
Definition quits_clean u : Prop := u_quit u = true → nodes_dirty (ctl_of u) = false.

Lemma perform_leave_good drawn now l u : good drawn now u → nodes_dirty (ctl_of u) = false → good drawn now (perform_leave l u) ∧ quits_clean (perform_leave l u).
Proof.
  intros G Hc. destruct l; cbn [perform_leave].
  - destruct (hide_window_good drawn now u G) as [G' _]. split; [done|]. intros _. unfold ctl_of, hide_window, hide. by destruct (hides _).
  - destruct G as [K R J]. split; [split|]; [by apply (window_ok_view _ _ u)|done|done|]. by intros _.
Qed.

Lemma request_window_good drawn now l u u' r : good drawn now u → request_window now l u = Some (u', r) →
  good drawn now u' ∧ u_quit u' = u_quit u ∧ ∀ l', r = Some l' → nodes_dirty (ctl_of u') = false.
Proof.
  intros G. unfold request_window. destruct (update_with now _ u) as [[u1 r1]|] eqn:E; [|done]. cbn [mbind option_bind].
  intros E1. apply (inj Some) in E1. injection E1 as <- <-.
  apply (call_good drawn) in E as (G' & Hr & ch & r' & -> & E); [|apply request_answers|done]. split; [done|]. split; [by injection Hr|].
  intros l' Hl. cbn in Hl. subst r'. apply (inj Some) in E. by eapply request_clean.
Qed.

Lemma answer_good drawn now a u u' : good drawn now u → u_quit u = false → answer now a u = Some u' → good drawn now u' ∧ quits_clean u'.
Proof.
  intros G Hq. unfold answer. destruct (update_with now _ u) as [[u1 r1]|] eqn:E; [|done]. cbn [mbind option_bind].
  intros E1. apply (inj Some) in E1. apply (call_good drawn) in E as (G' & Hr & ch & r' & -> & E); [|apply answer_answers|done].
  assert (u_quit u1 = false) as Hq1 by (injection Hr; congruence). destruct r' as [l|]; subst u'; [|split; [done|intros ?; congruence]].
  apply perform_leave_good; [done|]. apply (inj Some) in E. eapply answer_clean; [|done]. apply G.
Qed.

Lemma request_quit_good drawn now u u' : good drawn now u → u_quit u = false → request_quit now u = Some u' → good drawn now u' ∧ quits_clean u'.
Proof.
  intros G Hq. unfold request_quit. destruct (request_window now Quit u) as [[u1 r]|] eqn:E; [|done]. cbn [mbind option_bind].
  apply (request_window_good drawn) in E as (G' & Hq' & Hc); [|done]. destruct r as [l|].
  - intros E1. apply (inj Some) in E1 as <-. apply perform_leave_good; [done|by eapply Hc].
  - intros E1. apply (show_window_good drawn) in E1 as [? Hq'']; [|done]. split; [done|]. intros ?. congruence.
Qed.

Lemma close_good drawn now u u' : good drawn now u → u_quit u = false → close_requested now u = Some u' → good drawn now u' ∧ quits_clean u'.
Proof.
  intros G Hq. unfold close_requested, close_with_tray. cbv zeta. destruct (request_window now _ u) as [[u1 r]|] eqn:E; [|done]. cbn [mbind option_bind].
  apply (request_window_good drawn) in E as (G' & Hq' & Hc); [|done].   assert (∀ u2, good drawn now u2 ∧ quits_clean u2 → good drawn now (hide u2) ∧ quits_clean (hide u2)) as Hh.
  { intros u2 [G2 Q2]. split; [by apply hide_good|]. unfold quits_clean, hide in *. by destruct (hides _). }
  destruct r as [[]|]; intros E1; apply (inj Some) in E1 as <-.
  - apply Hh, (perform_leave_good _ _ Hide); [done|by eapply Hc].
  - apply Hh, (perform_leave_good _ _ Quit); [done|by eapply Hc].
  - split; [done|]. intros ?. congruence.
Qed.

(** ** Downloads *)

(** A call that may start a download. *)
Definition starts (f : Call (S := S) (option RuleJob)) : Prop :=
  ∀ w w' ch job, ranged w → f w = Some (w', ch, job) → reported w w' ch ∧ job_given w w' job.

Lemma spawn_rules_good drawn now job u u' : window_ok drawn now u → refresh_ok u →
  match job with Some (Some _) => u_jobs u = O ∧ rules_updating (ctl_of u) = true | _ => jobs_ok u end →
  spawn_rules now job u = Some u' → good drawn now u' ∧ u_quit u' = u_quit u.
Proof.
  intros K R J. unfold spawn_rules. destruct job as [[job|]|]; [|by intros [= <-]..]. destruct J as [J1 J2]. destruct (spawn_thread _) as [[]|e].
  - intros [= <-]. split; [|done]. split; [by apply (window_ok_view _ _ u)|done|]. unfold jobs_ok, ctl_of in *. cbn. by rewrite J1, J2.
  - intros E. apply (update_ok drawn) in E as (K' & Hr & ch & E); [|done]. split; [|by injection Hr].
    split; [done|by eapply refresh_ok_rest|]. unfold jobs_ok. rewrite (rest_jobs _ _ Hr), J1. cbn [perform] in E. apply (inj Some) in E.
    unfold ctl_of. by apply finish_rules_ends in E as (_ & _ & ->).
Qed.

Lemma download_good drawn now f u u' : starts f → good drawn now u → ('(u, job) ← update_with now f u; spawn_rules now job u) = Some u' →
  good drawn now u' ∧ u_quit u' = u_quit u.
Proof.
  intros Hf [K R J]. destruct (update_with now f u) as [[u1 r]|] eqn:E; [|done]. cbn [mbind option_bind].
  apply (update_with_ok drawn) in E as (K1 & Hr & ch & job & -> & E); [|by intros w c j Ej; apply (Hf _ _ _ _ (k_inv _ _ _ K) Ej)|done].
  apply Hf in E as [_ (_ & _ & Hj)]; [|apply K]. intros E'. apply (spawn_rules_good drawn) in E' as [G Hq]; [|done|by eapply refresh_ok_rest|].
  - split; [done|]. rewrite Hq. by injection Hr.
  - unfold jobs_ok, ctl_of in *. rewrite (rest_jobs _ _ Hr), J. destruct job as [job|]; [|by rewrite Hj]. destruct Hj as [-> ?]. done.
Qed.

Lemma update_rules_starts : starts (λ w, Some (update_rules w)).
Proof.
  intros w w' ch job Hi [= E]. split; [|by apply update_rules_job in E]. apply (perform_reported OUpdateRules); [done|]. cbn [perform]. by rewrite E.
Qed.
Lemma startup_starts now : starts (λ w, Some (startup now w)).
Proof.
  intros w w' ch job Hi [= E]. split; [|by apply startup_job in E]. apply (perform_reported (OStartup now)); [done|]. cbn [perform]. by rewrite E.
Qed.

Lemma reported_refl w : ranged w → pending w → reported w w NONE.
Proof. intros Hi Hp. split; try done. intros v _ _. apply same_refl. Qed.

Lemma on_tray_starts event now : starts (on_tray_call event now).
Proof.
  intros w w' ch job Hi E.
  assert (event = UpdateRules ∨ on_tray event now = None ∧ (w', ch, job) = (w, NONE, None) ∨
    ∃ o, downloads o = false ∧ perform o w = Some (w', ch) ∧ job = None) as [->|[[_ [= -> -> ->]]|(o & Ho & Eo & ->)]].
  { revert E. unfold on_tray_call.
    destruct event; cbn [on_tray]; try (by left); try (intros [= -> -> ->]; by right; left);
      match goal with |- context [perform ?o w] => destruct (perform o w) as [[w1 c1]|] eqn:Eo; [|done]; cbn [mbind option_bind]; intros [= <- <- <-]; right; right; by exists o end. }
  - by apply (update_rules_starts _ _ _ _ Hi E).
  - split; [|done]. split; try done. intros v _ _. apply same_refl.
  - split; [by apply (perform_reported o)|]. apply perform_keeps in Eo; [|done]. by destruct Eo as (? & ? & ?).
Qed.

(** ** The tray *)
Lemma push_tray_good now u : good false now u → good true now (push_tray true u) ∧ (quits_clean u → quits_clean (push_tray true u)).
Proof.
  intros [[Ki Kp Kq Ks Kw Kt Ksv Kn] R J]. unfold push_tray. destruct (u_tray u) as [m|] eqn:Et; cbn [negb andb].
  - split; [|done]. split; [|done|done]. split; try done. split; apply Kw.
  - split; [|done]. split; [|done|done]. split; try done. unfold tray_ok. by rewrite Et.
Qed.

Lemma handle_good now event shown u u' : good true now u → u_quit u = false → is_Some (u_tray u) → handle now event (set_tray (Some shown) u) = Some u' →
  good true now u' ∧ quits_clean u'.
Proof.
  intros [K R J] Hq [m Ht] E. set (u0 := set_tray (Some shown) u) in *.
  assert (good false now u0) as G.
  { split; [|done|done]. destruct K as [Ki Kp Kq Ks Kw Kt Ksv Kn]. split; try done; [split; apply Kw|]. unfold tray_ok in Kt |- *. rewrite Ht in Kt. by destruct Kt. }
  assert (u_quit u0 = false) as Hq0 by done. clearbody u0. clear K R J Hq Ht.
  assert (∀ u1, handle_event now event u0 = Some u1 → good false now u1 ∧ quits_clean u1) as Hev.
  { assert (∀ u1, good false now u1 ∧ u_quit u1 = u_quit u0 → good false now u1 ∧ quits_clean u1) as Hk by (intros u1 [? Hu]; split; [done|intros ?; congruence]).
    intros u1. destruct event; cbn [handle_event]; try (intros E1; apply Hk; by apply (download_good false) in E1; [|apply on_tray_starts|]);
      try (intros E1; apply Hk; by apply (show_window_good false) in E1); [| |intros E1; by apply (request_quit_good false) in E1].
    - unfold toggle_window. destruct (u_visible u0); [intros [= <-]; apply Hk; by apply hide_window_good|intros E1; apply Hk; by apply (show_window_good false) in E1].
    - intros E1. apply Hk. apply (show_window_good false) in E1; [done|]. destruct G as [K R J]. split; [by apply (window_ok_view _ _ u0)|done|done]. }
  unfold handle in E. destruct (handle_event _ _ _) as [u1|]; [|done]. cbn [mbind option_bind] in E. injection E as <-.
  destruct (Hev _ eq_refl) as [G1 Q1]. destruct (push_tray_good _ _ G1) as [G2 Q2]. auto.
Qed.

(** ** Callbacks *)
Lemma switch_reports o w w' ch : match o with OAutostart _ _ _ | OHide _ _ | OCloseToTray _ _ => True | _ => False end →
  perform o w = Some (w', ch) → ch_settings ch = true.
Proof.
  destruct o; try done; intros _; cbn [perform]; unfold set_autostart, set_hide_on_start, set_close_to_tray, set_runtime; intros E; apply (inj Some) in E; revert E;
    repeat case_match; simplify_eq; by intros [= _ <-].
Qed.

Lemma follow_reports on w w' ch : perform (OFollow on) w = Some (w', ch) → ch_logs ch = false → on = follow (logs (ctl w')).
Proof.
  cbn [perform]. unfold logs_call, set_log_follow. destruct (Bool.eqb (follow (logs (ctl w))) on) eqn:E; intros [= <- <-]; [|done].
  intros _. cbn. rewrite E. by apply eqb_prop in E.
Qed.

Lemma act_good now a u u' : good true now u → u_quit u = false → act now a u = Some u' → good true now u' ∧ quits_clean u'.
Proof.
  intros G Hq. pose proof G as [K R J].
  assert (∀ u1, good true now u1 ∧ u_quit u1 = u_quit u → good true now u1 ∧ quits_clean u1) as Hk by (intros u1 [? Hu]; split; [done|intros ?; congruence]).
  assert (∀ o u1, downloads o = false → update now o u = Some u1 → good true now u1 ∧ quits_clean u1) as Hu.
  { intros o u1 Ho E. apply Hk. apply (update_good true) in E as [? Hr]; [|done..]. split; [done|]. by injection Hr. }
  assert (∀ o st ls u1, downloads o = false → update now o (set_settings st (set_logs ls u)) = Some u1 →
    (∀ w' ch, perform o (u_world u) = Some (w', ch) →
      (ch_settings ch = false → st = u_settings u) ∧ (ch_logs ch = false → lv_follow ls = follow (logs (ctl w')))) → good true now u1 ∧ quits_clean u1) as Ht.
  { intros o st ls u1 Ho E Hc. apply Hk. apply (update_turned true) in E as (K1 & Hr & ch & E); [|done..].
    split; [|by injection Hr]. split; [done|by eapply refresh_ok_rest|]. eapply jobs_ok_same; [by apply rest_jobs| |done]. by eapply perform_rules. }
  assert (∀ o st u1, downloads o = false → match o with OAutostart _ _ _ | OHide _ _ | OCloseToTray _ _ => True | _ => False end →
    update now o (set_settings st u) = Some u1 → good true now u1 ∧ quits_clean u1) as Hsw.
  { intros o st u1 Ho Hsw E. apply (Ht o st (u_logs u) u1 Ho).
    - exact E.
    - intros w' ch Eo. pose proof (switch_reports _ _ _ _ Hsw Eo) as Hc. split; [congruence|].
      apply (reported_follow (u_world u) _ _ _ (perform_reported _ _ _ _ (k_inv _ _ _ K) Eo)), (s_follow _ (k_shown _ _ _ K)). }
  destruct a; unfold act; cbn [turned]; unfold called; cbn [wire_overview wire_nodes wire_settings wire_logs]; try (by apply Hu); try (by apply Hsw).
  - intros E. apply Hk. apply (navigate_good true) in E as (? & ? & _); done.
  - intros E. apply Hk. by apply (download_good true) in E; [|apply update_rules_starts|].
  - destruct (index row); cbn [fmap option_fmap option_map]; [by apply Hu|]. intros [= <-]. by apply Hk.
  - destruct (index row); cbn [fmap option_fmap option_map]; [by apply Hu|]. intros [= <-]. by apply Hk.
  - by apply answer_good.
  - intros E. apply (Ht (OFollow on) (u_settings u) (with_lv_follow on (u_logs u)) u'); [done| |].
    + exact E.
    + intros w' ch Eo. split; [done|]. exact (follow_reports _ _ _ _ Eo).
Qed.

(** ** Timers *)
Lemma save_timer_good now t u u' : good true now u → u_save_timer u = Some t → t ≤ now → update now (OFlushDue now) (set_save_timer None u) = Some u' →
  good true now u' ∧ u_quit u' = u_quit u.
Proof.
  intros [[Ki Kp Kq Ks Kw Kt Ksv Kn] R J] Et Hn E. apply (update_fired true) in E as (K' & Hr & ch & E); try done.
  - split; [|by injection Hr]. split; [done|exact (refresh_ok_rest (set_save_timer None u) _ Hr R)|].
    eapply (jobs_ok_same (set_save_timer None u)); [by apply rest_jobs| |exact J]. by refine (perform_rules _ _ _ _ _ E).
  - split; apply Kw.
  - intros w ch Eo. split; [|intros Hf; apply (notice_armed_reported _ _ (set_save_timer None u) ch); [|exact Kn|exact Hf]; by apply (perform_reported (OFlushDue now))].
    intros Hf. cbn [perform] in Eo. apply (inj Some) in Eo. change (u_world (set_save_timer None u)) with (u_world u) in Eo.
    assert (due (persist (ctl w)) = None) as Hd; [|by unfold save_armed, ctl_of; cbn [u_world set_world]; rewrite Hd].
    revert Eo. unfold flush_due. unfold save_armed, ctl_of in Ksv. unfold save_delay, delay. destruct (due (persist (ctl (u_world u)))) as [d|] eqn:Ed.
    + cbn [fmap option_fmap option_map]. destruct Ksv as (t' & Et' & Hd). assert (saturating_sub d now = 0) as -> by (unfold saturating_sub; simplify_eq; lia).
      rewrite decide_True by done. destruct (flush_all now (u_world u)) as [w1 [[]|e]] eqn:Ef.
      * intros [= <- _]. by eapply flush_all_due.
      * unfold Controller.set_notice. intros [= _ <-]. done.
    + cbn [fmap option_fmap option_map]. by intros [= <- _].
Qed.

Lemma notice_timer_good now t seq u u' : good true now u → u_notice_timer u = Some (t, seq) → update now (OExpire seq) (set_notice_timer None u) = Some u' →
  good true now u' ∧ u_quit u' = u_quit u ∧ notice (ctl_of u') = NNone.
Proof.
  intros [[Ki Kp Kq Ks Kw Kt Ksv Kn] R J] Et E. unfold notice_armed in Kn. destruct (info (notice (ctl_of u))) eqn:Hi; [|congruence].
  destruct Kn as (t' & Et' & _). assert (seq = notice_seq (ctl_of u)) as -> by congruence.
  assert (∀ w ch, perform (OExpire (notice_seq (ctl_of u))) (u_world u) = Some (w, ch) → ch = NOTICE ∧ notice (ctl w) = NNone) as Hx.
  { intros w ch. cbn [perform]. unfold expire_notice, ctl_of. rewrite Z.eqb_refl. unfold info in Hi. apply andb_true_iff in Hi as [Hi _]. unfold ctl_of in Hi. rewrite Hi.
    cbn [andb]. by intros [= <- <-]. }
  apply (update_fired true) in E as (K' & Hr & ch & E); try done.
  - split; [|split; [by injection Hr|by eapply Hx]]. split; [done|exact (refresh_ok_rest (set_notice_timer None u) _ Hr R)|].
    eapply (jobs_ok_same (set_notice_timer None u)); [by apply rest_jobs| |exact J]. by refine (perform_rules _ _ _ _ _ E).
  - split; apply Kw.
  - intros w ch Eo. split; [intros Hf|by destruct (Hx _ _ Eo) as [-> _]].
    apply (save_armed_reported _ _ (set_notice_timer None u) ch); [|exact Ksv|exact Hf]. by apply (perform_reported (OExpire (notice_seq (ctl_of u)))).
Qed.

(** ** Every event *)
Lemma on_event_good now e u u' : good true now u → u_quit u = false → possible now e u = true → on_event now e u = Some u' → good true now u' ∧ quits_clean u'.
Proof.
  intros G Hq Hp. assert (∀ u1, good true now u1 ∧ u_quit u1 = u_quit u → good true now u1 ∧ quits_clean u1) as Hk by (intros u1 [? Hu]; split; [done|intros ?; congruence]).
  pose proof G as [K R J]. destruct e; cbn [on_event possible] in *.
  - by apply act_good.
  - apply handle_good; [done..|]. by apply bool_decide_eq_true in Hp.
  - by apply close_good.
  - intros E. apply Hk. apply (update_good true) in E as [? Hr]; [|done..]. split; [done|]. by injection Hr.
  - destruct (u_save_timer u) as [t|] eqn:Et; [|done]. apply Z.leb_le in Hp. intros E. apply Hk. by eapply save_timer_good.
  - destruct (u_notice_timer u) as [[t seq]|] eqn:Et; [|done]. intros E. apply Hk. by apply (notice_timer_good now t seq) in E as (? & ? & _).
  - destruct (tray_available _); [intros [= <-]; apply Hk; (split; [|done]); (split; [by apply (window_ok_view _ _ u)|done|done])|].
    intros E. apply Hk. apply (show_window_good true) in E; [done|]. split; [by apply (window_ok_view _ _ u)|done|done].
  - destruct (refreshing u) as [p|] eqn:Er; [|by intros [= <-]; apply Hk]. intros E. apply Hk. apply (refresh_tick_good true) in E as [? Hl]; [|done..].
    split; [done|]. unfold leaving in Hl. by injection Hl.
  - apply Nat.ltb_lt in Hp. intros E. apply Hk. apply (update_ok true) in E as (K' & Hr & ch & E); [|by apply (window_ok_view _ _ u)].
    split; [|by injection Hr]. split; [done|exact (refresh_ok_rest (set_jobs (u_jobs u - 1) u) _ Hr R)|].
    cbn [perform] in E. apply (inj Some), finish_rules_ends in E as (_ & _ & E). unfold jobs_ok, ctl_of in *. rewrite (rest_jobs _ _ Hr), E. cbn [u_jobs set_jobs].
    destruct (rules_updating _); lia.
  - intros [= <-]. apply Hk. destruct (is_config_change _ _); [|done]. split; [|done]. split; [by apply (window_ok_view _ _ u)|done|done].
  - rewrite (k_syncing _ _ _ K). intros E. apply Hk. apply (update_good true) in E as [? Hr]; [|done|split; [by apply (window_ok_view _ _ u)|done|done]].
    split; [done|]. by injection Hr.
  - intros [= <-]. apply Hk. split; [|done]. split; [|done|done]. destruct K as [Ki Kp Kq Ks Kw Kt Ksv Kn]. split; try done. split; apply Kw.
  - unfold request_activation. destruct (SingleInstance.request _) as [a now_]. destruct now_.
    + intros E. apply Hk. apply (show_window_good true) in E; [done|]. split; [by apply (window_ok_view _ _ u)|done|done].
    + intros [= <-]. apply Hk. split; [|done]. split; [by apply (window_ok_view _ _ u)|done|done].
  - intros [= <-]. apply Hk. split; [|done]. split; [by apply (window_ok_view _ _ u)|done|done].
Qed.

(** ** The start *)
Lemma opened_start rename_ok d s b t : core_runs s = None → active_in_range (opened rename_ok d s (with_sources b t)) →
  let w := opened rename_ok d s (with_sources b t) in
  ranged w ∧ pending w ∧ qr_ok w ∧ due (persist (ctl w)) = None ∧ notice (ctl w) = NNone ∧ rules_updating (ctl w) = false ∧ follow (logs (ctl w)) = true.
Proof.
  intros Hs Ha w. split; [split; [by apply opened_inv|exact Ha]|]. unfold w, opened, pending, qr_ok. destruct (load_tracked _ _ _) as [[g loaded] d'].
  split_and!; try done; destruct loaded as [[??]?]; [|done]. by intros f Hf.
Qed.

Lemma install_good now w u : ranged w → pending w → qr_ok w → due (persist (ctl w)) = None → notice (ctl w) = NNone → rules_updating (ctl w) = false →
  follow (logs (ctl w)) = true → install now (language_of (ctl w)) w = Some u → good true now u ∧ u_quit u = false.
Proof.
  intros Hi Hp Hq Hd Hn Hr Hf. unfold install. set (u0 := Ui_new _ w). intros E. apply apply_applied in E as [Aw Ar As Al At Ac Ao An Ast Af Ano Ant Asv Aty]; [|done].
  change (u_world u0) with w in Aw. change (ctl_of u0) with (ctl w) in *. assert (ctl_of u = ctl w) as Ec by (unfold ctl_of; by rewrite Aw).
  assert (u_tongue u = language_of (ctl w)) as Et by (destruct At as [->|(_ & _ & ->)]; done).
  split; [|by injection Ar]. split.
  - split; rewrite ?Aw; try done.
    + split; rewrite ?Ec; try done.
      * destruct Ao as (s & ? & ?). by exists (rules_times (around u0) now), s.
      * destruct An as [?|(_ & ? & _)]; done.
      * destruct Ano as [?|(_ & _ & ->)]; [done|]. by rewrite Hn.
      * by rewrite Af.
    + unfold tray_ok. by rewrite Aty.
    + unfold save_armed. by rewrite Ec, Hd.
    + unfold notice_armed. by rewrite Ec, Hn, Ant.
  - intros _ p. unfold refreshed_page. injection Ar as R1 R2 _ _ _ _ _. rewrite R1, R2. done.
  - unfold jobs_ok. rewrite (rest_jobs _ _ Ar), Ec, Hr. done.
Qed.

Lemma show_initial_good now u u' ok : good true now u → show_initial now u = Some (u', ok) → good true now u' ∧ u_quit u' = u_quit u.
Proof.
  intros [K R J]. unfold show_initial. destruct (hide_window_on_startup _).
  - intros [= <- _]. split; [|done]. split; [by apply (window_ok_view _ _ u)|done|done].
  - destruct (shows _); [|by intros [= <- _]]. set (u1 := set_visible true u). destruct (place_window_view u1) as [Hv Hl].
    destruct (update_refresh now (place_window u1)) as [u2|] eqn:E; [|done]. cbn [mbind option_bind]. intros E2. apply (inj Some) in E2. injection E2 as <- _.
    apply (update_refresh_good true) in E as (G & _ & Hl').
    + split; [done|]. rewrite Hl in Hl'. by injection Hl'.
    + by apply (window_ok_view _ _ u).
    + apply (jobs_ok_same u); [by injection Hl| |done]. unfold ctl_of. by injection Hv as -> _.
Qed.

Lemma launch_good now rename_ok d s b t u : core_runs s = None → active_in_range (opened rename_ok d s (with_sources b t)) →
  launch now (opened rename_ok d s (with_sources b t)) = Some (inl u) → good true now u ∧ u_quit u = false.
Proof.
  intros Hs Ha. destruct (opened_start rename_ok d s b t Hs Ha) as (Hi & Hp & Hq & Hd & Hn & Hr & Hf). set (w := opened _ _ _ _) in *.
  unfold launch. destruct (language_ok _ _); [|done]. destruct (install now (language_of (ctl w)) w) as [u1|] eqn:E1; [|done]. cbn [mbind option_bind].
  apply install_good in E1 as [G1 Q1]; [|done..]. destruct (watch_config_dir now u1) as [u2|] eqn:E2; [|done]. cbn [mbind option_bind].
  apply (update_good true) in E2 as [G2 R2]; [|done..]. assert (u_quit u2 = false) as Q2 by (injection R2; congruence).
  destruct (startup_window now u2) as [u3|] eqn:E3; [|done]. cbn [mbind option_bind].
  apply (download_good true) in E3 as [G3 Q3]; [|apply startup_starts|done].
  destruct (show_initial now u3) as [[u4 ok]|] eqn:E4; [|done]. cbn [mbind option_bind]. apply show_initial_good in E4 as [G4 Q4]; [|done].
  destruct ok; [|done]. destruct (activation_ready now u4) as [u5|] eqn:E5; [|done]. cbn [mbind option_bind]. intros E6. apply (inj Some) in E6. injection E6 as <-.
  revert E5. unfold activation_ready. destruct (SingleInstance.window_ready _) as [a queued]. set (u6 := set_activation a u4).
  assert (good true now u6) as G6 by (destruct G4 as [K R J]; split; [by apply (window_ok_view _ _ u4)|done|done]).
  assert (u_quit u6 = false) as Q6 by (change (u_quit u4 = false); congruence).
  destruct queued; [|by intros [= <-]]. intros E. apply (show_window_good true) in E as [? Hq']; [|done]. split; [done|congruence].
Qed.

(** ** Runs *)

(** The window at a time: after the start from [w0], each event that can happen, and between two events time, other programs,
    what is outside and threads that log. *)
Inductive running w0 : Z → Ui S → Prop :=
  | at_launch now u : launch now w0 = Some (inl u) → running w0 now u
  | happens now e u u' : running w0 now u → u_quit u = false → possible now e u = true → on_event now e u = Some u' → running w0 now u'
  | later now now' u : running w0 now u → now ≤ now' → running w0 now' u
  | files_written now u d : running w0 now u → running w0 now (set_world (mkWorld (ctl_of u) (around u) d) u)
  | outside_changed now u s : running w0 now u → others (around u) s → running w0 now (set_world (with_outside s (u_world u)) u)
  | logged now u b : running w0 now u → running w0 now (set_world (on_logs (with_buffer b) (u_world u)) u).

(** The start: the files are read, no core runs. *)
Definition first_start w0 : Prop := ∃ rename_ok d s b t, core_runs s = None ∧ w0 = opened rename_ok d s (with_sources b t).

Lemma running_good w0 now u : first_start w0 → active_in_range w0 → running w0 now u → good true now u ∧ quits_clean u.
Proof.
  intros (rename_ok & d0 & s0 & b0 & t0 & Hs0 & ->) Ha.
  induction 1 as [now u E|now e u u' _ [G _] Hq Hp E|now now' u _ [G Q] Hn|now u d _ [G Q]|now u s _ [G Q] Ho|now u b _ [G Q]].
  - apply launch_good in E as [G Hq]; [|done..]. split; [done|]. intros ?. congruence.
  - by eapply on_event_good.
  - split; [|done]. destruct G as [K R J]. split; [by eapply window_ok_later|done|done].
  - split; [|exact Q]. destruct G as [[Ki Kp Kq Ks Kw Kt Ksv Kn] R J]. split; [split; try done|done|done]. destruct Kw. by split.
  - split; [|exact Q]. destruct G as [[[(Hc & Hrest) Hr] Kp Kq Ks Kw Kt Ksv Kn] R J]. split; [split; try done|done|done]; [|destruct Kw; by split].
    split; [|exact Hr]. split; [|exact Hrest]. unfold core_ok. cbn. by rewrite (others_runs _ _ Ho).
  - split; [|exact Q]. destruct G as [[Ki Kp Kq Ks Kw Kt Ksv Kn] R J]. split; [split; try done|done|done]. destruct Kw. by split.
Qed.



(** C11: from files whose active index is in the list: when the event loop ends by the quit of the window, the list of nodes
    is the saved one and nothing is unsaved.  However it ends, also when the platform fails or macOS terminates the
    program without the prompt, the core is stopped, every other changed file that can be written is written,
    and profiles.json stays as it is, so that at most edits that were never saved are lost. *)
Theorem window_quits_clean w0 now now' e u w' : first_start w0 → active_in_range w0 → running w0 now u → end_loop now' e u = Some w' →
  (e = LoopQuit → nodes_dirty (ctl_of u) = false ∧ s_profiles (saved (ctl_of u)) = profiles (gui (ctl_of u))) ∧
  core_runs (outside w') = None ∧ connected (ctl w') = false ∧ disk w' !! path config_dir Profiles = disk (u_world u) !! path config_dir Profiles ∧
  ∀ f b, dirty (persist (ctl_of u)) f = true → file_fault (outside w') f = None →
    file_bytes f (gui (ctl_of u)) (saved (ctl_of u)) = Ok b → disk w' !! path config_dir f = Some b.
Proof.
  intros Hf Ha Hu. destruct (running_good _ _ _ Hf Ha Hu) as [G Q]. unfold end_loop. case_match eqn:He; [|done]. intros [= <-]. split.
  - intros ->. specialize (Q He). split; [done|]. unfold nodes_dirty, list_dirty in Q. apply orb_false_iff in Q as [[Q _]%orb_false_iff _]. by case_bool_decide.
  - pose proof (shutdown_spec now' (u_world u)) as Hsh. cbv zeta in Hsh. destruct Hsh as (Hr & Hc & _ & _ & Hk & Hw). split_and!; [done..| |].
    + apply Hk. apply G.
    + intros f b Hd. by apply Hw.
Qed.

(** C24: from files whose active index is in the list, at most one thread downloads the rules, and one does exactly while the
    page says so. *)
Theorem one_download w0 now u : first_start w0 → active_in_range w0 → running w0 now u → u_jobs u = if o_rules_updating (u_overview u) then 1%nat else O.
Proof.
  intros Hf Ha Hu. destruct (running_good _ _ _ Hf Ha Hu) as [[[Ki Kp Kq Ks Kw Kt Ksv Kn] _ J] _]. rewrite J. destruct (s_overview _ Kw) as (times & s & (_ & _ & _ & _ & Es)%overview_parts & ->).
  cbn [o_rules_updating sync_overview]. by rewrite Es.
Qed.

(** C35: from files whose active index is in the list, and while there are not more nodes than an i32 can count, what the nodes
    page shows is well formed: one row per node with its index as the id, exactly one of them in use, and the selected row
    is one of them, so that a click on a row names a node. *)
Theorem rows_well_formed w0 now u : first_start w0 → active_in_range w0 → running w0 now u → (Z.of_nat (length (nv_rows (u_nodes u))) ≤ i32_max) →
  length (nv_rows (u_nodes u)) = length (profiles (gui (ctl_of u))) ∧
  (∀ i row, nv_rows (u_nodes u) !! i = Some row → r_id row = show_dec (Z.of_nat i) ∧ (r_in_use row = true ↔ i = selected_profile (runtime (gui (ctl_of u)))) ∧
     index (Z.of_nat i) = Some i ∧ is_Some (profiles (gui (ctl_of u)) !! i)) ∧
  (∃ i row, nv_rows (u_nodes u) !! i = Some row ∧ r_in_use row = true) ∧
  (∃ i, index (nv_selected (u_nodes u)) = Some i ∧ i = selected (nodes (ctl_of u)) ∧ is_Some (nv_rows (u_nodes u) !! i)).
Proof.
  intros Hf Ha0 Hu Hlen. destruct (running_good _ _ _ Hf Ha0 Hu) as [[[Ki Kp Kq Ks Kw Kt Ksv Kn] _ _] _]. destruct Ki as [(_ & Hs & _) Ha].
  destruct (s_nodes _ Kw) as (Er & Es & _). rewrite Er in *. cbn [rows nodes_snapshot ns_selected] in *. unfold ctl_of, sel_ok, active_in_range, ProfileStore in *.
  rewrite !length_imap in *. assert (∀ i, index (Z.of_nat i) = Some i) as Hi by (intros i; unfold index; rewrite decide_True by lia; by rewrite Nat2Z.id).
  assert (∀ i, imap row_to (imap (row_of (selected_profile (runtime (gui (ctl (u_world u)))))) (profiles (gui (ctl (u_world u))))) !! i =
    (λ p, row_to i (row_of (selected_profile (runtime (gui (ctl (u_world u))))) i p)) <$> (profiles (gui (ctl (u_world u))) !! i)) as Hl.
  { intros i. rewrite !list_lookup_imap. exact (eq_sym (option_fmap_compose _ _ _)). }
  split; [done|]. split; [|split].
  - intros i row. rewrite Hl. destruct (profiles _ !! i) as [p|] eqn:Ep; [|done]. intros [= <-]. cbn. split; [done|]. split; [by rewrite bool_decide_eq_true|]. split; [apply Hi|by exists p].
  - destruct (lookup_lt_is_Some_2 _ _ Ha) as [p Ep]. eexists _, _. split; [rewrite Hl; exact (f_equal (fmap _) Ep)|]. cbn. by apply bool_decide_eq_true.
  - exists (selected (nodes (ctl (u_world u)))). rewrite Es. unfold to_i32. rewrite decide_True by lia. rewrite Hi. split; [done|]. split; [done|].
    rewrite Hl. destruct (lookup_lt_is_Some_2 _ _ Hs) as [p Ep]. eexists. exact (f_equal (fmap _) Ep).
Qed.
End events.

(** ** A run *)
Module Desk.
#[export] Instance texts : Texts := {| tr _ s := B s; tr_connected _ n := B "Connected " ++ n; tr_node _ n := B "Node " ++ show_dec n; error_text _ := B "error" |}.
#[export] Instance toolkit : Toolkit (option ProxyProfile) := {|
  detected := UEn; language_ok _ _ := true; shows _ := true; hides _ := true; outer _ := Some ((10, 20), (960, 640)); current_monitor _ := None;
  primary_monitor _ := Some ((0, 0), (1920, 1080)); icon_shown _ := true; spawn_thread _ := Ok tt; rules_times _ _ := None; AUTOSTART_SUPPORTED := true; MACOS := true;
  path_segments _ := []; sin x := x; cos x := x |}.
End Desk.
#[local] Existing Instances Storage.Sample.app_codec Storage.Sample.runtime_codec Toy.profiles_codec Toy.effects Toy.laws Toy.files Toy.place Toy.qr ShareLink.Sample.lib
  Desk.texts Desk.toolkit.

Module DeskRun.
Definition first : World (option ProxyProfile) := opened true ∅ None (with_sources LogBuffer_new TrafficMonitor_new).
Definition desk : Ui (option ProxyProfile) := match launch 0 first with Some (inl u) => u | _ => Ui_new UEn first end.

(** Events at their times, as long as they can happen. *)
Fixpoint after (now : Z) (u : Ui (option ProxyProfile)) (es : list (Z * Event)) : option (Z * Ui (option ProxyProfile)) :=
  match es with
  | [] => Some (now, u)
  | (t, e) :: es =>
      if bool_decide (now ≤ t) && negb (u_quit u) && possible t e u then u ← on_event t e u; after t u es else None
  end.

Lemma after_running now u es now' u' : running first now u → after now u es = Some (now', u') → running first now' u'.
Proof.
  revert now u. induction es as [|[t e] es IH]; intros now u Hr; cbn [after]; [by intros [= <- <-]|].
  destruct (bool_decide (now ≤ t)) eqn:Hn, (u_quit u) eqn:Hq, (possible t e u) eqn:Hp; cbn [andb negb]; try done.
  apply bool_decide_eq_true in Hn. destruct (on_event t e u) as [u1|] eqn:E; [|done]. cbn [mbind option_bind].
  apply IH. eapply happens; [by eapply later|done..].
Qed.

Lemma first_first : first_start first.
Proof. exists true, ∅, None, LogBuffer_new, TrafficMonitor_new. by split. Qed.
Lemma first_range : active_in_range first.
Proof. by apply Nat.ltb_lt. Qed.

Lemma desk_running : running first 0 desk.
Proof.
  assert (match launch 0 first with Some (inl _) => true | _ => false end = true) as Hl by by vm_compute.
  apply at_launch. unfold desk.
  by destruct (launch 0 first) as [[u|w]|].
Qed.

(** What the window is after events. *)
Definition later_desk (es : list (Z * Event)) : Z * Ui (option ProxyProfile) := default (0, desk) (after 0 desk es).
Lemma later_running es : running first (later_desk es).1 (later_desk es).2.
Proof.
  unfold later_desk. destruct (after 0 desk es) as [[t u]|] eqn:E; [|exact desk_running]. by eapply after_running; [apply desk_running|].
Qed.
End DeskRun.
Import DeskRun.





(** Closing the window, and a termination while an added node is not saved. *)
Lemma window_quits_clean_witness :
  (∃ w', end_loop 4 LoopQuit (later_desk [(3, EClose)]).2 = Some w' ∧ nodes_dirty (ctl_of (later_desk [(3, EClose)]).2) = false ∧ core_runs (outside w') = None) ∧
  (∃ w', end_loop 4 LoopTerminated (later_desk [(3, EAct AAddNode)]).2 = Some w' ∧ nodes_dirty (ctl_of (later_desk [(3, EAct AAddNode)]).2) = true ∧
    disk w' !! path config_dir Profiles = None).
Proof.
  split.
  - exists (shutdown_window 4 (later_desk [(3, EClose)]).2). assert (end_loop 4 LoopQuit (later_desk [(3, EClose)]).2 = Some (shutdown_window 4 (later_desk [(3, EClose)]).2)) as E.
    { unfold end_loop. assert (u_quit (later_desk [(3, EClose)]).2 = true) as -> by by vm_compute. done. }
    destruct (window_quits_clean first _ 4 LoopQuit _ _ first_first first_range (later_running [(3, EClose)]) E) as (Hq & Hr & _). split; [done|]. split; [by apply Hq|done].
  - exists (shutdown_window 4 (later_desk [(3, EAct AAddNode)]).2). assert (end_loop 4 LoopTerminated (later_desk [(3, EAct AAddNode)]).2 = Some (shutdown_window 4 (later_desk [(3, EAct AAddNode)]).2)) as E by done.
    destruct (window_quits_clean first _ 4 LoopTerminated _ _ first_first first_range (later_running [(3, EAct AAddNode)]) E) as (_ & _ & _ & Hd & _).
    split; [done|]. split; [by vm_compute|]. rewrite Hd. by vm_compute.
Defined.

Lemma one_download_witness : u_jobs (later_desk [(3, EAct AUpdateRules)]).2 = 1%nat.
Proof. rewrite (one_download first _ _ first_first first_range (later_running [(3, EAct AUpdateRules)])). by vm_compute. Defined.

Lemma rows_well_formed_witness : length (nv_rows (u_nodes (later_desk [(3, EAct AAddNode)]).2)) = 2%nat.
Proof.
  destruct (rows_well_formed first _ _ first_first first_range (later_running [(3, EAct AAddNode)])) as [Hl _]; [by vm_compute|]. rewrite Hl. by vm_compute.
Defined.

(** ** A start from files whose index is past the list *)
Module StaleDesk.
Definition first : World (option ProxyProfile) :=
  opened true (<[path config_dir Profiles := B "a"]> (<[path config_dir Runtime := B "b"]> ∅)) None (with_sources LogBuffer_new TrafficMonitor_new).
Definition desk : Ui (option ProxyProfile) := match launch 0 first with Some (inl u) => u | _ => Ui_new UEn first end.
Definition after_add : Ui (option ProxyProfile) := match act 3 AAddNode desk with Some u => u | None => desk end.
Definition after_close : Ui (option ProxyProfile) := match close_requested 3 desk with Some u => match answer 4 Save u with Some u => u | None => u end | None => desk end.
End StaleDesk.

(** No node is in use; the Save of the prompt leaves the window with edits that count as unsaved; and a node that is added
    becomes the active one while the overview still shows no name. *)
Lemma stale_window :
  (r_in_use <$> nv_rows (u_nodes StaleDesk.desk)) = [false] ∧
  (u_quit StaleDesk.after_close = true ∧ nodes_dirty (ctl_of StaleDesk.after_close) = true) ∧
  state_profile (gui (ctl_of StaleDesk.after_add)) ≠ None ∧ o_active_name (u_overview StaleDesk.after_add) ≠ (active_texts (gui (ctl_of StaleDesk.after_add))).1.
Proof. split_and!; try by vm_compute. Qed.
