(* ===== verification/Fmt.v ===== *)
(** * [gui/src/ui/fmt.rs] and [gui/src/version.rs]: texts that are shortened

    A hidden password, a long text without its middle, and an abbreviated commit.  An
    [f32] is a [spec_float] of 24 bits; a text is the list of its characters' bytes. *)
From Stdlib Require Import SpecFloat.
From S2P Require Import Prelude Std Text Traffic Logs.

Definition f32 : Type := spec_float.
Definition f32_add : f32 → f32 → f32 := SFadd 24 128.
Definition f32_sub : f32 → f32 → f32 := SFsub 24 128.
Definition f32_mul : f32 → f32 → f32 := SFmul 24 128.
Definition f32_div : f32 → f32 → f32 := SFdiv 24 128.
Definition f32_of (z : Z) : f32 := binary_normalize 24 128 z 0 false.
(** A decimal literal: the float next to the quotient. *)
Definition f32_ratio (a b : Z) : f32 := f32_div (f32_of a) (f32_of b).
Definition f32_zero : f32 := S754_zero false.
(** [f32::max]: a NaN gives way to the other operand. *)
Definition f32_max (a b : f32) : f32 := f64_max a b.

(** [str::chars]: the bytes of each character. *)
Fixpoint chars (s : str) : list str :=
  match s with
  | [] => []
  | c :: s =>
      match chars s with
      | (d :: ch) :: chs => if is_cont d then (c :: d :: ch) :: chs else [c] :: (d :: ch) :: chs
      | chs => [c] :: chs
      end
  end.

Definition em_width (ch : str) : f32 :=
  match ch with
  | [c] =>
      if negb (is_ascii c) then f32_of 1
      else if between 65 90 c then f32_ratio 65 100
      else if between 48 57 c || between 97 122 c then f32_ratio 55 100
      else f32_ratio 3 10
  | _ => f32_of 1
  end.

(** [mask]: one bullet per character. *)
Definition bullet : str := [xe2; x80; xa2].
Definition mask (text : str) : str := concat (replicate (length (chars text)) bullet).

(** The loop over [char_indices] from the front: the end of what is kept. *)
Fixpoint head_end (limit used : f32) (head : nat) (chs : list str) : nat :=
  match chs with
  | [] => head
  | ch :: chs =>
      let used := f32_add used (em_width ch) in
      if SFltb limit used then head else head_end limit used (head + length ch)%nat chs
  end.
(** The loop from the back, which stops at what is kept of the front. *)
Fixpoint tail_start (limit used : f32) (head tail : nat) (chs : list str) : nat :=
  match chs with
  | [] => tail
  | ch :: chs =>
      let used := f32_add used (em_width ch) in
      let index := (tail - length ch)%nat in
      if SFltb limit used || (index <? head)%nat then tail else tail_start limit used head index chs
  end.

Definition elide_middle (text : str) (width font_size : f32) : str :=
  if SFleb font_size f32_zero then text
  else
    let budget := f32_max (f32_div width font_size) f32_zero in
    let chs := chars text in
    if SFleb (foldl f32_add f32_zero (em_width <$> chs)) budget then text
    else if SFltb budget (f32_of 1) then []
    else
      let available := f32_sub budget (f32_of 1) in
      let head := head_end (f32_mul available (f32_ratio 6 10)) f32_zero 0 chs in
      let tail := tail_start (f32_mul available (f32_ratio 4 10)) f32_zero head (length text) (rev chs) in
      take head text ++ ellipsis ++ drop tail text.

(** [commit.get(..7)]: [None] when it is too short or cuts a character. *)
Definition short_commit (commit : str) : str :=
  if (7 <=? length commit)%nat && match commit !! 7%nat with Some c => negb (is_cont c) | None => true end then take 7 commit else commit.

Example elide_ex : elide_middle (B "abcdefgh") (f32_of 42) (f32_of 14) = B "ab" ++ ellipsis ++ B "h".
Proof. by vm_compute. Qed.
Example commit_ex : short_commit (B "4c4f9f0b1c2d") = B "4c4f9f0" ∧ short_commit (B "abc") = B "abc".
Proof. by vm_compute. Qed.

(** ** Characters *)
Lemma chars_concat s : concat (chars s) = s.
Proof.
  induction s as [|c s IH]; [done|]. cbn [chars]. destruct (chars s) as [|[|d ch] chs]; cbn in *; [by rewrite <-IH|by rewrite <-IH|].
  destruct (is_cont d); cbn; by rewrite <-IH.
Qed.

Lemma chars_nonempty s : Forall (λ ch, ch ≠ []) (chars s).
Proof.
  induction s as [|c s IH]; [done|]. cbn [chars]. destruct (chars s) as [|[|d ch] chs]; [by constructor| |].
  - by inversion IH.
  - inversion IH. destruct (is_cont d); by repeat constructor.
Qed.

(** Hiding shows the number of characters and nothing else. *)
Lemma mask_length text : length (mask text) = (3 * length (chars text))%nat.
Proof. unfold mask. induction (length (chars text)) as [|n IH]; [done|]. cbn [replicate concat]. rewrite length_app, IH. cbn. lia. Qed.

(** ** Where a text is cut *)
Lemma head_end_spec limit used head chs : ∃ k, (k ≤ length chs)%nat ∧ head_end limit used head chs = (head + length (concat (take k chs)))%nat.
Proof.
  revert used head. induction chs as [|ch chs IH]; intros used head; cbn [head_end]; [exists O; cbn; lia|].
  case_match; [exists O; cbn; lia|]. destruct (IH (f32_add used (em_width ch)) (head + length ch)%nat) as (k & Hk & ->).
  exists (S k). cbn. rewrite length_app. lia.
Qed.

Lemma tail_start_spec limit used head chs : (head ≤ length (concat chs))%nat →
  ∃ m, (m ≤ length chs)%nat ∧ tail_start limit used head (length (concat chs)) (rev chs) = length (concat (take m chs)) ∧
       (head ≤ length (concat (take m chs)))%nat.
Proof.
  revert used. induction chs as [|ch chs IH] using rev_ind; intros used Hh; [by exists O|].
  rewrite rev_app_distr. cbn [rev app tail_start]. rewrite concat_app in *. cbn [concat] in *. rewrite app_nil_r, ?length_app in *.
  replace (length (concat chs) + length ch - length ch)%nat with (length (concat chs)) by lia. destruct (_ || _) eqn:E.
  - exists (length (chs ++ [ch])). rewrite firstn_all, concat_app. cbn. rewrite app_nil_r, !length_app. cbn. split_and!; lia.
  - apply orb_false_iff in E as [_ E%Nat.ltb_ge]. destruct (IH (f32_add used (em_width ch)) E) as (m & Hm & Em & Hhm).
    exists m. cbn [length]. rewrite take_app_le by done. split_and!; [lia|done|done].
Qed.

Lemma take_concat k (chs : list str) : take (length (concat (take k chs))) (concat chs) = concat (take k chs).
Proof. rewrite <-(take_drop k chs) at 2. rewrite concat_app. by rewrite take_app_length. Qed.
Lemma drop_concat k (chs : list str) : drop (length (concat (take k chs))) (concat chs) = concat (drop k chs).
Proof. rewrite <-(take_drop k chs) at 2. rewrite concat_app. by rewrite drop_app_length. Qed.

Lemma take_length_lt (chs : list str) m k : Forall (λ ch, ch ≠ []) chs → (m < k)%nat → (k ≤ length chs)%nat →
  (length (concat (take m chs)) < length (concat (take k chs)))%nat.
Proof.
  revert m k. induction chs as [|ch chs IH]; intros m k Hn Hm Hk; [cbn in Hk; lia|]. inversion Hn; subst. destruct k as [|k]; [lia|]. cbn in Hk.
  destruct m as [|m]; cbn [take concat length].
  - rewrite length_app. destruct ch; [done|]. cbn. lia.
  - rewrite !length_app. enough (length (concat (take m chs)) < length (concat (take k chs)))%nat by lia. apply IH; [done|lia..].
Qed.

(** A shortened text is the text, nothing, or the text with one run of whole characters replaced by an ellipsis: the
    cuts are never inside a character and never overlap. *)
Theorem elide_middle_cut text width font_size :
  elide_middle text width font_size ∈ [text; []] ∨
  ∃ a b c, chars text = a ++ b ++ c ∧ elide_middle text width font_size = concat a ++ ellipsis ++ concat c.
Proof.
  unfold elide_middle. case_match; [left; by left|]. cbv zeta. case_match; [left; by left|]. case_match; [left; right; by left|]. right.
  match goal with |- context [head_end ?l ?u 0 _] => destruct (head_end_spec l u 0 (chars text)) as (k & Hk & ->) end. rewrite Nat.add_0_l.
  match goal with |- context [tail_start ?l ?u ?h _ _] => pose proof (tail_start_spec l u h (chars text)) as Ht end.
  rewrite chars_concat in Ht. destruct Ht as (m & Hm & -> & Hle).
  { rewrite <-(chars_concat text) at 2. rewrite <-(take_drop k (chars text)) at 2. rewrite concat_app, length_app. lia. }
  assert (k ≤ m)%nat as Hkm.
  { destruct (decide (k ≤ m)%nat) as [|Hlt]; [done|]. pose proof (take_length_lt (chars text) m k (chars_nonempty text)). lia. }
  exists (take k (chars text)), (drop k (take m (chars text))), (drop m (chars text)). split.
  - assert (take k (chars text) = take k (take m (chars text))) as -> by (rewrite take_take, Nat.min_l; done). by rewrite app_assoc, !take_drop.
  - f_equal; [|f_equal]; rewrite <-(chars_concat text) at 2; [apply take_concat|apply drop_concat].
Qed.
