(* ===== verification/Menus.v ===== *)
(** * [gui/src/desktop/tray/linux.rs] and [native.rs]: the menus of the tray

    The two builders of the menu, as the items they give to the libraries, with what a
    click on an item sends; and the thread that serves the icon on Linux.  A radio group
    sends its event with the index that is chosen; a native item sends its id. *)
From S2P Require Import Prelude Std Pac Storage Tray.
#[local] Open Scope Z_scope.

(** ** Linux: ksni *)
Inductive LinuxItem :=
  | LStandard (label : str) (enabled : bool) (activate : option TrayEvent)
  | LSeparator
  | LSubMenu (label : str) (submenu : list LinuxItem)
  | LRadioGroup (selected : Z) (select : nat → option TrayEvent) (options : list str).

Definition underscore : byte := x5f.
Definition ampersand : byte := x26.

Definition item (label : str) (event : TrayEvent) : LinuxItem := LStandard (escape_mnemonic label underscore) true (Some event).
Definition radio (names : list str) (selected : Z) (event : nat → option TrayEvent) : LinuxItem :=
  LRadioGroup selected event ((λ label, escape_mnemonic label underscore) <$> names).

(** [PROXY_MODES[i.min(len - 1)]]: the list is not empty, so the index is always in it. *)
Definition nth_mode (i : nat) : option TrayEvent := SetProxyMode <$> PROXY_MODES !! (i `min` (length PROXY_MODES - 1))%nat.
Definition nth_rule (i : nat) : option TrayEvent := SetPacRule <$> PAC_RULES !! (i `min` (length PAC_RULES - 1))%nat.

Definition linux_menu (m : TrayMenu) : list LinuxItem :=
  let text := labels m in
  let proxy :=
    [radio [l_off text; l_pac text; l_global text] (Z.of_nat (proxy_index (t_proxy_mode (model m)))) nth_mode;
     LSeparator;
     radio [l_bypass_china text; l_gfw_list text] (Z.of_nat (pac_index (t_pac_rule (model m)))) nth_rule;
     item (l_update_rules text) UpdateRules] in
  let nodes :=
    match t_nodes (model m) with
    | [] => []
    | names => [radio names (match t_active (model m) with Some i => Z.of_nat i | None => usize_max end) (λ i, Some (SelectNode i)); LSeparator]
    end ++ [item (l_import_clipboard text) ImportClipboard] in
  [LStandard (escape_mnemonic (status text) underscore) false None;
   item (l_connect text) ToggleConnection;
   LSubMenu (escape_mnemonic (l_system_proxy text) underscore) proxy;
   LSubMenu (escape_mnemonic (l_nodes text) underscore) nodes;
   LSeparator;
   item (l_open text) Open;
   item (l_edit_nodes text) ShowNodes;
   item (l_logs text) ShowLogs;
   item (l_settings text) ShowSettings;
   item (l_about text) ShowAbout;
   LSeparator;
   item (l_quit text) TQuit].

(** ** Windows and macOS: tray-icon *)
Inductive NativeItem :=
  | NItem (id : option str) (label : str) (enabled : bool)
  | NCheck (id : str) (label : str) (checked : bool)
  | NSeparator
  | NSubmenu (label : str) (items : list NativeItem).

Module NativeMenu.
Definition item (label : str) (event : TrayEvent) : NativeItem := NItem (Some (menu_id event)) (escape_mnemonic label ampersand) true.
Definition check (label : str) (event : TrayEvent) (checked : bool) : NativeItem := NCheck (menu_id event) (escape_mnemonic label ampersand) checked.
Section AppendItems.
(** [append_items] of the library: the items it adds before it fails, if it does, and whether it succeeds. *)
Context (append_items : list NativeItem → list NativeItem * bool).

Definition submenu (label : str) (items : list NativeItem) : NativeItem :=
  let (_, ok) := append_items items in NSubmenu (escape_mnemonic label ampersand) (if ok then items else []).

(** [model.active == Some(i)]. *)
Definition build_menu (m : TrayMenu) : list NativeItem :=
  let text := labels m in
  let proxy_items := imap (λ i '(mode, label), check label (SetProxyMode mode) (i =? proxy_index (t_proxy_mode (model m)))%nat)
    (zip PROXY_MODES [l_off text; l_pac text; l_global text]) in
  let rule_items := imap (λ i '(rule, label), check label (SetPacRule rule) (i =? pac_index (t_pac_rule (model m)))%nat)
    (zip PAC_RULES [l_bypass_china text; l_gfw_list text]) in
  let proxy := proxy_items ++ [NSeparator] ++ rule_items ++ [item (l_update_rules text) UpdateRules] in
  let node_items := imap (λ i name, check name (SelectNode i) (bool_decide (t_active (model m) = Some i))) (t_nodes (model m)) in
  let nodes := node_items ++ match node_items with [] => [] | _ => [NSeparator] end ++ [item (l_import_clipboard text) ImportClipboard] in
  fst (append_items
  [NItem None (escape_mnemonic (status text) ampersand) false;
   item (l_connect text) ToggleConnection;
   submenu (l_system_proxy text) proxy;
   submenu (l_nodes text) nodes;
   NSeparator;
   item (l_open text) Open;
   item (l_edit_nodes text) ShowNodes;
   item (l_logs text) ShowLogs;
   item (l_settings text) ShowSettings;
   item (l_about text) ShowAbout;
   NSeparator;
   item (l_quit text) TQuit]).
End AppendItems.

(** [tooltip] of native.rs. *)
Definition tooltip (m : TrayMenu) : str := B "Juicity GUI" ++ x0a :: Tray.tooltip m.
End NativeMenu.

(** ** What a user sees and what a click does *)
Inductive Row :=
  | REntry (label : str) (enabled : bool) (checked : option bool) (event : option TrayEvent)
  | RSeparator
  | RMenu (label : str) (rows : list Row).

Fixpoint linux_row (i : LinuxItem) : list Row :=
  match i with
  | LStandard label enabled activate => [REntry (shown underscore label) enabled None activate]
  | LSeparator => [RSeparator]
  | LSubMenu label items => [RMenu (shown underscore label) (concat (map linux_row items))]
  | LRadioGroup selected select options =>
      imap (λ i label, REntry (shown underscore label) true (Some (bool_decide (Z.of_nat i = selected))) (select i)) options
  end.
(** The handler of the clicks reads the id; an item without one has an id of the library, which no event has. *)
Fixpoint native_row (i : NativeItem) : list Row :=
  match i with
  | NItem id label enabled => [REntry (shown ampersand label) enabled None (id ≫= from_menu_id)]
  | NCheck id label checked => [REntry (shown ampersand label) true (Some checked) (from_menu_id id)]
  | NSeparator => [RSeparator]
  | NSubmenu label items => [RMenu (shown ampersand label) (concat (map native_row items))]
  end.

Definition linux_rows (m : TrayMenu) : list Row := concat (map linux_row (linux_menu m)).
Definition native_rows (append_items : list NativeItem → list NativeItem * bool) (m : TrayMenu) : list Row :=
  concat (map native_row (NativeMenu.build_menu append_items m)).

(** What the menu promises, without either library: the labels as they are, the checks of the model, and the events. *)
Definition entry (label : str) (event : TrayEvent) : Row := REntry label true None (Some event).
Definition choice (label : str) (checked : bool) (event : TrayEvent) : Row := REntry label true (Some checked) (Some event).
Definition menu_rows (m : TrayMenu) : list Row :=
  let text := labels m in
  let mode x := bool_decide (t_proxy_mode (model m) = x) in
  let rule x := bool_decide (t_pac_rule (model m) = x) in
  [REntry (status text) false None None;
   entry (l_connect text) ToggleConnection;
   RMenu (l_system_proxy text)
     [choice (l_off text) (mode PDisable) (SetProxyMode PDisable); choice (l_pac text) (mode PPac) (SetProxyMode PPac);
      choice (l_global text) (mode PGlobal) (SetProxyMode PGlobal); RSeparator;
      choice (l_bypass_china text) (rule BypassChina) (SetPacRule BypassChina); choice (l_gfw_list text) (rule ProxyGfw) (SetPacRule ProxyGfw);
      entry (l_update_rules text) UpdateRules];
   RMenu (l_nodes text)
     (imap (λ i name, choice name (bool_decide (t_active (model m) = Some i)) (SelectNode i)) (t_nodes (model m)) ++
      (if decide (t_nodes (model m) = []) then [] else [RSeparator]) ++ [entry (l_import_clipboard text) ImportClipboard]);
   RSeparator;
   entry (l_open text) Open; entry (l_edit_nodes text) ShowNodes; entry (l_logs text) ShowLogs; entry (l_settings text) ShowSettings;
   entry (l_about text) ShowAbout; RSeparator; entry (l_quit text) TQuit].

Lemma linux_item label event : linux_row (item label event) = [entry label event].
Proof. cbn. by rewrite escape_mnemonic_shown. Qed.
Lemma native_item label event : match event with SelectNode i => Z.of_nat i ≤ usize_max | _ => True end → native_row (NativeMenu.item label event) = [entry label event].
Proof. intros Hi. cbn [native_row NativeMenu.item mbind option_bind]. by rewrite escape_mnemonic_shown, menu_id_roundtrip. Qed.
Lemma native_check label event checked : match event with SelectNode i => Z.of_nat i ≤ usize_max | _ => True end →
  native_row (NativeMenu.check label event checked) = [choice label checked event].
Proof. intros Hi. cbn [native_row NativeMenu.check]. by rewrite escape_mnemonic_shown, menu_id_roundtrip. Qed.

Lemma linux_radio names selected event :
  linux_row (radio names selected event) = imap (λ i label, REntry label true (Some (bool_decide (Z.of_nat i = selected))) (event i)) names.
Proof. unfold radio. cbn [linux_row]. rewrite imap_fmap. apply imap_ext. intros i label _. cbn. by rewrite escape_mnemonic_shown. Qed.

(** A group of native checks, whose ids are read again. *)
Lemma native_checks {A} (label : A → str) (event : nat → A → TrayEvent) (checked : nat → A → bool) (l : list A) k :
  (∀ i x, l !! i = Some x → match event (k + i)%nat x with SelectNode j => Z.of_nat j ≤ usize_max | _ => True end) →
  concat (map native_row (imap (λ i x, NativeMenu.check (label x) (event (k + i)%nat x) (checked (k + i)%nat x)) l)) =
  imap (λ i x, choice (label x) (checked (k + i)%nat x) (event (k + i)%nat x)) l.
Proof.
  revert k. induction l as [|x l IH]; intros k Hi; [done|]. rewrite !imap_cons. cbn [map concat]. rewrite Nat.add_0_r.
  rewrite native_check by (specialize (Hi O x eq_refl); by rewrite Nat.add_0_r in Hi). cbn [app]. f_equal.
  specialize (IH (S k)). rewrite <-(imap_ext (λ i x, NativeMenu.check (label x) (event (S k + i)%nat x) (checked (S k + i)%nat x))).
  - rewrite IH; [|intros i y Hy; replace (S k + i)%nat with (k + S i)%nat by lia; by apply (Hi (S i) y)].
    apply imap_ext. intros i y _. cbn. by rewrite Nat.add_succ_r.
  - intros i y _. cbn. by rewrite Nat.add_succ_r.
Qed.

Lemma map_concat_app {A B} (f : A → list B) l1 l2 : concat (map f (l1 ++ l2)) = concat (map f l1) ++ concat (map f l2).
Proof. by rewrite map_app, concat_app. Qed.

Lemma linux_nodes m : Z.of_nat (length (t_nodes (model m))) ≤ usize_max →
  concat (map linux_row match t_nodes (model m) with
    | [] => []
    | names => [radio names (match t_active (model m) with Some i => Z.of_nat i | None => usize_max end) (λ i, Some (SelectNode i)); LSeparator]
    end) =
  imap (λ i name, choice name (bool_decide (t_active (model m) = Some i)) (SelectNode i)) (t_nodes (model m)) ++
  (if decide (t_nodes (model m) = []) then [] else [RSeparator]).
Proof.
  destruct (t_nodes (model m)) as [|name names] eqn:En; [done|]. rewrite <-En at 1 3. intros Hn. cbn [map concat linux_row app].
  rewrite linux_radio, decide_False by done. rewrite En. rewrite (imap_ext _ (λ i name, choice name (bool_decide (t_active (model m) = Some i)) (SelectNode i))); [done|].
  intros i label Hi%lookup_lt_Some. unfold choice. rewrite En in Hn. destruct (t_active (model m)) as [j|].
  - by rewrite (bool_decide_ext (Z.of_nat i = Z.of_nat j) (Some j = Some i)) by (split; [intros ?; f_equal; lia|by intros [= ->]]).
  - rewrite !bool_decide_false; [done|done|]. intros ?. cbn in *. lia.
Qed.

Lemma native_nodes m : Z.of_nat (length (t_nodes (model m))) ≤ usize_max →
  let node_items := imap (λ i name, NativeMenu.check name (SelectNode i) (bool_decide (t_active (model m) = Some i))) (t_nodes (model m)) in
  concat (map native_row (node_items ++ match node_items with [] => [] | _ => [NSeparator] end)) =
  imap (λ i name, choice name (bool_decide (t_active (model m) = Some i)) (SelectNode i)) (t_nodes (model m)) ++
  (if decide (t_nodes (model m) = []) then [] else [RSeparator]).
Proof.
  intros Hn. cbv zeta. rewrite map_concat_app. f_equal.
  - pose proof (native_checks (λ name : str, name) (λ i _, SelectNode i) (λ i _, bool_decide (t_active (model m) = Some i)) (t_nodes (model m)) 0) as Hc.
    apply Hc. intros i x Hx%lookup_lt_Some. cbn. lia.
  - by destruct (t_nodes (model m)).
Qed.

(** C40: both builders make the same menu: the labels are shown as they are, whatever markers they contain, each entry sends its
    event, and exactly the mode, the rule list and the node that are active are checked.  The library adds every item it is given. *)
Theorem menus_agree append_items m :
  Z.of_nat (length (t_nodes (model m))) ≤ usize_max → (∀ items, append_items items = (items, true)) →
  linux_rows m = menu_rows m ∧ native_rows append_items m = menu_rows m.
Proof.
  intros Hn Ha. split.
  - unfold linux_rows, linux_menu, menu_rows. cbv zeta. cbn [map concat]. rewrite !linux_item. cbn [linux_row app]. rewrite map_concat_app, linux_nodes by done.
    cbn [map concat]. rewrite !linux_item, !linux_radio, !escape_mnemonic_shown, <-app_assoc. cbn [app]. by destruct (t_proxy_mode (model m)), (t_pac_rule (model m)).
  - unfold native_rows, NativeMenu.build_menu, NativeMenu.submenu, menu_rows. cbv zeta. rewrite !Ha. cbn [fst map concat]. rewrite !native_item by done. cbn [native_row app].
    rewrite (app_assoc (imap _ (t_nodes (model m)))), (map_concat_app _ _ [NativeMenu.item _ ImportClipboard]), native_nodes by done.
    rewrite !escape_mnemonic_shown, <-app_assoc. cbn [map concat zip_with zip imap]. rewrite !map_concat_app. cbn -[native_row shown escape_mnemonic]. rewrite !native_item, !native_check by done.
    cbn [app]. by destruct (t_proxy_mode (model m)), (t_pac_rule (model m)).
Qed.

Module MenuSample.
Definition words : TrayLabels :=
  mkLabels (B "on_line") (B "off") (B "Connect") (B "Proxy") (B "Off") (B "PAC") (B "Global") (B "a&b") (B "gfw") (B "Update") (B "Nodes") (B "Import") (B "Open")
    (B "Nodes") (B "Logs") (B "Settings") (B "About") (B "Quit").
Definition two : TrayMenu := mkMenu (mkTray true (B "x") PPac ProxyGfw [B "x_y"; B "R&D"] (Some 1%nat)) words.
End MenuSample.

Lemma menus_agree_witness : linux_rows MenuSample.two = native_rows (λ items, (items, true)) MenuSample.two ∧ nth_error (linux_rows MenuSample.two) 3 =
  Some (RMenu (B "Nodes") [choice (B "x_y") false (SelectNode 0); choice (B "R&D") true (SelectNode 1); RSeparator; entry (B "Import") ImportClipboard]).
Proof. destruct (menus_agree (λ items, (items, true)) MenuSample.two) as [-> ->]; [by vm_compute|done|]. by split. Defined.

(** ** The thread that serves the icon on Linux *)
Record LinuxTray := mkLinuxTray {
  tray_menu : TrayMenu;
  updates : list TrayMenu;
  spawned : bool;
  offline : bool;
  served : bool;
}.
Definition start (m : TrayMenu) : LinuxTray := mkLinuxTray m [] false false true.
Definition is_available (s : LinuxTray) : bool := spawned s && negb (offline s).

(** A call of the window, the end of the registration, a round of the loop of [serve], and news of the host of icons. *)
Inductive TrayLabel := TUpdate (m : TrayMenu) | TSpawned (ok : bool) | TServe | TOnline | TOffline.

Definition tray_step (s : LinuxTray) (l : TrayLabel) : LinuxTray :=
  match l with
  | TUpdate m => mkLinuxTray (tray_menu s) (if served s then updates s ++ [m] else updates s) (spawned s) (offline s) (served s)
  | TSpawned ok => if spawned s || negb (served s) then s else mkLinuxTray (tray_menu s) (updates s) ok (offline s) ok
  | TServe =>
      if spawned s then match last (updates s) with Some m => mkLinuxTray m [] true (offline s) (served s) | None => s end else s
  | TOnline => mkLinuxTray (tray_menu s) (updates s) (spawned s) false (served s)
  | TOffline => mkLinuxTray (tray_menu s) (updates s) (spawned s) true (served s)
  end.
Definition tray_run (m : TrayMenu) (ls : list TrayLabel) : LinuxTray := foldl tray_step (start m) ls.

Definition sent (m : TrayMenu) (ls : list TrayLabel) : TrayMenu := default m (last (omap (λ l, match l with TUpdate m => Some m | _ => None end) ls)).
Definition newest (s : LinuxTray) : TrayMenu := default (tray_menu s) (last (updates s)).

Lemma tray_step_newest s l : served s = true → l ≠ TSpawned false →
  served (tray_step s l) = true ∧ newest (tray_step s l) = match l with TUpdate m => m | _ => newest s end.
Proof.
  intros Hs Hl. destruct l as [m|[]| | |]; cbn [tray_step]; rewrite ?Hs; try done.
  - split; [done|]. unfold newest. cbn. by rewrite last_snoc.
  - by destruct (spawned s).
  - destruct (spawned s); [|done]. unfold newest. destruct (last (updates s)) as [m|] eqn:E; [done|]. by rewrite E.
Qed.

(** However the updates and the rounds interleave, the icon shows after a round the menu that was sent last, and older ones
    that wait are skipped. *)
Theorem tray_shows_newest m ls : TSpawned false ∉ ls →
  newest (tray_run m ls) = sent m ls ∧ (spawned (tray_run m ls) = true → tray_menu (tray_step (tray_run m ls) TServe) = sent m ls).
Proof.
  intros Hl. assert (served (tray_run m ls) = true ∧ newest (tray_run m ls) = sent m ls) as [Hs Hn].
  { unfold tray_run. induction ls as [|l ls IH] using rev_ind; [done|]. apply not_elem_of_app in Hl as [Hl Hl1].
    destruct (IH Hl) as [Hs Hn]. rewrite foldl_app. cbn [foldl]. destruct (tray_step_newest (foldl tray_step (start m) ls) l Hs) as [-> ->].
    - intros ->. apply Hl1. by left.
    - split; [done|]. rewrite Hn. unfold sent. rewrite omap_app. destruct l; cbn; rewrite ?app_nil_r; try done. by rewrite last_snoc. }
  split; [done|]. intros Hsp. rewrite <-Hn. cbn [tray_step]. rewrite Hsp. unfold newest. by destruct (last _).
Qed.

Lemma tray_shows_newest_witness :
  tray_menu (tray_step (tray_run (mkMenu (mkTray false [] PDisable BypassChina [] None) MenuSample.words) [TSpawned true; TUpdate MenuSample.two]) TServe) = MenuSample.two.
Proof. apply (tray_shows_newest _ [TSpawned true; TUpdate MenuSample.two]); [|done]. by intros [?|[?|[]%not_elem_of_nil]%elem_of_cons]%elem_of_cons. Defined.
