(* ===== verification/Main.v ===== *)
(** * [client/src/main.rs], [server/src/main.rs], [build_info.rs]: the two programs

    What each command line runs, from the configuration file to the tasks that are started; the signals that end a server;
    and the version that both print.  The parser of the command line, the runtime, the subscriber of the logs and the
    [git] program are inputs; a program is an effect whose operations are what it prints, starts and waits for. *)
From S2P Require Import Prelude Std Net Text Crypto Link Client Config Certs Server Forward Export.
#[local] Open Scope Z_scope.

(** ** The version *)
Module Build.
Definition env_override (var : option str) : option str := v ← var; if is_empty v then None else Some v.

(** [run] is the [git] program: whether it succeeds, and its output. *)
Definition git_command (run : list str → option (bool * str)) (args : list str) : option str :=
  '(success, stdout) ← run args; if success : bool then Some (trim (from_utf8_lossy stdout)) else None.

Definition git_hash (run : list str → option (bool * str)) (JUICITY_BUILD_COMMIT : option str) : str :=
  match env_override JUICITY_BUILD_COMMIT with
  | Some h => h
  | None => default (B "unknown") (git_command run [B "rev-parse"; B "--short=7"; B "HEAD"])
  end.

Definition git_tag (run : list str → option (bool * str)) (JUICITY_BUILD_TAG : option str) : str :=
  match env_override JUICITY_BUILD_TAG with
  | Some t => t
  | None =>
      match git_command run [B "describe"; B "--tags"; B "--exact-match"; B "HEAD"] with
      | Some t => t
      | None =>
          match git_command run [B "describe"; B "--tags"] with
          | Some d => B "unstable (" ++ d ++ B ")"
          | None => B "unstable"
          end
      end
  end.

Definition version_string (pkg_version timestamp hash tag : str) : str :=
  B "v" ++ pkg_version ++ x0a :: B "build time: " ++ timestamp ++ x0a :: B "commit: " ++ hash ++ x0a :: B "tag: " ++ tag.
End Build.

(** ** What a program does *)

(** [MServe] is a server that runs until its end, [MPending] the wait that never ends, [MSpawn] the start of a task. *)
Inductive MainOp :=
  | MPrintln (s : str)
  | MPrintHelp
  | MPrintQrcode (link : str)
  | MSaveQrcodePng (link path : str)
  | MInitLogs (filter : str) (timestamps : bool)
  | MClient (o : Client.Op)
  | MPreconnect
  | MForwarder (entries : list ForwardEntry)
  | MLocalServer (listen : str)
  | MPending
  | MServe (listen : str).

(** A part with operations of its own. *)
Definition lift {Op1 Op2 A} (f : Op1 → Op2) (m : effect Op1 A) : effect Op2 A :=
  λ try_op, let '(l, r) := m (try_op ∘ f) in (f <$> l, r).

Definition when (b : bool) (m : effect MainOp unit) : effect MainOp unit := if b then m else mret tt.

(** Not an effect: whether the program ends or waits for ever. *)
Inductive Outcome := Ended | Waits.

Section programs.
Context `{JsonText, HashOrder, FormSerializer, UuidParse}.
Context (version : str) (read_to_string : str → result str).
(** The filter of the environment, when it is set and can be read. *)
Context (env_filter : option str).

Definition init_logs (log_level : option str) (c : Config) (disable_timestamp : bool) : effect MainOp unit :=
  op (MInitLogs (default (default (Config.log_level c) log_level) env_filter) (negb disable_timestamp)).

(** ** The client *)
Section client.
Context `{Base64, HexDecode} (linux : bool).

Inductive ClientCommand :=
  | CRun (config : str) (log_level : option str) (fwmark : option Z) (disable_timestamp : bool)
  | CExport (config : str) (link qrcode : bool) (qrcode_png : option str) (json : bool).
Record ClientCli := mkClientCli { show_version : bool; command : option ClientCommand }.

Definition set_fwmark (c : Config) (mark : option Z) : Config :=
  match mark with
  | Some _ =>
      mkConfig (Config.server c) (Config.uuid c) (Config.password c) (Config.sni c) (allow_insecure c) (pinned_certchain_sha256 c)
        (protect_path c) (forward c) mark (Config.users c) (certificate c) (private_key c) (Config.send_through c) (dialer_link c)
        (Config.disable_outbound_udp443 c) (listen c) (congestion_control c) (Config.log_level c) (initial_rtt c)
        (keep_alive_interval c) (underlay_evict_timeout c) (enable_0rtt c)
  | None => c
  end.

Definition client_config (config : str) (mark : option Z) : result Config :=
  c ← from_file read_to_string config;
  let c := set_fwmark c mark in
  _ ← validate_for_client c; Ok c.

Definition client_run_command (config : str) (log_level : option str) (mark : option Z) (disable_timestamp : bool)
    : effect MainOp Outcome :=
  c ← pure (client_config config mark);
  _ ← init_logs log_level c disable_timestamp;
  _ ← lift MClient (JuicityClient_new linux c);
  _ ← op MPreconnect;
  _ ← when (negb (bool_decide (forward c = ∅))) (entries ← pure (Forwarder_new (hm_iter (forward c))); op (MForwarder entries));
  if negb (is_empty (listen c)) then _ ← op (MLocalServer (listen c)); mret Ended
  else _ ← op MPending; mret Waits.

Definition client_export (config : str) (do_link qrcode : bool) (qrcode_png : option str) (json : bool) : effect MainOp Outcome :=
  c ← pure (from_file read_to_string config);
  _ ← when (do_link || qrcode || bool_decide (is_Some qrcode_png))
        (share_link ← pure (generate_share_link c None None None);
         _ ← when do_link (op (MPrintln share_link));
         _ ← when qrcode (op (MPrintQrcode share_link));
         match qrcode_png with Some path => op (MSaveQrcodePng share_link path) | None => mret tt end);
  _ ← when json (text ← pure (to_client_json c); op (MPrintln text));
  mret Ended.

Definition client_main (cli : ClientCli) : effect MainOp Outcome :=
  if show_version cli then _ ← op (MPrintln version); mret Ended
  else
    match command cli with
    | None => _ ← op MPrintHelp; _ ← op (MPrintln []); mret Ended
    | Some (CRun config log_level mark disable_timestamp) => client_run_command config log_level mark disable_timestamp
    | Some (CExport config link qrcode qrcode_png json) => client_export config link qrcode qrcode_png json
    end.
End client.

(** ** The server *)
Section server.
Context `{Sha256, HexEncode, Base64Encode}.
Context (exists_ : str → bool) {CertifiedKey : Type} (load : str → str → result (@ReloadingCertificateResolver CertifiedKey)) (quic_ok : result unit).
Context (read : str → result str) (read_one : str → result (option PemItem)) (certs : str → result (list str)).
Context (parse_cert : str → result CertDomains) (is_cert_trusted : str → result bool) (get_if_addrs : result (list Interface)).
Context (confirm : result bool) (select : list str → result (list nat)) (input : str → result str) (choose : list str → result nat).

Inductive ServerCommand :=
  | SRun (config : str) (log_level : option str) (disable_timestamp : bool)
  | SExport (config : str) (flags : ExportFlags).
Record ServerCli := mkServerCli { server_show_version : bool; server_command : option ServerCommand }.

Definition server_config (config : str) : result Config :=
  c ← from_file read_to_string config; _ ← validate_for_server exists_ c; Ok c.

Definition server_run_command (config : str) (log_level : option str) (disable_timestamp : bool) : effect MainOp Outcome :=
  c ← pure (server_config config);
  _ ← init_logs log_level c disable_timestamp;
  _ ← pure (JuicityServer_new load quic_ok c);
  _ ← op (MServe (listen c));
  mret Ended.

Definition main_op (o : ExportOp) : MainOp :=
  match o with EPrintln s => MPrintln s | EPrintQrcode link => MPrintQrcode link | ESaveQrcodePng link path => MSaveQrcodePng link path end.

Definition server_main (cli : ServerCli) : effect MainOp Outcome :=
  if server_show_version cli then _ ← op (MPrintln version); mret Ended
  else
    match server_command cli with
    | None => _ ← op MPrintHelp; _ ← op (MPrintln []); mret Ended
    | Some (SRun config log_level disable_timestamp) => server_run_command config log_level disable_timestamp
    | Some (SExport config flags) =>
        c ← pure (from_file read_to_string config);
        _ ← lift main_op (export read read_one certs parse_cert is_cert_trusted get_if_addrs confirm select input choose flags c);
        mret Ended
    end.
End server.
End programs.

(** ** The signals of a server

    [shutdown_signal] with the process it runs in.  Before the first poll nothing listens and a signal ends the process; after
    it, the operating system's handler stays in place, and a signal without a listener does nothing.  On Windows the
    signals are those of Ctrl-C. *)
Inductive SignalPhase := SBefore | SFirst (pending : bool) | SSpawned | SSecond (pending : bool).
Inductive ExitStatus := Killed | Code (n : Z).
Record Process := mkProcess { sys : Sys; signals : SignalPhase; status : option ExitStatus }.
Definition Process_new (n : nat) : Process := mkProcess (Sys_new n) SBefore None.

(** A signal; a step of the server other than the resolution of the future; a poll of [shutdown_signal]; a poll of the task
    it spawns; the end of [run]. *)
Inductive ProcessLabel := PSignal | PServe (l : Server.Label) | PShutdownPoll | PTaskPoll | PReturn.

Definition process_step (p : Process) (l : ProcessLabel) : Process :=
  match status p with
  | Some _ => p
  | None =>
      match l with
      | PSignal =>
          match signals p with
          | SBefore => mkProcess (sys p) SBefore (Some Killed)
          | SFirst _ => mkProcess (sys p) (SFirst true) None
          | SSpawned => p
          | SSecond _ => mkProcess (sys p) (SSecond true) None
          end
      | PServe LShutdown => p
      | PServe l => mkProcess (serve_step (sys p) l) (signals p) None
      | PShutdownPoll =>
          match signals p with
          | SBefore => mkProcess (sys p) (SFirst false) None
          | SFirst true => mkProcess (serve_step (sys p) LShutdown) SSpawned None
          | _ => p
          end
      | PTaskPoll =>
          match signals p with
          | SSpawned => mkProcess (sys p) (SSecond false) None
          | SSecond true => mkProcess (sys p) (SSecond true) (Some (Code 130))
          | _ => p
          end
      | PReturn => match main (sys p) with MReturned => mkProcess (sys p) (signals p) (Some (Code 0)) | _ => p end
      end
  end.
Definition process_run (n : nat) (ls : list ProcessLabel) : Process := foldl process_step (Process_new n) ls.

(** ** What a client runs *)
Lemma effect_bind_inv {Op A C} (f : A → effect Op C) (m : effect Op A) try_op l c :
  (m ≫= f) try_op = (l, Ok c) → ∃ l1 a l2, m try_op = (l1, Ok a) ∧ f a try_op = (l2, Ok c) ∧ l = l1 ++ l2.
Proof.
  unfold mbind, effect_bind. destruct (m try_op) as [l1 [a|e]] eqn:E1; [|done]. destruct (f a try_op) as [l2 r] eqn:E2.
  intros [= <- ->]. eauto 6.
Qed.
Lemma op_inv {Op} (o : Op) try_op l u : op o try_op = (l, Ok u) → l = [o].
Proof. by intros [= <- _]. Qed.
Lemma pure_inv {Op A} (r : result A) try_op (l : list Op) a : pure r try_op = (l, Ok a) → l = [] ∧ r = Ok a.
Proof. by intros [= <- ->]. Qed.
Lemma check_inv b msg u : check b msg = Ok u → b = false.
Proof. by destruct b. Qed.

(** One bind of a program that ended well. *)
Ltac effect_inv H :=
  let l1 := fresh "l" in let a := fresh "a" in let l2 := fresh "l" in let H1 := fresh "H" in
  apply effect_bind_inv in H as (l1 & a & l2 & H1 & H & ->).

Lemma result_bind_inv {A C} (f : A → result C) (r : result A) c : (r ≫= f) = Ok c → ∃ a, r = Ok a ∧ f a = Ok c.
Proof. destruct r as [a|]; [by exists a|done]. Qed.

Section client_lemmas.
Context `{JsonText, HashOrder, UuidParse, Base64, HexDecode}.

Lemma client_has_work c : validate_for_client c = Ok tt → listen c = [] → forward c ≠ ∅.
Proof.
  unfold validate_for_client. do 5 (intros (? & _ & Hv)%result_bind_inv; revert Hv). intros ([] & Hw%check_inv & _)%result_bind_inv Hl Hf.
  by rewrite Hl, Hf, bool_decide_true in Hw.
Qed.

Lemma Forwarder_new_nonempty fwd entries : fwd ≠ ∅ → Forwarder_new (hm_iter fwd) = Ok entries → entries ≠ [].
Proof.
  intros Hf Hn ->. unfold Forwarder_new in Hn. apply mapM_ok, Forall2_nil_inv_r in Hn. apply Hf. apply map_to_list_empty_iff.
  apply Permutation_nil_r. rewrite <-Hn. symmetry. by rewrite hm_iter_perm.
Qed.

Lemma ops_inv {Op} (l : list Op) try_op l' u : ops l try_op = (l', Ok u) → l' = l.
Proof.
  revert l'. induction l as [|o l IH]; intros l'; cbn [ops]; [by intros [= <-]|].
  intros Hn. effect_inv Hn. apply op_inv in H4 as ->. by rewrite (IH _ Hn).
Qed.

Lemma lift_inv {Op1 Op2 A} (f : Op1 → Op2) (m : effect Op1 A) try_op l a :
  lift f m try_op = (l, Ok a) → ∃ l1, m (try_op ∘ f) = (l1, Ok a) ∧ l = f <$> l1.
Proof. unfold lift. destruct (m _) as [l1 r]. intros [= <- ->]. eauto. Qed.

(** What [JuicityClient::new] does when it succeeds. *)
Lemma client_new_ops linux c try_op l cl :
  JuicityClient_new linux c try_op = (l, Ok cl) →
  ∃ any, parse_socket_addr (B "[::]:0") = Some any ∧ l = client_endpoint linux (fwmark c) any ++ [OQuicConfig].
Proof.
  unfold JuicityClient_new. intros Hn. effect_inv Hn. apply pure_inv in H4 as [-> _]. effect_inv Hn. apply pure_inv in H4 as [-> _].
  destruct a0 as [[host prt] name]. effect_inv Hn. apply pure_inv in H4 as [-> _]. effect_inv Hn. apply pure_inv in H4 as [-> Hany].
  effect_inv Hn. apply ops_inv in H4 as ->. effect_inv Hn. injection Hn as <- _. unfold build_quic_config in H4. effect_inv H4.
  apply op_inv in H5 as ->. injection H4 as <- _. exists a1. split; [|done]. by destruct (parse_socket_addr _); simplify_eq/=.
Qed.

Lemma set_fwmark_mark c mark : fwmark (set_fwmark c mark) = match mark with Some _ => mark | None => fwmark c end.
Proof. by destruct mark. Qed.

(** The start of the forwarder. *)
Lemma forward_part c try_op l u :
  when (negb (bool_decide (forward c = ∅))) (entries ← pure (Forwarder_new (hm_iter (forward c))); op (MForwarder entries)) try_op = (l, Ok u) →
  ∃ entries, l = (if decide (forward c = ∅) then [] else [MForwarder entries]) ∧
    (forward c ≠ ∅ → Forwarder_new (hm_iter (forward c)) = Ok entries ∧ length entries = size (forward c)).
Proof.
  unfold when. case_bool_decide as Hf; cbn [negb]; intros Hn.
  - injection Hn as <- _. exists []. by rewrite decide_True.
  - effect_inv Hn. apply pure_inv in H4 as [-> Hn']. apply op_inv in Hn as ->. eexists. rewrite decide_False by done. split; [done|]. intros _.
    split; [exact Hn'|]. apply mapM_ok, Forall2_length in Hn'. by rewrite <-Hn', (Permutation_length (hm_iter_perm _)), length_map_to_list.
Qed.

(** A client reads and checks its configuration before it does anything.  A [run] that gets past its start has done
    exactly this, in this order: the logs at the level asked for, the socket with the mark of the flag or of the file, the
    first connection, the forwarder with an entry for every configured forward, and the local server; it waits for ever
    only when it forwards something. *)
Theorem client_runs read_to_string env_filter linux config level mark no_time try_op :
  let run := client_run_command read_to_string env_filter linux config level mark no_time try_op in
  (∀ e, client_config read_to_string config mark = Err e → run = ([], Err e)) ∧
  ∀ l o, run = (l, Ok o) →
  ∃ c any entries, client_config read_to_string config mark = Ok c ∧ (∀ m, mark = Some m → fwmark c = Some m) ∧
    parse_socket_addr (B "[::]:0") = Some any ∧
    (forward c ≠ ∅ → Forwarder_new (hm_iter (forward c)) = Ok entries ∧ length entries = size (forward c)) ∧
    l = [MInitLogs (default (default (Config.log_level c) level) env_filter) (negb no_time)] ++
        (MClient <$> client_endpoint linux (fwmark c) any ++ [OQuicConfig]) ++ [MPreconnect] ++
        (if decide (forward c = ∅) then [] else [MForwarder entries]) ++
        [match o with Ended => MLocalServer (listen c) | Waits => MPending end] ∧
    match o with Ended => listen c ≠ [] | Waits => listen c = [] ∧ forward c ≠ ∅ end.
Proof.
  intros run. split; [intros e He; unfold run, client_run_command; by rewrite pure_bind, He|].
  intros l o Hr. unfold run, client_run_command in Hr. effect_inv Hr. apply pure_inv in H4 as [-> Hc]. rename a into c.
  effect_inv Hr. apply op_inv in H4 as ->. effect_inv Hr. apply lift_inv in H4 as (lc & (any & Hany & ->)%client_new_ops & ->).
  effect_inv Hr. apply op_inv in H4 as ->. effect_inv Hr. exists c, any.
  apply forward_part in H4 as (entries & -> & He).
  exists entries. split_and!; try done.
  - intros m ->. unfold client_config in Hc. apply result_bind_inv in Hc as (c0 & _ & Hc). apply result_bind_inv in Hc as (u & _ & [= <-]). done.
  - destruct (is_empty (listen c)); cbn [negb] in Hr; effect_inv Hr; apply op_inv in H4 as ->; injection Hr as <- <-; by rewrite ?app_nil_r, ?fmap_app.
  - unfold client_config in Hc. apply result_bind_inv in Hc as (c0 & _ & Hc). apply result_bind_inv in Hc as ([] & Hv & [= E]). rewrite <-E in *.
    destruct (is_empty _) eqn:El; cbn [negb] in Hr; effect_inv Hr; injection Hr as _ <-.
    + assert (listen (set_fwmark c0 mark) = []) as Hl by (by destruct (listen (set_fwmark c0 mark))). split; [done|]. by apply client_has_work.
    + by intros Hl; rewrite Hl in El.
Qed.
End client_lemmas.

(** ** What a server runs, and the export of a client *)
Section server_lemmas.
Context `{JsonText, HashOrder, UuidParse} {CertifiedKey : Type}.

(** A server reads and checks its configuration, then makes its logs, its certificates and users, and only then listens. *)
Theorem server_runs read_to_string env_filter exists_ load quic_ok config level no_time try_op :
  let run := server_run_command read_to_string env_filter exists_ (CertifiedKey := CertifiedKey) load quic_ok config level no_time try_op in
  (∀ e, server_config read_to_string exists_ config = Err e → run = ([], Err e)) ∧
  ∀ l o, run = (l, Ok o) →
  ∃ c server, server_config read_to_string exists_ config = Ok c ∧ validate_for_server exists_ c = Ok tt ∧
    JuicityServer_new load quic_ok c = Ok server ∧ o = Ended ∧
    l = [MInitLogs (default (default (Config.log_level c) level) env_filter) (negb no_time); MServe (listen c)].
Proof.
  intros run. split; [intros e He; unfold run, server_run_command; by rewrite pure_bind, He|].
  intros l o Hr. unfold run, server_run_command in Hr. effect_inv Hr. apply pure_inv in H2 as [-> Hc].
  effect_inv Hr. apply op_inv in H2 as ->. effect_inv Hr. apply pure_inv in H2 as [-> Hs].
  effect_inv Hr. apply op_inv in H2 as ->. injection Hr as <- <-. exists a, a1. split_and!; try done.
  unfold server_config in Hc. apply result_bind_inv in Hc as (c0 & _ & Hc). by apply result_bind_inv in Hc as ([] & Hv & [= <-]).
Qed.
End server_lemmas.

(** The export of a client prints the link, its code, its file and the configuration, each if it is asked for, in this
    order; nothing else is done. *)
Theorem client_export_prints `{JsonText, HashOrder, FormSerializer} read_to_string config do_link qrcode png json try_op c link text :
  from_file read_to_string config = Ok c → generate_share_link c None None None = Ok link → to_client_json c = Ok text →
  (∀ o, try_op o = Ok tt) →
  client_export read_to_string config do_link qrcode png json try_op =
  ((if do_link then [MPrintln link] else []) ++ (if qrcode then [MPrintQrcode link] else []) ++
   (match png with Some path => [MSaveQrcodePng link path] | None => [] end) ++ (if json then [MPrintln text] else []), Ok Ended).
Proof.
  intros Hf Hg Hj Hop. unfold client_export, when. rewrite pure_bind, Hf.
  destruct do_link, qrcode, png as [path|], json; cbn; unfold mbind, effect_bind, pure, op; rewrite ?Hg, ?Hj; cbn; by rewrite ?Hop.
Qed.

(** ** How a server stops *)
Lemma serve_step_serving s l : l ≠ LShutdown → main s = MServing → main (serve_step s l) = MServing.
Proof. intros Hl Hm. unfold serve_step. rewrite Hm. destruct l; try done; cbn [label_worker]; by destruct (workers s !! w). Qed.

Lemma process_step_dead p l : is_Some (status p) → process_step p l = p.
Proof. intros [st Hst]. unfold process_step. by rewrite Hst. Qed.

(** How many signals have been sent. *)
Definition sent_signals (ls : list ProcessLabel) : nat := length (filter (λ l, match l with PSignal => true | _ => false end = true) ls).

Definition process_ok (k : nat) (p : Process) : Prop :=
  sys_ok (sys p) ∧
  match signals p with
  | SBefore | SFirst false => main (sys p) = MServing
  | SFirst true => main (sys p) = MServing ∧ (1 ≤ k)%nat
  | SSpawned | SSecond false => (1 ≤ k)%nat
  | SSecond true => (2 ≤ k)%nat
  end ∧
  match status p with
  | None => True
  | Some Killed => signals p = SBefore
  | Some (Code 0) => main (sys p) = MReturned
  | Some (Code n) => n = 130 ∧ (2 ≤ k)%nat
  end.

Lemma process_step_ok k p l : process_ok k p → process_ok (match l with PSignal => S k | _ => k end) (process_step p l).
Proof.
  destruct (status p) as [st|] eqn:Hst.
  - intros Hp. rewrite process_step_dead by eauto. revert Hp. unfold process_ok. rewrite Hst. intros (Hs & Hg & Hd).
    destruct l; [|by split_and!..]. split_and!; [done| |by destruct st as [|[|[]|]]; naive_solver lia].
    by destruct (signals p) as [|[]| |[]]; naive_solver lia.
  - unfold process_ok, process_step. rewrite Hst. intros (Hs & Hg & _). destruct p as [s g st]. cbn [sys signals status] in *. subst st.
    destruct l as [|l| | |].
    + destruct g as [|[]| |[]]; cbn; split_and!; naive_solver lia.
    + destruct l; try (by split_and!); cbn [sys signals status]; (split_and!; [by apply serve_step_ok| |done]);
        destruct g as [|[]| |[]]; rewrite ?serve_step_serving by naive_solver; naive_solver.
    + destruct g as [|[]| |[]]; cbn [sys signals status]; split_and!; try done; [by apply serve_step_ok|naive_solver].
    + destruct g as [|[]| |[]]; cbn [sys signals status]; split_and!; done || naive_solver lia.
    + destruct (main s) eqn:Hm; cbn [sys signals status]; rewrite ?Hm; split_and!; try done; naive_solver.
Qed.

Lemma process_run_ok n ls : process_ok (sent_signals ls) (process_run n ls).
Proof.
  unfold process_run. induction ls as [|l ls IH] using rev_ind.
  - split_and!; [apply (serve_run_ok n [])|done|done].
  - rewrite foldl_snoc. apply (process_step_ok _ _ l) in IH. unfold sent_signals. rewrite filter_app, length_app. fold (sent_signals ls).
    by destruct l; rewrite ?Nat.add_0_r, ?Nat.add_1_r.
Qed.

(** The process has ended, or its server satisfies [Q]. *)
Definition ended_or (Q : Sys → Prop) (p : Process) : Prop := is_Some (status p) ∨ Q (sys p).

Lemma process_step_sys p l : is_Some (status p) ∨ sys (process_step p l) = sys p ∨ ∃ l', sys (process_step p l) = serve_step (sys p) l'.
Proof.
  unfold process_step. destruct (status p); [by left; eauto|right]. destruct l as [|l| | |]; [| | | |].
  - by destruct (signals p); left.
  - destruct l; first [by left|right; eexists; reflexivity].
  - destruct (signals p) as [|[]| |]; try (by left). right. by exists LShutdown.
  - by destruct (signals p) as [| | |[]]; left.
  - by destruct (main (sys p)); left.
Qed.

Lemma ended_step p l : is_Some (status p) → is_Some (status (process_step p l)).
Proof. intros Hs. by rewrite process_step_dead. Qed.

Lemma ended_or_step Q p l : stable Q → ended_or Q p → ended_or Q (process_step p l).
Proof.
  intros HQ [Hs|Hq]; [left; by apply ended_step|]. destruct (process_step_sys p l) as [Hs|[E|[l' E]]]; [left; by apply ended_step| |]; right; rewrite E; auto.
Qed.
Lemma ended_or_run Q p ls : stable Q → ended_or Q p → ended_or Q (foldl process_step p ls).
Proof. intros HQ. apply foldl_invariant. intros p1 l. by apply ended_or_step. Qed.

Lemma ended_or_serve Q Q' p l : l ≠ LShutdown → (∀ s, Q s → Q' (serve_step s l)) → ended_or Q p → ended_or Q' (process_step p (PServe l)).
Proof.
  intros Hl HQ [Hs|Hq]; [left; by apply ended_step|]. unfold ended_or, process_step. destruct (status p) as [st|] eqn:E; [left; rewrite E; by eexists|right].
  by destruct l; try done; apply HQ.
Qed.

Definition process_elapsed (ls : list ProcessLabel) : Z := elapsed (omap (λ l, match l with PServe l => Some l | _ => None end) ls).

Lemma process_time t p ls : ended_or (λ s, t <= now s) p → ended_or (λ s, t + process_elapsed ls <= now s) (foldl process_step p ls).
Proof.
  revert t p. induction ls as [|l ls IH]; intros t p Hp; cbn [foldl].
  - destruct Hp as [?|Hp]; [by left|right]. unfold process_elapsed, elapsed. cbn. lia.
  - assert (∀ d, ended_or (λ s, t + d <= now s) (process_step p l) → process_elapsed (l :: ls) = d + process_elapsed ls →
      ended_or (λ s, t + process_elapsed (l :: ls) <= now s) (foldl process_step (process_step p l) ls)) as Hd.
    { intros d Hs Eq. apply IH in Hs as [?|Hs]; [by left|right]. cbn beta in Hs |- *. lia. }
    assert (stable (λ s, t <= now s)) as Hst by (intros s l0 Hs; rewrite serve_step_now; destruct l0; cbn; lia).
    destruct l as [|l| | |]; try (apply (Hd 0); [rewrite Z.add_0_r; by apply ended_or_step|done]).
    apply (Hd (ticks l)); [|done]. destruct l as [d| | | | | | | | | | | |]; try (cbn [ticks]; rewrite Z.add_0_r; by apply ended_or_step).
    eapply (ended_or_serve (λ s, t <= now s)); [done| |done]. intros s Hs. cbn. lia.
Qed.

(** The shutdown has been asked for, or is under way. *)
Definition shutting (s : Sys) : Prop := ∃ stop, stopping stop s ∧ stop <= now s + accept_stop_timeout.
Lemma shutting_stable : stable shutting.
Proof.
  intros s l (stop & Hs & Ht). exists stop. split; [by apply stopping_stable|]. rewrite serve_step_now. destruct l; cbn; lia.
Qed.

Definition asked (p : Process) : Prop := signals p = SFirst true ∧ main (sys p) = MServing ∨ ended_or shutting p.

Lemma asked_step p l : asked p → asked (process_step p l).
Proof.
  intros [[Hg Hm]|Hp]; [|right; apply ended_or_step; [apply shutting_stable|done]]. unfold asked, process_step. rewrite Hg, Hm.
  destruct (status p) eqn:Est; [left; by rewrite Hg, Hm|]. destruct l as [|l| | |].
  - left. by split.
  - assert (l = LShutdown ∨ l ≠ LShutdown) as [->|Hl] by (destruct l; auto); [left; by rewrite Hg, Hm|].
    left. pose proof (serve_step_serving (sys p) l Hl Hm) as Hs. by destruct l.
  - right. right. exists (now (sys p) + accept_stop_timeout). cbn [sys]. unfold serve_step. rewrite Hm. cbn. split; [by left|lia].
  - left. by rewrite Hg, Hm.
  - left. by rewrite Hg, Hm.
Qed.

Lemma asked_polled p : asked p → ended_or shutting (process_step p PShutdownPoll).
Proof.
  intros [[Hg Hm]|Hp]; [|apply ended_or_step; [apply shutting_stable|done]]. unfold ended_or, process_step. rewrite Hg.
  destruct (status p) eqn:Est; [left; rewrite Est; by eexists|]. right. exists (now (sys p) + accept_stop_timeout). cbn [sys]. unfold serve_step. rewrite Hm. cbn. split; [by left|lia].
Qed.

Definition joining_ok (n : nat) (s : Sys) : Prop := sys_ok s ∧ joining s ∧ length (workers s) = n.
Lemma joining_ok_stable n : stable (joining_ok n).
Proof. intros s l (? & ? & ?). split_and!; [by apply serve_step_ok|by apply joining_stable|by rewrite serve_step_length]. Qed.
Lemma sized_stable n : stable (λ s, sys_ok s ∧ length (workers s) = n).
Proof. intros s l [? ?]. split; [by apply serve_step_ok|by rewrite serve_step_length]. Qed.

Lemma ended_or_and Q1 Q2 p : ended_or Q1 p → ended_or Q2 p → ended_or (λ s, Q1 s ∧ Q2 s) p.
Proof. intros [?|?] [?|?]; [by left..|by right]. Qed.
Lemma ended_or_all {A} (P : A → Prop) (Q : A → Sys → Prop) p : (∀ i, P i → ended_or (Q i) p) → ended_or (λ s, ∀ i, P i → Q i s) p.
Proof. intros Hi. destruct (status p) as [st|] eqn:E; [left; rewrite E; by eexists|]. right. intros i Pi. destruct (Hi i Pi) as [[? ?]|?]; [congruence|done]. Qed.

(** After the signal and the poll of the future, the server ends. *)
Lemma process_ends n p l2 l3 l4 : sys_ok (sys p) → length (workers (sys p)) = n → ended_or shutting p →
  accept_stop_timeout <= process_elapsed l2 → (∀ i, (i < n)%nat → PServe (LCancelled i) ∈ l3) →
  is_Some (status (foldl process_step p (l2 ++ PServe LMainPoll :: l3 ++ PServe LJoined :: l4 ++ [PReturn]))).
Proof.
  intros Hok Hn Hp Ht Hc. rewrite foldl_app. set (p2 := foldl process_step p l2). cbn [foldl]. rewrite foldl_app. set (p3 := process_step p2 (PServe LMainPoll)).
  cbn [foldl]. rewrite foldl_app. set (p4 := foldl process_step p3 l3). set (p5 := process_step p4 (PServe LJoined)). cbn [foldl].
  assert (ended_or (λ s, sys_ok s ∧ length (workers s) = n) p2) as Hsz by (apply ended_or_run; [apply sized_stable|by right]).
  assert (ended_or (λ s, ∃ stop, stopping stop s ∧ stop <= now s) p2) as H2.
  { destruct Hp as [Hs|(stop & Hs & Hst)]; [left; by apply (foldl_invariant _ (λ p, is_Some (status p))); [intros ??; apply ended_step|]|].
    assert (ended_or (λ s, stopping stop s ∧ stop <= now s) p2) as [?|?]; [|by left|right; eauto]. apply ended_or_and; [apply ended_or_run; [apply stopping_stable|by right]|].
    destruct (process_time (now (sys p)) p l2) as [?|Htime]; [right; lia|by left|right]. cbn in Htime. fold p2 in Htime. lia. }
  assert (ended_or (joining_ok n) p3) as H3.
  { eapply (ended_or_serve (λ s, (sys_ok s ∧ length (workers s) = n) ∧ ∃ stop, stopping stop s ∧ stop <= now s)); [done| |by apply ended_or_and].
    intros s [[? ?] (stop & ? & ?)]. split_and!; [by apply serve_step_ok|by eapply main_poll_joins|by rewrite serve_step_length]. }
  assert (ended_or (λ s, joining_ok n s ∧ ∀ i, (i < n)%nat → done_at i s) p4) as H4.
  { apply ended_or_and; [apply ended_or_run; [apply joining_ok_stable|done]|]. apply ended_or_all. intros i Hi. destruct (elem_split_run _ _ (Hc i Hi)) as (a & b & E).
    unfold p4. rewrite E, foldl_app. cbn [foldl]. apply ended_or_run; [apply done_stable|]. eapply (ended_or_serve (joining_ok n)); [done| |].
    - intros s (? & ? & Hl). apply cancelled_done; [done|done|by rewrite Hl].
    - apply ended_or_run; [apply joining_ok_stable|done]. }
  assert (ended_or (λ s, main s = MReturned) p5) as H5.
  { eapply (ended_or_serve _ (λ s, main s = MReturned)); [done| |exact H4]. intros s [(? & ? & Hl) Hd]. apply joined_returns; [done|]. intros i. rewrite Hl. apply Hd. }
  destruct (ended_or_run _ p5 l4 returned_stable H5) as [Hs|Hm]; cbn [foldl]; [by apply ended_step|].
  set (q := foldl process_step p5 l4) in *. clearbody q. unfold process_step. destruct (status q) as [st|] eqn:E; [rewrite E; by eexists|]. rewrite Hm. by eexists.
Qed.

Lemma process_run_length p ls : length (workers (sys (foldl process_step p ls))) = length (workers (sys p)).
Proof.
  revert p. induction ls as [|l ls IH]; intros p; [done|]. cbn [foldl]. rewrite IH.
  destruct (process_step_sys p l) as [Hs|[->|[l' ->]]]; [by rewrite process_step_dead|done|apply serve_step_length].
Qed.

(** A process whose listener was in place is not killed. *)
Lemma signals_past p l : signals p ≠ SBefore → signals (process_step p l) ≠ SBefore.
Proof.
  unfold process_step. destruct (status p); [done|]. intros Hg. destruct l as [|l| | |].
  - destruct (signals p) eqn:E; try done; by rewrite E.
  - by destruct l.
  - destruct (signals p) as [|[]| |] eqn:E; try done; by rewrite E.
  - destruct (signals p) as [| | |[]] eqn:E; try done; by rewrite E.
  - by destruct (main (sys p)).
Qed.
Lemma ended_code k p : process_ok k p → signals p ≠ SBefore → is_Some (status p) → status p = Some (Code 0) ∨ status p = Some (Code 130).
Proof.
  intros (_ & _ & Hd) Hg [st E]. rewrite E in *. destruct st as [|[|c|c]]; [done|by left|..]; destruct Hd as [Hc _]; right; by rewrite Hc.
Qed.

(** C27: under every schedule a server that ends with status 0 was asked to by a signal and every handler of it has ended or was
    told to stop, and one that ends with status 130 got two.  Once the first listener is in place a signal makes the
    process end, whatever else happens in between: after the poll of the future, three seconds, the next poll of the main
    task, the drop of the aborted workers, the join and the return.  Once the second listener is in place another signal
    ends it at the next poll of its task.  A signal after the first one and before that listener is in place does
    nothing. *)
Theorem signals_stop_server n ls :
  let p := process_run n ls in
  (status p = Some (Code 0) → (1 ≤ sent_signals ls)%nat ∧ running (sys p) = []) ∧
  (status p = Some (Code 130) → (2 ≤ sent_signals ls)%nat) ∧
  (∀ b l1 l2 l3 l4, status p = None → signals p = SFirst b → accept_stop_timeout <= process_elapsed l2 →
    (∀ i, (i < n)%nat → PServe (LCancelled i) ∈ l3) →
    let p' := foldl process_step p (PSignal :: l1 ++ PShutdownPoll :: l2 ++ PServe LMainPoll :: l3 ++ PServe LJoined :: l4 ++ [PReturn]) in
    status p' = Some (Code 0) ∨ status p' = Some (Code 130)) ∧
  (∀ b l1, status p = None → signals p = SSecond b →
    let p' := foldl process_step p (PSignal :: l1 ++ [PTaskPoll]) in status p' = Some (Code 0) ∨ status p' = Some (Code 130)) ∧
  (signals p = SSpawned → process_step p PSignal = p).
Proof.
  intros p. pose proof (process_run_ok n ls) as Hok. fold p in Hok. pose proof Hok as (Hsok & Hg & Hd). split_and!.
  - intros E. rewrite E in Hd. cbn in Hd. split; [|by apply returned_running].
    rewrite Hd in Hg. by destruct (signals p) as [|[]| |[]]; naive_solver lia.
  - intros E. rewrite E in Hd. cbn in Hd. tauto.
  - intros b l1 l2 l3 l4 Es Eg Ht Hc p'. assert (signals p ≠ SBefore) as Hpast by by rewrite Eg.
    apply (ended_code (sent_signals (ls ++ PSignal :: l1 ++ PShutdownPoll :: l2 ++ PServe LMainPoll :: l3 ++ PServe LJoined :: l4 ++ [PReturn]))).
    + unfold p', p, process_run. rewrite <-foldl_app. apply process_run_ok.
    + unfold p'. apply (foldl_invariant _ (λ p, signals p ≠ SBefore)); [intros ??; apply signals_past|done].
    + assert (main (sys p) = MServing) as Hms by (rewrite Eg in Hg; destruct b; [apply Hg|exact Hg]).
      assert (asked (process_step p PSignal)) as Ha by (left; unfold process_step; rewrite Es, Eg; done).
      assert (asked (foldl process_step (process_step p PSignal) l1)) as Ha1 by (apply (foldl_invariant _ asked); [intros ??; apply asked_step|done]).
      unfold p'. cbn [foldl]. rewrite foldl_app. cbn [foldl]. apply (process_ends n).
      * pose proof (process_run_ok n (ls ++ PSignal :: l1 ++ [PShutdownPoll])) as [Hr _]. unfold process_run in Hr. rewrite foldl_app in Hr.
        cbn [foldl] in Hr. rewrite foldl_app in Hr. exact Hr.
      * assert (process_step (foldl process_step (process_step p PSignal) l1) PShutdownPoll = foldl process_step p (PSignal :: l1 ++ [PShutdownPoll])) as ->
          by (cbn [foldl]; by rewrite foldl_app).
        rewrite process_run_length. unfold p, process_run. rewrite process_run_length. apply length_replicate.
      * by apply asked_polled.
      * done.
      * done.
  - intros b l1 Es Eg p'. apply (ended_code (sent_signals (ls ++ PSignal :: l1 ++ [PTaskPoll]))).
    + unfold p', p, process_run. rewrite <-foldl_app. apply process_run_ok.
    + unfold p'. apply (foldl_invariant _ (λ p, signals p ≠ SBefore)); [intros ??; apply signals_past|by rewrite Eg].
    + unfold p'. cbn [foldl]. rewrite foldl_app. cbn [foldl].
      assert (let q := foldl process_step (process_step p PSignal) l1 in is_Some (status q) ∨ signals q = SSecond true) as [Hq|Hq].
      { apply (foldl_invariant _ (λ q, is_Some (status q) ∨ signals q = SSecond true)).
        - intros q l [Hq|Hq]; [left; by apply ended_step|]. unfold process_step. destruct (status q) eqn:E; [left; rewrite E; by eexists|]. rewrite Hq.
          destruct l as [|l| | |]; [by right|by destruct l; right|by right|left; by eexists|]. destruct (main (sys q)); [by right..|left; by eexists].
        - right. unfold process_step. by rewrite Es, Eg. }
      * by apply ended_step.
      * set (q := foldl process_step (process_step p PSignal) l1) in *. clearbody q. unfold process_step. destruct (status q) as [st|] eqn:E; [rewrite E; by eexists|].
        rewrite Hq. by eexists.
  - intros E. unfold process_step. rewrite E. by destruct (status p).
Qed.

(** ** Concrete runs *)

(** The listeners of the second signal are made when the spawned task is polled; a signal before that is lost. *)
Lemma second_signal_lost :
  let p := process_run 1 [PShutdownPoll; PServe (LIncoming 0); PServe (LAcquired 0); PSignal; PShutdownPoll; PSignal; PTaskPoll; PTaskPoll] in
  status p = None ∧ signals p = SSecond false ∧ running (sys p) = [0%nat].
Proof. by vm_compute. Qed.

(** A connection is open: the first signal ends the server after the shutdown, and a second one at once. *)
Lemma signals_stop_server_witness :
  let serving := [PShutdownPoll; PServe (LIncoming 0); PServe (LAcquired 0)] in
  let p := process_run 1 (serving ++ [PSignal; PShutdownPoll; PTaskPoll]) in
  running (sys p) = [0%nat] ∧
  (status (foldl process_step p [PSignal; PTaskPoll]) = Some (Code 0) ∨ status (foldl process_step p [PSignal; PTaskPoll]) = Some (Code 130)) ∧
  let q := process_run 1 serving in
  let q' := foldl process_step q (PSignal :: [PTaskPoll] ++ PShutdownPoll :: [PServe (LTick 2000); PServe (LShutdownSeen 0); PServe (LTick 1500)] ++
    PServe LMainPoll :: [PServe (LCancelled 0)] ++ PServe LJoined :: [] ++ [PReturn]) in
  status q' = Some (Code 0) ∨ status q' = Some (Code 130).
Proof.
  intros serving p. split; [by vm_compute|]. split.
  - destruct (signals_stop_server 1 (serving ++ [PSignal; PShutdownPoll; PTaskPoll])) as (_ & _ & _ & Hs & _). apply (Hs false []); by vm_compute.
  - destruct (signals_stop_server 1 serving) as (_ & _ & Hs & _).
    apply (Hs false [PTaskPoll] [PServe (LTick 2000); PServe (LShutdownSeen 0); PServe (LTick 1500)] [PServe (LCancelled 0)] []); [by vm_compute..|].
    intros [|i] Hi; [by left|lia].
Defined.

Module MainSample.
Definition config : Config :=
  mkConfig (B "127.0.0.1:443") (B "user") (B "secret") [] false [] [] {[B "127.0.0.1:80/tcp" := B "a.b:80"]} None ∅ [] [] [] [] false []
    (B "bbr") (B "info") None None None None.
#[export] Instance json : JsonText := {| to_string_pretty _ := Err EUtf8; from_str _ := Ok (JObject (client_map config)) |}.
#[export] Program Instance order : HashOrder := { hm_iter m := map_to_list m }.
Next Obligation. done. Qed.
End MainSample.
#[local] Existing Instances MainSample.json MainSample.order Client.Toy.uuid_parse Client.Toy.base64 Client.Toy.hex.

(** A client that only forwards, with a mark from its flag. *)
Lemma client_runs_witness :
  ∃ any entries, parse_socket_addr (B "[::]:0") = Some any ∧ length entries = 1%nat ∧
  client_run_command (λ _, Ok []) None true (B "c.json") None (Some 7) false (λ _, Ok tt) =
  ([MInitLogs (B "info") true; MClient ONewSocket; MClient (OSetOnlyV6 false); MClient (OSetMark 7); MClient (OBind any); MClient ORuntime;
    MClient OWrapSocket; MClient OEndpoint; MClient OQuicConfig; MPreconnect; MForwarder entries; MPending], Ok Waits).
Proof.
  destruct (client_run_command (λ _, Ok []) None true (B "c.json") None (Some 7) false (λ _, Ok tt)) as [l [o|e]] eqn:E; [|by vm_compute in E].
  destruct (proj2 (client_runs (λ _, Ok []) None true (B "c.json") None (Some 7) false (λ _, Ok tt)) l o E) as (c & any & entries & Hc & Hm & Hany & He & -> & Ho).
  exists any, entries. split; [done|]. assert (client_config (λ _, Ok []) (B "c.json") (Some 7) = Ok (set_fwmark MainSample.config (Some 7))) as Hc' by (by vm_compute).
  rewrite Hc' in Hc. apply Ok_inj in Hc as <-. clear E Hc'.
  destruct o; [by destruct Ho|]. destruct (He (map_non_empty_singleton _ _)) as [_ Hn]. split; [rewrite Hn; by vm_compute|]. by vm_compute.
Defined.
