(* ===== verification/Instance.v ===== *)
(** * [gui/src/desktop/single_instance.rs] on Windows: the mutex and the pipe

    The first instance holds a mutex and serves a pipe; a second one finds the mutex, opens the pipe and asks for the window.
    The answers of the system's calls are labels of the server's rounds, and a function of the time for the client, whose
    attempts take time.  Times are milliseconds. *)
From S2P Require Import Prelude Std Desktop.
#[local] Open Scope Z_scope.
Import SingleInstance.

Module Windows.
Definition MUTEX_NAME : str := B "Local\io.juicity.gui".
Definition pipe_name (session : Z) : str := B "\\.\pipe\io.juicity.gui-" ++ show_dec session.

(** What the system answers to the creation of the mutex. *)
Inductive MutexReply := NullHandle (err : str) | AlreadyExists | Created.

(** The claim, whether there is a guard, and whether the listener runs. *)
Definition claim (reply : MutexReply) (spawned : bool) : (Claim + str) * bool * bool :=
  match reply with
  | NullHandle err => (inr (B "could not create " ++ MUTEX_NAME ++ B ": " ++ err), false, false)
  | AlreadyExists => (inl Taken, false, false)
  | Created => (inl Acquired, true, spawned)
  end.

(** ** The listener *)

(** A round of [serve]: the pipe is not created, no client connects, or one does and a thread reads from it. *)
Inductive Round := CreateFailed | NotConnected | Connected (spawned : bool) (read : option str).

(** [slept] is the time spent in backoffs, [activations] the calls of [on_activate]. *)
Record Listener := mkListener { backoff : Z; slept : Z; activations : nat }.
Definition Listener_new : Listener := mkListener 100 0 0.

(** The buffer has 64 bytes. *)
Definition client_thread (read : option str) : bool :=
  match read with Some buffer => is_activate (take 64 buffer) | None => false end.

Definition serve_round (s : Listener) (r : Round) : Listener :=
  match r with
  | CreateFailed => mkListener (Z.min (backoff s * 2) 5000) (slept s + backoff s) (activations s)
  | NotConnected => mkListener 100 (slept s) (activations s)
  | Connected spawned read =>
      mkListener 100 (slept s) (if spawned && client_thread read then S (activations s) else activations s)
  end.
Definition serve (rs : list Round) : Listener := foldl serve_round Listener_new rs.

(** ** The second instance *)

(** An attempt to open the pipe: it is open and the message is written, it is busy for a while, or it is missing. *)
Inductive OpenReply := Opened (written : result unit) | PipeBusy (waited : Z) | Missing.

Fixpoint try_open (n : nat) (name : str) (now : Z) (reply : Z → OpenReply) : Z * result unit :=
  match n with
  | O => (now, Err (EMsg (B "no answer on " ++ name)))
  | S n =>
      match reply now with
      | Opened written => (now, written)
      | PipeBusy waited => try_open n name (now + waited) reply
      | Missing => try_open n name (now + 100) reply
      end
  end.
Definition activate_existing (session now : Z) (reply : Z → OpenReply) : Z * result unit :=
  try_open 20 (pipe_name session) now reply.

(** [acquire]: the guard is kept by a primary instance; a secondary one has asked the other, which answered or not. *)
Definition acquire (claimed : (Claim + str) * bool) (activated : result unit) : Startup :=
  let '(c, guard) := claimed in
  match decide_ (match c with inl c => c | inr _ => Unavailable end) with
  | ActivateExisting => SSecondary (is_ok activated)
  | Primary | Unguarded => SPrimary guard
  end.
End Windows.
Import Windows.

(** ** The backoff *)
Lemma serve_snoc rs r : serve (rs ++ [r]) = serve_round (serve rs) r.
Proof. unfold serve. by rewrite foldl_snoc. Qed.

Lemma backoff_range rs : 100 <= backoff (serve rs) <= 5000.
Proof.
  induction rs as [|r rs IH] using rev_ind; [by cbn|]. rewrite serve_snoc. destruct r as [| |sp rd]; cbn; lia.
Qed.

(** After [k] failures in a row the next wait is a hundred milliseconds doubled [k] times, at most five seconds, and any
    pipe that is created starts over. *)
Theorem backoff_doubles rs r k : r ≠ CreateFailed →
  backoff (serve (rs ++ r :: replicate k CreateFailed)) = Z.min (100 * 2 ^ Z.of_nat k) 5000 ∧
  backoff (serve (replicate k CreateFailed)) = Z.min (100 * 2 ^ Z.of_nat k) 5000.
Proof.
  intros Hr.
  assert (∀ s, backoff s = 100 → backoff (foldl serve_round s (replicate k CreateFailed)) = Z.min (100 * 2 ^ Z.of_nat k) 5000) as Hk.
  { intros s Hs. induction k as [|k IH]; [exact Hs|]. rewrite replicate_S_end, foldl_snoc. cbn [serve_round backoff]. rewrite IH.
    rewrite Nat2Z.inj_succ, Z.pow_succ_r by lia. lia. }
  split; [|by apply Hk]. unfold serve. rewrite foldl_app. cbn [foldl]. apply Hk. by destruct r.
Qed.

(** ** Asking the first instance *)
Definition listening_from (from : Z) (t : Z) : OpenReply := if from <=? t then Opened (Ok tt) else Missing.

Lemma try_open_listening n name now from :
  (try_open n name now (listening_from from)).2 =
  if decide (n ≠ O ∧ from <= now + 100 * (Z.of_nat n - 1)) then Ok tt else Err (EMsg (B "no answer on " ++ name)).
Proof.
  revert now. induction n as [|n IH]; intros now; [by rewrite decide_False by (intros [[] _]; done)|]. cbn [try_open]. unfold listening_from at 1.
  destruct (Z.leb_spec from now) as [Hf|Hf]; [by rewrite decide_True by (split; [done|lia])|]. rewrite IH.
  destruct n as [|n]; [by rewrite !decide_False by (intros [? ?]; first [done | lia])|].
  apply decide_ext. split; intros [_ H]; (split; [done|]); lia.
Qed.

Lemma try_open_time n name now reply : (∀ t w, reply t = PipeBusy w → 0 <= w <= 500) →
  now <= (try_open n name now reply).1 <= now + 500 * Z.of_nat n.
Proof.
  intros Hw. revert now. induction n as [|n IH]; intros now; cbn [try_open]; [cbn; lia|].
  destruct (reply now) as [w|w|] eqn:E; [cbn; lia| |].
  - specialize (Hw _ _ E). specialize (IH (now + w)). lia.
  - specialize (IH (now + 100)). lia.
Qed.

Lemma is_ok_if (P : Prop) `{!stdpp.base.Decision P} (e : error) : is_ok (if decide P then Ok tt else Err e) = bool_decide P.
Proof. by case_decide; case_bool_decide. Qed.

(** A second instance asks the first and goes, whatever the first answers; it is heard exactly when the pipe is there within
    1.9 seconds, and gives up after ten at most.  A first instance that starts at the same time and cannot create its pipe is
    still heard after four failures, which is 1.5 seconds, and no longer after five.  The message it reads shows the window
    once. *)
Theorem second_instance_asks session now reply spawned :
  (∀ from, (Windows.acquire (claim AlreadyExists spawned).1 (activate_existing session now (listening_from from)).2) = SSecondary (bool_decide (from <= now + 1900))) ∧
  ((∀ t w, reply t = PipeBusy w → 0 <= w <= 500) → (activate_existing session now reply).1 <= now + 10000) ∧
  (∀ k, (k ≤ 6)%nat → (activate_existing session now (listening_from (now + slept (serve (replicate k CreateFailed))))).2 = Ok tt ↔ (k ≤ 4)%nat) ∧
  ∀ rs, activations (serve (rs ++ [Connected true (Some ACTIVATE_MESSAGE)])) = S (activations (serve rs)).
Proof.
  split_and!.
  - intros from. unfold Windows.acquire, claim. cbn [fst decide_]. unfold activate_existing. rewrite try_open_listening, is_ok_if. f_equal.
    apply bool_decide_ext. split; [intros [_ H]; lia|intros H; split; [discriminate|lia]].
  - intros Hw. pose proof (try_open_time 20 (pipe_name session) now reply Hw). unfold activate_existing. lia.
  - intros k Hk. unfold activate_existing. rewrite try_open_listening.
    assert (slept (serve (replicate k CreateFailed)) <= 1900 ↔ (k ≤ 4)%nat) as <-.
    { do 7 (destruct k as [|k]; [vm_compute; split; intros; (lia || done || congruence)|]). lia. }
    generalize (slept (serve (replicate k CreateFailed))). intros z. case_decide as Hd; split; intros Hz; [lia|reflexivity|discriminate Hz|].
    exfalso. apply Hd. split; [discriminate|lia].
  - intros rs. rewrite serve_snoc. reflexivity.
Qed.
